(* ===== verification/_CoqProject ===== *)
-Q . S2P
Prelude.v
Endian.v
ByteBuffer.v
ProtocolStream.v
Timers.v
Poller.v
TcpConnection.v
EventLoop.v
TcpServer.v
Lifetime.v
Reactor.v
Delivery.v
DefaultCallbacks.v
TimedLoop.v
UserManager.v
StringUtil.v
InetAddress.v
HttpSession.v
Registration.v
Logger.v
Posix.v
Sockets.v
NetServer.v
ThreadPool.v
ConnPool.v
SessionPool.v
TcpSession.v
Messages.v
Regex.v
UserDao.v
UserService.v
ZlibStream.v
Config.v
Startup.v
Singleton.v
HttpServer.v
