(* ===== verification/Prelude.v ===== *)
(** * Verification of the talko (Whisp) chat server

    The C++ server under [src/server/src] is a reactor in the style of muduo with a chat
    service on top. A [TcpServer] accepts connections on the loop of the main thread and
    hands each to one of a pool of event loops; a loop waits in its [EpollPoller], calls the
    handlers of the active [Channel]s, runs due timers and the functors other threads have
    queued; a [TcpConnection] moves bytes between its descriptor and two [ByteBuffer]s and
    reports to callbacks. Sessions cut the bytes into HTTP requests or compressed binary
    packets and call the [UserManager], a cache of users, groups and friendships in front of
    a MySQL database. A logger with a writer thread, a thread pool and two pools of database
    connections serve all of them; [main] reads a YAML configuration and sets them up. Beside
    this stand a second registration service over JSON and a table of users, and a small
    server of its own on epoll.

    ** Files

    Paths are relative to [src/server/src].

    - [Prelude] (this file): outcomes of C++ code, machine integers, lists indexed by [Z],
      byte strings, decimal numbers and text search, and the tactics and hints
      all files use.
    - [Endian]: [network/inet_endian.h].
    - [ByteBuffer]: [network/byte_buffer.h/.cpp]. The vector and its two indices are the
      record [ByteBuffer]; [Spec] is the byte queue the class promises.
    - [ProtocolStream]: [network/protocol_stream.h/.cpp]. Checksum, 7-bit integers, packet
      reader and writer.
    - [Timers]: [common/whisp_timestamp.h/.cpp], [network/timer.h/.cpp], [timer_id.h],
      [timer_queue.h/.cpp]. Timers live in a heap of addresses; the queue is a sorted set of
      (expiration, address).
    - [Poller]: [network/channel.h/.cpp], [poller.h/.cpp], [epoll_poller.h/.cpp]. Channels in
      a heap shared with the poller, next to the interest set of the kernel.
    - [TcpConnection]: [network/tcp_connect.h/.cpp], over the interface [ChannelOps] with
      the laws [ChannelContract], which the poller's channel operations satisfy
      ([epoll_channel_contract]).
    - [EventLoop]: [network/event_loop.h/.cpp] as a step relation of the loop thread and any
      other threads.
    - [TcpServer]: [network/tcp_server.h/.cpp], [event_loop_thread.h/.cpp],
      [event_loop_threadpool.h/.cpp], [acceptor.h/.cpp].
    - [Lifetime]: the server, its connections and the functors that wait in their loops as one
      system, with the owners of every connection object; on top of [TcpServer] and
      [TcpConnection].
    - [Reactor]: [EventLoop::loop] with its poller and any number of connections on it as one
      system, users' callbacks included; on top of [Poller], [TcpConnection] and [Lifetime].
      The class [KernelKeeps] says what of the poller an epoll instance preserves, the class
      [Policy] what of a connection users preserve who restrict what they call.
    - [Delivery]: the output of a connection drained over turns of the reactor.
    - [DefaultCallbacks]: the callbacks of [network/tcp_connect.cpp] for a server on which none
      is set, as the users of a [Reactor]; an instance of [Policy].
    - [TimedLoop]: the whole iteration of the loop, with the reactor as the world of the timer
      queue of [Timers].
    - [UserManager]: [service/user_manager.h/.cpp].
    - [StringUtil]: [common/stringutil.h/.cpp].
    - [InetAddress]: [network/inet_address.h/.cpp] and the address conversions of
      [network/w_sockets.cpp], on top of [Endian] and [StringUtil].
    - [HttpSession]: [service/chat/http_session.h/.cpp], [service/bussiness_logic.h/.cpp],
      on top of [StringUtil], [TcpConnection] and [UserManager].
    - [Registration]: [register_user] and [addUser] cut into the steps at which other workers
      can come between, on top of [UserManager] and [HttpSession].
    - [Logger]: [log/whisp_log.h/.cpp].
    - [Posix]: system calls. The system's answer to a call is any function of the history; code
      that makes calls is a computation in the monad [io]; the table of descriptors is
      computed from the history.
    - [Sockets]: the rest of [network/w_sockets.h/.cpp], and the descriptors of [acceptor.cpp],
      [event_loop.cpp] and [epoll_poller.cpp], over [Posix].
    - [NetServer]: [service/net_server.h/.cpp], over [Posix].
    - [ThreadPool]: [service/whisp_thread_pool.h/.cpp].
    - [ConnPool]: [database/whisp_mysqlconn_pool.h/.cpp].
    - [SessionPool]: [database/db_mysqlconn_pool.h].
    - [TcpSession]: [network/tcp_session.h/.cpp], [compressBuf] and [uncompressBuf] of
      [common/zlibutil.cpp], the header of [common/msg.h], on top of [ProtocolStream] and
      [TcpConnection].
    - [Messages]: the enumerations of [common/msg.h] with the values C++ gives them (class
      [CEnum]), on top of [TcpSession].
    - [ZlibStream]: [deflate] and [inflate] of [common/zlibutil.cpp].
    - [Regex]: regular expressions and a matcher by derivatives, for [std::regex_match].
    - [UserDao]: [database/db_user_info.h/.cpp].
    - [UserService]: [service/register/login_register_server.h/.cpp], on top of [Regex] and
      [UserDao].
    - [Config]: [config/parse_config.h/.cpp].
    - [Startup]: [main.cpp], [util/daemon_run.cpp], [database/whisp_sqlconn_factory.h], on top of
      [Posix], [ConnPool] and [Config].
    - [Singleton]: [common/singleton.h] and [WhispDB::get_instance] of [database/whisp_db.h].
    - [HttpServer]: [service/chat/http_server.h/.cpp], on top of [InetAddress], [TcpServer] and
      [DefaultCallbacks].

    ** Conventions

    - The target is x86_64 Linux: little-endian, 64-bit [size_t] and [int64_t], the branches
      of [#ifdef WIN32] left out (one theorem of [TcpSession] compares the two widths of
      [uLongf]).
    - Integers are [Z]. Unsigned arithmetic wraps ([u8] to [u64], [⊕] and [⊖] on [size_t]);
      signed arithmetic that overflows is a fault where the sources can reach it.
    - A definition that can throw or reach undefined behaviour returns an [outcome]: a value
      or a [fault]. "Runs" in a theorem therefore means: without exception, out-of-bounds
      access, dangling or null pointer.
    - Pointers are addresses ([Z]) into a map of live objects, iterators the entries they
      refer to, null is [None].
    - Answers of system calls, clocks and allocators are arguments of the operations that ask
      for them, or come from the system of [Posix]; theorems quantify over them. Log output is
      left out, except for the level of the lines in the files over [Posix].
    - Threads are steps of a relation: one step is one critical section, or one action
      between two.

    Code outside the repository is a parameter with its documented behaviour as a class, and
    an instance shows that the class can be inhabited: [EpollCtl], and [EpollWorks] for an
    instance that does not run out of resources ([Poller], [epoll_ideal]), [Database] ([UserManager]), [HttpCodecs] ([HttpSession]: jsoncpp and the URL decoder),
    [Zlib] with [ZlibContract] ([TcpSession]), [ZStream] with [ZStreamContract]
    ([ZlibStream]), the MySQL client ([ConnPool]), [XDevApi] with [TableContract] ([UserDao]),
    [JsonLib] and [DatabaseManager] ([UserService]), [YamlLib] ([Config]), [localtime] and the
    text of a double. Of the operating system [FreshFds] ([Posix]: a new descriptor was not
    open) and [EpollSystem] ([NetServer]) are assumed. The C library's [inet_ntop], [inet_pton],
    [snprintf], [getopt] and [std::stoi] are defined.

    ** What the theorems show

    - [ByteBuffer]: the buffer refines a byte queue under every sequence of operations,
      integers round-trip in network order, the eight reserved bytes always suffice for a
      header, [bb_shrink] and [bb_find_CLRF] do what they promise, and what [bb_read_fd]
      really delivers.
    - [ProtocolStream]: checksums verify (up to 131070 bytes), 7-bit integers and whole packets
      round-trip, which packets of a hostile peer make the reader leave the packet, and that
      the reader is a parser of the grammar [Grammar] on any bytes.
    - [Timers]: the invariant of the queue under callbacks that change it; one pass ends and
      runs the due leading timers; repeat counts; starvation behind a periodic timer.
    - [Poller]: no event reaches a freed channel; the kernel's interest set is the one the
      channels ask for.
    - [TcpConnection]: the bytes on the wire and in the output buffer are the bytes sent, in
      order; callbacks come in the order of the connection's life; destruction and the
      poller.
    - [EventLoop]: queued functors run once, in order; no wakeup is lost; one turn runs what
      was queued before it.
    - [TcpServer]: round robin, unique connection names, what [stop] leaves behind, and the
      reserve descriptor of the acceptor.
    - [Lifetime]: until [TcpServer::stop], no connection is used after it was deleted and every
      closed connection is released, in every interleaving in which [send] from another thread
      is one step and users call through pointers they hold; the interleaving that breaks
      this when [send] is two steps, and one with [stop].
    - [Reactor], [TimedLoop]: until [TcpServer::stop], no turn and no iteration of a loop uses an
      object that does not exist or leaves a connection with bytes to write unwatched, whatever
      kernel and peers do and whatever callbacks call on existing connections, unless a
      functor bound to a bare [this] waits for a deleted connection; passes over the timers end
      although callbacks add timers (for later; no callback removes its own timer).
    - [Delivery]: buffered bytes reach the kernel over turns that report the connection writable,
      while its write-complete callback calls nothing, and a shutdown waits for them.
    - [DefaultCallbacks], [HttpServer]: the HTTP listener, which leaves the default callbacks in
      place, never sends a byte and drops every byte it receives.
    - [InetAddress], [Sockets], [HttpServer] (names): address texts fit their arrays and determine their
      addresses, which discharges the bound the connection names rely on; what setting up an
      acceptor asks of the system, and that functions named [_or_die] go on; an acceptor
      gives its descriptors back, and a loop leaks its epoll instance.
    - [NetServer]: which descriptors are open over any number of rounds, what the destructor
      leaks, and what a failed constructor leads to.
    - [UserDao], [UserService]: rows of the user table through insertion, update and deletion,
      for any conversion the columns make; what every text that is sent as a registration
      comes to, with the regular expressions as conditions on characters.
    - [Config], [Startup]: what is loaded from which file and where an exception leaves it; the
      exit code of [main] or its end in [std::terminate], by the system's answers and with or
      without the daemon option; the daemon's descriptors.
    - [Singleton]: one object with the lock, and two without it.
    - [UserManager]: friendship is symmetric, add and delete are inverse, ids are unique under
      any sequence of operations of one thread, an operation that answers false has left the
      cache alone, and what the release of a friendship misses.
    - [Registration]: what registrations by any number of workers keep in every interleaving,
      when ids and names stay distinct, and the interleaving in which they do not.
    - [StringUtil], [HttpSession]: splitting and replacing, every route of a request from its
      bytes to the bytes of its response, registration, and that requests of up to 1024 bytes never reach
      their session because of what [bb_read_fd] delivers.
    - [Messages]: every type of message that is sent is recognised by its reader; which command
      the documentation gets wrong.
    - [Logger], [ThreadPool], [ConnPool], [SessionPool], [TcpSession], [ZlibStream]: accepted
      lines (below FATAL) go to the files in order, and which are lost with a file name that
      is used again, every accepted task runs once, every connection is lent to one
      client at a time, when the filling of a pool ends, every sent message can be read back,
      and when a compressed stream is recovered.

    ** Bounds and fuel

    Recursion is structural wherever the loop consumes its data. The rest: [fold_carries]
    runs three rounds, enough for any 32-bit sum ([checksum_verifies] includes it); the 7-bit
    writers have 5 and 10 rounds, which write every bit of a 32- and a 64-bit value
    ([seven_bit_roundtrip]), and their readers consume the
    bytes they are given; [do_timer] has one round for each entry of the set, and
    [do_timer_runs_due_prefix] and, for callbacks that change the set, [loop_iteration_safe]
    (one round more) prove that it ends; [buffered_bytes_delivered] needs at most one turn for
    each byte; [split] and [replace] end within the
    length of the text plus one rounds unless the delimiter is empty
    ([split_replace_pieces]); the dump of the logger takes the length of the data plus one;
    [deflate] and [inflate] take one round for each block of 8192 bytes of output and one more
    ([stream_roundtrip]); [Init] of [SessionPool] ends exactly when enough of the attempts that
    its fuel allows have succeeded ([init_termination]); [start] of [NetServer] is followed for
    any number of rounds.

    ** Not modelled

    - The console output of [main] and log texts; the branches for Windows.
    - [whisp_db.cpp] and the members of [WhispDB] behind [get_instance], which use a pool class
      that is declared nowhere; [demo.cpp]; headers that hold type names or declarations
      without bodies ([net_callback.h], [platform.h], [urlencode_util.h]).
    - The overload of [TcpSession::send] for strings, which calls an overload that does not exist;
      [HttpServer::on_disconnected], which is declared and not defined.
    - Sessions of the HTTP listener inside [Reactor]: [init] registers no callback, so none is
      ever made ([http_server_silent]). A session on its connection is in [HttpSession].
    - The logger's thread under [Startup]: there the logger is whether its thread is joinable;
      its thread with those that log is in [Logger].
    - Log lines of level FATAL in the runs of [Logger]: the thread that logs one writes it to the
      file itself.
    - [TcpServer::stop] in the histories of [Reactor] and [Lifetime] (it is a step of [sys_step],
      and what it does to the server is in [TcpServer]): it destroys connections that are
      still open.
    - Memory orders weaker than sequential consistency.

    Operations on timers from the callbacks of connections touch nothing that the rest of a
    turn touches, so [TimedLoop] has them as steps of their own, behind the turn. *)

From Stdlib Require Export ZArith Lia.
From Stdlib Require Export Strings.Byte.
From stdpp Require Export base list numbers option strings gmap.
From stdpp Require Import tactics.

#[export] Set Default Goal Selector "!".

Open Scope Z_scope.

(** ** Outcomes of C++ code

    A computation either returns ([Ok]) or stops with a [fault]: a C++ exception that
    leaves the function, or undefined behaviour that the source reaches. *)
Inductive fault :=
| OutOfBounds    (* read or write outside the object a pointer refers to *)
| BadShift       (* shift count not smaller than the operand's width *)
| NullDeref      (* use of a null pointer *)
| OutOfRange     (* std::out_of_range *)
| LengthError    (* std::length_error *)
| RuntimeError   (* std::runtime_error *)
| SignedOverflow (* signed integer arithmetic outside the type *)
| Dangling       (* use of a freed object or of an erased iterator *)
| Terminated.    (* std::terminate *)

#[export] Instance fault_eq_dec : EqDecision fault.
Proof. solve_decision. Defined.

Inductive outcome (A : Type) :=
| Ok (a : A)
| Stop (f : fault).
Arguments Ok {A} a.
Arguments Stop {A} f.

#[export] Instance outcome_ret : MRet outcome := λ A a, Ok a.
#[export] Instance outcome_bind : MBind outcome := λ A B k m,
  match m with Ok a => k a | Stop f => Stop f end.
#[export] Instance outcome_fmap : FMap outcome := λ A B g m,
  match m with Ok a => Ok (g a) | Stop f => Stop f end.

Lemma bind_Ok {A B} (a : A) (k : A → outcome B) : (Ok a ≫= k) = k a.
Proof. done. Qed.

Lemma bind_Stop {A B} (f : fault) (k : A → outcome B) : (Stop f ≫= k) = Stop f.
Proof. done. Qed.

Lemma bind_Ok_inv {A B} (m : outcome A) (k : A → outcome B) (b : B) :
  (m ≫= k) = Ok b → ∃ a, m = Ok a ∧ k a = Ok b.
Proof. destruct m; [eauto | done]. Qed.

(** [memory lim m Q]: [m] returns a value with [Q], or [std::length_error] leaves it, and the
    latter only if [lim], which says that a container would have outgrown its maximum. *)
Definition memory {A} (lim : Prop) (m : outcome A) (Q : A → Prop) : Prop :=
  lim ∧ m = Stop LengthError ∨ ∃ a, m = Ok a ∧ Q a.

Lemma memory_ret {A} (lim : Prop) (Q : A → Prop) a : Q a → memory lim (Ok a) Q.
Proof. right. eauto. Qed.

Lemma memory_ok {A} (lim : Prop) m (Q : A → Prop) : (∃ a, m = Ok a ∧ Q a) → memory lim m Q.
Proof. by right. Qed.

Lemma memory_mono {A} (lim lim' : Prop) m (Q Q' : A → Prop) :
  memory lim m Q → (lim → lim') → (∀ a, m = Ok a → Q a → Q' a) → memory lim' m Q'.
Proof. intros [[H ->]|(a & E & Ha)] Hl HQ; [left; auto | right; eauto]. Qed.

Lemma memory_bind {A B} (lim : Prop) m (k : A → outcome B) Q Q' :
  memory lim m Q → (∀ a, m = Ok a → Q a → memory lim (k a) Q') → memory lim (m ≫= k) Q'.
Proof. intros [[H ->]|(a & -> & Ha)] Hk; [by left | by apply Hk]. Qed.

Lemma memory_fits {A} (lim : Prop) m (Q : A → Prop) :
  memory lim m Q → ¬ lim → ∃ a, m = Ok a ∧ Q a.
Proof. intros [[H _]|H] Hn; [done | exact H]. Qed.

(** A [for] loop over [l] whose body changes the state. *)
Fixpoint each {A S} (f : A → S → outcome S) (l : list A) (s : S) : outcome S :=
  match l with
  | [] => Ok s
  | x :: l' => s' ← f x s; each f l' s'
  end.

Lemma memory_each {A S} (lim : Prop) (f : A → S → outcome S) l (I : S → Prop) s :
  I s → (∀ x s, x ∈ l → I s → memory lim (f x s) I) → memory lim (each f l s) I.
Proof.
  revert s. induction l as [|x l IH]; intros s Hs Hf; [by apply memory_ret|].
  eapply memory_bind; [apply Hf; [left | done]|]. intros s' _ Hs'. apply IH; [done|].
  intros y t Hy. apply Hf. by right.
Qed.

(** What every round of the loop keeps holds behind it. *)
Lemma loop_keeps {A S} (f : A → S → outcome S) l (I : S → Prop) s s' :
  (∀ x t t', x ∈ l → I t → f x t = Ok t' → I t') → I s → each f l s = Ok s' → I s'.
Proof.
  revert s. induction l as [|x l IH]; intros s Hf Hs; [by intros [= <-]|]. cbn [each].
  intros E. apply bind_Ok_inv in E as (t & Et & E). apply (IH t); [|by eapply (Hf x); [left|..] | done].
  intros y u u' Hy. apply Hf. by right.
Qed.

(** ** Machine integers

    [uintw w z] is the value of type [uintw_t] congruent to [z]; [sintw w z] the value of type
    [intw_t] (two's complement). *)
Definition uintw (w : Z) (z : Z) : Z := z mod 2 ^ w.
Definition sintw (w : Z) (z : Z) : Z := (z + 2 ^ (w - 1)) mod 2 ^ w - 2 ^ (w - 1).

Abbreviation u8 := (uintw 8).
Abbreviation u16 := (uintw 16).
Abbreviation u32 := (uintw 32).
Abbreviation u64 := (uintw 64).
Abbreviation s8 := (sintw 8).
Abbreviation s16 := (sintw 16).
Abbreviation s32 := (sintw 32).
Abbreviation s64 := (sintw 64).

Declare Scope talko_scope.
Delimit Scope talko_scope with talko.
(** [size_t] addition and subtraction: modulo 2^64. *)
Notation "a ⊕ b" := (u64 (a + b)) (at level 50, left associativity) : talko_scope.
Notation "a ⊖ b" := (u64 (a - b)) (at level 50, left associativity) : talko_scope.
Open Scope talko_scope.

Lemma u_range w z : 0 ≤ w → 0 ≤ uintw w z < 2 ^ w.
Proof. intros. apply Z.mod_pos_bound, Z.pow_pos_nonneg; lia. Qed.

Lemma u_small w z : 0 ≤ z < 2 ^ w → uintw w z = z.
Proof. intros. by apply Z.mod_small. Qed.

Lemma u_u w z : uintw w (uintw w z) = uintw w z.
Proof. apply Zmod_mod. Qed.

Lemma s_range w z : 0 < w → - 2 ^ (w - 1) ≤ sintw w z < 2 ^ (w - 1).
Proof.
  intros. unfold sintw.
  assert (2 ^ w = 2 * 2 ^ (w - 1)) as Hw.
  { rewrite <- Z.pow_succ_r by lia. f_equal; lia. }
  pose proof (Z.mod_pos_bound (z + 2 ^ (w - 1)) (2 ^ w)
    ltac:(apply Z.pow_pos_nonneg; lia)). lia.
Qed.

Lemma s_small w z : 0 < w → - 2 ^ (w - 1) ≤ z < 2 ^ (w - 1) → sintw w z = z.
Proof.
  intros Hw Hz. unfold sintw.
  assert (2 ^ w = 2 * 2 ^ (w - 1)) as E.
  { rewrite <- Z.pow_succ_r by lia. f_equal; lia. }
  rewrite Z.mod_small; lia.
Qed.

(** Reading back the bits of a signed value: the conversions between the signed and the
    unsigned type of the same width are inverse to each other. *)
Lemma s_u w z : 0 < w → sintw w (uintw w z) = sintw w z.
Proof. intros. unfold sintw, uintw. by rewrite Zplus_mod_idemp_l. Qed.

Lemma u_s w z : 0 < w → uintw w (sintw w z) = uintw w z.
Proof.
  intros. unfold sintw, uintw. rewrite Zminus_mod_idemp_l. f_equal. lia.
Qed.

(** Literal forms of the powers that occur, so that [lia] sees numbers. *)
Lemma u64_small z : 0 ≤ z < 18446744073709551616 → u64 z = z.
Proof. apply (u_small 64). Qed.

Lemma u32_small z : 0 ≤ z < 4294967296 → u32 z = z.
Proof. apply (u_small 32). Qed.

Lemma s32_small z : -2147483648 ≤ z < 2147483648 → s32 z = z.
Proof. apply (s_small 32); lia. Qed.

Lemma s64_small z : -9223372036854775808 ≤ z < 9223372036854775808 → s64 z = z.
Proof. apply (s_small 64); lia. Qed.

(** [int64_t] arithmetic; the result must be a value of the type. *)
Definition i64 (z : Z) : outcome Z :=
  if (-9223372036854775808 <=? z) && (z <=? 9223372036854775807) then Ok z
  else Stop SignedOverflow.

Lemma i64_ok z : -9223372036854775808 ≤ z ≤ 9223372036854775807 → i64 z = Ok z.
Proof.
  intros. unfold i64.
  by destruct (Z.leb_spec (-9223372036854775808) z), (Z.leb_spec z 9223372036854775807); try lia.
Qed.

Create HintDb talko.

(** Removes every [u64] whose argument [lia] can bound. *)
Ltac u64_simp :=
  repeat match goal with
  | |- context [u64 ?z] => rewrite (u64_small z) by lia
  | H : context [u64 ?z] |- _ => rewrite (u64_small z) in H by lia
  end.

(** ** Bytes

    [char] and [unsigned char] objects are [Byte.byte]; integers are stored little-endian
    (the build is for x86_64). *)
Definition Z_of_byte (b : byte) : Z := Z.of_N (Byte.to_N b).
Definition byte_of_Z (z : Z) : byte :=
  match Byte.of_N (Z.to_N (z mod 256)) with Some b => b | None => x00 end.

#[export] Instance byte_eq_dec : EqDecision byte := Byte.byte_eq_dec.
#[export] Instance byte_inhabited : Inhabited byte := populate x00.

Lemma Z_of_byte_range b : 0 ≤ Z_of_byte b < 256.
Proof. unfold Z_of_byte. pose proof (Byte.to_N_bounded b). lia. Qed.

Lemma Z_of_byte_of_Z z : Z_of_byte (byte_of_Z z) = z mod 256.
Proof.
  unfold Z_of_byte, byte_of_Z.
  pose proof (Z.mod_pos_bound z 256 ltac:(lia)).
  destruct (Byte.of_N _) as [b|] eqn:E.
  - apply Byte.to_of_N in E. rewrite E. lia.
  - apply Byte.of_N_None_iff in E. lia.
Qed.

Lemma byte_of_Z_of_byte b : byte_of_Z (Z_of_byte b) = b.
Proof.
  unfold byte_of_Z. rewrite Z.mod_small by apply Z_of_byte_range.
  unfold Z_of_byte. by rewrite N2Z.id, Byte.of_to_N.
Qed.

Lemma byte_of_Z_mod z : byte_of_Z (z mod 256) = byte_of_Z z.
Proof. unfold byte_of_Z. by rewrite Zmod_mod. Qed.

#[export] Instance byte_countable : Countable byte.
Proof.
  refine (inj_countable' Byte.to_N (λ n, match Byte.of_N n with Some b => b | None => x00 end) _).
  intros b. by rewrite Byte.of_to_N.
Defined.

(** The object representation of an [n]-byte integer, and the integer a representation
    denotes. *)
Fixpoint le_bytes (n : nat) (z : Z) : list byte :=
  match n with
  | O => []
  | S n' => byte_of_Z z :: le_bytes n' (z / 256)
  end.

Fixpoint le_Z (bs : list byte) : Z :=
  match bs with
  | [] => 0
  | b :: bs' => Z_of_byte b + 256 * le_Z bs'
  end.

Definition be_bytes (n : nat) (z : Z) : list byte := reverse (le_bytes n z).
Definition be_Z (bs : list byte) : Z := le_Z (reverse bs).

Lemma length_le_bytes n z : length (le_bytes n z) = n.
Proof. revert z. induction n; intros; simpl; auto. Qed.

Lemma length_be_bytes n z : length (be_bytes n z) = n.
Proof. unfold be_bytes. by rewrite length_reverse, length_le_bytes. Qed.

Lemma le_Z_range bs : 0 ≤ le_Z bs < 256 ^ Z.of_nat (length bs).
Proof.
  induction bs as [|b bs IH]; cbn [le_Z length]; [lia|].
  rewrite Nat2Z.inj_succ, Z.pow_succ_r by lia.
  pose proof (Z_of_byte_range b). nia.
Qed.

Lemma le_Z_le_bytes n z : le_Z (le_bytes n z) = z mod 256 ^ Z.of_nat n.
Proof.
  revert z. induction n as [|n IH]; intros z; cbn [le_bytes le_Z].
  - by rewrite Z.mod_1_r.
  - rewrite IH, Z_of_byte_of_Z, Nat2Z.inj_succ, Z.pow_succ_r by lia.
    rewrite Z.rem_mul_r; [lia | lia | apply Z.pow_pos_nonneg; lia].
Qed.

Lemma le_bytes_le_Z bs : le_bytes (length bs) (le_Z bs) = bs.
Proof.
  induction bs as [|b bs IH]; cbn [le_bytes le_Z length]; [done|].
  pose proof (Z_of_byte_range b).
  rewrite <- (byte_of_Z_mod (_ + _)), (Z.mul_comm 256), Z.mod_add by lia.
  rewrite Z.mod_small, byte_of_Z_of_byte by lia.
  by rewrite Z.div_add, Z.div_small, Z.add_0_l, IH by lia.
Qed.

Lemma le_bytes_mod n z : le_bytes n (z mod 256 ^ Z.of_nat n) = le_bytes n z.
Proof.
  rewrite <- le_Z_le_bytes.
  rewrite <- (length_le_bytes n z) at 1. apply le_bytes_le_Z.
Qed.

Lemma be_Z_be_bytes n z : be_Z (be_bytes n z) = z mod 256 ^ Z.of_nat n.
Proof. unfold be_Z, be_bytes. by rewrite reverse_involutive, le_Z_le_bytes. Qed.

(** ** List windows

    [slice i n l] is the [n] elements of [l] from index [i]; [splice i bs l] is [l] with
    [bs] written over it from index [i] (what [memcpy] and [std::copy] do). Both take [Z]
    indices, as the sources do. *)
Definition Zlen {A} (l : list A) : Z := Z.of_nat (length l).

Definition slice {A} (i n : Z) (l : list A) : list A :=
  take (Z.to_nat n) (drop (Z.to_nat i) l).

Definition splice {A} (i : Z) (bs l : list A) : list A :=
  take (Z.to_nat i) l ++ bs ++ drop (Z.to_nat i + length bs) l.

Section windows.
Context {A : Type}.
Implicit Types l bs : list A.

Lemma Zlen_app l bs : Zlen (l ++ bs) = Zlen l + Zlen bs.
Proof. unfold Zlen. rewrite length_app. lia. Qed.

Lemma Zlen_nonneg l : 0 ≤ Zlen l.
Proof. unfold Zlen. lia. Qed.

Lemma Zlen_take n l : Zlen (take n l) = Z.min (Z.of_nat n) (Zlen l).
Proof. unfold Zlen. rewrite length_take. lia. Qed.

Lemma Zlen_drop n l : Zlen (drop n l) = Z.max 0 (Zlen l - Z.of_nat n).
Proof. unfold Zlen. rewrite length_drop. lia. Qed.

Lemma Zlen_replicate n (x : A) : Zlen (replicate n x) = Z.of_nat n.
Proof. unfold Zlen. by rewrite length_replicate. Qed.

Lemma Zlen_slice i n l : 0 ≤ i → 0 ≤ n → i + n ≤ Zlen l → Zlen (slice i n l) = n.
Proof. unfold slice, Zlen. rewrite length_take, length_drop. lia. Qed.

Lemma Zlen_splice i bs l : 0 ≤ i → i + Zlen bs ≤ Zlen l → Zlen (splice i bs l) = Zlen l.
Proof. unfold splice, Zlen. rewrite !length_app, length_take, length_drop. lia. Qed.

Lemma slice_0 i l : slice i 0 l = [].
Proof. done. Qed.

Lemma slice_all l : slice 0 (Zlen l) l = l.
Proof. unfold slice, Zlen. rewrite Nat2Z.id. apply firstn_all. Qed.

Lemma slice_split i n m l :
  0 ≤ i → 0 ≤ n → 0 ≤ m → slice i (n + m) l = slice i n l ++ slice (i + n) m l.
Proof.
  intros. unfold slice.
  rewrite !Z2Nat.inj_add, <- drop_drop by lia.
  symmetry. apply take_take_drop.
Qed.

Lemma take_slice i n k l :
  0 ≤ k ≤ n → take (Z.to_nat k) (slice i n l) = slice i k l.
Proof. intros. unfold slice. rewrite take_take. f_equal. lia. Qed.

Lemma drop_slice i n k l :
  0 ≤ i → 0 ≤ k ≤ n → drop (Z.to_nat k) (slice i n l) = slice (i + k) (n - k) l.
Proof.
  intros. unfold slice.
  rewrite skipn_firstn_comm, drop_drop. f_equal; [lia | f_equal; lia].
Qed.

Lemma slice_app_l i n l bs : 0 ≤ i → 0 ≤ n → i + n ≤ Zlen l → slice i n (l ++ bs) = slice i n l.
Proof.
  unfold slice, Zlen. intros.
  rewrite drop_app_le by lia. apply take_app_le. rewrite length_drop. lia.
Qed.

Lemma slice_app_r l bs : slice (Zlen l) (Zlen bs) (l ++ bs) = bs.
Proof.
  unfold slice, Zlen. rewrite !Nat2Z.id.
  rewrite drop_app_length. apply firstn_all.
Qed.

(** What a write is seen as by a later read of the same range, of a range in front of it
    and of a range behind it. *)
Lemma slice_splice_same i bs l :
  0 ≤ i → i + Zlen bs ≤ Zlen l → slice i (Zlen bs) (splice i bs l) = bs.
Proof.
  unfold slice, splice, Zlen. intros.
  rewrite drop_app_length' by (rewrite length_take; lia).
  by rewrite Nat2Z.id, take_app_length.
Qed.

Lemma slice_splice_before i bs l j n :
  0 ≤ j → 0 ≤ n → j + n ≤ i → i ≤ Zlen l → slice j n (splice i bs l) = slice j n l.
Proof.
  unfold slice, splice, Zlen. intros.
  rewrite drop_app_le by (rewrite length_take; lia).
  rewrite take_app_le by (rewrite length_drop, length_take; lia).
  rewrite skipn_firstn_comm, take_take. f_equal. lia.
Qed.
End windows.

#[export] Hint Rewrite @Zlen_app @Zlen_take @Zlen_drop @Zlen_replicate : zlen.

(** ** Strings

    [std::string] and [const char*] text is a list of bytes; [lit] gives the bytes of a
    source literal. *)
Abbreviation bytes := (list byte).
Definition lit (t : string) : bytes := String.list_byte_of_string t.

(** First occurrence: [std::search] and [std::string::find]. *)
Section search.
Context {A : Type} `{EqDecision A}.

Fixpoint starts_with (p l : list A) : bool :=
  match p, l with
  | [], _ => true
  | x :: p', y :: l' => bool_decide (x = y) && starts_with p' l'
  | _ :: _, [] => false
  end.

Fixpoint search (p l : list A) : option nat :=
  if starts_with p l then Some O
  else match l with [] => None | _ :: l' => S <$> search p l' end.

Lemma starts_with_spec p l : starts_with p l = true ↔ ∃ k, l = p ++ k.
Proof.
  revert l. induction p as [|x p IH]; intros l; simpl.
  - split; [eauto | done].
  - destruct l as [|y l].
    + split; [done | by intros [k ?]].
    + rewrite andb_true_iff, bool_decide_eq_true, IH. naive_solver.
Qed.

Lemma search_Some p l i :
  search p l = Some i →
  (∃ k, l = take i l ++ p ++ k) ∧ (i + length p ≤ length l)%nat ∧
  (∀ j, (j < i)%nat → starts_with p (drop j l) = false).
Proof.
  revert i. induction l as [|y l IH]; intros i; simpl.
  - destruct (starts_with p []) eqn:E; [|done].
    intros [= <-]. apply starts_with_spec in E as [k E].
    symmetry in E. apply app_nil in E as [-> ->].
    split; [by exists [] | split; [simpl; lia | intros; lia]].
  - destruct (starts_with p (y :: l)) eqn:E.
    + intros [= <-]. apply starts_with_spec in E as [k E].
      split; [by exists k|]. split; [|intros; lia].
      apply (f_equal length) in E. rewrite length_app in E. simpl in *. lia.
    + destruct (search p l) as [i'|] eqn:F; [|done].
      intros [= <-]. destruct (IH i' eq_refl) as ([k Hk] & Hlen & Hmin).
      split; [exists k; simpl; by f_equal|]. split; [simpl; lia|].
      intros [|j] Hj; [done|]. simpl. apply Hmin. lia.
Qed.

Lemma search_None p l : search p l = None → ∀ j, starts_with p (drop j l) = false.
Proof.
  induction l as [|y l IH]; simpl.
  - destruct (starts_with p []) eqn:E; [done|]. intros _ j. by rewrite drop_nil.
  - destruct (starts_with p (y :: l)) eqn:E; [done|].
    destruct (search p l) eqn:F; [done|].
    intros _ [|j]; [done|]. simpl. by apply IH.
Qed.

(** A pattern that occurs is found. *)
Lemma search_complete p l1 l2 : is_Some (search p (l1 ++ p ++ l2)).
Proof.
  destruct (search p (l1 ++ p ++ l2)) eqn:E; [eauto|].
  pose proof (search_None _ _ E (length l1)) as H.
  rewrite drop_app_length in H.
  assert (starts_with p (p ++ l2) = true) by (apply starts_with_spec; eauto).
  congruence.
Qed.
End search.

(** ** Decimal text: what [printf("%d")], [std::to_string] and [operator<<] print *)
Definition digit_byte (d : Z) : byte := byte_of_Z (48 + d).
Definition digit_value (c : byte) : Z := Z_of_byte c - 48.
Definition is_digit (c : byte) : bool := (48 <=? Z_of_byte c) && (Z_of_byte c <=? 57).

Fixpoint dec_digits (fuel : nat) (n : Z) (acc : bytes) : bytes :=
  match fuel with
  | O => acc
  | S f =>
      let acc' := digit_byte (n mod 10) :: acc in
      if n <? 10 then acc' else dec_digits f (n / 10) acc'
  end.

(** One binary digit of fuel per step is enough, because a step divides by ten. *)
Definition dec_pos (n : Z) : bytes := dec_digits (S (Z.to_nat (Z.log2 n))) n [].
Definition dec (z : Z) : bytes := if z <? 0 then x2d :: dec_pos (- z) else dec_pos z.

(** The number a run of digits denotes, after [acc]. *)
Fixpoint dec_value (acc : Z) (bs : bytes) : Z :=
  match bs with [] => acc | c :: bs' => dec_value (acc * 10 + digit_value c) bs' end.

Section decimal.

Lemma Z_of_digit_byte d : 0 ≤ d < 10 → Z_of_byte (digit_byte d) = 48 + d.
Proof. intros. unfold digit_byte. rewrite Z_of_byte_of_Z, Z.mod_small; lia. Qed.

Lemma is_digit_byte d : 0 ≤ d < 10 → is_digit (digit_byte d) = true.
Proof. intros. unfold is_digit. rewrite Z_of_digit_byte by done. lia. Qed.

Lemma dec_digits_digits fuel n acc :
  0 ≤ n → Forall (λ c, is_digit c = true) acc →
  Forall (λ c, is_digit c = true) (dec_digits fuel n acc).
Proof.
  revert n acc. induction fuel as [|f IH]; intros n acc Hn Hacc; [done|].
  cbn [dec_digits].
  assert (is_digit (digit_byte (n mod 10)) = true)
    by (apply is_digit_byte, Z.mod_pos_bound; lia).
  destruct (n <? 10); [by constructor|].
  apply IH; [apply Z.div_pos; lia | by constructor].
Qed.

Lemma dec_digits_value fuel n acc :
  0 ≤ n < 2 ^ Z.of_nat fuel → (0 < fuel)%nat →
  dec_value 0 (dec_digits fuel n acc) = dec_value n acc.
Proof.
  revert n acc. induction fuel as [|f IH]; intros n acc Hn Hf; [lia|].
  cbn [dec_digits].
  pose proof (Z.mod_pos_bound n 10 ltac:(lia)).
  pose proof (Z.div_mod n 10 ltac:(lia)).
  destruct (Z.ltb_spec n 10).
  - cbn [dec_value]. unfold digit_value. rewrite Z_of_digit_byte by done.
    f_equal. rewrite Z.mod_small; lia.
  - rewrite Nat2Z.inj_succ, Z.pow_succ_r in Hn by lia.
    destruct f as [|f]; [simpl in Hn; lia|].
    rewrite IH by lia. cbn [dec_value]. unfold digit_value.
    rewrite Z_of_digit_byte by done. f_equal. lia.
Qed.

Lemma dec_pos_value n : 0 ≤ n → dec_value 0 (dec_pos n) = n.
Proof.
  intros. unfold dec_pos. apply (dec_digits_value _ n []); [|lia].
  split; [done|].
  rewrite Nat2Z.inj_succ, Z2Nat.id by apply Z.log2_nonneg.
  destruct (Z.eq_dec n 0) as [->|]; [done|]. apply Z.log2_spec. lia.
Qed.

Lemma dec_pos_digits n : 0 ≤ n → Forall (λ c, is_digit c = true) (dec_pos n).
Proof. intros. apply dec_digits_digits; [done | constructor]. Qed.

Lemma dec_digits_nonempty fuel n acc : (0 < fuel)%nat → dec_digits fuel n acc ≠ [].
Proof.
  revert n acc. induction fuel as [|f IH]; intros n acc Hf; [lia|]. cbn [dec_digits].
  destruct (n <? 10); [done|]. destruct f; [done|]. apply IH. lia.
Qed.

Lemma dec_pos_nonempty n : dec_pos n ≠ [].
Proof. apply dec_digits_nonempty. lia. Qed.

Lemma dec_digits_length fuel n acc k :
  0 ≤ n < 10 ^ Z.of_nat k → (0 < k)%nat →
  (length (dec_digits fuel n acc) ≤ k + length acc)%nat.
Proof.
  revert n acc k. induction fuel as [|f IH]; intros n acc k Hn Hk; cbn [dec_digits]; [lia|].
  destruct (Z.ltb_spec n 10); [simpl; lia|].
  destruct k as [|[|k]]; [lia | simpl in Hn; lia |].
  rewrite Nat2Z.inj_succ, Z.pow_succ_r in Hn by lia.
  assert (n / 10 < 10 ^ Z.of_nat (S k)) by (apply Z.div_lt_upper_bound; lia).
  pose proof (Z.div_pos n 10).
  pose proof (IH (n / 10) (digit_byte (n mod 10) :: acc) (S k) ltac:(lia) ltac:(lia)).
  simpl in *. lia.
Qed.

(** Printing is injective: the text determines the number. *)
Lemma dec_pos_inj n m : 0 ≤ n → 0 ≤ m → dec_pos n = dec_pos m → n = m.
Proof. intros Hn Hm E. rewrite <- (dec_pos_value n), <- (dec_pos_value m), E by done. done. Qed.

(** The bytes of a printed number: digits, or a minus in front. *)
Lemma dec_bytes z c : c ∈ dec z → c = x2d ∨ is_digit c = true.
Proof.
  assert (Hd : ∀ n, 0 ≤ n → c ∈ dec_pos n → is_digit c = true).
  { intros n Hn. pose proof (dec_pos_digits n Hn) as Hd. rewrite List.Forall_forall in Hd. by intros ?%list_elem_of_In%Hd. }
  unfold dec. destruct (Z.ltb_spec z 0).
  - intros [->|Hc]%elem_of_cons; [by left | right]. apply (Hd (- z)); [lia | done].
  - intros Hc. right. by apply (Hd z).
Qed.

Lemma dec_inj z1 z2 : dec z1 = dec z2 → z1 = z2.
Proof.
  assert (Hm : ∀ n l, 0 ≤ n → dec_pos n = x2d :: l → False).
  { intros n l Hn E. pose proof (dec_pos_digits n Hn) as Hd. rewrite E in Hd.
    apply Forall_inv in Hd. by vm_compute in Hd. }
  unfold dec. destruct (Z.ltb_spec z1 0), (Z.ltb_spec z2 0); intros E.
  - injection E as E. apply dec_pos_inj in E; lia.
  - by edestruct (Hm z2).
  - by edestruct (Hm z1).
  - by apply dec_pos_inj.
Qed.
End decimal.

(** ** Lines of text *)
Definition lines_text (ls : list bytes) : bytes := ls ≫= λ l, l ++ [x0a].

Lemma line_inj (l1 l2 r1 r2 : bytes) :
  x0a ∉ l1 → x0a ∉ l2 → l1 ++ x0a :: r1 = l2 ++ x0a :: r2 → l1 = l2 ∧ r1 = r2.
Proof.
  revert l2. induction l1 as [|c l1 IH]; intros [|d l2] H1 H2 E; simpl in E.
  - by injection E.
  - injection E as <- _. set_solver.
  - injection E as -> _. set_solver.
  - injection E as <- E. apply not_elem_of_cons in H1 as [_ H1], H2 as [_ H2].
    by destruct (IH l2 H1 H2 E) as [-> ->].
Qed.

(** A text determines its lines. *)
Lemma lines_text_inj ls1 ls2 :
  Forall (λ l, x0a ∉ l) ls1 → Forall (λ l, x0a ∉ l) ls2 → lines_text ls1 = lines_text ls2 → ls1 = ls2.
Proof.
  intros H1. revert ls2. induction H1 as [|l1 ls1 Hl1 H1 IH]; intros ls2 H2 E.
  - destruct H2 as [|[|c l2] ls2]; done.
  - destruct H2 as [|l2 ls2 Hl2 H2]; [by destruct l1|].
    unfold lines_text in E. cbn [mbind list_bind] in E. rewrite <- !app_assoc in E.
    destruct (line_inj l1 l2 _ _ Hl1 Hl2 E) as [-> E']. f_equal. by apply IH.
Qed.

(** ** C strings *)

(** A [std::string] as a C string ends at its first NUL. *)
Fixpoint c_str (s : bytes) : bytes :=
  match s with
  | [] => []
  | c :: s' => if bool_decide (c = x00) then [] else c :: c_str s'
  end.

(** An array as a C string: it must hold a NUL. *)
Definition c_array (buf : bytes) : outcome bytes :=
  if bool_decide (x00 ∈ buf) then Ok (c_str buf) else Stop OutOfBounds.

Lemma c_str_id s : x00 ∉ s → c_str s = s.
Proof.
  induction s as [|c s IH]; [done|]. intros [Hc Hs]%not_elem_of_cons. simpl.
  rewrite bool_decide_eq_false_2 by done. by rewrite IH.
Qed.

Lemma c_str_end s l : x00 ∉ s → c_str (s ++ x00 :: l) = s.
Proof.
  induction s as [|c s IH]; [done|]. intros [Hc Hs]%not_elem_of_cons. simpl.
  rewrite bool_decide_eq_false_2 by done. by rewrite IH.
Qed.

Lemma c_array_end s l : x00 ∉ s → c_array (s ++ x00 :: l) = Ok s.
Proof. intros. unfold c_array. rewrite bool_decide_eq_true_2 by set_solver. by rewrite c_str_end. Qed.

(** ** Finite checks: a decidable statement about [0 .. n-1] proved by evaluation *)
Lemma forall_range (P : Z → bool) (n : nat) :
  forallb (λ i, P (Z.of_nat i)) (seq 0 n) = true →
  ∀ z, 0 ≤ z < Z.of_nat n → P z = true.
Proof.
  intros H z Hz. rewrite forallb_forall in H.
  specialize (H (Z.to_nat z)). rewrite Z2Nat.id in H by lia.
  apply H, in_seq. lia.
Qed.

(** The bit tests of the sources on single bytes, as arithmetic. *)
Lemma land_127 z : Z.land z 127 = z mod 128.
Proof. apply (Z.land_ones z 7). lia. Qed.

Lemma shiftr_7 z : Z.shiftr z 7 = z / 128.
Proof. apply Z.shiftr_div_pow2. lia. Qed.

Lemma lor_128 z : 0 ≤ z < 128 → Z.lor z 128 = z + 128.
Proof.
  intros Hz. apply Z.eqb_eq.
  by apply (forall_range (λ z, Z.lor z 128 =? z + 128) 128); [vm_compute|].
Qed.

Lemma land_128 z : 0 ≤ z < 256 → Z.land z 128 = if z <? 128 then 0 else 128.
Proof.
  intros Hz. apply Z.eqb_eq.
  by apply (forall_range (λ z, Z.land z 128 =? (if z <? 128 then 0 else 128)) 256);
    [vm_compute|].
Qed.
