(* ===== verification/Endian.v ===== *)
(** * Byte order conversions: [network/inet_endian.h]

    The functions take and return unsigned machine integers. On the little-endian target
    [htobe16/32/64] and [be16/32/64toh] reverse the object representation. *)
From S2P Require Import Prelude.

(** [htobeN] / [beNtoh] of [<endian.h>] on a little-endian host, for an [n]-byte integer. *)
Definition bswap (n : nat) (x : Z) : Z := le_Z (reverse (le_bytes n x)).

Definition host_2_network64 (host64 : Z) : Z := bswap 8 host64.
Definition host_2_network32 (host32 : Z) : Z := bswap 4 host32.
Definition host_2_network16 (host16 : Z) : Z := bswap 2 host16.
Definition network_2_host64 (net64 : Z) : Z := bswap 8 net64.
Definition network_2_host32 (net32 : Z) : Z := bswap 4 net32.
Definition network_2_host16 (net16 : Z) : Z := bswap 2 net16.

(** Storing a swapped integer writes its bytes most significant first. *)
Lemma le_bytes_bswap n x : le_bytes n (bswap n x) = be_bytes n x.
Proof.
  unfold bswap, be_bytes.
  replace n with (length (reverse (le_bytes n x))) at 1
    by (rewrite length_reverse; apply length_le_bytes).
  apply le_bytes_le_Z.
Qed.

Lemma bswap_le_Z bs : bswap (length bs) (le_Z bs) = be_Z bs.
Proof. unfold bswap, be_Z. by rewrite le_bytes_le_Z. Qed.

Lemma bswap_range n x : 0 ≤ bswap n x < 256 ^ Z.of_nat n.
Proof.
  unfold bswap. pose proof (le_Z_range (reverse (le_bytes n x))) as H.
  by rewrite length_reverse, length_le_bytes in H.
Qed.

Lemma bswap_involutive n x : bswap n (bswap n x) = x mod 256 ^ Z.of_nat n.
Proof.
  unfold bswap at 1. rewrite le_bytes_bswap. unfold be_bytes.
  by rewrite reverse_involutive, le_Z_le_bytes.
Qed.

(** The signed round trip every [bb_*_intN] operation relies on: the value stored is the
    value read back, for every value of the signed type. *)
Lemma swap_signed_roundtrip n (x : Z) :
  (0 < n)%nat →
  let w := 8 * Z.of_nat n in
  - 2 ^ (w - 1) ≤ x < 2 ^ (w - 1) →
  sintw w (bswap n (le_Z (be_bytes n x))) = x.
Proof.
  intros Hn w Hx.
  replace (bswap n (le_Z (be_bytes n x))) with (uintw w x).
  - rewrite s_u, s_small; subst w; lia.
  - rewrite <- le_bytes_bswap, le_Z_le_bytes.
    rewrite (Z.mod_small (bswap n x)) by apply bswap_range.
    rewrite bswap_involutive. unfold uintw, w. f_equal.
    by rewrite Z.pow_mul_r by lia.
Qed.
