(* ===== verification/ByteBuffer.v ===== *)
(** * The network byte buffer: [network/byte_buffer.h], [network/byte_buffer.cpp]

    [w_network::ByteBuffer] is a [std::vector<char>] with a read and a write index.
    [const char*] values into the vector are offsets from [_begin()], [nullptr] is [None].
    Indices are [size_t], so the arithmetic of the sources is kept modulo 2^64 ([⊕], [⊖]).
    The Linux branch of every [#ifdef WIN32] is modelled.

    The abstract view of a buffer is the list of its readable bytes ([content]); [Spec]
    gives the byte queue the class promises and the refinement theorems relate the two. *)
From S2P Require Import Prelude Endian.

(** [vector<char>::max_size()]: [PTRDIFF_MAX]. *)
Definition max_size : Z := 9223372036854775807.

(** [vector::resize]: truncates or extends with zero bytes. *)
Definition vec_resize (n : Z) (l : bytes) : outcome bytes :=
  if max_size <? n then Stop LengthError
  else Ok (take (Z.to_nat n) l ++ replicate (Z.to_nat (n - Zlen l)) x00).

(** A write of [data] at offset [off] of a vector, and a read of [n] bytes. *)
Definition copy_to (off : Z) (data l : bytes) : outcome bytes :=
  if bool_decide (0 ≤ off ∧ off + Zlen data ≤ Zlen l) then Ok (splice off data l)
  else Stop OutOfBounds.

Definition read_range (off n : Z) (l : bytes) : outcome bytes :=
  if max_size <? n then Stop LengthError
  else if bool_decide (0 ≤ off ∧ off + n ≤ Zlen l) then Ok (slice off n l)
  else Stop OutOfBounds.

(** ** State *)
Record ByteBuffer := mkByteBuffer {
  buffer_ : bytes;
  read_idx_ : Z;
  write_idx_ : Z;
}.

Definition set_buffer (x : bytes) (b : ByteBuffer) : ByteBuffer :=
  mkByteBuffer x (read_idx_ b) (write_idx_ b).
Definition set_read (i : Z) (b : ByteBuffer) : ByteBuffer :=
  mkByteBuffer (buffer_ b) i (write_idx_ b).
Definition set_write (i : Z) (b : ByteBuffer) : ByteBuffer :=
  mkByteBuffer (buffer_ b) (read_idx_ b) i.

Definition cheap_prepend : Z := 8.
Definition initial_size : Z := 1024.
Definition CLRF_ : bytes := [x0d; x0a].

(** The constructor takes a [size] that its initialiser list does not use. *)
Definition ByteBuffer_ctor (size : Z) : ByteBuffer :=
  mkByteBuffer (replicate (Z.to_nat (cheap_prepend + initial_size)) x00)
    cheap_prepend cheap_prepend.

(** ** Operations, in the order of the header *)
Definition bb_swap (this rhs : ByteBuffer) : ByteBuffer * ByteBuffer :=
  (mkByteBuffer (buffer_ rhs) (read_idx_ rhs) (write_idx_ rhs),
   mkByteBuffer (buffer_ this) (read_idx_ this) (write_idx_ this)).

Definition bb_bytes_readable (b : ByteBuffer) : Z := write_idx_ b ⊖ read_idx_ b.
Definition bb_bytes_writeable (b : ByteBuffer) : Z := Zlen (buffer_ b) ⊖ write_idx_ b.
Definition bb_bytes_prependable (b : ByteBuffer) : Z := read_idx_ b.

Definition bb_peek (b : ByteBuffer) : Z := read_idx_ b.
Definition bb_write_beginning (b : ByteBuffer) : Z := write_idx_ b.

(** [std::search(start, bb_write_beginning(), target)] with the not-found test of the
    callers: the end of the range becomes [nullptr]. *)
Definition find_from (start : Z) (target : bytes) (b : ByteBuffer) : option Z :=
  let range := slice start (bb_write_beginning b - start) (buffer_ b) in
  match search target range with
  | None => None
  | Some i => if (i =? length range)%nat then None else Some (start + Z.of_nat i)
  end.

Definition bb_find_string (target : bytes) (b : ByteBuffer) : option Z :=
  find_from (bb_peek b) target b.

Definition bb_find_CLRF (b : ByteBuffer) : option Z :=
  find_from (bb_peek b) CLRF_ b.

Definition bb_find_CLRF_from (start : Z) (b : ByteBuffer) : option Z :=
  if start <? bb_peek b then None
  else if bb_write_beginning b <? start then None
  else find_from start CLRF_ b.

(** [memchr(start, '\n', n)]. *)
Definition memchr_nl (start n : Z) (b : ByteBuffer) : option Z :=
  match search [x0a] (slice start n (buffer_ b)) with
  | None => None
  | Some i => Some (start + Z.of_nat i)
  end.

Definition bb_find_EOL (b : ByteBuffer) : option Z :=
  memchr_nl (bb_peek b) (bb_bytes_readable b) b.

Definition bb_findEOL (start : Z) (b : ByteBuffer) : option Z :=
  if start <? bb_peek b then None
  else if bb_write_beginning b <? start then None
  else memchr_nl start (bb_write_beginning b - start) b.

Definition bb_retrieve_all (b : ByteBuffer) : ByteBuffer :=
  mkByteBuffer (buffer_ b) cheap_prepend cheap_prepend.

Definition bb_retrieve (len : Z) (b : ByteBuffer) : bool * ByteBuffer :=
  if bb_bytes_readable b <? len then (false, b)
  else if len <? bb_bytes_readable b then (true, set_read (read_idx_ b ⊕ len) b)
  else (true, bb_retrieve_all b).

Definition bb_retrieve_until (end_ : Z) (b : ByteBuffer) : bool * ByteBuffer :=
  if end_ <? bb_peek b then (false, b)
  else if bb_write_beginning b <? end_ then (false, b)
  else (true, (bb_retrieve (u64 (end_ - bb_peek b)) b).2).

Definition bb_retrieve_int64 (b : ByteBuffer) : ByteBuffer := (bb_retrieve 8 b).2.
Definition bb_retrieve_int32 (b : ByteBuffer) : ByteBuffer := (bb_retrieve 4 b).2.
Definition bb_retrieve_int16 (b : ByteBuffer) : ByteBuffer := (bb_retrieve 2 b).2.
Definition bb_retrieve_int8 (b : ByteBuffer) : ByteBuffer := (bb_retrieve 1 b).2.

Definition bb_retrieve_as_string (len : Z) (b : ByteBuffer) : outcome (bytes * ByteBuffer) :=
  if bb_bytes_readable b <? len then Ok ([], b)
  else result ← read_range (bb_peek b) len (buffer_ b);
       Ok (result, (bb_retrieve len b).2).

Definition bb_retrieve_all_as_string (b : ByteBuffer) : outcome (bytes * ByteBuffer) :=
  bb_retrieve_as_string (bb_bytes_readable b) b.

(** The readable count goes through [int] before it is the string's length. *)
Definition bb_2_string_piece (b : ByteBuffer) : outcome bytes :=
  read_range (bb_peek b) (u64 (s32 (bb_bytes_readable b))) (buffer_ b).

Definition _make_zoom (len : Z) (b : ByteBuffer) : outcome ByteBuffer :=
  if bb_bytes_writeable b ⊕ bb_bytes_prependable b <? len ⊕ cheap_prepend then
    buf ← vec_resize (write_idx_ b ⊕ len) (buffer_ b);
    Ok (set_buffer buf b)
  else if read_idx_ b <=? cheap_prepend then Ok b
  else
    let readable := bb_bytes_readable b in
    buf ← copy_to cheap_prepend
            (slice (read_idx_ b) (write_idx_ b - read_idx_ b) (buffer_ b)) (buffer_ b);
    Ok (mkByteBuffer buf cheap_prepend (cheap_prepend ⊕ readable)).

Definition bb_bytes_check_writable (len : Z) (b : ByteBuffer) : outcome (bool * ByteBuffer) :=
  if bb_bytes_writeable b <? len then
    b' ← _make_zoom len b; Ok (true, b')
  else Ok (true, b).

Definition bb_bytes_written (len : Z) (b : ByteBuffer) : bool * ByteBuffer :=
  if bb_bytes_writeable b <? len then (false, b)
  else (true, set_write (write_idx_ b ⊕ len) b).

Definition bb_bytes_unwrite (len : Z) (b : ByteBuffer) : bool * ByteBuffer :=
  if bb_bytes_readable b <? len then (false, b)
  else (true, set_write (write_idx_ b ⊖ len) b).

(** [bb_append(const char*, size_t)]. The destination argument of [std::copy] is written
    [bb_bytes_writeable()] in the header, a [size_t] where an iterator is required, so the
    statement has no meaning in C++ as it stands; it is read here as [bb_write_beginning()],
    the [char*] at which [bb_bytes_written] then advances the write index. *)
Definition bb_append (data : bytes) (b : ByteBuffer) : outcome ByteBuffer :=
  '(_, b1) ← bb_bytes_check_writable (Zlen data) b;
  buf ← copy_to (bb_write_beginning b1) data (buffer_ b1);
  Ok (bb_bytes_written (Zlen data) (set_buffer buf b1)).2.

Definition bb_append_int64 (x : Z) (b : ByteBuffer) : outcome ByteBuffer :=
  let be64 := s64 (host_2_network64 (u64 x)) in bb_append (le_bytes 8 be64) b.
Definition bb_append_int32 (x : Z) (b : ByteBuffer) : outcome ByteBuffer :=
  let be32 := s32 (host_2_network32 (u32 x)) in bb_append (le_bytes 4 be32) b.
Definition bb_append_int16 (x : Z) (b : ByteBuffer) : outcome ByteBuffer :=
  let be16 := s16 (host_2_network16 (u16 x)) in bb_append (le_bytes 2 be16) b.
Definition bb_append_int8 (x : Z) (b : ByteBuffer) : outcome ByteBuffer :=
  bb_append (le_bytes 1 x) b.

Definition bb_peek_int64 (b : ByteBuffer) : outcome Z :=
  if bb_bytes_readable b <? 8 then Ok (-1)
  else m ← read_range (bb_peek b) 8 (buffer_ b);
       let be64 := s64 (le_Z m) in Ok (s64 (network_2_host64 (u64 be64))).
Definition bb_peek_int32 (b : ByteBuffer) : outcome Z :=
  if bb_bytes_readable b <? 4 then Ok (-1)
  else m ← read_range (bb_peek b) 4 (buffer_ b);
       let be32 := s32 (le_Z m) in Ok (s32 (network_2_host32 (u32 be32))).
Definition bb_peek_int16 (b : ByteBuffer) : outcome Z :=
  if bb_bytes_readable b <? 2 then Ok (-1)
  else m ← read_range (bb_peek b) 2 (buffer_ b);
       let be16 := s16 (le_Z m) in Ok (s16 (network_2_host16 (u16 be16))).
Definition bb_peek_int8 (b : ByteBuffer) : outcome Z :=
  if bb_bytes_readable b <? 1 then Ok (-1)
  else m ← read_range (bb_peek b) 1 (buffer_ b); Ok (s8 (le_Z m)).

Definition bb_read_int64 (b : ByteBuffer) : outcome (Z * ByteBuffer) :=
  result ← bb_peek_int64 b; Ok (result, bb_retrieve_int64 b).
Definition bb_read_int32 (b : ByteBuffer) : outcome (Z * ByteBuffer) :=
  result ← bb_peek_int32 b; Ok (result, bb_retrieve_int32 b).
Definition bb_read_int16 (b : ByteBuffer) : outcome (Z * ByteBuffer) :=
  result ← bb_peek_int16 b; Ok (result, bb_retrieve_int16 b).
Definition bb_read_int8 (b : ByteBuffer) : outcome (Z * ByteBuffer) :=
  result ← bb_peek_int8 b; Ok (result, bb_retrieve_int8 b).

Definition bb_prepend (data : bytes) (b : ByteBuffer) : outcome (bool * ByteBuffer) :=
  if bb_bytes_prependable b <? Zlen data then Ok (false, b)
  else
    let b1 := set_read (read_idx_ b ⊖ Zlen data) b in
    buf ← copy_to (read_idx_ b1) data (buffer_ b1);
    Ok (true, set_buffer buf b1).

Definition bb_prepend_int64 (x : Z) (b : ByteBuffer) : outcome ByteBuffer :=
  let be64 := s64 (host_2_network64 (u64 x)) in snd <$> bb_prepend (le_bytes 8 be64) b.
Definition bb_prepend_int32 (x : Z) (b : ByteBuffer) : outcome ByteBuffer :=
  let be32 := s32 (host_2_network32 (u32 x)) in snd <$> bb_prepend (le_bytes 4 be32) b.
Definition bb_prepend_int16 (x : Z) (b : ByteBuffer) : outcome ByteBuffer :=
  let be16 := s16 (host_2_network16 (u16 x)) in snd <$> bb_prepend (le_bytes 2 be16) b.
Definition bb_prepend_int8 (x : Z) (b : ByteBuffer) : outcome ByteBuffer :=
  snd <$> bb_prepend (le_bytes 1 x) b.

Definition bb_shrink (reserve : Z) (b : ByteBuffer) : outcome ByteBuffer :=
  let other := ByteBuffer_ctor initial_size in
  '(_, other) ← bb_bytes_check_writable (bb_bytes_readable b ⊕ reserve) other;
  piece ← bb_2_string_piece b;
  other ← bb_append piece other;
  Ok (bb_swap b other).1.

(** [bb_read_fd] on Linux. [extrabuf] is the 64 KiB local array after [read(2)] returned
    [n] with [errno = err]; the result is [n], what is stored in [*saved_errno] (if
    anything) and the buffer. *)
Definition bb_read_fd (n err : Z) (extrabuf : bytes) (b : ByteBuffer)
    : outcome (Z * option Z * ByteBuffer) :=
  let writable := bb_bytes_writeable b in
  if n <=? 0 then Ok (n, Some err, b)
  else if n <=? writable then Ok (n, None, set_write (write_idx_ b ⊕ n) b)
  else
    let b1 := set_write (Zlen (buffer_ b)) b in
    data ← read_range 0 (n ⊖ writable) extrabuf;
    b2 ← bb_append data b1;
    Ok (n, None, b2).

(** ** Well-formedness and the abstract content *)
Record wf (b : ByteBuffer) : Prop := {
  wf_read : 0 ≤ read_idx_ b;
  wf_order : read_idx_ b ≤ write_idx_ b;
  wf_write : write_idx_ b ≤ Zlen (buffer_ b);
  wf_min : cheap_prepend + initial_size ≤ Zlen (buffer_ b);
  wf_max : Zlen (buffer_ b) ≤ max_size;
}.

Definition content (b : ByteBuffer) : bytes :=
  slice (read_idx_ b) (write_idx_ b - read_idx_ b) (buffer_ b).

Ltac wf_facts :=
  repeat match goal with
  | H : wf ?b |- _ =>
      let H1 := fresh "Hr" in let H2 := fresh "Ho" in let H3 := fresh "Hw" in
      let H4 := fresh "Hmin" in let H5 := fresh "Hmax" in
      destruct H as [H1 H2 H3 H4 H5]
  end;
  unfold cheap_prepend, initial_size, max_size in *; cbn [buffer_ read_idx_ write_idx_] in *.

Section basics.
Implicit Types b : ByteBuffer.

Lemma ctor_wf size : wf (ByteBuffer_ctor size).
Proof. split; vm_compute; congruence. Qed.

Lemma content_ctor size : content (ByteBuffer_ctor size) = [].
Proof. done. Qed.

Lemma readable_wf b : wf b → bb_bytes_readable b = write_idx_ b - read_idx_ b.
Proof. intros. wf_facts. unfold bb_bytes_readable. by rewrite u64_small by lia. Qed.

Lemma writeable_wf b : wf b → bb_bytes_writeable b = Zlen (buffer_ b) - write_idx_ b.
Proof. intros. wf_facts. unfold bb_bytes_writeable. by rewrite u64_small by lia. Qed.

Lemma readable_content b : wf b → bb_bytes_readable b = Zlen (content b).
Proof.
  intros. rewrite readable_wf by done. wf_facts.
  unfold content. rewrite Zlen_slice; lia.
Qed.

Lemma read_range_ok off n l :
  0 ≤ off → off + n ≤ Zlen l → n ≤ max_size → read_range off n l = Ok (slice off n l).
Proof.
  intros. unfold read_range. rewrite bool_decide_eq_true_2 by lia.
  by destruct (Z.ltb_spec max_size n); [lia|].
Qed.

Lemma copy_to_ok off data l :
  0 ≤ off → off + Zlen data ≤ Zlen l → copy_to off data l = Ok (splice off data l).
Proof. intros. unfold copy_to. by rewrite bool_decide_eq_true_2 by lia. Qed.

(** Growing keeps the readable bytes in place, because they lie in the kept prefix. *)
Lemma resize_ok n l :
  Zlen l ≤ n → n ≤ max_size →
  vec_resize n l = Ok (l ++ replicate (Z.to_nat (n - Zlen l)) x00).
Proof.
  intros. unfold vec_resize. destruct (Z.ltb_spec max_size n); [lia|].
  rewrite take_ge; [done | unfold Zlen in *; lia].
Qed.
End basics.

#[export] Hint Resolve ctor_wf : talko.

Section space.
Implicit Types b : ByteBuffer.

(** [_make_zoom], called when less than [len] bytes are writable, makes room for [len]
    bytes without touching the content, or throws when the vector cannot grow so far; the
    early return of its second branch is never taken. The write index does not grow. *)
Definition made_room (len : Z) b b' : Prop :=
  wf b' ∧ content b' = content b ∧ len ≤ bb_bytes_writeable b' ∧ write_idx_ b' ≤ write_idx_ b ∧
  (cheap_prepend ≤ read_idx_ b → cheap_prepend ≤ read_idx_ b').

Lemma make_zoom_total len b :
  wf b → bb_bytes_writeable b < len → len ≤ max_size →
  max_size < write_idx_ b + len ∧ _make_zoom len b = Stop LengthError ∨
  ∃ b', _make_zoom len b = Ok b' ∧ made_room len b b'.
Proof.
  intros Hwf Hlt Hmx. pose proof (readable_wf b Hwf) as Hrd.
  rewrite writeable_wf in Hlt by done. unfold _make_zoom, made_room.
  rewrite writeable_wf, Hrd by done. unfold bb_bytes_prependable. wf_facts. u64_simp.
  destruct (Z.ltb_spec (Zlen (buffer_ b) - write_idx_ b + read_idx_ b) (len + 8)).
  - destruct (Z.ltb_spec max_size (write_idx_ b + len)) as [Hbig|Hfit].
    { left. split; [exact Hbig|]. unfold vec_resize.
      by destruct (Z.ltb_spec max_size (write_idx_ b + len)); [|lia]. }
    right. rewrite resize_ok by (unfold max_size in *; lia). simpl. eexists. split; [done|].
    assert (Zlen (buffer_ b ++ replicate (Z.to_nat (write_idx_ b + len - Zlen (buffer_ b))) x00)
            = write_idx_ b + len) as Hl
      by (rewrite Zlen_app, Zlen_replicate; lia).
    split; [split; unfold cheap_prepend, initial_size, max_size in *; simpl; lia|].
    split; [unfold content; simpl; rewrite slice_app_l; [done|lia..]|].
    unfold bb_bytes_writeable. simpl. rewrite Hl. u64_simp. lia.
  - destruct (Z.leb_spec (read_idx_ b) 8); [lia|]. right.
    rewrite copy_to_ok; [| lia | rewrite Zlen_slice; lia]. simpl. eexists. split; [done|].
    assert (Zlen (slice (read_idx_ b) (write_idx_ b - read_idx_ b) (buffer_ b))
            = write_idx_ b - read_idx_ b) as Hs by (rewrite Zlen_slice; lia).
    pose proof (Zlen_splice 8 (slice (read_idx_ b) (write_idx_ b - read_idx_ b) (buffer_ b))
                  (buffer_ b)) as Hl. rewrite Hs in Hl. specialize (Hl ltac:(lia) ltac:(lia)).
    split; [split; unfold cheap_prepend, initial_size, max_size; simpl; lia|].
    split.
    { unfold content; simpl.
      replace (8 + (write_idx_ b - read_idx_ b) - 8)
        with (Zlen (slice (read_idx_ b) (write_idx_ b - read_idx_ b) (buffer_ b))) by lia.
      rewrite slice_splice_same; [done | lia | lia]. }
    unfold bb_bytes_writeable. simpl. rewrite Hl. u64_simp. lia.
Qed.

Lemma check_writable_total len b :
  wf b → len ≤ max_size →
  max_size < write_idx_ b + len ∧ bb_bytes_check_writable len b = Stop LengthError ∨
  ∃ b', bb_bytes_check_writable len b = Ok (true, b') ∧ made_room len b b'.
Proof.
  intros Hwf Hmx. unfold bb_bytes_check_writable.
  destruct (Z.ltb_spec (bb_bytes_writeable b) len) as [Hlt|Hge].
  - destruct (make_zoom_total len b Hwf Hlt Hmx) as [[? ->]|(b' & -> & ?)]; [by left | right].
    by exists b'.
  - right. exists b. unfold made_room. repeat split; try done; wf_facts; lia.
Qed.

Lemma check_writable_spec len b :
  wf b → write_idx_ b + len ≤ max_size →
  ∃ b', bb_bytes_check_writable len b = Ok (true, b') ∧ wf b' ∧ content b' = content b ∧
        len ≤ bb_bytes_writeable b' ∧ write_idx_ b' ≤ write_idx_ b ∧
        (cheap_prepend ≤ read_idx_ b → cheap_prepend ≤ read_idx_ b').
Proof.
  intros Hwf Hmx. destruct (check_writable_total len b Hwf) as [[? _]|H]; [| lia | exact H].
  wf_facts; lia.
Qed.

(** Appending appends, or throws when the vector cannot grow so far. *)
Lemma append_total data b :
  wf b → Zlen data ≤ max_size →
  max_size < write_idx_ b + Zlen data ∧ bb_append data b = Stop LengthError ∨
  ∃ b', bb_append data b = Ok b' ∧ wf b' ∧ content b' = content b ++ data ∧
        write_idx_ b' ≤ write_idx_ b + Zlen data ∧
        (cheap_prepend ≤ read_idx_ b → cheap_prepend ≤ read_idx_ b').
Proof.
  intros Hwf Hmx. unfold bb_append.
  destruct (check_writable_total (Zlen data) b Hwf Hmx)
    as [[Hbig ->]|(b1 & -> & Hwf1 & Hc1 & Hroom & Hle & Hpre)]; [by left | right].
  rewrite writeable_wf in Hroom by done.
  simpl. unfold bb_write_beginning. wf_facts.
  pose proof (Zlen_nonneg data).
  rewrite copy_to_ok by lia. simpl. unfold bb_bytes_written, bb_bytes_writeable. simpl.
  assert (Zlen (splice (write_idx_ b1) data (buffer_ b1)) = Zlen (buffer_ b1)) as Hl
    by (apply Zlen_splice; lia).
  rewrite Hl. u64_simp.
  destruct (Z.ltb_spec (Zlen (buffer_ b1) - write_idx_ b1) (Zlen data)); [lia|]. simpl.
  eexists. split; [done|].
  split; [split; unfold cheap_prepend, initial_size, max_size; simpl; lia|].
  split; [|simpl; lia].
  rewrite <- Hc1. unfold content. simpl.
  replace (write_idx_ b1 + Zlen data - read_idx_ b1)
    with ((write_idx_ b1 - read_idx_ b1) + Zlen data) by lia.
  rewrite slice_split by lia. f_equal; [apply slice_splice_before; lia|].
  replace (read_idx_ b1 + (write_idx_ b1 - read_idx_ b1)) with (write_idx_ b1) by lia.
  apply slice_splice_same; lia.
Qed.

(** Appending never fails while the buffer stays addressable. *)
Lemma append_spec data b :
  wf b → write_idx_ b + Zlen data ≤ max_size →
  ∃ b', bb_append data b = Ok b' ∧ wf b' ∧ content b' = content b ++ data ∧
        write_idx_ b' ≤ write_idx_ b + Zlen data ∧
        (cheap_prepend ≤ read_idx_ b → cheap_prepend ≤ read_idx_ b').
Proof.
  intros Hwf Hmx. destruct (append_total data b Hwf) as [[? _]|H]; [| lia | exact H].
  wf_facts; lia.
Qed.

(** Retrieving [n] of the readable bytes drops them; more than there are is refused. *)
Lemma retrieve_spec n b :
  wf b → 0 ≤ n →
  let r := bb_retrieve n b in
  wf r.2 ∧ (cheap_prepend ≤ read_idx_ b → cheap_prepend ≤ read_idx_ r.2) ∧
  write_idx_ r.2 ≤ Z.max cheap_prepend (write_idx_ b) ∧
  if bool_decide (n ≤ Zlen (content b))
  then r.1 = true ∧ content r.2 = drop (Z.to_nat n) (content b)
  else r = (false, b).
Proof.
  intros Hwf Hn r. subst r. unfold bb_retrieve. rewrite readable_content by done.
  pose proof (readable_wf b Hwf) as Hrd. rewrite readable_content in Hrd by done.
  destruct (Z.ltb_spec (Zlen (content b)) n).
  { rewrite bool_decide_eq_false_2 by lia. simpl. wf_facts. repeat split; simpl; try done; lia. }
  rewrite bool_decide_eq_true_2 by lia. wf_facts.
  destruct (Z.ltb_spec n (Zlen (content b))); simpl.
  - u64_simp. repeat split; simpl; unfold cheap_prepend, initial_size, max_size; try lia.
    unfold content in *. simpl. rewrite drop_slice by lia. f_equal; lia.
  - repeat split; simpl; unfold cheap_prepend, initial_size, max_size; try lia.
    rewrite drop_ge by (unfold Zlen in *; lia). done.
Qed.

Lemma retrieve_all_spec b :
  wf b → wf (bb_retrieve_all b) ∧ content (bb_retrieve_all b) = [].
Proof.
  intros. wf_facts. split; [|done].
  split; simpl; unfold cheap_prepend, initial_size, max_size; lia.
Qed.

Lemma retrieve_as_string_spec n b :
  wf b → 0 ≤ n ≤ Zlen (content b) →
  ∃ b', bb_retrieve_as_string n b = Ok (take (Z.to_nat n) (content b), b') ∧
        wf b' ∧ content b' = drop (Z.to_nat n) (content b).
Proof.
  intros Hwf Hn. unfold bb_retrieve_as_string. rewrite readable_content by done.
  destruct (Z.ltb_spec (Zlen (content b)) n); [lia|].
  destruct (retrieve_spec n b Hwf ltac:(lia)) as (Hwf' & _ & _ & Hr).
  rewrite bool_decide_eq_true_2 in Hr by lia. destruct Hr as [_ Hc].
  pose proof (readable_wf b Hwf) as Hrd. rewrite readable_content in Hrd by done.
  assert (read_range (bb_peek b) n (buffer_ b) = Ok (take (Z.to_nat n) (content b))) as ->.
  { wf_facts. unfold bb_peek, content. rewrite take_slice by lia.
    apply read_range_ok; unfold max_size; lia. }
  simpl. eauto.
Qed.
End space.

(** ** The byte queue the class promises *)
Module Spec.

(** The operations of the class that change the readable bytes. *)
Inductive bb_op :=
| OpAppend (data : bytes)
| OpRetrieve (n : Z)
| OpRetrieveAll
| OpUnwrite (n : Z)
| OpPrepend (data : bytes)
| OpEnsure (n : Z).

(** One call, with the boolean it reports ([true] where it reports none). *)
Definition run_op (op : bb_op) (b : ByteBuffer) : outcome (bool * ByteBuffer) :=
  match op with
  | OpAppend d => b' ← bb_append d b; Ok (true, b')
  | OpRetrieve n => Ok (bb_retrieve n b)
  | OpRetrieveAll => Ok (true, bb_retrieve_all b)
  | OpUnwrite n => Ok (bb_bytes_unwrite n b)
  | OpPrepend d => bb_prepend d b
  | OpEnsure n => bb_bytes_check_writable n b
  end.

Fixpoint run_ops (ops : list bb_op) (b : ByteBuffer) : outcome (list bool * ByteBuffer) :=
  match ops with
  | [] => Ok ([], b)
  | op :: ops' =>
      '(r, b1) ← run_op op b;
      '(rs, b2) ← run_ops ops' b1;
      Ok (r :: rs, b2)
  end.

(** The same call on the abstract queue: [q] the bytes before, [q'] after. Only the
    acceptance of a prepend depends on more than the queue (the headroom). *)
Inductive queue_step : bb_op → bytes → bool → bytes → Prop :=
| q_append d q : queue_step (OpAppend d) q true (q ++ d)
| q_retrieve n q : n ≤ Zlen q → queue_step (OpRetrieve n) q true (drop (Z.to_nat n) q)
| q_retrieve_refused n q : Zlen q < n → queue_step (OpRetrieve n) q false q
| q_retrieve_all q : queue_step OpRetrieveAll q true []
| q_unwrite n q :
    n ≤ Zlen q → queue_step (OpUnwrite n) q true (take (Z.to_nat (Zlen q - n)) q)
| q_unwrite_refused n q : Zlen q < n → queue_step (OpUnwrite n) q false q
| q_prepend d q : queue_step (OpPrepend d) q true (d ++ q)
| q_prepend_refused d q : queue_step (OpPrepend d) q false q
| q_ensure n q : queue_step (OpEnsure n) q true q.

Inductive queue_steps : list bb_op → bytes → list bool → bytes → Prop :=
| qs_nil q : queue_steps [] q [] q
| qs_cons op ops q r q1 rs q2 :
    queue_step op q r q1 → queue_steps ops q1 rs q2 →
    queue_steps (op :: ops) q (r :: rs) q2.

(** The most a call may move the write index, and the range of its [size_t] argument. *)
Definition op_weight (op : bb_op) : Z :=
  match op with OpAppend d => Zlen d | OpEnsure n => n | _ => 0 end.

Definition op_args_ok (op : bb_op) : Prop :=
  match op with OpRetrieve n | OpUnwrite n | OpEnsure n => 0 ≤ n | _ => True end.

Definition total_weight (ops : list bb_op) : Z :=
  foldr (λ op acc, op_weight op + acc) 0 ops.

Definition extent (b : ByteBuffer) : Z := Z.max cheap_prepend (write_idx_ b).

End Spec.

Section refinement.
Import Spec.

Lemma unwrite_spec n b :
  wf b → 0 ≤ n →
  let r := bb_bytes_unwrite n b in
  wf r.2 ∧ write_idx_ r.2 ≤ write_idx_ b ∧ read_idx_ r.2 = read_idx_ b ∧
  queue_step (OpUnwrite n) (content b) r.1 (content r.2).
Proof.
  intros Hwf Hn. unfold bb_bytes_unwrite. rewrite readable_content by done.
  pose proof (readable_wf b Hwf) as Hrd. rewrite readable_content in Hrd by done.
  destruct (Z.ltb_spec (Zlen (content b)) n); simpl.
  { repeat split; try done; try (wf_facts; lia). by constructor. }
  wf_facts. u64_simp.
  repeat split; simpl; unfold cheap_prepend, initial_size, max_size; try lia.
  replace (content (set_write (write_idx_ b - n) b))
    with (take (Z.to_nat (Zlen (content b) - n)) (content b)); [by constructor|].
  unfold content in *. simpl. rewrite Hrd, take_slice by lia. f_equal. lia.
Qed.

(** A prepend writes in front of the content when the headroom suffices. *)
Lemma prepend_spec d b :
  wf b →
  ∃ r b', bb_prepend d b = Ok (r, b') ∧ wf b' ∧ write_idx_ b' = write_idx_ b ∧
          r = bool_decide (Zlen d ≤ read_idx_ b) ∧
          content b' = if r then d ++ content b else content b.
Proof.
  intros Hwf. unfold bb_prepend, bb_bytes_prependable. pose proof (Zlen_nonneg d).
  destruct (Z.ltb_spec (read_idx_ b) (Zlen d)).
  { exists false, b. rewrite bool_decide_eq_false_2 by lia. by repeat split; wf_facts. }
  wf_facts. simpl. u64_simp. rewrite copy_to_ok by lia. simpl.
  exists true. eexists. split; [done|]. rewrite bool_decide_eq_true_2 by lia.
  assert (Zlen (splice (read_idx_ b - Zlen d) d (buffer_ b)) = Zlen (buffer_ b)) as Hl
    by (apply Zlen_splice; lia).
  split; [split; unfold cheap_prepend, initial_size, max_size; simpl; lia|].
  split; [done|]. split; [done|]. unfold content. simpl.
  replace (write_idx_ b - (read_idx_ b - Zlen d))
    with (Zlen d + (write_idx_ b - read_idx_ b)) by lia.
  rewrite slice_split by lia. rewrite slice_splice_same by lia. f_equal.
  replace (read_idx_ b - Zlen d + Zlen d) with (read_idx_ b) by lia.
  unfold slice, splice. f_equal.
  rewrite drop_app, drop_ge by (rewrite length_take; unfold Zlen in *; lia).
  rewrite length_take, drop_app, (drop_ge d) by (unfold Zlen in *; lia).
  simpl. rewrite drop_drop. f_equal. unfold Zlen in *. lia.
Qed.

(** One call refines one step of the queue. *)
Lemma run_op_refines op b :
  wf b → op_args_ok op → extent b + op_weight op ≤ max_size →
  ∃ r b', run_op op b = Ok (r, b') ∧ wf b' ∧ queue_step op (content b) r (content b') ∧
          extent b' ≤ extent b + op_weight op.
Proof.
  intros Hwf Hok Hx. unfold extent in *.
  destruct op as [d|n| |n|d|n]; cbn [run_op op_weight op_args_ok] in *.
  - destruct (append_spec d b Hwf) as (b' & -> & Hwf' & Hc & Hi & _); [lia|].
    exists true, b'. rewrite Hc. split; [done|]. split; [done|]. split; [constructor|]. pose proof (Zlen_nonneg d). lia.
  - destruct (retrieve_spec n b Hwf Hok) as (Hwf' & _ & Hi & Hr).
    destruct (bb_retrieve n b) as [r b']. simpl in *. exists r, b'.
    split; [done|]. split; [done|]. split; [|lia].
    case_bool_decide; [destruct Hr as [-> ->] | simplify_eq]; constructor; lia.
  - destruct (retrieve_all_spec b Hwf) as [Hwf' Hc]. exists true, (bb_retrieve_all b).
    rewrite Hc. split; [done|]. split; [done|]. split; [constructor|]. simpl. lia.
  - destruct (unwrite_spec n b Hwf Hok) as (Hwf' & Hi & _ & Hs).
    destruct (bb_bytes_unwrite n b) as [r b']. exists r, b'. simpl in *.
    split; [done|]. split; [done|]. split; [done|]. lia.
  - destruct (prepend_spec d b Hwf) as (r & b' & Hp & Hwf' & Hi & _ & Hc).
    exists r, b'. split; [done|]. split; [done|]. split; [|lia].
    rewrite Hc. destruct r; constructor.
  - destruct (check_writable_spec n b Hwf) as (b' & Hp & Hwf' & Hc & _ & Hi & _); [lia|].
    exists true, b'. rewrite Hp, Hc. split; [done|]. split; [done|]. split; [constructor|]. lia.
Qed.

Lemma op_weight_nonneg op : op_args_ok op → 0 ≤ op_weight op.
Proof. destruct op; simpl; intros; try lia; apply Zlen_nonneg. Qed.

Lemma total_weight_nonneg ops : Forall op_args_ok ops → 0 ≤ total_weight ops.
Proof.
  induction 1 as [|op ops Hop _ IH]; [done|].
  unfold total_weight in *. simpl. pose proof (op_weight_nonneg op Hop). lia.
Qed.

(** C1. Every sequence of calls on a well-formed [ByteBuffer] that stays addressable runs
    without a fault, keeps the buffer well-formed, and changes the readable bytes and
    reports success or refusal exactly as the abstract byte queue does. *)
Theorem byte_buffer_refines_queue ops b :
  wf b → Forall op_args_ok ops → extent b + total_weight ops ≤ max_size →
  ∃ rs b', run_ops ops b = Ok (rs, b') ∧ wf b' ∧
           queue_steps ops (content b) rs (content b').
Proof.
  revert b. induction ops as [|op ops IH]; intros b Hwf Hok Hx; simpl.
  - exists [], b. repeat split; try done; [wf_facts; lia..|constructor].
  - apply Forall_cons in Hok as [Hop Hops]. unfold total_weight in Hx. simpl in Hx.
    pose proof (total_weight_nonneg ops Hops). unfold total_weight in *.
    destruct (run_op_refines op b Hwf Hop ltac:(lia)) as (r & b1 & -> & Hwf1 & Hs & Hx1).
    simpl. destruct (IH b1 Hwf1 Hops ltac:(lia)) as (rs & b2 & -> & Hwf2 & Hss).
    simpl. exists (r :: rs), b2. repeat split; try done; [wf_facts; lia..|].
    by econstructor.
Qed.

Lemma byte_buffer_refines_queue_witness :
  let b := ByteBuffer_ctor 0 in
  let ops := [OpAppend (lit "hello"); OpRetrieve 2; OpPrepend (lit "xy"); OpRetrieve 99] in
  ∃ rs b', run_ops ops b = Ok (rs, b') ∧ wf b' ∧ queue_steps ops (content b) rs (content b').
Proof.
  apply byte_buffer_refines_queue;
    [apply ctor_wf | repeat constructor; simpl; lia | vm_compute; congruence].
Defined.
End refinement.

(** ** Typed integers on the wire *)
Inductive wire_int := I64 (x : Z) | I32 (x : Z) | I16 (x : Z) | I8 (x : Z).
Inductive wire_kind := K64 | K32 | K16 | K8.

Definition kind_of (v : wire_int) : wire_kind :=
  match v with I64 _ => K64 | I32 _ => K32 | I16 _ => K16 | I8 _ => K8 end.
Definition value_of (v : wire_int) : Z :=
  match v with I64 x | I32 x | I16 x | I8 x => x end.
Definition kind_bytes (k : wire_kind) : nat :=
  match k with K64 => 8 | K32 => 4 | K16 => 2 | K8 => 1 end.
Definition with_kind (k : wire_kind) (x : Z) : wire_int :=
  match k with K64 => I64 x | K32 => I32 x | K16 => I16 x | K8 => I8 x end.

(** The value is one of its C++ type. *)
Definition int_in_range (v : wire_int) : Prop :=
  let w := 8 * Z.of_nat (kind_bytes (kind_of v)) in
  - 2 ^ (w - 1) ≤ value_of v < 2 ^ (w - 1).

Definition append_int (v : wire_int) (b : ByteBuffer) : outcome ByteBuffer :=
  match v with
  | I64 x => bb_append_int64 x b
  | I32 x => bb_append_int32 x b
  | I16 x => bb_append_int16 x b
  | I8 x => bb_append_int8 x b
  end.

Definition read_int (k : wire_kind) (b : ByteBuffer) : outcome (Z * ByteBuffer) :=
  match k with
  | K64 => bb_read_int64 b
  | K32 => bb_read_int32 b
  | K16 => bb_read_int16 b
  | K8 => bb_read_int8 b
  end.

Fixpoint append_ints (vs : list wire_int) (b : ByteBuffer) : outcome ByteBuffer :=
  match vs with
  | [] => Ok b
  | v :: vs' => b' ← append_int v b; append_ints vs' b'
  end.

Fixpoint read_ints (ks : list wire_kind) (b : ByteBuffer)
    : outcome (list wire_int * ByteBuffer) :=
  match ks with
  | [] => Ok ([], b)
  | k :: ks' =>
      '(x, b1) ← read_int k b;
      '(xs, b2) ← read_ints ks' b1;
      Ok (with_kind k x :: xs, b2)
  end.

Definition wire_bytes (v : wire_int) : bytes :=
  be_bytes (kind_bytes (kind_of v)) (value_of v).

Fixpoint wire_all (vs : list wire_int) : bytes :=
  match vs with [] => [] | v :: vs' => wire_bytes v ++ wire_all vs' end.

Section ints.

Lemma le_bytes_cong n z z' :
  z mod 256 ^ Z.of_nat n = z' mod 256 ^ Z.of_nat n → le_bytes n z = le_bytes n z'.
Proof. intros E. by rewrite <- le_bytes_mod, E, le_bytes_mod. Qed.

Lemma pow256 n : 256 ^ Z.of_nat n = 2 ^ (8 * Z.of_nat n).
Proof. by rewrite Z.pow_mul_r by lia. Qed.

Lemma le_bytes_sintw n z :
  (0 < n)%nat → le_bytes n (sintw (8 * Z.of_nat n) z) = le_bytes n z.
Proof. intros. apply le_bytes_cong. rewrite pow256. apply u_s. lia. Qed.

Lemma bswap_uintw n z : bswap n (uintw (8 * Z.of_nat n) z) = bswap n z.
Proof.
  unfold bswap. f_equal. f_equal. unfold uintw.
  apply le_bytes_cong. by rewrite pow256, Zmod_mod.
Qed.

(** The object representation of the converted value is the big-endian encoding. *)
Lemma wire_repr n x :
  (0 < n)%nat →
  le_bytes n (sintw (8 * Z.of_nat n) (bswap n (uintw (8 * Z.of_nat n) x))) = be_bytes n x.
Proof. intros. by rewrite le_bytes_sintw, bswap_uintw, le_bytes_bswap. Qed.

Lemma append_int_wire v b : append_int v b = bb_append (wire_bytes v) b.
Proof.
  destruct v; unfold append_int, wire_bytes; simpl;
    unfold bb_append_int64, bb_append_int32, bb_append_int16, bb_append_int8;
    f_equal.
  - apply (wire_repr 8); lia.
  - apply (wire_repr 4); lia.
  - apply (wire_repr 2); lia.
Qed.

(** Reading an integer off a buffer that starts with its encoding. *)
Lemma peek_bytes k b m rest :
  wf b → content b = m ++ rest → Zlen m = k → k ≤ 64 →
  bb_bytes_readable b <? k = false ∧ read_range (bb_peek b) k (buffer_ b) = Ok m.
Proof.
  intros Hwf Hc Hk Hk8. rewrite readable_content, Hc, Zlen_app by done.
  pose proof (Zlen_nonneg rest).
  split; [destruct (Z.ltb_spec (Zlen m + Zlen rest) k); [lia|done]|].
  pose proof (readable_wf b Hwf) as Hrd.
  rewrite readable_content, Hc, Zlen_app in Hrd by done.
  assert (slice (read_idx_ b) k (buffer_ b) = m) as Hm.
  { assert (take (Z.to_nat k) (content b) = m) as E.
    { rewrite Hc. rewrite take_app_length'; [done | unfold Zlen in *; lia]. }
    rewrite <- E. unfold content. symmetry. apply take_slice.
    pose proof (Zlen_nonneg m). lia. }
  wf_facts. rewrite <- Hm. unfold bb_peek. apply read_range_ok; unfold max_size; lia.
Qed.

Lemma read_int_spec v b rest :
  wf b → int_in_range v → content b = wire_bytes v ++ rest →
  ∃ b', read_int (kind_of v) b = Ok (value_of v, b') ∧ wf b' ∧ content b' = rest.
Proof.
  intros Hwf Hv Hc.
  assert (Zlen (wire_bytes v) = Z.of_nat (kind_bytes (kind_of v))) as Hl
    by (unfold Zlen, wire_bytes; by rewrite length_be_bytes).
  destruct (peek_bytes _ b _ rest Hwf Hc Hl) as [Hlt Hrd]; [destruct v; simpl; lia|].
  destruct (retrieve_spec (Z.of_nat (kind_bytes (kind_of v))) b Hwf ltac:(lia))
    as (Hwf' & _ & _ & Hr).
  rewrite bool_decide_eq_true_2 in Hr
    by (rewrite Hc, Zlen_app, Hl; pose proof (Zlen_nonneg rest); lia).
  destruct Hr as [_ Hc'].
  rewrite Hc, Nat2Z.id, drop_app_length' in Hc' by (unfold wire_bytes; by rewrite length_be_bytes).
  exists (bb_retrieve (Z.of_nat (kind_bytes (kind_of v))) b).2. split; [|done].
  pose proof (swap_signed_roundtrip (kind_bytes (kind_of v)) (value_of v)) as Hrt.
  unfold int_in_range in Hv. cbv zeta in Hv, Hrt.
  destruct v as [x|x|x|x]; cbn [kind_of kind_bytes value_of] in *;
    unfold read_int, bb_read_int64, bb_read_int32, bb_read_int16, bb_read_int8,
      bb_peek_int64, bb_peek_int32, bb_peek_int16, bb_peek_int8, wire_bytes in *;
    cbn [kind_of kind_bytes value_of] in *;
    [ change (Z.of_nat 8) with 8 in *; change (8 * 8) with 64 in * | change (Z.of_nat 4) with 4 in *; change (8 * 4) with 32 in *
    | change (Z.of_nat 2) with 2 in *; change (8 * 2) with 16 in * | change (Z.of_nat 1) with 1 in *; change (8 * 1) with 8 in * ];
    rewrite Hlt, Hrd; cbn [mbind outcome_bind]; rewrite ?u_s by lia;
    unfold network_2_host64, network_2_host32, network_2_host16;
    specialize (Hrt ltac:(lia) Hv).
  - rewrite (bswap_uintw 8). by rewrite Hrt.
  - rewrite (bswap_uintw 4). by rewrite Hrt.
  - rewrite (bswap_uintw 2). by rewrite Hrt.
  - unfold bswap, be_bytes in *. cbn [le_bytes le_Z] in *.
    rewrite !reverse_singleton in *. cbn [le_Z] in *.
    rewrite !Z.mul_0_r, !Z.add_0_r, byte_of_Z_of_byte in *. by rewrite Hrt.
Qed.

Lemma append_ints_spec vs b :
  wf b → write_idx_ b + Zlen (wire_all vs) ≤ max_size →
  ∃ b', append_ints vs b = Ok b' ∧ wf b' ∧ content b' = content b ++ (wire_all vs) ∧
    write_idx_ b' ≤ write_idx_ b + Zlen (wire_all vs).
Proof.
  revert b. induction vs as [|v vs IH]; intros b Hwf Hx; simpl in *.
  - exists b. rewrite app_nil_r. do 3 (split; [done|]). unfold Zlen. simpl. lia.
  - rewrite Zlen_app in Hx |- *. pose proof (Zlen_nonneg (wire_all vs)).
    destruct (append_spec (wire_bytes v) b Hwf ltac:(lia)) as (b1 & Hb1 & Hwf1 & Hc1 & Hi1 & _).
    rewrite append_int_wire, Hb1. simpl.
    destruct (IH b1 Hwf1) as (b2 & Hb2 & Hwf2 & Hc2 & Hi2); [lia|].
    exists b2. rewrite Hb2, Hc2, Hc1, <- app_assoc. do 3 (split; [done|]). lia.
Qed.

Lemma read_ints_spec vs b rest :
  wf b → Forall int_in_range vs → content b = (wire_all vs) ++ rest →
  ∃ b', read_ints (map kind_of vs) b = Ok (vs, b') ∧ wf b' ∧ content b' = rest.
Proof.
  revert b. induction vs as [|v vs IH]; intros b Hwf Hr Hc; simpl in *.
  - by exists b.
  - apply Forall_cons in Hr as [Hv Hvs]. rewrite <- app_assoc in Hc.
    destruct (read_int_spec v b _ Hwf Hv Hc) as (b1 & -> & Hwf1 & Hc1). simpl.
    destruct (IH b1 Hwf1 Hvs Hc1) as (b2 & -> & Hwf2 & Hc2). simpl.
    exists b2. by destruct v.
Qed.

(** C2. Integers written with [bb_append_int64/32/16/8] in any order stand behind the bytes
    that were readable before, most significant byte first; and once those bytes are
    retrieved, the matching [bb_read_*] give the same values back (negative ones included)
    and leave what was appended behind them. *)
Theorem wire_ints_roundtrip vs rest b :
  wf b → Forall int_in_range vs → write_idx_ b + Zlen (wire_all vs) + Zlen rest ≤ max_size →
  ∃ b1 b2 b3 b4, append_ints vs b = Ok b1 ∧ content b1 = content b ++ wire_all vs ∧
    bb_append rest b1 = Ok b2 ∧ bb_retrieve (Zlen (content b)) b2 = (true, b3) ∧
    read_ints (map kind_of vs) b3 = Ok (vs, b4) ∧ wf b4 ∧ content b4 = rest.
Proof.
  intros Hwf Hr Hx. pose proof (Zlen_nonneg rest).
  destruct (append_ints_spec vs b Hwf ltac:(lia)) as (b1 & Hb1 & Hwf1 & Hc1 & Hi1).
  destruct (append_spec rest b1 Hwf1 ltac:(lia)) as (b2 & Hb2 & Hwf2 & Hc2 & _).
  assert (Hlen : Zlen (content b) ≤ Zlen (content b2)).
  { rewrite Hc2, Hc1, !Zlen_app. pose proof (Zlen_nonneg (wire_all vs)). lia. }
  destruct (retrieve_spec (Zlen (content b)) b2 Hwf2 (Zlen_nonneg _)) as (Hwf3 & _ & _ & Hret).
  rewrite bool_decide_eq_true_2 in Hret by done. destruct Hret as [Hok Hc3].
  destruct (bb_retrieve (Zlen (content b)) b2) as [ok b3] eqn:E3. cbn [fst snd] in *. subst ok.
  assert (Hc3' : content b3 = wire_all vs ++ rest).
  { rewrite Hc3, Hc2, Hc1, <- app_assoc. unfold Zlen. rewrite Nat2Z.id. apply drop_app_length. }
  destruct (read_ints_spec vs b3 rest Hwf3 Hr Hc3') as (b4 & Hb4 & Hwf4 & Hc4).
  exists b1, b2, b3, b4. auto 10.
Qed.

Lemma wire_ints_roundtrip_witness :
  let vs := [I32 (-2); I64 1234567890123; I8 (-128); I16 513] in
  ∃ b b1 b2 b3 b4, bb_append (lit "GET") (ByteBuffer_ctor 0) = Ok b ∧
    append_ints vs b = Ok b1 ∧ content b1 = lit "GET" ++ wire_all vs ∧
    bb_append (lit "end") b1 = Ok b2 ∧ bb_retrieve 3 b2 = (true, b3) ∧
    read_ints (map kind_of vs) b3 = Ok (vs, b4) ∧ content b4 = lit "end".
Proof.
  intros vs. destruct (bb_append (lit "GET") (ByteBuffer_ctor 0)) as [b|] eqn:E; [|vm_compute in E; congruence].
  assert (Hc : content b = lit "GET") by (vm_compute in E; injection E as <-; vm_compute; reflexivity).
  assert (Hw : wf b).
  { vm_compute in E. injection E as <-. split; vm_compute; congruence. }
  destruct (wire_ints_roundtrip vs (lit "end") b Hw) as (b1 & b2 & b3 & b4 & H1 & H2 & H3 & H4 & H5 & _ & H6).
  - repeat (apply Forall_cons; split; [vm_compute; split; congruence|]); apply Forall_nil; exact I.
  - vm_compute in E. injection E as <-. vm_compute. congruence.
  - rewrite Hc in H2, H4. exists b, b1, b2, b3, b4. auto 10.
Defined.
End ints.

(** ** Headroom for a length header *)
Definition is_prepend (op : Spec.bb_op) : bool :=
  match op with Spec.OpPrepend _ => true | _ => false end.

Section headroom.
Import Spec.

Lemma run_op_headroom op b r b' :
  wf b → op_args_ok op → extent b + op_weight op ≤ max_size → is_prepend op = false →
  run_op op b = Ok (r, b') → cheap_prepend ≤ read_idx_ b → cheap_prepend ≤ read_idx_ b'.
Proof.
  intros Hwf Hok Hx Hnp Hrun Hh. unfold extent in *.
  destruct op as [d|n| |n|d|n]; cbn [run_op op_weight op_args_ok] in *; try done.
  - destruct (append_spec d b Hwf) as (b1 & Hb1 & _ & _ & _ & Hp); [lia|].
    rewrite Hb1 in Hrun. simpl in Hrun. simplify_eq. auto.
  - destruct (retrieve_spec n b Hwf Hok) as (_ & Hp & _ & _).
    destruct (bb_retrieve n b). simpl in *. simplify_eq. auto.
  - simplify_eq. simpl. lia.
  - destruct (unwrite_spec n b Hwf Hok) as (_ & _ & Hp & _).
    destruct (bb_bytes_unwrite n b). simpl in *. simplify_eq. lia.
  - destruct (check_writable_spec n b Hwf) as (b1 & Hb1 & _ & _ & _ & _ & Hp); [lia|].
    rewrite Hb1 in Hrun. simplify_eq. auto.
Qed.

Lemma run_ops_headroom ops b rs b' :
  wf b → Forall op_args_ok ops → extent b + total_weight ops ≤ max_size →
  Forall (λ op, is_prepend op = false) ops → run_ops ops b = Ok (rs, b') →
  cheap_prepend ≤ read_idx_ b → wf b' ∧ cheap_prepend ≤ read_idx_ b'.
Proof.
  revert b rs. induction ops as [|op ops IH]; intros b rs Hwf Hok Hx Hnp Hrun Hh; simpl in Hrun.
  { by simplify_eq. }
  apply Forall_cons in Hok as [Hop Hops]. apply Forall_cons in Hnp as [Hp Hps].
  pose proof (total_weight_nonneg ops Hops). unfold total_weight in *. simpl in Hx.
  destruct (run_op_refines op b Hwf Hop ltac:(lia)) as (r & b1 & Hb1 & Hwf1 & _ & Hx1).
  pose proof (run_op_headroom op b r b1 Hwf Hop ltac:(lia) Hp Hb1 Hh) as Hh1.
  rewrite Hb1 in Hrun. simpl in Hrun.
  apply bind_Ok_inv in Hrun as ([rs' b2] & Hr & Hf). simplify_eq.
  by apply (IH b1 rs' Hwf1 Hops ltac:(lia) Hps Hr).
Qed.

(** On a fresh buffer, after any sequence of calls other than prepends, a header of up
    to eight bytes (an [int64_t]) can still be prepended: the call succeeds and the header
    stands directly in front of the bytes queued so far. *)
Theorem header_prepend_succeeds ops size rs b hdr :
  Forall op_args_ok ops → Forall (λ op, is_prepend op = false) ops →
  cheap_prepend + total_weight ops ≤ max_size → Zlen hdr ≤ cheap_prepend →
  run_ops ops (ByteBuffer_ctor size) = Ok (rs, b) →
  ∃ b', bb_prepend hdr b = Ok (true, b') ∧ wf b' ∧ content b' = hdr ++ content b.
Proof.
  intros Hok Hnp Hx Hh Hrun.
  destruct (run_ops_headroom ops _ rs b (ctor_wf size) Hok Hx Hnp Hrun) as [Hwf Hr];
    [done|].
  destruct (prepend_spec hdr b Hwf) as (r & b' & Hp & Hwf' & _ & Er & Hc).
  rewrite bool_decide_eq_true_2 in Er by lia. subst r. eauto.
Qed.

Lemma header_prepend_succeeds_witness :
  ∃ b', bb_prepend (be_bytes 4 5)
          (mkByteBuffer (splice 8 (lit "hello") (replicate 1032 x00)) 8 13) = Ok (true, b') ∧
        wf b' ∧ content b' = be_bytes 4 5 ++
          content (mkByteBuffer (splice 8 (lit "hello") (replicate 1032 x00)) 8 13).
Proof.
  apply (header_prepend_succeeds [OpAppend (lit "hello")] 0 [true]);
    [repeat constructor | repeat constructor | vm_compute; congruence
    | vm_compute; congruence | vm_compute; reflexivity].
Defined.
End headroom.

(** ** Reading from a socket *)
Section read_fd.

(** A successful read, in terms of the two memory areas involved. *)
Lemma read_fd_spec n err extrabuf b :
  wf b → Zlen extrabuf = 65536 → 0 < n ≤ 65536 →
  Zlen (buffer_ b) + 65536 ≤ max_size →
  let writable := Zlen (buffer_ b) - write_idx_ b in
  ∃ b', bb_read_fd n err extrabuf b = Ok (n, None, b') ∧ wf b' ∧
        content b' = content b ++ slice (write_idx_ b) (Z.min n writable) (buffer_ b)
                       ++ take (Z.to_nat (n - writable)) extrabuf.
Proof.
  intros Hwf Hx Hn Hm writable. unfold bb_read_fd. rewrite writeable_wf by done.
  fold writable. destruct (Z.leb_spec n 0); [lia|].
  pose proof Hwf as Hwf0. wf_facts. subst writable.
  destruct (Z.leb_spec n (Zlen (buffer_ b) - write_idx_ b)).
  - u64_simp. eexists. split; [done|].
    split; [split; simpl; unfold cheap_prepend, initial_size, max_size; lia|].
    replace (Z.to_nat (n - (Zlen (buffer_ b) - write_idx_ b))) with O by lia.
    rewrite app_nil_r, Z.min_l by lia. unfold content. simpl.
    replace (write_idx_ b + n - read_idx_ b) with ((write_idx_ b - read_idx_ b) + n) by lia.
    rewrite slice_split by lia. do 2 f_equal. lia.
  - u64_simp. rewrite read_range_ok by (unfold max_size; lia). cbn [mbind outcome_bind].
    assert (wf (set_write (Zlen (buffer_ b)) b)) as Hwf1
      by (split; simpl; unfold cheap_prepend, initial_size, max_size; lia).
    destruct (append_spec (slice 0 (n - (Zlen (buffer_ b) - write_idx_ b)) extrabuf) _ Hwf1)
      as (b' & -> & Hwf' & Hc & _).
    { rewrite Zlen_slice by lia. simpl. unfold max_size. lia. }
    exists b'. split; [done|]. split; [done|]. rewrite Hc, Z.min_r by lia.
    rewrite app_assoc. f_equal. unfold content. simpl.
    replace (Zlen (buffer_ b) - read_idx_ b)
      with ((write_idx_ b - read_idx_ b) + (Zlen (buffer_ b) - write_idx_ b)) by lia.
    rewrite slice_split by lia. do 2 f_equal. lia.
Qed.

(** What [bb_read_fd] makes readable after a successful [read(2)] of [n] bytes on
    Linux: first the bytes the vector already held behind the write index, up to its end,
    then the first [n - writable] bytes received. So the received bytes that fit the
    writable space are never copied out of the local array. The buffer stays well-formed
    and no byte outside either object is touched. *)
Theorem read_fd_content n err extrabuf b :
  wf b → Zlen extrabuf = 65536 → 0 < n ≤ 65536 →
  Zlen (buffer_ b) + 65536 ≤ max_size →
  let writable := Zlen (buffer_ b) - write_idx_ b in
  ∃ b', bb_read_fd n err extrabuf b = Ok (n, None, b') ∧ wf b' ∧
        content b' = content b ++ slice (write_idx_ b) (Z.min n writable) (buffer_ b)
                       ++ take (Z.to_nat (n - writable)) extrabuf.
Proof. apply read_fd_spec. Qed.

Lemma read_fd_content_witness :
  let b := ByteBuffer_ctor 0 in
  let extrabuf := lit "hi" ++ replicate 65534 x00 in
  ∃ b', bb_read_fd 2 0 extrabuf b = Ok (2, None, b') ∧ wf b' ∧
        content b' = content b ++ slice (write_idx_ b) (Z.min 2 (Zlen (buffer_ b) - write_idx_ b)) (buffer_ b)
                       ++ take (Z.to_nat (2 - (Zlen (buffer_ b) - write_idx_ b))) extrabuf.
Proof.
  apply read_fd_content;
    [apply ctor_wf | vm_compute; reflexivity | split; vm_compute; congruence
    | vm_compute; congruence].
Defined.

(** The two bytes of the message are read as two zero bytes. *)
Example read_fd_loses_message :
  (λ r, content r.2) <$> bb_read_fd 2 0 (lit "hi" ++ replicate 65534 x00) (ByteBuffer_ctor 0)
  = Ok [x00; x00].
Proof. vm_compute. reflexivity. Qed.
End read_fd.

(** ** Shrinking *)
Section shrink.

(** With enough room an append only writes behind the write index. *)
Lemma append_in_place data b :
  wf b → Zlen data ≤ bb_bytes_writeable b →
  bb_append data b = Ok (mkByteBuffer (splice (write_idx_ b) data (buffer_ b)) (read_idx_ b)
                           (write_idx_ b + Zlen data)).
Proof.
  intros Hwf Hroom. rewrite writeable_wf in Hroom by done. pose proof (Zlen_nonneg data).
  unfold bb_append, bb_bytes_check_writable. rewrite writeable_wf by done.
  destruct (Z.ltb_spec (Zlen (buffer_ b) - write_idx_ b) (Zlen data)); [lia|].
  cbn [mbind outcome_bind]. destruct Hwf. unfold bb_write_beginning, max_size in *.
  rewrite copy_to_ok by lia. cbn [mbind outcome_bind].
  unfold bb_bytes_written, bb_bytes_writeable. simpl. rewrite Zlen_splice by lia. u64_simp.
  by destruct (Z.ltb_spec (Zlen (buffer_ b) - write_idx_ b) (Zlen data)); [lia|].
Qed.

Lemma string_piece_short b :
  wf b → Zlen (content b) < 2147483648 → bb_2_string_piece b = Ok (content b).
Proof.
  intros Hwf Hl. pose proof (readable_wf b Hwf) as Hrd. pose proof (Zlen_nonneg (content b)).
  rewrite readable_content in Hrd by done.
  unfold bb_2_string_piece. rewrite readable_content, s32_small, u64_small by (done || lia).
  destruct Hwf. unfold max_size in *.
  rewrite read_range_ok by (unfold bb_peek, max_size; lia). by rewrite Hrd.
Qed.

Lemma string_piece_long b :
  wf b → 2147483648 ≤ Zlen (content b) < 4294967296 → bb_2_string_piece b = Stop LengthError.
Proof.
  intros Hwf Hl. unfold bb_2_string_piece. rewrite readable_content by done.
  assert (s32 (Zlen (content b)) = Zlen (content b) - 4294967296) as ->.
  { unfold sintw. change (2 ^ (32 - 1)) with 2147483648. change (2 ^ 32) with 4294967296.
    replace (Zlen (content b) + 2147483648)
      with ((Zlen (content b) - 2147483648) + 1 * 4294967296) by lia.
    rewrite Z.mod_add, Z.mod_small by lia. lia. }
  assert (u64 (Zlen (content b) - 4294967296)
          = Zlen (content b) - 4294967296 + 18446744073709551616) as ->.
  { unfold uintw. change (2 ^ 64) with 18446744073709551616.
    rewrite <- (Z.mod_add _ 1), Z.mod_small by lia. lia. }
  unfold read_range.
  by destruct (Z.ltb_spec max_size
    (Zlen (content b) - 4294967296 + 18446744073709551616)); [|unfold max_size in *; lia].
Qed.

(** [bb_shrink] keeps the readable bytes and leaves a well-formed buffer with room for
    [reserve] more when fewer than 2^31 bytes are readable; with 2^31 up to 2^32 - 1
    readable bytes the cast of the count to [int] makes it throw [std::length_error]. *)
Theorem shrink_preserves_content reserve b :
  wf b → 0 ≤ reserve → Zlen (content b) + reserve ≤ max_size - 64 →
  (Zlen (content b) < 2147483648 →
     ∃ b', bb_shrink reserve b = Ok b' ∧ wf b' ∧ content b' = content b ∧
           reserve ≤ bb_bytes_writeable b') ∧
  (2147483648 ≤ Zlen (content b) < 4294967296 → bb_shrink reserve b = Stop LengthError).
Proof.
  intros Hwf Hres Hmx. pose proof (Zlen_nonneg (content b)).
  unfold bb_shrink. rewrite readable_content by done. unfold max_size in *. u64_simp.
  destruct (check_writable_spec (Zlen (content b) + reserve) (ByteBuffer_ctor initial_size)
    (ctor_wf _)) as (o & -> & Hwfo & Hco & Hroom & Hio & _);
    [change (write_idx_ (ByteBuffer_ctor initial_size)) with 8; unfold max_size; lia|].
  cbn [mbind outcome_bind]. change (write_idx_ (ByteBuffer_ctor initial_size)) with 8 in Hio.
  split; intros Hl; [|by rewrite string_piece_long].
  rewrite string_piece_short by done. cbn [mbind outcome_bind].
  destruct (append_spec (content b) o Hwfo) as (b' & Hb' & Hwf' & Hc' & _);
    [unfold max_size; lia|].
  rewrite append_in_place in Hb' |- * by (done || lia). cbn [mbind outcome_bind]. simplify_eq.
  eexists. split; [done|]. split; [done|]. split; [by rewrite Hco in Hc'|].
  rewrite writeable_wf in Hroom |- * by done. destruct Hwfo. simpl.
  rewrite Zlen_splice by lia. lia.
Qed.

Lemma shrink_preserves_content_witness :
  let b := (bb_retrieve 1 (mkByteBuffer (splice 8 (lit "hello") (replicate 1032 x00)) 8 13)).2 in
  ∃ b', bb_shrink 100 b = Ok b' ∧ wf b' ∧ content b' = content b ∧ 100 ≤ bb_bytes_writeable b'.
Proof.
  apply shrink_preserves_content;
    [split; vm_compute; congruence | lia | vm_compute; congruence | vm_compute; reflexivity].
Defined.
End shrink.

(** ** Line extraction *)
Section lines.

Lemma find_from_spec start target b :
  wf b → target ≠ [] → read_idx_ b ≤ start ≤ write_idx_ b →
  let range := slice start (write_idx_ b - start) (buffer_ b) in
  match find_from start target b with
  | Some p => ∃ line rest, range = line ++ target ++ rest ∧ p = start + Zlen line ∧
                ∀ j, (j < length line)%nat → starts_with target (drop j range) = false
  | None => ∀ j, starts_with target (drop j range) = false
  end.
Proof.
  intros Hwf Ht Hs range. unfold find_from, bb_write_beginning. fold range.
  destruct (search target range) as [i|] eqn:E; [|by apply search_None].
  apply search_Some in E as ([k Hk] & Hlen & Hmin).
  assert (0 < length target)%nat by (destruct target; [done | simpl; lia]).
  destruct (Nat.eqb_spec i (length range)); [lia|].
  exists (take i range), k. unfold Zlen. rewrite length_take, Nat.min_l by lia. auto.
Qed.

(** Splitting off a line: if [bb_find_CLRF] finds a position, the readable bytes are a
    line without CR LF in it, CR LF, and a rest, and [bb_retrieve_until] to the position
    after the CR LF succeeds and leaves the rest; if it finds none, no CR LF is readable. *)
Theorem find_CLRF_splits_line b :
  wf b →
  match bb_find_CLRF b with
  | Some p =>
      ∃ line rest b', content b = line ++ CLRF_ ++ rest ∧ p = read_idx_ b + Zlen line ∧
        (∀ j, (j < length line)%nat → starts_with CLRF_ (drop j (content b)) = false) ∧
        bb_retrieve_until (p + 2) b = (true, b') ∧ wf b' ∧ content b' = rest
  | None => ∀ j, starts_with CLRF_ (drop j (content b)) = false
  end.
Proof.
  intros Hwf. pose proof (find_from_spec (bb_peek b) CLRF_ b Hwf ltac:(done)) as H.
  unfold bb_find_CLRF, bb_peek in *. fold (content b) in H.
  specialize (H ltac:(destruct Hwf; lia)). cbv zeta in H.
  destruct (find_from (read_idx_ b) CLRF_ b) as [p|]; [|done].
  destruct H as (line & rest & Hc & -> & Hmin). exists line, rest.
  pose proof (readable_wf b Hwf) as Hrd. rewrite readable_content in Hrd by done.
  pose proof (Zlen_nonneg line). pose proof (Zlen_nonneg rest).
  assert (Zlen (content b) = Zlen line + 2 + Zlen rest) as Hl
    by (rewrite Hc, !Zlen_app; change (Zlen CLRF_) with 2; lia).
  destruct (retrieve_spec (Zlen line + 2) b Hwf ltac:(lia)) as (Hwf' & _ & _ & Hr).
  rewrite bool_decide_eq_true_2 in Hr by lia. destruct Hr as [_ Hc'].
  exists (bb_retrieve (Zlen line + 2) b).2. do 3 (split; [done|]).
  unfold bb_retrieve_until, bb_peek, bb_write_beginning.
  destruct (Z.ltb_spec (read_idx_ b + Zlen line + 2) (read_idx_ b)); [lia|].
  destruct (Z.ltb_spec (write_idx_ b) (read_idx_ b + Zlen line + 2)); [lia|].
  replace (read_idx_ b + Zlen line + 2 - read_idx_ b) with (Zlen line + 2) by lia.
  assert (Zlen line + 2 ≤ max_size) by (destruct Hwf; lia). unfold max_size in *.
  rewrite u64_small by lia.
  split; [done|]. split; [done|]. rewrite Hc', Hc, app_assoc.
  apply drop_app_length'. rewrite length_app. unfold Zlen. simpl. lia.
Qed.

Lemma find_CLRF_splits_line_witness :
  let b := mkByteBuffer (splice 8 (lit "GET" ++ CLRF_ ++ lit "x") (replicate 1032 x00)) 8 14 in
  match bb_find_CLRF b with
  | Some p =>
      ∃ line rest b', content b = line ++ CLRF_ ++ rest ∧ p = read_idx_ b + Zlen line ∧
        (∀ j, (j < length line)%nat → starts_with CLRF_ (drop j (content b)) = false) ∧
        bb_retrieve_until (p + 2) b = (true, b') ∧ wf b' ∧ content b' = rest
  | None => ∀ j, starts_with CLRF_ (drop j (content b)) = false
  end.
Proof. apply find_CLRF_splits_line. split; vm_compute; congruence. Defined.
End lines.
