(* ===== verification/ProtocolStream.v ===== *)
(** * The binary protocol: [network/protocol_stream.h], [network/protocol_stream.cpp]

    Checksum, 7-bit length encoding, and the packet reader and writer. A [const char*]
    parameter is the object it points to (a list of bytes) and positions are offsets into
    it; a read outside the object is the fault [OutOfBounds]. Out parameters are returned. *)
From S2P Require Import Prelude Endian ByteBuffer.

(** The anonymous enum of the header. *)
Definition TEXT_PACKLEN_LEN : Z := 4.
Definition TEXT_PACKAGE_MAXLEN : Z := 65535.
Definition BINARY_PACKLEN_LEN : Z := 2.
Definition BINARY_PACKAGE_MAXLEN : Z := 65535.
Definition TEXT_PACKLEN_LEN_2 : Z := 6.
Definition TEXT_PACKAGE_MAXLEN_2 : Z := 16777215.
Definition BINARY_PACKLEN_LEN_2 : Z := 4.
Definition BINARY_PACKAGE_MAXLEN_2 : Z := 268435456.
Definition CHECKSUM_LEN : Z := 2.

(** ** Checksum *)

(** The two summing steps: 16-bit words in memory order, then an odd byte; [cksum] is a
    32-bit [unsigned int]. *)
Fixpoint sum_words (bs : bytes) (cksum : Z) : Z :=
  match bs with
  | b0 :: b1 :: bs' => sum_words bs' (u32 (cksum + le_Z [b0; b1]))
  | [b0] => u32 (cksum + Z_of_byte b0)
  | [] => cksum
  end.

(** [while (cksum >> 16) ...]; each step lowers a value above 0xffff. *)
Fixpoint fold_carries (fuel : nat) (cksum : Z) : Z :=
  if Z.shiftr cksum 16 =? 0 then cksum
  else match fuel with
       | O => cksum
       | S f => fold_carries f (u32 (Z.shiftr cksum 16 + Z.land cksum 65535))
       end.

(** A negative [size] skips the loop and reads one byte. *)
Definition checksum (buffer : bytes) (size : Z) : outcome Z :=
  data ← read_range 0 (if size <? 0 then 1 else size) buffer;
  Ok (u16 (Z.lnot (fold_carries 3 (sum_words data 0)))).

(** ** 7-bit encoding *)
Fixpoint write7_loop (fuel : nat) (value : Z) : bytes :=
  match fuel with
  | O => []
  | S f =>
      let c := Z.land value 127 in
      let value' := Z.shiftr value 7 in
      if value' =? 0 then [byte_of_Z c]
      else byte_of_Z (Z.lor c 128) :: write7_loop f value'
  end.

(** 32 bits need at most five groups of seven, 64 bits at most ten. *)
Definition write7BitEncoded_u32 (value : Z) (buf : bytes) : bytes := buf ++ write7_loop 5 value.
Definition write7BitEncoded_u64 (value : Z) (buf : bytes) : bytes := buf ++ write7_loop 10 value.

(** [w] is the width of [value]; the [len] parameter is not used by the source. *)
Fixpoint read7_loop (w : Z) (buf : bytes) (bitCount value : Z) : outcome Z :=
  match buf with
  | [] => Stop OutOfBounds
  | c :: buf' =>
      if w <=? bitCount then Stop BadShift
      else
        let x := uintw w (Z.shiftl (Z.land (Z_of_byte c) 127) bitCount) in
        let value' := uintw w (value + x) in
        if Z.land (Z_of_byte c) 128 =? 0 then Ok value'
        else read7_loop w buf' (bitCount + 7) value'
  end.

Definition read7BitEncoded_u32 (buf : bytes) (len : Z) : outcome Z := read7_loop 32 buf 0 0.
Definition read7BitEncoded_u64 (buf : bytes) (len : Z) : outcome Z := read7_loop 64 buf 0 0.

(** ** [BinaryStreamReader] *)
Record BinaryStreamReader := mkReader {
  ptr : bytes;      (* the object [ptr] points to *)
  len : Z;          (* the constructor's length argument *)
  cur : Z;          (* [cur - ptr] *)
}.

Definition set_cur (c : Z) (r : BinaryStreamReader) : BinaryStreamReader :=
  mkReader (ptr r) (len r) c.

Definition BinaryStreamReader_ctor (ptr_ : bytes) (len_ : Z) : BinaryStreamReader :=
  mkReader ptr_ len_ (BINARY_PACKLEN_LEN_2 + CHECKSUM_LEN).

Definition IsEmpty (r : BinaryStreamReader) : bool := len r <=? BINARY_PACKLEN_LEN_2.
Definition GetSize (r : BinaryStreamReader) : Z := len r.
Definition GetData (r : BinaryStreamReader) : bytes := ptr r.
Definition GetCurrent (r : BinaryStreamReader) : Z := cur r.

(** The loop of [ReadLengthWithoutOffset]: at most five single-byte copies from [temp]
    into [buf], stopping after a byte without the continuation bit. *)
Fixpoint fetch_header (n : nat) (temp : Z) (r : BinaryStreamReader) : outcome bytes :=
  match n with
  | O => Ok []
  | S n' =>
      m ← read_range temp 1 (ptr r);
      if bool_decide (Z.land (le_Z m) 128 = 0) then Ok m
      else rest ← fetch_header n' (temp + 1) r; Ok (m ++ rest)
  end.

(** [None] is [false]; on success the header's length and the field's length. Only the
    bytes of [buf] that were copied are part of the list given to [read7BitEncoded]: it
    reads past them only when all five carry the continuation bit, which is past [buf]. *)
Definition ReadLengthWithoutOffset (r : BinaryStreamReader) : outcome (option (Z * Z)) :=
  buf ← fetch_header 5 (cur r) r;
  let headlen := Zlen buf in
  if len r <? cur r + headlen then Ok None
  else value ← read7BitEncoded_u32 buf headlen; Ok (Some (headlen, value)).

Definition ReadLength (r : BinaryStreamReader) : outcome (option Z * BinaryStreamReader) :=
  h ← ReadLengthWithoutOffset r;
  match h with
  | None => Ok (None, r)
  | Some (headlen, outlen) => Ok (Some outlen, set_cur (cur r + headlen) r)
  end.

(** What a string read reports: [StrFail] is [false] with [outlen] untouched,
    [StrTruncated] is [false] with [outlen = 0], [StrOk] is [true] with [outlen] the length
    of the bytes delivered. *)
Inductive str_result := StrFail | StrTruncated | StrOk (data : bytes).

(** The common body: [refuse fieldlen] is the caller's capacity test. *)
Definition read_field (refuse : Z → bool) (r : BinaryStreamReader)
    : outcome (str_result * BinaryStreamReader) :=
  h ← ReadLengthWithoutOffset r;
  match h with
  | None => Ok (StrFail, r)
  | Some (headlen, fieldlen) =>
      if refuse fieldlen then Ok (StrFail, r)
      else
        let r1 := set_cur (cur r + headlen) r in
        if len r <? cur r1 + fieldlen then Ok (StrTruncated, r1)
        else data ← read_range (cur r1) fieldlen (ptr r);
             Ok (StrOk data, set_cur (cur r1 + fieldlen) r1)
  end.

Definition ReadCString (strlen : Z) (r : BinaryStreamReader)
    : outcome (str_result * BinaryStreamReader) :=
  read_field (λ fieldlen, strlen <? fieldlen) r.

Definition ReadString (maxlen : Z) (r : BinaryStreamReader)
    : outcome (str_result * BinaryStreamReader) :=
  read_field (λ fieldlen, negb (maxlen =? 0) && (maxlen <? fieldlen)) r.

(** [ReadCCString] hands out a pointer into the packet; the bytes it refers to are
    returned. *)
Definition ReadCCString (maxlen : Z) (r : BinaryStreamReader)
    : outcome (str_result * BinaryStreamReader) :=
  read_field (λ fieldlen, negb (maxlen =? 0) && (maxlen <? fieldlen)) r.

Definition ReadInt32 (r : BinaryStreamReader) : outcome (option Z * BinaryStreamReader) :=
  if len r <? cur r + 4 then Ok (None, r)
  else m ← read_range (cur r) 4 (ptr r);
       let i := s32 (le_Z m) in
       Ok (Some (s32 (bswap 4 (u32 i))), set_cur (cur r + 4) r).

Definition ReadShort (r : BinaryStreamReader) : outcome (option Z * BinaryStreamReader) :=
  if len r <? cur r + 2 then Ok (None, r)
  else m ← read_range (cur r) 2 (ptr r);
       let i := s16 (le_Z m) in
       Ok (Some (s16 (bswap 2 (u16 i))), set_cur (cur r + 2) r).

Definition ReadChar (r : BinaryStreamReader) : outcome (option Z * BinaryStreamReader) :=
  if len r <? cur r + 1 then Ok (None, r)
  else m ← read_range (cur r) 1 (ptr r);
       Ok (Some (s8 (le_Z m)), set_cur (cur r + 1) r).

(** [atoll] on the bytes of an array: white space, a sign, digits; the value saturates as
    glibc's does. Running off the array is a fault. *)
Definition is_space (c : byte) : bool :=
  (Z_of_byte c =? 32) || ((9 <=? Z_of_byte c) && (Z_of_byte c <=? 13)).

Fixpoint atoll_digits (a : bytes) (acc : Z) : outcome Z :=
  match a with
  | [] => Stop OutOfBounds
  | c :: a' => if is_digit c then atoll_digits a' (acc * 10 + digit_value c) else Ok acc
  end.

Definition saturate64 (z : Z) : Z :=
  Z.max (-9223372036854775808) (Z.min 9223372036854775807 z).

Fixpoint atoll (a : bytes) : outcome Z :=
  match a with
  | [] => Stop OutOfBounds
  | c :: a' =>
      if is_space c then atoll a'
      else if bool_decide (c = x2d) then n ← atoll_digits a' 0; Ok (saturate64 (- n))
      else if bool_decide (c = x2b) then n ← atoll_digits a' 0; Ok (saturate64 n)
      else n ← atoll_digits a 0; Ok (saturate64 n)
  end.

(** The text is copied to the front of a zeroed array of 128 bytes. *)
Definition ReadInt64 (r : BinaryStreamReader) : outcome (option Z * BinaryStreamReader) :=
  '(res, r1) ← ReadCString 128 r;
  match res with
  | StrOk data => i ← atoll (splice 0 data (replicate 128 x00)); Ok (Some i, r1)
  | _ => Ok (None, r1)
  end.

Definition ReadAll (iLen : Z) (r : BinaryStreamReader) : outcome bytes :=
  let iRealLen := Z.min iLen (len r) in read_range 0 iRealLen (ptr r).

(** The [assert] aborts when the cursor is past the end. *)
Definition IsEnd (r : BinaryStreamReader) : outcome bool :=
  if len r <? cur r then Stop Terminated else Ok (cur r =? len r).

(** ** [BinaryStreamWriter] on the string [data_]

    [junk] is the uninitialised local array of six bytes that reserves the header. *)
Definition BinaryStreamWriter_ctor (junk : bytes) : bytes := [] ++ junk.
Definition Writer_Clear (junk : bytes) (data_ : bytes) : bytes := [] ++ junk.

Definition WriteCString (str : bytes) (data_ : bytes) : bytes :=
  let buf := write7BitEncoded_u64 (Zlen str) [] in (data_ ++ buf) ++ str.

Definition WriteString (str : bytes) (data_ : bytes) : bytes := WriteCString str data_.
Definition Writer_GetData (data_ : bytes) : bytes := data_.
Definition Writer_GetSize (data_ : bytes) : Z := Zlen data_.
Definition GetCurrentPos (data_ : bytes) : Z := Zlen data_.

Definition WriteInt32 (i : Z) (isNULL : bool) (data_ : bytes) : bytes :=
  let i2 := if isNULL then 999999999 else s32 (bswap 4 (u32 i)) in
  data_ ++ le_bytes 4 i2.

Definition WriteInt64 (value : Z) (isNULL : bool) (data_ : bytes) : bytes :=
  if isNULL then WriteCString [] data_ else WriteCString (dec value) data_.

Definition WriteShort (i : Z) (isNULL : bool) (data_ : bytes) : bytes :=
  let i2 := if isNULL then 0 else s16 (bswap 2 (u16 i)) in
  data_ ++ le_bytes 2 i2.

Definition WriteChar (c : Z) (isNULL : bool) (data_ : bytes) : bytes :=
  let c2 := if isNULL then 0 else c in data_ ++ le_bytes 1 c2.

(** [sprintf("%f")] of a [double] is a parameter; its text and the terminating NUL must
    fit the array of 128 bytes. *)
Definition WriteDouble {double : Type} (sprintf_f : double → bytes)
    (value : double) (isNULL : bool) (data_ : bytes) : outcome bytes :=
  if isNULL then Ok (WriteCString [] data_)
  else if 128 <? Zlen (sprintf_f value) + 1 then Stop OutOfBounds
  else Ok (WriteCString (sprintf_f value) data_).

(** [Flush] overwrites the first four bytes with the total length. *)
Definition Flush (data_ : bytes) : outcome bytes :=
  let ulen := bswap 4 (u32 (Zlen data_)) in copy_to 0 (le_bytes 4 ulen) data_.

(** ** The checksum is a verifiable one's complement sum *)
Section checksum_facts.

Lemma shiftr_16 z : Z.shiftr z 16 = z / 65536.
Proof. apply Z.shiftr_div_pow2. lia. Qed.

Lemma land_65535 z : Z.land z 65535 = z mod 65536.
Proof. apply (Z.land_ones z 16). lia. Qed.

(** The end value of the carry loop: the representative of the sum modulo 65535 in
    [1 .. 65535], or 0 for the sum 0. Three rounds suffice for any 32-bit sum. *)
Definition ones_sum (c : Z) : Z := if c =? 0 then 0 else (c - 1) mod 65535 + 1.

Lemma ones_sum_small c : 0 ≤ c < 65536 → ones_sum c = c.
Proof. intros. unfold ones_sum. destruct (Z.eqb_spec c 0); [lia|]. rewrite Z.mod_small; lia. Qed.

Lemma ones_sum_step c : 65536 ≤ c → ones_sum (c / 65536 + c mod 65536) = ones_sum c.
Proof.
  intros. unfold ones_sum.
  pose proof (Z.div_mod c 65536 ltac:(lia)). pose proof (Z.mod_pos_bound c 65536 ltac:(lia)).
  assert (1 ≤ c / 65536) by (apply Z.div_le_lower_bound; lia).
  destruct (Z.eqb_spec (c / 65536 + c mod 65536) 0); [lia|].
  destruct (Z.eqb_spec c 0); [lia|]. f_equal.
  replace (c - 1) with (c / 65536 + c mod 65536 - 1 + c / 65536 * 65535) by lia.
  by rewrite Z.mod_add by lia.
Qed.

Lemma fold_carries_spec fuel c :
  0 ≤ c < 4294967296 →
  match fuel with O => c < 65536 | S O => c ≤ 131070 | _ => True end →
  fold_carries fuel c = ones_sum c.
Proof.
  revert c. induction fuel as [|f IH]; intros c Hc Hf; cbn [fold_carries];
    rewrite shiftr_16; pose proof (Z.div_mod c 65536 ltac:(lia));
    pose proof (Z.mod_pos_bound c 65536 ltac:(lia));
    destruct (Z.eqb_spec (c / 65536) 0); try (symmetry; apply ones_sum_small; lia).
  assert (0 ≤ c / 65536) by (apply Z.div_pos; lia).
  assert (65536 ≤ c) by lia.
  rewrite land_65535, u32_small by lia.
  rewrite IH; [by apply ones_sum_step | lia |].
  destruct f as [|[|f]]; cbv beta iota in Hf |- *; [lia | lia | done].
Qed.

(** The unbounded sum of the words. *)
Fixpoint word_sum (bs : bytes) : Z :=
  match bs with
  | b0 :: b1 :: bs' => le_Z [b0; b1] + word_sum bs'
  | [b0] => Z_of_byte b0
  | [] => 0
  end.

Lemma word_sum_bound k bs :
  (length bs ≤ 2 * k)%nat → 0 ≤ word_sum bs ≤ 65535 * Z.of_nat k.
Proof.
  revert bs. induction k as [|k IH]; intros bs Hk.
  - destruct bs; simpl in *; lia.
  - destruct bs as [|b0 [|b1 bs]]; cbn [word_sum].
    + lia.
    + pose proof (Z_of_byte_range b0). lia.
    + pose proof (le_Z_range [b0; b1]) as H. change (256 ^ Z.of_nat (length [b0; b1])) with 65536 in H.
      simpl in Hk. specialize (IH bs ltac:(lia)). lia.
Qed.

Lemma sum_words_exact k bs c :
  (length bs ≤ 2 * k)%nat → 0 ≤ c → c + word_sum bs < 4294967296 →
  sum_words bs c = c + word_sum bs.
Proof.
  revert bs c. induction k as [|k IH]; intros bs c Hk Hc Hb.
  - destruct bs; simpl in *; lia.
  - destruct bs as [|b0 [|b1 bs]]; cbn [word_sum sum_words] in *.
    + lia.
    + pose proof (Z_of_byte_range b0). rewrite u32_small; lia.
    + simpl in Hk. pose proof (word_sum_bound k bs ltac:(lia)).
      pose proof (le_Z_range [b0; b1]).
      rewrite u32_small, IH by lia. lia.
Qed.

Lemma word_sum_app k bs tl :
  (length bs = 2 * k)%nat → word_sum (bs ++ tl) = word_sum bs + word_sum tl.
Proof.
  revert bs. induction k as [|k IH]; intros bs Hk.
  - by destruct bs; [|simpl in Hk; lia].
  - destruct bs as [|b0 [|b1 bs]]; simpl in Hk; try lia.
    cbn [word_sum app]. rewrite IH by lia. lia.
Qed.

(** The checksum of a buffer whose sum does not overflow 32 bits. *)
Lemma checksum_value k bs :
  (length bs ≤ 2 * k)%nat → Z.of_nat k ≤ 65536 →
  checksum bs (Zlen bs) = Ok (65535 - ones_sum (word_sum bs)).
Proof.
  intros Hk Hmax. unfold checksum. pose proof (Zlen_nonneg bs).
  destruct (Z.ltb_spec (Zlen bs) 0); [lia|].
  rewrite read_range_ok by (unfold max_size, Zlen in *; lia). rewrite slice_all.
  cbn [mbind outcome_bind]. f_equal.
  pose proof (word_sum_bound k bs Hk) as Hw.
  rewrite (sum_words_exact k), Z.add_0_l by lia.
  rewrite fold_carries_spec by (done || lia).
  assert (0 ≤ ones_sum (word_sum bs) ≤ 65535) as Ho.
  { unfold ones_sum. destruct (Z.eqb_spec (word_sum bs) 0); [lia|].
    pose proof (Z.mod_pos_bound (word_sum bs - 1) 65535 ltac:(lia)). lia. }
  unfold Z.lnot, uintw. change (2 ^ 16) with 65536.
  replace (Z.pred (- ones_sum (word_sum bs)))
    with ((65535 - ones_sum (word_sum bs)) + (-1) * 65536) by lia.
  rewrite Z.mod_add, Z.mod_small by lia. done.
Qed.

Lemma ones_sum_range c : 0 ≤ c → 0 ≤ ones_sum c ≤ 65535.
Proof.
  intros Hc. unfold ones_sum. destruct (Z.eqb_spec c 0); [lia|].
  pose proof (Z.mod_pos_bound (c - 1) 65535 ltac:(lia)). lia.
Qed.

Lemma ones_sum_mod c : ones_sum c mod 65535 = c mod 65535.
Proof.
  unfold ones_sum. destruct (Z.eqb_spec c 0) as [->|]; [done|].
  rewrite Zplus_mod_idemp_l. f_equal. lia.
Qed.

(** The end-around sum is 0xffff exactly for the sums other than 0 that 65535 divides. *)
Lemma ones_sum_full c : 0 ≤ c → ones_sum c = 65535 ↔ c ≠ 0 ∧ c mod 65535 = 0.
Proof.
  intros Hc. pose proof (ones_sum_mod c) as Hm. pose proof (ones_sum_range c Hc) as Hr. split.
  - intros E. rewrite E in Hm. split; [|by rewrite <- Hm]. intros ->. done.
  - intros [Hne E]. rewrite E in Hm. unfold ones_sum in *. destruct (Z.eqb_spec c 0); [done|].
    set (x := (c - 1) mod 65535) in *. destruct (Z.eq_dec x 65534) as [->|]; [done|].
    rewrite Z.mod_small in Hm by lia. pose proof (Z.mod_pos_bound (c - 1) 65535 ltac:(lia)). lia.
Qed.

Lemma word_sum_two c : 0 ≤ c < 65536 → word_sum (le_bytes 2 c) = c.
Proof.
  intros Hc. transitivity (le_Z (le_bytes 2 c)); [by cbn [word_sum le_bytes]; lia|].
  rewrite le_Z_le_bytes. by apply Z.mod_small.
Qed.

(** C18. For up to 2^17 - 2 bytes (as long as the 32-bit accumulator cannot overflow), [checksum]
    is the 16-bit one's complement of the end-around sum of the little-endian words, an odd
    last byte being a word of its own. A buffer of whole words that is sent with its checksum
    behind it verifies: the receiver's [checksum] over both is 0. And a buffer of the same
    length with another sum modulo 65535 does not verify with this checksum. *)
Theorem checksum_verifies (data : bytes) :
  Zlen data ≤ 131070 →
  ∃ c, checksum data (Zlen data) = Ok c ∧ 0 ≤ c < 65536 ∧ c = 65535 - ones_sum (word_sum data) ∧
    ((length data mod 2 = 0)%nat → ∀ got, length got = length data →
       checksum (got ++ le_bytes 2 c) (Zlen (got ++ le_bytes 2 c)) = Ok 0 ↔
         (word_sum got + c ≠ 0 ∧ word_sum got mod 65535 = word_sum data mod 65535)) ∧
    ((length data mod 2 = 0)%nat → checksum (data ++ le_bytes 2 c) (Zlen (data ++ le_bytes 2 c)) = Ok 0).
Proof.
  intros Hmax. exists (65535 - ones_sum (word_sum data)). set (c := 65535 - ones_sum (word_sum data)).
  assert (Hlen : (length data ≤ 2 * Z.to_nat 65535)%nat) by (unfold Zlen in Hmax; lia).
  pose proof (word_sum_bound _ data Hlen) as Hw. pose proof (ones_sum_range (word_sum data) ltac:(lia)) as Ho.
  split; [apply (checksum_value (Z.to_nat 65535)); lia|]. split; [lia|]. split; [done|].
  assert (Hall : (length data mod 2 = 0)%nat → ∀ got, length got = length data →
       checksum (got ++ le_bytes 2 c) (Zlen (got ++ le_bytes 2 c)) = Ok 0 ↔
         (word_sum got + c ≠ 0 ∧ word_sum got mod 65535 = word_sum data mod 65535)).
  { intros He got Hg. destruct (proj1 (Nat.mod_divide (length data) 2 ltac:(lia)) He) as [k Hk].
    pose proof (word_sum_bound k got ltac:(lia)) as Hwg.
    rewrite (checksum_value (S k)) by (rewrite ?length_app, ?length_le_bytes; lia).
    rewrite (word_sum_app k), word_sum_two by lia.
    transitivity (ones_sum (word_sum got + c) = 65535).
    { split; [intros [= E]; lia | intros ->; done]. }
    rewrite ones_sum_full by lia. apply and_iff_compat_l.
    pose proof (ones_sum_mod (word_sum data)) as Hm. rewrite <- Hm.
    assert (Hz : (word_sum got + c) mod 65535 = (word_sum got - ones_sum (word_sum data)) mod 65535).
    { replace (word_sum got + c) with (word_sum got - ones_sum (word_sum data) + 1 * 65535) by lia.
      by rewrite Z.mod_add by lia. }
    rewrite Hz. symmetry. split.
    - intros E. by rewrite Zminus_mod, E, Z.sub_diag.
    - intros E. apply Z.mod_divide in E as [q E]; [|lia].
      replace (word_sum got) with (ones_sum (word_sum data) + q * 65535) by lia. by rewrite Z.mod_add by lia. }
  split; [exact Hall|]. intros He. apply Hall; [done | done|]. split; [|done].
  intros E. assert (word_sum data = 0) as E0 by lia. unfold c in E. by rewrite E0 in E.
Qed.

Lemma checksum_verifies_witness :
  ∃ c, checksum (lit "chat") (Zlen (lit "chat")) = Ok c ∧
       checksum (lit "chat" ++ le_bytes 2 c) (Zlen (lit "chat" ++ le_bytes 2 c)) = Ok 0 ∧
       checksum (lit "chut" ++ le_bytes 2 c) (Zlen (lit "chut" ++ le_bytes 2 c)) ≠ Ok 0.
Proof.
  destruct (checksum_verifies (lit "chat")) as (c & E & _ & _ & Hall & H); [vm_compute; congruence|].
  exists c. split; [exact E|]. split; [exact (H eq_refl)|].
  rewrite (Hall eq_refl (lit "chut") eq_refl). intros [_ Hm]. vm_compute in Hm. congruence.
Defined.
End checksum_facts.

(** ** 7-bit encoding: lengths and round trip *)
Section seven_bit.

Lemma write7_loop_S f v :
  0 ≤ v →
  write7_loop (S f) v =
    if v <? 128 then [byte_of_Z v]
    else byte_of_Z (v mod 128 + 128) :: write7_loop f (v / 128).
Proof.
  intros Hv. cbn [write7_loop]. rewrite land_127, shiftr_7.
  pose proof (Z.mod_pos_bound v 128 ltac:(lia)). pose proof (Z.div_mod v 128 ltac:(lia)).
  destruct (Z.ltb_spec v 128).
  - by rewrite Z.div_small, Z.mod_small by lia.
  - destruct (Z.eqb_spec (v / 128) 0); [lia|]. by rewrite lor_128.
Qed.

(** Enough fuel gives the same bytes as any larger amount. *)
Lemma write7_loop_fuel f f' v :
  0 ≤ v < 128 ^ Z.of_nat f → (0 < f ≤ f')%nat → write7_loop f' v = write7_loop f v.
Proof.
  revert f' v. induction f as [|f IH]; intros f' v Hv Hf; [lia|].
  destruct f' as [|f']; [lia|]. rewrite !write7_loop_S by lia.
  destruct (Z.ltb_spec v 128); [done|]. f_equal.
  rewrite Nat2Z.inj_succ, Z.pow_succ_r in Hv by lia.
  destruct f as [|f]; [simpl in Hv; lia|]. apply IH; [|lia].
  split; [apply Z.div_pos; lia | apply Z.div_lt_upper_bound; lia].
Qed.

Lemma write7_loop_length f v :
  0 ≤ v < 128 ^ Z.of_nat f → (0 < f)%nat → (1 ≤ length (write7_loop f v) ≤ f)%nat.
Proof.
  revert v. induction f as [|f IH]; intros v Hv Hf; [lia|].
  rewrite write7_loop_S by lia. destruct (Z.ltb_spec v 128); [simpl; lia|].
  rewrite Nat2Z.inj_succ, Z.pow_succ_r in Hv by lia.
  destruct f as [|f]; [simpl in Hv; lia|].
  assert (1 ≤ length (write7_loop (S f) (v / 128)) ≤ S f)%nat; [|cbn [length]; lia].
  apply IH; [|lia]. split; [apply Z.div_pos; lia | apply Z.div_lt_upper_bound; lia].
Qed.

(** Every byte but the last carries the continuation bit. *)
Definition more (c : byte) : bool := 128 <=? Z_of_byte c.

Lemma write7_loop_shape f v :
  0 ≤ v < 128 ^ Z.of_nat f → (0 < f)%nat →
  ∃ hd c, write7_loop f v = hd ++ [c] ∧ Forall (λ c, more c = true) hd ∧ more c = false.
Proof.
  revert v. induction f as [|f IH]; intros v Hv Hf; [lia|].
  rewrite write7_loop_S by lia. unfold more in *.
  pose proof (Z.mod_pos_bound v 128 ltac:(lia)).
  destruct (Z.ltb_spec v 128).
  - exists [], (byte_of_Z v). split; [done|]. split; [constructor|].
    rewrite Z_of_byte_of_Z, Z.mod_small by lia. lia.
  - rewrite Nat2Z.inj_succ, Z.pow_succ_r in Hv by lia.
    destruct f as [|f]; [simpl in Hv; lia|].
    destruct (IH (v / 128)) as (hd & c & -> & Hhd & Hc); [|lia|].
    { split; [apply Z.div_pos; lia | apply Z.div_lt_upper_bound; lia]. }
    exists (byte_of_Z (v mod 128 + 128) :: hd), c. split; [done|]. split; [|done].
    constructor; [|done]. rewrite Z_of_byte_of_Z, Z.mod_small by lia. lia.
Qed.

(** The decoder adds the encoded value, shifted, to what it has read so far. *)
Lemma read7_write7 w f v rest bc acc :
  0 ≤ v < 128 ^ Z.of_nat f → (0 < f)%nat → 0 ≤ bc < w → 0 ≤ acc →
  acc + v * 2 ^ bc < 2 ^ w →
  read7_loop w (write7_loop f v ++ rest) bc acc = Ok (acc + v * 2 ^ bc).
Proof.
  revert v bc acc. induction f as [|f IH]; intros v bc acc Hv Hf Hbc Hacc Hmax; [lia|].
  rewrite write7_loop_S by lia.
  pose proof (Z.mod_pos_bound v 128 ltac:(lia)). pose proof (Z.div_mod v 128 ltac:(lia)).
  assert (0 < 2 ^ bc) by (apply Z.pow_pos_nonneg; lia).
  assert (0 ≤ v / 128) by (apply Z.div_pos; lia).
  assert (Hstep : v * 2 ^ bc = v mod 128 * 2 ^ bc + v / 128 * 2 ^ (bc + 7)).
  { rewrite Z.pow_add_r by lia. change (2 ^ 7) with 128. nia. }
  assert (0 < 2 ^ (bc + 7)) by (apply Z.pow_pos_nonneg; lia).
  destruct (Z.ltb_spec v 128); cbn [app read7_loop];
    destruct (Z.leb_spec w bc); try lia;
    rewrite Z_of_byte_of_Z, land_127, land_128, Z.shiftl_mul_pow2 by
      (try apply Z.mod_pos_bound; lia).
  - rewrite (Z.mod_small v 256), (Z.mod_small v 128) by lia.
    destruct (Z.ltb_spec v 128); [|lia]. cbn [Z.eqb].
    rewrite (u_small w (v * 2 ^ bc)), u_small by nia. done.
  - rewrite (Z.mod_small (v mod 128 + 128) 256) by lia.
    destruct (Z.ltb_spec (v mod 128 + 128) 128); [lia|]. cbn [Z.eqb].
    replace ((v mod 128 + 128) mod 128) with (v mod 128)
      by (replace (v mod 128 + 128) with (v mod 128 + 1 * 128) by lia;
          rewrite Z.mod_add, Zmod_mod by lia; done).
    rewrite (u_small w (v mod 128 * 2 ^ bc)), u_small by nia.
    assert (1 ≤ v / 128) by (apply Z.div_le_lower_bound; lia).
    assert (bc + 7 < w).
    { apply (Z.pow_lt_mono_r_iff 2); [lia | lia | nia]. }
    rewrite Nat2Z.inj_succ, Z.pow_succ_r in Hv by lia.
    destruct f as [|f]; [simpl in Hv; lia|].
    rewrite IH; [f_equal; lia | split; [lia | apply Z.div_lt_upper_bound; lia]
                | lia | lia | nia | nia].
Qed.

(** The 7-bit codec: a 32-bit value takes one to five bytes and a 64-bit value one to
    ten, and decoding the bytes, whatever follows them, gives the value back without
    reading further or shifting too far. *)
Theorem seven_bit_roundtrip v32 v64 rest n :
  0 ≤ v32 < 2 ^ 32 → 0 ≤ v64 < 2 ^ 64 →
  (1 ≤ length (write7BitEncoded_u32 v32 []) ≤ 5)%nat ∧
  read7BitEncoded_u32 (write7BitEncoded_u32 v32 [] ++ rest) n = Ok v32 ∧
  (1 ≤ length (write7BitEncoded_u64 v64 []) ≤ 10)%nat ∧
  read7BitEncoded_u64 (write7BitEncoded_u64 v64 [] ++ rest) n = Ok v64.
Proof.
  intros H32 H64. unfold write7BitEncoded_u32, write7BitEncoded_u64, read7BitEncoded_u32,
    read7BitEncoded_u64. cbn [app].
  assert (2 ^ 32 < 128 ^ Z.of_nat 5) by (vm_compute; done).
  assert (2 ^ 64 < 128 ^ Z.of_nat 10) by (vm_compute; done).
  split; [apply write7_loop_length; lia|].
  split; [rewrite read7_write7; rewrite ?Z.mul_1_r; try lia; f_equal; lia|].
  split; [apply write7_loop_length; lia|].
  rewrite read7_write7; rewrite ?Z.mul_1_r; try lia; f_equal; lia.
Qed.

Lemma seven_bit_roundtrip_witness :
  (1 ≤ length (write7BitEncoded_u32 4294967295 []) ≤ 5)%nat ∧
  read7BitEncoded_u32 (write7BitEncoded_u32 4294967295 [] ++ [x80]) 5 = Ok 4294967295 ∧
  (1 ≤ length (write7BitEncoded_u64 300 []) ≤ 10)%nat ∧
  read7BitEncoded_u64 (write7BitEncoded_u64 300 [] ++ [x80]) 5 = Ok 300.
Proof. apply seven_bit_roundtrip; lia. Defined.
End seven_bit.

(** ** Packets: what the writer produces, the reader takes apart *)
Module Packet.

(** The typed fields of a packet body. *)
Inductive field :=
| FInt32 (i : Z) | FInt64 (i : Z) | FShort (i : Z) | FChar (c : Z) | FString (s : bytes).
Inductive kind := KInt32 | KInt64 | KShort | KChar | KString.

Definition kind_of (f : field) : kind :=
  match f with
  | FInt32 _ => KInt32 | FInt64 _ => KInt64 | FShort _ => KShort | FChar _ => KChar
  | FString _ => KString
  end.

(** The value is one of the field's C++ type; lengths are those a 32-bit header can hold. *)
Definition field_ok (f : field) : bool :=
  match f with
  | FInt32 i => (- 2 ^ 31 <=? i) && (i <? 2 ^ 31)
  | FInt64 i => (- 2 ^ 63 <=? i) && (i <? 2 ^ 63)
  | FShort i => (- 2 ^ 15 <=? i) && (i <? 2 ^ 15)
  | FChar c => (- 2 ^ 7 <=? c) && (c <? 2 ^ 7)
  | FString s => Zlen s <? 2 ^ 32
  end.

Definition write (f : field) (data_ : bytes) : bytes :=
  match f with
  | FInt32 i => WriteInt32 i false data_
  | FInt64 i => WriteInt64 i false data_
  | FShort i => WriteShort i false data_
  | FChar c => WriteChar c false data_
  | FString s => WriteString s data_
  end.

(** A whole packet: the constructor, the writes in order, [Flush]. *)
Definition build (junk : bytes) (fs : list field) : outcome bytes :=
  Flush (fold_left (λ d f, write f d) fs (BinaryStreamWriter_ctor junk)).

Definition read (k : kind) (r : BinaryStreamReader)
    : outcome (option field * BinaryStreamReader) :=
  match k with
  | KInt32 => '(x, r') ← ReadInt32 r; Ok (option_map FInt32 x, r')
  | KInt64 => '(x, r') ← ReadInt64 r; Ok (option_map FInt64 x, r')
  | KShort => '(x, r') ← ReadShort r; Ok (option_map FShort x, r')
  | KChar => '(x, r') ← ReadChar r; Ok (option_map FChar x, r')
  | KString => '(x, r') ← ReadString 0 r;
               Ok (match x with StrOk s => Some (FString s) | _ => None end, r')
  end.

(** Reads fields of the given kinds until one fails. *)
Fixpoint read_all (ks : list kind) (r : BinaryStreamReader)
    : outcome (option (list field) * BinaryStreamReader) :=
  match ks with
  | [] => Ok (Some [], r)
  | k :: ks' =>
      '(x, r') ← read k r;
      match x with
      | None => Ok (None, r')
      | Some f => '(fs, r'') ← read_all ks' r'; Ok (option_map (cons f) fs, r'')
      end
  end.

(** The bytes a write appends. *)
Definition field_bytes (f : field) : bytes := write f [].

Lemma write_app f data : write f data = data ++ field_bytes f.
Proof.
  destruct f; unfold field_bytes; simpl; try done;
    unfold WriteInt64, WriteString, WriteCString; by rewrite <- app_assoc.
Qed.

Lemma fold_write_app fs data :
  fold_left (λ d f, write f d) fs data = data ++ (fs ≫= field_bytes).
Proof.
  revert data. induction fs as [|f fs IH]; intros data; cbn [fold_left mbind list_bind].
  - by rewrite app_nil_r.
  - by rewrite IH, write_app, app_assoc.
Qed.

(** A cursor in front of [mid] inside the packet. *)
Definition at_ (r : BinaryStreamReader) (pre mid post : bytes) : Prop :=
  ptr r = pre ++ mid ++ post ∧ cur r = Zlen pre ∧ len r = Zlen (ptr r) ∧
  Zlen (ptr r) ≤ max_size.

Lemma at_split r pre m1 m2 post :
  at_ r pre (m1 ++ m2) post → at_ r pre m1 (m2 ++ post).
Proof. unfold at_. by rewrite <- app_assoc. Qed.

Lemma at_advance r pre m1 m2 post :
  at_ r pre (m1 ++ m2) post → at_ (set_cur (cur r + Zlen m1) r) (pre ++ m1) m2 post.
Proof.
  intros (Hp & Hc & Hl & Hm). unfold at_, set_cur. cbn [ptr cur len].
  rewrite Zlen_app, Hc, Hp, <- !app_assoc in *. done.
Qed.

Lemma at_bound r pre mid post : at_ r pre mid post → cur r + Zlen mid ≤ len r.
Proof.
  intros (Hp & Hc & Hl & Hm). rewrite Hl, Hc, Hp, !Zlen_app.
  pose proof (Zlen_nonneg post). lia.
Qed.

Lemma at_read r pre mid post :
  at_ r pre mid post → read_range (cur r) (Zlen mid) (ptr r) = Ok mid.
Proof.
  intros Hat. pose proof (at_bound _ _ _ _ Hat). destruct Hat as (Hp & Hc & Hl & Hm).
  pose proof (Zlen_nonneg pre).
  rewrite read_range_ok by lia. f_equal.
  rewrite Hc, Hp, app_assoc, slice_app_l by (rewrite ?Zlen_app; pose proof (Zlen_nonneg mid); lia).
  apply slice_app_r.
Qed.

(** The fixed-size integers. *)
Lemma swapped_int_roundtrip n i :
  (0 < n)%nat → let w := 8 * Z.of_nat n in
  - 2 ^ (w - 1) ≤ i < 2 ^ (w - 1) →
  sintw w (bswap n (uintw w (sintw w (le_Z (le_bytes n (sintw w (bswap n (uintw w i)))))))) = i.
Proof.
  intros Hn w Hi. assert (Hw : 256 ^ Z.of_nat n = 2 ^ w)
    by (unfold w; by rewrite Z.pow_mul_r by lia).
  rewrite u_s by lia. rewrite le_Z_le_bytes, Hw. fold (uintw w (sintw w (bswap n (uintw w i)))).
  rewrite u_u, u_s by lia. rewrite (u_small w (bswap _ _)) by (rewrite <- Hw; apply bswap_range).
  rewrite bswap_involutive, Hw. fold (uintw w (uintw w i)).
  by rewrite u_u, s_u, s_small by lia.
Qed.

Lemma fetch_header_at n r pre hd c post :
  at_ r pre (hd ++ [c]) post → Forall (λ c, more c = true) hd → more c = false →
  (length hd < n)%nat → fetch_header n (cur r) r = Ok (hd ++ [c]).
Proof.
  revert r pre n. induction hd as [|x hd IH]; intros r pre n Hat Hhd Hc Hn;
    (destruct n as [|n]; [simpl in Hn; lia|]); cbn [fetch_header].
  - change 1 with (Zlen [c]). rewrite (at_read r pre [c] post) by done.
    cbn [mbind outcome_bind le_Z]. rewrite Z.mul_0_r, Z.add_0_r, land_128 by apply Z_of_byte_range.
    unfold more in Hc. destruct (Z.ltb_spec (Z_of_byte c) 128); [|lia].
    by rewrite bool_decide_eq_true_2.
  - apply Forall_cons_1 in Hhd as [Hx Hhd].
    pose proof (at_split r pre [x] (hd ++ [c]) post Hat) as Hat1.
    change (read_range (cur r) 1 (ptr r)) with (read_range (cur r) (Zlen [x]) (ptr r)).
    rewrite (at_read r pre [x] _ Hat1).
    cbn [mbind outcome_bind le_Z]. rewrite Z.mul_0_r, Z.add_0_r, land_128 by apply Z_of_byte_range.
    unfold more in Hx. destruct (Z.ltb_spec (Z_of_byte x) 128); [lia|].
    rewrite bool_decide_eq_false_2 by done.
    pose proof (at_advance r pre [x] (hd ++ [c]) post Hat) as Hat2.
    change (Zlen [x]) with 1 in Hat2. simpl in Hn.
    specialize (IH _ _ n Hat2 Hhd Hc ltac:(lia)).
    assert (∀ m t, fetch_header m t (set_cur (cur r + 1) r) = fetch_header m t r) as Hsame.
    { induction m as [|m IHm]; intros t; [done|]. cbn [fetch_header set_cur ptr].
      destruct (read_range t 1 (ptr r)); [|done]. cbn [mbind outcome_bind]. by rewrite IHm. }
    rewrite Hsame in IH. cbn [cur set_cur] in IH. rewrite IH. done.
Qed.

Lemma length_header_at r pre v post :
  at_ r pre (write7_loop 10 v) post → 0 ≤ v < 2 ^ 32 →
  ReadLengthWithoutOffset r = Ok (Some (Zlen (write7_loop 10 v), v)).
Proof.
  intros Hat Hv. assert (2 ^ 32 < 128 ^ Z.of_nat 5) by (vm_compute; done).
  assert (E : write7_loop 10 v = write7_loop 5 v) by (apply write7_loop_fuel; lia).
  rewrite E in *.
  destruct (write7_loop_shape 5 v) as (hd & c & Hs & Hhd & Hc); [lia | lia |].
  pose proof (write7_loop_length 5 v ltac:(lia) ltac:(lia)) as Hlen.
  pose proof (at_bound _ _ _ _ Hat) as Hb. unfold ReadLengthWithoutOffset.
  assert (fetch_header 5 (cur r) r = Ok (write7_loop 5 v)) as ->.
  { rewrite Hs in *. rewrite length_app in Hlen. simpl in Hlen.
    apply (fetch_header_at _ _ pre hd c post); [done | done | done | lia]. }
  cbn [mbind outcome_bind]. destruct (Z.ltb_spec (len r) (cur r + Zlen (write7_loop 5 v))); [lia|].
  unfold read7BitEncoded_u32. rewrite <- (app_nil_r (write7_loop 5 v)) at 1.
  rewrite read7_write7 by lia. cbn [mbind outcome_bind]. by rewrite Z.mul_1_r, Z.add_0_l.
Qed.

Lemma read_field_at refuse r pre s post :
  at_ r pre (write7_loop 10 (Zlen s) ++ s) post → Zlen s < 2 ^ 32 → refuse (Zlen s) = false →
  read_field refuse r =
    Ok (StrOk s, set_cur (cur r + Zlen (write7_loop 10 (Zlen s) ++ s)) r).
Proof.
  intros Hat Hs Hr. pose proof (Zlen_nonneg s). unfold read_field.
  rewrite (length_header_at r pre (Zlen s) (s ++ post)) by (by apply at_split || lia).
  cbn [mbind outcome_bind]. rewrite Hr.
  pose proof (at_advance _ _ _ _ _ Hat) as Hat2. pose proof (at_bound _ _ _ _ Hat2) as Hb.
  pose proof (at_read _ _ _ _ Hat2) as Hrd. cbn [set_cur cur ptr len] in *.
  destruct (Z.ltb_spec (len r) (cur r + Zlen (write7_loop 10 (Zlen s)) + Zlen s)); [lia|].
  rewrite Hrd. cbn [mbind outcome_bind]. unfold set_cur. cbn [ptr len cur].
  by rewrite Zlen_app, Z.add_assoc.
Qed.

(** [atoll] of printed text in the zeroed array. *)
Lemma atoll_digits_app ds c rest acc :
  Forall (λ c, is_digit c = true) ds → is_digit c = false →
  atoll_digits (ds ++ c :: rest) acc = Ok (dec_value acc ds).
Proof.
  intros Hds Hc. revert acc. induction Hds as [|d ds Hd _ IH]; intros acc; cbn [app atoll_digits].
  - by rewrite Hc.
  - by rewrite Hd, IH.
Qed.

Lemma splice_front d n : splice 0 d (replicate n x00) = d ++ replicate (n - length d) x00.
Proof. unfold splice. simpl. by rewrite drop_replicate. Qed.

Lemma splice_array d n :
  (length d < n)%nat → ∃ rest, splice 0 d (replicate n x00) = d ++ x00 :: rest.
Proof.
  intros. rewrite splice_front.
  destruct (n - length d)%nat as [|k] eqn:E; [lia|]. by exists (replicate k x00).
Qed.

Lemma dec_pos_length n k : 0 ≤ n < 10 ^ Z.of_nat k → (0 < k)%nat → (length (dec_pos n) ≤ k)%nat.
Proof. intros. pose proof (dec_digits_length (S (Z.to_nat (Z.log2 n))) n [] k). simpl in *. by rewrite Nat.add_0_r in *; auto. Qed.

Lemma atoll_dec i :
  - 2 ^ 63 ≤ i < 2 ^ 63 → atoll (splice 0 (dec i) (replicate 128 x00)) = Ok i.
Proof.
  intros Hi. assert (H : 2 ^ 63 < 10 ^ Z.of_nat 20) by (vm_compute; done).
  assert (x00_digit : is_digit x00 = false) by done.
  assert (Hsat : saturate64 i = i) by (unfold saturate64; lia).
  unfold dec. destruct (Z.ltb_spec i 0).
  - pose proof (dec_pos_length (- i) 20 ltac:(lia) ltac:(lia)).
    destruct (splice_array (x2d :: dec_pos (- i)) 128) as [rest ->]; [simpl; lia|].
    cbn [app atoll]. change (is_space x2d) with false. cbv iota.
    rewrite bool_decide_eq_true_2 by done.
    rewrite atoll_digits_app by (apply dec_pos_digits || done; lia).
    rewrite dec_pos_value by lia. cbn [mbind outcome_bind]. by rewrite Z.opp_involutive, Hsat.
  - pose proof (dec_pos_length i 20 ltac:(lia) ltac:(lia)).
    destruct (splice_array (dec_pos i) 128) as [rest ->]; [lia|].
    pose proof (dec_pos_digits i ltac:(lia)) as Hd. pose proof (dec_pos_value i ltac:(lia)) as Hv.
    pose proof (dec_pos_nonempty i) as Hne.
    clear H. destruct (dec_pos i) as [|c ds]; [destruct (Hne eq_refl)|].
    pose proof (atoll_digits_app (c :: ds) x00 rest 0 Hd x00_digit) as Ha.
    apply Forall_cons_1 in Hd as [Hc _].
    cbn [app atoll]. cbn [app] in Ha. rewrite Ha, Hv. cbn [mbind outcome_bind]. rewrite Hsat.
    unfold is_digit in Hc. unfold is_space.
    repeat rewrite bool_decide_eq_false_2 by (intros ->; done).
    destruct (Z.eqb_spec (Z_of_byte c) 32); [lia|].
    destruct (Z.leb_spec 9 (Z_of_byte c)), (Z.leb_spec (Z_of_byte c) 13); simpl; done || lia.
Qed.

(** One field, wherever it stands in the packet. *)
Lemma read_at f r pre post :
  field_ok f = true → at_ r pre (field_bytes f) post →
  read (kind_of f) r = Ok (Some f, set_cur (cur r + Zlen (field_bytes f)) r).
Proof.
  intros Hok Hat. pose proof (at_bound _ _ _ _ Hat) as Hb. pose proof (at_read _ _ _ _ Hat) as Hr.
  destruct f as [i|i|i|c|s]; unfold field_bytes in *;
    cbn [write read kind_of field_ok] in *; rewrite ?andb_true_iff in Hok.
  - unfold ReadInt32, WriteInt32 in *. cbn [app] in *.
    change (Zlen (le_bytes 4 _)) with 4 in *.
    destruct (Z.ltb_spec (len r) (cur r + 4)); [lia|]. rewrite Hr. cbn [mbind outcome_bind].
    pose proof (swapped_int_roundtrip 4 i ltac:(lia)) as Hs.
    change (8 * Z.of_nat 4) with 32 in Hs. cbv zeta in Hs. by rewrite Hs by lia.
  - unfold WriteInt64, WriteCString, write7BitEncoded_u64 in *. cbn [app] in *.
    assert (Hd : Zlen (dec i) ≤ 128).
    { assert (H64 : 2 ^ 63 < 10 ^ Z.of_nat 20) by (vm_compute; reflexivity).
      unfold dec, Zlen. destruct (Z.ltb_spec i 0); cbn [length].
      - pose proof (dec_pos_length (- i) 20). lia.
      - pose proof (dec_pos_length i 20). lia. }
    unfold ReadInt64, ReadCString. rewrite (read_field_at _ _ pre (dec i) post); [| done | lia | lia].
    cbn [mbind outcome_bind]. rewrite atoll_dec by lia. done.
  - unfold ReadShort, WriteShort in *. cbn [app] in *.
    change (Zlen (le_bytes 2 _)) with 2 in *.
    destruct (Z.ltb_spec (len r) (cur r + 2)); [lia|]. rewrite Hr. cbn [mbind outcome_bind].
    pose proof (swapped_int_roundtrip 2 i ltac:(lia)) as Hs.
    change (8 * Z.of_nat 2) with 16 in Hs. cbv zeta in Hs. by rewrite Hs by lia.
  - unfold ReadChar, WriteChar in *. cbn [app] in *.
    change (Zlen (le_bytes 1 _)) with 1 in *.
    destruct (Z.ltb_spec (len r) (cur r + 1)); [lia|]. rewrite Hr. cbn [mbind outcome_bind].
    rewrite le_Z_le_bytes. change (256 ^ Z.of_nat 1) with (2 ^ 8). fold (u8 c).
    by rewrite s_u, s_small by lia.
  - unfold WriteString, WriteCString, write7BitEncoded_u64 in *. cbn [app] in *.
    unfold ReadString. rewrite (read_field_at _ _ pre s post); [done | done | lia | done].
Qed.

Lemma read_all_at fs r pre post :
  forallb field_ok fs = true → at_ r pre (fs ≫= field_bytes) post →
  read_all (kind_of <$> fs) r =
    Ok (Some fs, set_cur (cur r + Zlen (fs ≫= field_bytes)) r).
Proof.
  revert r pre. induction fs as [|f fs IH]; intros r pre Hok Hat; cbn [read_all fmap list_fmap].
  - change (Zlen _) with 0. rewrite Z.add_0_r. by destruct r.
  - cbn [forallb] in Hok. apply andb_true_iff in Hok as [Hf Hfs]. cbn [mbind list_bind] in Hat |- *.
    rewrite (read_at f r pre (mbind field_bytes fs ++ post)) by (done || by apply at_split).
    cbn [mbind outcome_bind]. rewrite (IH _ (pre ++ field_bytes f)) by (done || by apply at_advance).
    cbn [mbind outcome_bind]. unfold set_cur. cbn [cur ptr len]. rewrite Zlen_app.
    by rewrite Z.add_assoc.
Qed.

(** The round trip of a whole packet. *)
Lemma packet_reads (junk : bytes) (fs : list field) :
  length junk = 6%nat → forallb field_ok fs = true →
  6 + Zlen (fs ≫= field_bytes) < 2 ^ 32 →
  ∃ p r, build junk fs = Ok p ∧
    p = be_bytes 4 (Zlen p) ++ drop 4 junk ++ (fs ≫= field_bytes) ∧
    read_all (kind_of <$> fs) (BinaryStreamReader_ctor p (Zlen p)) = Ok (Some fs, r) ∧
    IsEnd r = Ok true.
Proof.
  intros Hj Hok Hmax. unfold build, BinaryStreamWriter_ctor. rewrite fold_write_app. cbn [app].
  unfold Flush. set (body := fs ≫= field_bytes) in *.
  assert (Hlen : Zlen (junk ++ body) = 6 + Zlen body)
    by (rewrite Zlen_app; unfold Zlen; lia).
  rewrite Hlen, u32_small by (pose proof (Zlen_nonneg body); lia).
  rewrite le_bytes_bswap, copy_to_ok; [| lia |].
  2: { unfold Zlen at 1. rewrite length_be_bytes, Hlen. pose proof (Zlen_nonneg body). lia. }
  unfold splice. rewrite length_be_bytes. change (Z.to_nat 0) with O.
  rewrite take_0. cbn [app Nat.add]. rewrite drop_app_le by lia. set (p := _ ++ _ ++ _).
  assert (Hp : Zlen p = 6 + Zlen body).
  { unfold p. rewrite !Zlen_app, Zlen_drop. unfold Zlen. rewrite length_be_bytes. lia. }
  exists p, (set_cur (Zlen p) (BinaryStreamReader_ctor p (Zlen p))).
  split; [done|]. split; [by rewrite Hp|]. split.
  - rewrite (read_all_at fs _ (be_bytes 4 (6 + Zlen body) ++ drop 4 junk) []); [| done |].
    + do 3 f_equal. unfold BinaryStreamReader_ctor. cbn [cur]. fold body. rewrite Hp. done.
    + unfold at_, BinaryStreamReader_ctor. cbn [ptr cur len]. rewrite app_nil_r.
      split; [unfold p; by rewrite <- app_assoc|]. split; [|split; [done|]].
      * rewrite Zlen_app, Zlen_drop. unfold Zlen. rewrite length_be_bytes.
        change (BINARY_PACKLEN_LEN_2 + CHECKSUM_LEN) with 6. lia.
      * rewrite Hp. unfold max_size. lia.
  - unfold IsEnd. cbn [cur len set_cur BinaryStreamReader_ctor].
    rewrite Z.ltb_irrefl. by rewrite Z.eqb_refl.
Qed.

(** C15. A packet built by the writer from any sequence of typed fields is read back field by
    field by the reader, which ends exactly at its end: the first four bytes are the total
    length in network order and the body is what was written. The two checksum bytes behind
    the length are those of the uninitialised array the constructor appends; nothing fills
    them in. *)
Theorem packet_roundtrip (junk : bytes) (fs : list field) :
  length junk = 6%nat → forallb field_ok fs = true →
  6 + Zlen (fs ≫= field_bytes) < 2 ^ 32 →
  ∃ p r, build junk fs = Ok p ∧
    p = be_bytes 4 (Zlen p) ++ drop 4 junk ++ (fs ≫= field_bytes) ∧
    read_all (kind_of <$> fs) (BinaryStreamReader_ctor p (Zlen p)) = Ok (Some fs, r) ∧
    IsEnd r = Ok true.
Proof. apply packet_reads. Qed.

Lemma packet_roundtrip_witness :
  let fs := [FInt32 (-7); FString (lit "hello"); FInt64 (-9223372036854775808);
             FShort 513; FChar (-1); FString []] in
  ∃ p r, build (replicate 6 xaa) fs = Ok p ∧
    p = be_bytes 4 (Zlen p) ++ drop 4 (replicate 6 xaa) ++ (fs ≫= field_bytes) ∧
    read_all (kind_of <$> fs) (BinaryStreamReader_ctor p (Zlen p)) = Ok (Some fs, r) ∧
    IsEnd r = Ok true.
Proof. apply packet_roundtrip; vm_compute; reflexivity. Defined.
End Packet.

(** ** Memory safety of the reader *)
Section reader_safety.

(** The reader's [len] is the length of the packet and the cursor is inside it. *)
Record reader_ok (r : BinaryStreamReader) : Prop := {
  ro_len : len r = Zlen (ptr r);
  ro_cur : 0 ≤ cur r ≤ len r;
  ro_max : len r ≤ max_size;
}.

(** The bytes from the cursor on. *)
Definition ahead (r : BinaryStreamReader) : bytes := drop (Z.to_nat (cur r)) (ptr r).

(** No byte without continuation bit among the next five. *)
Definition unterminated (bs : bytes) : bool := forallb more (take 5 bs).

Lemma read_byte r t x rest :
  0 ≤ t → drop (Z.to_nat t) (ptr r) = x :: rest →
  read_range t 1 (ptr r) = Ok [x] ∧ drop (Z.to_nat (t + 1)) (ptr r) = rest.
Proof.
  intros Ht E. assert (Hl : t + 1 ≤ Zlen (ptr r)).
  { apply (f_equal length) in E. rewrite length_drop in E. simpl in E. unfold Zlen. lia. }
  rewrite read_range_ok by (unfold max_size; lia). unfold slice. rewrite E. split; [done|].
  rewrite Z2Nat.inj_add, <- drop_drop, E by lia. done.
Qed.

Lemma fetch_header_eq r n t :
  0 ≤ t →
  fetch_header n t r =
    match n, drop (Z.to_nat t) (ptr r) with
    | O, _ => Ok []
    | S _, [] => Stop OutOfBounds
    | S n', x :: _ => if more x then rest ← fetch_header n' (t + 1) r; Ok (x :: rest) else Ok [x]
    end.
Proof.
  intros Ht. destruct n as [|n]; [done|]. cbn [fetch_header].
  destruct (drop (Z.to_nat t) (ptr r)) as [|x rest] eqn:E.
  - assert (Zlen (ptr r) ≤ t).
    { apply (f_equal length) in E. rewrite length_drop in E. simpl in E. unfold Zlen. lia. }
    unfold read_range. by rewrite bool_decide_eq_false_2 by lia.
  - destruct (read_byte r t x rest Ht E) as [-> _]. cbn [mbind outcome_bind le_Z].
    rewrite Z.mul_0_r, Z.add_0_r, land_128 by apply Z_of_byte_range. unfold more.
    destruct (Z.ltb_spec (Z_of_byte x) 128), (Z.leb_spec 128 (Z_of_byte x)); try lia.
    + by rewrite bool_decide_eq_true_2.
    + by rewrite bool_decide_eq_false_2.
Qed.

(** What the copying loop fetches: an unterminated run is copied whole or runs off the
    packet; otherwise the bytes up to the first one without the bit. *)
Lemma fetch_header_cases r n t :
  0 ≤ t ≤ Zlen (ptr r) →
  if forallb more (take n (drop (Z.to_nat t) (ptr r)))
  then fetch_header n t r = Stop OutOfBounds ∨
       (∃ bs, fetch_header n t r = Ok bs ∧ length bs = n ∧ forallb more bs = true ∧
              t + Zlen bs ≤ Zlen (ptr r))
  else ∃ hd c, fetch_header n t r = Ok (hd ++ [c]) ∧ forallb more hd = true ∧ more c = false ∧
       (length hd < n)%nat ∧ t + Zlen (hd ++ [c]) ≤ Zlen (ptr r).
Proof.
  revert t. induction n as [|n IH]; intros t Ht; rewrite fetch_header_eq by lia.
  - right. exists []. change (Zlen []) with 0. split; [done|]. split; [done|]. split; [done | lia].
  - destruct (drop (Z.to_nat t) (ptr r)) as [|x rest] eqn:E; [by left|]. cbn [take forallb].
    destruct (read_byte r t x rest ltac:(lia) E) as [_ Hn].
    apply (f_equal length) in E. rewrite length_drop in E. cbn [length] in E.
    specialize (IH (t + 1) ltac:(unfold Zlen; lia)). rewrite Hn in IH. destruct (more x) eqn:Hx; cbn [andb].
    + destruct (forallb more (take n rest)).
      * destruct IH as [->|(bs & -> & Hlen & Hb & Hbnd)]; [by left | right]. exists (x :: bs).
        cbn [forallb]. rewrite Hx, Hb. unfold Zlen in *. cbn [length].
        repeat split; try done; lia.
      * destruct IH as (hd & c & -> & Hhd & Hc & Hlt & Hb). exists (x :: hd), c.
        cbn [length forallb app]. rewrite Hx, Hhd. unfold Zlen in *. cbn [length].
        repeat split; try done; lia.
    + exists [], x. unfold Zlen in *. cbn [length app]. repeat split; try done; lia.
Qed.

(** Decoding a run: it ends at a byte without the bit, or falls off the array. *)
Lemma read7_loop_unterminated w bs bc v :
  forallb more bs = true → 0 ≤ bc → bc + 7 * Zlen bs ≤ w + 6 →
  read7_loop w bs bc v = Stop OutOfBounds.
Proof.
  revert bc v. induction bs as [|x bs IH]; intros bc v Hm Hbc Hw; [done|].
  cbn [forallb] in Hm. apply andb_true_iff in Hm as [Hx Hm]. unfold Zlen in *.
  cbn [length read7_loop] in *. destruct (Z.leb_spec w bc); [lia|].
  rewrite land_128 by apply Z_of_byte_range. unfold more in Hx.
  destruct (Z.ltb_spec (Z_of_byte x) 128); [lia|]. cbn [Z.eqb]. apply IH; [done | lia | lia].
Qed.

Lemma read7_loop_terminated w hd c bc v :
  forallb more hd = true → more c = false → 0 ≤ bc → 0 ≤ w → bc + 7 * Zlen hd < w →
  ∃ v', read7_loop w (hd ++ [c]) bc v = Ok v' ∧ 0 ≤ v' < 2 ^ w.
Proof.
  revert bc v. induction hd as [|x hd IH]; intros bc v Hm Hc Hbc Hw0 Hw; unfold Zlen in *;
    cbn [length app read7_loop forallb] in *; (destruct (Z.leb_spec w bc); [lia|]);
    rewrite land_128 by apply Z_of_byte_range; unfold more in *.
  - destruct (Z.ltb_spec (Z_of_byte c) 128); [|lia]. cbn [Z.eqb]. eexists. split; [done|].
    by apply u_range.
  - apply andb_true_iff in Hm as [Hx Hm].
    destruct (Z.ltb_spec (Z_of_byte x) 128); [lia|]. cbn [Z.eqb]. apply IH; try done; lia.
Qed.

Lemma header_cases r :
  reader_ok r →
  if unterminated (ahead r) then ReadLengthWithoutOffset r = Stop OutOfBounds
  else ∃ headlen v, ReadLengthWithoutOffset r = Ok (Some (headlen, v)) ∧
         1 ≤ headlen ≤ 5 ∧ cur r + headlen ≤ len r ∧ 0 ≤ v < 2 ^ 32.
Proof.
  intros [Hl Hc Hm]. pose proof (fetch_header_cases r 5 (cur r) ltac:(lia)) as H.
  unfold unterminated, ahead, ReadLengthWithoutOffset.
  destruct (forallb more (take 5 (drop (Z.to_nat (cur r)) (ptr r)))).
  - destruct H as [->|(bs & -> & Hlen & Hb & Hbnd)]; [done|]. cbn [mbind outcome_bind].
    destruct (Z.ltb_spec (len r) (cur r + Zlen bs)); [lia|]. unfold read7BitEncoded_u32.
    rewrite read7_loop_unterminated; [done | done | lia | unfold Zlen; lia].
  - destruct H as (hd & c & -> & Hhd & Hcc & Hlt & Hb). cbn [mbind outcome_bind].
    destruct (Z.ltb_spec (len r) (cur r + Zlen (hd ++ [c]))); [lia|].
    destruct (read7_loop_terminated 32 hd c 0 0) as (v & E & Hv); try done;
      [unfold Zlen; lia|].
    exists (Zlen (hd ++ [c])), v. unfold read7BitEncoded_u32. rewrite E.
    split; [done|]. rewrite Zlen_app in *. unfold Zlen in *. cbn [length] in *.
    repeat split; lia.
Qed.

(** The common shape of the fixed-size reads. *)
Lemma fixed_read_safe n (g : bytes → Z) r :
  0 ≤ n ≤ 8 → reader_ok r →
  ∃ x r1,
    (if len r <? cur r + n then Ok (None, r)
     else m ← read_range (cur r) n (ptr r); Ok (Some (g m), set_cur (cur r + n) r)) = Ok (x, r1) ∧
    reader_ok r1 ∧ (x = None → r1 = r).
Proof.
  intros Hn Hok. pose proof Hok as [Hl Hc Hm].
  destruct (Z.ltb_spec (len r) (cur r + n)); [by exists None, r|].
  rewrite read_range_ok by (unfold max_size; lia). cbn [mbind outcome_bind].
  do 2 eexists. split; [done|]. split; [|done]. constructor; cbn [len ptr cur set_cur]; lia.
Qed.

(** C16. Reading from a packet the peer controls. The fixed-size reads and the end test are
    memory-safe, keep the cursor inside the packet and leave it where it was on failure. A
    string or length read runs outside its array exactly when the next five bytes (or all
    the bytes left, if fewer) carry the continuation bit, in particular at the end of the
    packet: the bounds test stands behind the copies it should guard, so its [return false]
    is never reached. Otherwise the read is safe too. *)
Theorem reader_memory_safety (r : BinaryStreamReader) (maxlen : Z) :
  reader_ok r →
  (∃ x r1, ReadInt32 r = Ok (x, r1) ∧ reader_ok r1 ∧ (x = None → r1 = r)) ∧
  (∃ x r1, ReadShort r = Ok (x, r1) ∧ reader_ok r1 ∧ (x = None → r1 = r)) ∧
  (∃ x r1, ReadChar r = Ok (x, r1) ∧ reader_ok r1 ∧ (x = None → r1 = r)) ∧
  (∃ b, IsEnd r = Ok b) ∧
  (if unterminated (ahead r)
   then ReadString maxlen r = Stop OutOfBounds ∧ ReadCString maxlen r = Stop OutOfBounds ∧
        ReadLength r = Stop OutOfBounds
   else (∃ x r1, ReadString maxlen r = Ok (x, r1) ∧ reader_ok r1) ∧
        (∃ x r1, ReadCString maxlen r = Ok (x, r1) ∧ reader_ok r1) ∧
        (∃ v r1, ReadLength r = Ok (Some v, r1) ∧ reader_ok r1)).
Proof.
  intros Hok. pose proof Hok as [Hl Hc Hm].
  split; [|split; [|split; [|split]]].
  - exact (fixed_read_safe 4 (λ m, s32 (bswap 4 (u32 (s32 (le_Z m))))) r ltac:(lia) Hok).
  - exact (fixed_read_safe 2 (λ m, s16 (bswap 2 (u16 (s16 (le_Z m))))) r ltac:(lia) Hok).
  - exact (fixed_read_safe 1 (λ m, s8 (le_Z m)) r ltac:(lia) Hok).
  - unfold IsEnd. destruct (Z.ltb_spec (len r) (cur r)); [lia|]. eauto.
  - pose proof (header_cases r Hok) as H. destruct (unterminated (ahead r)).
    + unfold ReadString, ReadCString, read_field, ReadLength. by rewrite H.
    + destruct H as (hl & v & H & Hhl & Hb & Hv).
      assert (Hf : ∀ refuse, ∃ x r1, read_field refuse r = Ok (x, r1) ∧ reader_ok r1).
      { intros refuse. unfold read_field. rewrite H. cbn [mbind outcome_bind].
        destruct (refuse v); [by exists StrFail, r|]. cbn [set_cur cur ptr len].
        destruct (Z.ltb_spec (len r) (cur r + hl + v)).
        - do 2 eexists. split; [done|]. constructor; cbn [len ptr cur set_cur]; lia.
        - rewrite read_range_ok by (unfold max_size; lia). cbn [mbind outcome_bind].
          do 2 eexists. split; [done|]. constructor; cbn [len ptr cur set_cur]; lia. }
      split; [apply Hf | split; [apply Hf |]]. unfold ReadLength. rewrite H.
      cbn [mbind outcome_bind]. do 2 eexists. split; [done|].
      constructor; cbn [len ptr cur set_cur]; lia.
Qed.

Lemma reader_memory_safety_witness :
  let r := BinaryStreamReader_ctor (replicate 6 x00 ++ replicate 9 xff) 15 in
  reader_ok r ∧ unterminated (ahead r) = true ∧ ReadString 0 r = Stop OutOfBounds.
Proof.
  cbv zeta.
  assert (H : reader_ok (BinaryStreamReader_ctor (replicate 6 x00 ++ replicate 9 xff) 15)).
  { constructor; vm_compute; [reflexivity | split; congruence | congruence]. }
  split; [exact H|]. split; [reflexivity|].
  exact (proj1 (proj2 (proj2 (proj2 (proj2 (reader_memory_safety _ 0 H)))))).
Defined.

End reader_safety.

(** *** What a packet means

    A grammar of the bytes behind the cursor, without cursor and bounds: integers most
    significant byte first, texts behind a length in groups of seven bits, least significant
    group first, of which the last one has no continuation bit. *)
Module Grammar.
Inductive parsed A :=
| Value (x : A) (rest : bytes)
| Refused (rest : bytes)         (* the read answers [false] *)
| Escapes.                       (* the read leaves its array *)
Arguments Value {_}.
Arguments Refused {_}.
Arguments Escapes {_}.

Definition pmap {A B} (f : A → B) (m : parsed A) : parsed B :=
  match m with Value x rest => Value (f x) rest | Refused rest => Refused rest | Escapes => Escapes end.

(** A number of at most [n] groups. *)
Fixpoint varint (n : nat) (bs : bytes) : option (Z * bytes) :=
  match n, bs with
  | S n', b :: bs' =>
      if Z_of_byte b <? 128 then Some (Z_of_byte b, bs')
      else '(v, rest) ← varint n' bs'; Some (Z_of_byte b - 128 + 128 * v, rest)
  | _, _ => None
  end.

Definition int (n : nat) (bs : bytes) : parsed Z :=
  if (length bs <? n)%nat then Refused bs
  else Value (sintw (8 * Z.of_nat n) (be_Z (take n bs))) (drop n bs).

Definition text (refuse : Z → bool) (bs : bytes) : parsed bytes :=
  match varint 5 bs with
  | None => Escapes
  | Some (v, rest) =>
      let n := v mod 2 ^ 32 in
      if refuse n then Refused bs
      else if Zlen rest <? n then Refused rest
      else Value (take (Z.to_nat n) rest) (drop (Z.to_nat n) rest)
  end.

(** A 64-bit integer is the number a text of at most 128 characters begins with. *)
Definition number (bs : bytes) : parsed Z :=
  match text (λ n, 128 <? n) bs with
  | Value t rest =>
      match atoll (t ++ replicate (128 - length t) x00) with Ok i => Value i rest | Stop _ => Escapes end
  | Refused rest => Refused rest
  | Escapes => Escapes
  end.

Definition field (k : Packet.kind) (bs : bytes) : parsed Packet.field :=
  match k with
  | Packet.KInt32 => pmap Packet.FInt32 (int 4 bs)
  | Packet.KInt64 => pmap Packet.FInt64 (number bs)
  | Packet.KShort => pmap Packet.FShort (int 2 bs)
  | Packet.KChar => pmap Packet.FChar (int 1 bs)
  | Packet.KString => pmap Packet.FString (text (λ _, false) bs)
  end.

Fixpoint fields (ks : list Packet.kind) (bs : bytes) : parsed (list Packet.field) :=
  match ks with
  | [] => Value [] bs
  | k :: ks' =>
      match field k bs with
      | Value f rest => pmap (cons f) (fields ks' rest)
      | Refused rest => Refused rest
      | Escapes => Escapes
      end
  end.

(** What a read of the reader shows of a parse: [w] wraps a delivered value. *)
Definition shows {A B} (w : A → B) (refusal : B → Prop) r (m : outcome (B * BinaryStreamReader)) (p : parsed A) : Prop :=
  match p with
  | Value x rest => ∃ r', m = Ok (w x, r') ∧ reader_ok r' ∧ ptr r' = ptr r ∧ ahead r' = rest
  | Refused rest => ∃ b r', m = Ok (b, r') ∧ refusal b ∧ reader_ok r' ∧ ptr r' = ptr r ∧ ahead r' = rest
  | Escapes => m = Stop OutOfBounds
  end.
End Grammar.

Section grammar.
Import Grammar.
Abbreviation reads := (shows Some (eq None)).

Lemma varint_None n bs : varint n bs = None ↔ forallb more (take n bs) = true.
Proof.
  revert bs. induction n as [|n IH]; intros [|b bs]; try done. cbn [varint take forallb]. unfold more at 1.
  destruct (Z.ltb_spec (Z_of_byte b) 128), (Z.leb_spec 128 (Z_of_byte b)); try lia; [done|]. cbn [andb].
  rewrite <- IH. destruct (varint n bs) as [[v rest]|]; done.
Qed.

Lemma varint_fetch r n t v rest :
  0 ≤ t → varint n (drop (Z.to_nat t) (ptr r)) = Some (v, rest) →
  ∃ h, fetch_header n t r = Ok h ∧ drop (Z.to_nat t) (ptr r) = h ++ rest ∧ (1 ≤ length h ≤ n)%nat ∧
    ∀ w bc acc, 0 ≤ bc → 0 ≤ acc → bc + 7 * Zlen h ≤ w + 6 → read7_loop w h bc acc = Ok (uintw w (acc + v * 2 ^ bc)).
Proof.
  revert t v rest. induction n as [|n IH]; intros t v rest Ht; rewrite fetch_header_eq by done; [done|].
  destruct (drop (Z.to_nat t) (ptr r)) as [|b bs] eqn:E; [done|]. cbn [varint].
  destruct (read_byte r t b bs Ht E) as [_ Hn]. pose proof (Z_of_byte_range b) as Hb. unfold more.
  destruct (Z.ltb_spec (Z_of_byte b) 128), (Z.leb_spec 128 (Z_of_byte b)); try lia.
  - intros [= <- <-]. exists [b]. split; [done|]. split; [done|]. split; [simpl; lia|].
    intros w bc acc Hbc Hacc Hw. cbn [read7_loop]. unfold Zlen in Hw. simpl in Hw.
    destruct (Z.leb_spec w bc); [lia|]. rewrite land_128, land_127, Z.mod_small by lia.
    destruct (Z.ltb_spec (Z_of_byte b) 128); [|lia]. rewrite Z.shiftl_mul_pow2 by lia.
    cbn [Z.eqb]. f_equal. unfold uintw. by rewrite Zplus_mod_idemp_r.
  - intros Hv. apply bind_Some in Hv as ([v' rest'] & Hv & [= <- <-]). rewrite <- Hn in Hv.
    destruct (IH (t + 1) v' rest' ltac:(lia) Hv) as (h & -> & Eh & Hh & Hr). rewrite Hn in Eh.
    exists (b :: h). split; [done|]. split; [by rewrite Eh|]. split; [simpl; lia|].
    intros w bc acc Hbc Hacc Hw. cbn [read7_loop]. unfold Zlen in *. cbn [length] in Hw.
    destruct (Z.leb_spec w bc); [lia|]. rewrite land_128, land_127 by lia.
    destruct (Z.ltb_spec (Z_of_byte b) 128); [lia|]. rewrite Z.shiftl_mul_pow2 by lia. cbn [Z.eqb].
    assert (Z_of_byte b mod 128 = Z_of_byte b - 128) as ->.
    { symmetry. apply (Z.mod_unique _ _ 1); lia. }
    rewrite Hr; [|lia| |lia].
    + f_equal. unfold uintw. rewrite Zplus_mod_idemp_l, <- Z.add_assoc, <- Zplus_mod_idemp_r, Zplus_mod_idemp_l, Zplus_mod_idemp_r.
      f_equal. rewrite Z.pow_add_r by lia. lia.
    + apply (u_range w). lia.
Qed.

Lemma reader_ok_at r c : reader_ok r → cur r ≤ c ≤ len r → reader_ok (set_cur c r).
Proof. intros [Hl Hc Hm] H. constructor; cbn [len ptr cur set_cur]; lia. Qed.

Lemma ahead_at r d : reader_ok r → 0 ≤ d → ahead (set_cur (cur r + d) r) = drop (Z.to_nat d) (ahead r).
Proof. intros [Hl Hc Hm] Hd. unfold ahead. cbn [cur ptr set_cur]. by rewrite drop_drop, <- Z2Nat.inj_add by lia. Qed.

Lemma ahead_length r : reader_ok r → Zlen (ahead r) = len r - cur r.
Proof. intros [Hl Hc Hm]. unfold ahead. rewrite Zlen_drop; lia. Qed.

Lemma ahead_read r n :
  reader_ok r → 0 ≤ n ≤ Zlen (ahead r) → read_range (cur r) n (ptr r) = Ok (take (Z.to_nat n) (ahead r)).
Proof.
  intros Hok Hn. rewrite ahead_length in Hn by done. destruct Hok as [Hl Hc Hm].
  by rewrite read_range_ok by lia.
Qed.

Lemma header_shows r :
  reader_ok r →
  match varint 5 (ahead r) with
  | None => ReadLengthWithoutOffset r = Stop OutOfBounds
  | Some (v, rest) => ∃ headlen, ReadLengthWithoutOffset r = Ok (Some (headlen, v mod 2 ^ 32)) ∧
      0 ≤ headlen ∧ cur r + headlen ≤ len r ∧ drop (Z.to_nat headlen) (ahead r) = rest
  end.
Proof.
  intros Hok. pose proof Hok as [Hl Hc Hm]. destruct (varint 5 (ahead r)) as [[v rest]|] eqn:E.
  - destruct (varint_fetch r 5 (cur r) v rest ltac:(lia) E) as (h & Eh & Ea & Hh & Hr). exists (Zlen h).
    fold (ahead r) in Ea. assert (Hlen : Zlen h ≤ Zlen (ahead r))
      by (rewrite Ea, Zlen_app; pose proof (Zlen_nonneg rest); lia).
    rewrite ahead_length in Hlen by done. unfold ReadLengthWithoutOffset. rewrite Eh, bind_Ok.
    destruct (Z.ltb_spec (len r) (cur r + Zlen h)); [lia|].
    unfold read7BitEncoded_u32. rewrite Hr by (unfold Zlen; lia). rewrite bind_Ok.
    split; [unfold uintw; by rewrite Z.pow_0_r, Z.mul_1_r, Z.add_0_l|]. split; [apply Zlen_nonneg|]. split; [lia|].
    rewrite Ea. unfold Zlen. by rewrite Nat2Z.id, drop_app_length.
  - pose proof (header_cases r Hok) as H. apply varint_None in E. unfold unterminated in H. by rewrite E in H.
Qed.

Lemma int_shows n r :
  (0 < n ≤ 8)%nat → reader_ok r →
  reads r (if len r <? cur r + Z.of_nat n then Ok (None, r)
           else m ← read_range (cur r) (Z.of_nat n) (ptr r);
                Ok (Some (sintw (8 * Z.of_nat n) (bswap n (uintw (8 * Z.of_nat n) (sintw (8 * Z.of_nat n) (le_Z m))))),
                    set_cur (cur r + Z.of_nat n) r)) (int n (ahead r)).
Proof.
  intros Hn Hok. pose proof (ahead_length r Hok) as Hl. pose proof Hok as [_ Hc _]. unfold int, Zlen in *.
  destruct (Nat.ltb_spec (length (ahead r)) n), (Z.ltb_spec (len r) (cur r + Z.of_nat n)); try lia.
  - exists None, r. auto.
  - rewrite ahead_read by (done || unfold Zlen; lia). rewrite bind_Ok, Nat2Z.id.
    set (m := take n (ahead r)). assert (Hm : length m = n) by (unfold m; rewrite length_take; lia).
    assert (E : bswap n (uintw (8 * Z.of_nat n) (sintw (8 * Z.of_nat n) (le_Z m))) = be_Z m).
    { rewrite u_s, u_small by (try lia; pose proof (le_Z_range m) as H'; rewrite Hm in H';
        rewrite Z.pow_mul_r by lia; exact H'). rewrite <- Hm at 1. apply bswap_le_Z. }
    rewrite E. eexists. split; [done|]. split; [apply reader_ok_at; [done | lia]|]. split; [done|].
    rewrite ahead_at by (done || lia). by rewrite Nat2Z.id.
Qed.

Lemma text_shows refuse r :
  reader_ok r →
  shows StrOk (λ x, x = StrFail ∨ x = StrTruncated) r (read_field refuse r) (text refuse (ahead r)).
Proof.
  intros Hok. pose proof (header_shows r Hok) as H. unfold read_field, text.
  destruct (varint 5 (ahead r)) as [[v rest]|]; [|by rewrite H].
  destruct H as (headlen & -> & Hh & Hb & Hr). rewrite bind_Ok. set (n := v mod 2 ^ 32).
  assert (Hn : 0 ≤ n < 2 ^ 32) by (apply Z.mod_pos_bound; lia).
  destruct (refuse n); [exists StrFail, r; auto|]. pose proof Hok as [_ Hc _].
  set (r1 := set_cur (cur r + headlen) r).
  assert (Hok1 : reader_ok r1) by (apply reader_ok_at; [done | lia]).
  assert (Ha1 : ahead r1 = rest) by (unfold r1; by rewrite ahead_at).
  pose proof (ahead_length r1 Hok1) as Hl1. rewrite Ha1 in Hl1. change (len r) with (len r1).
  destruct (Z.ltb_spec (Zlen rest) n), (Z.ltb_spec (len r1) (cur r1 + n)); try lia.
  - exists StrTruncated, r1. auto.
  - change (ptr r) with (ptr r1). rewrite ahead_read by (done || rewrite Ha1; lia). rewrite bind_Ok, Ha1.
    eexists. split; [done|]. split; [apply reader_ok_at; [done | lia]|]. split; [done|].
    by rewrite ahead_at, Ha1 by (done || lia).
Qed.

Lemma atoll_faults a f : atoll a = Stop f → f = OutOfBounds.
Proof.
  assert (Hd : ∀ l z g, atoll_digits l z = Stop g → g = OutOfBounds).
  { intros l. induction l as [|c l IH]; intros z g; cbn [atoll_digits]; [congruence|].
    case_match; [apply IH | done]. }
  induction a as [|c a IH]; cbn [atoll]; [congruence|]. case_match; [done|].
  repeat case_match; match goal with |- (atoll_digits ?l ?z ≫= _) = _ → _ =>
    destruct (atoll_digits l z) as [n|g] eqn:E; [done|]; intros [= <-]; by eapply Hd end.
Qed.

Lemma field_shows k r : reader_ok r → reads r (Packet.read k r) (field k (ahead r)).
Proof.
  assert (Hint : ∀ n (mk : Z → Packet.field) m, (0 < n)%nat → reads r m (int n (ahead r)) →
    reads r ('(x, r') ← m; Ok (option_map mk x, r')) (pmap mk (int n (ahead r)))).
  { intros n mk m Hn. unfold int. case_match; cbn [pmap shows].
    - intros (x & r' & -> & <- & Hr). exists None, r'. auto.
    - intros (r' & -> & Hr). exists r'. auto. }
  intros Hok. destruct k; cbn [Packet.read field].
  - apply Hint; [lia|]. by apply (int_shows 4); [lia|].
  - unfold ReadInt64, ReadCString, number. pose proof (text_shows (λ n, 128 <? n) r Hok) as H.
    unfold text in *. destruct (varint 5 (ahead r)) as [[v rest]|]; [|cbn [shows] in H; by rewrite H].
    destruct (Z.ltb_spec 128 (v mod 2 ^ 32)).
    { destruct H as (x & r' & -> & Hx & H). exists None, r'. by destruct Hx as [-> | ->]. }
    destruct (Zlen rest <? v mod 2 ^ 32).
    { destruct H as (x & r' & -> & Hx & H). exists None, r'. by destruct Hx as [-> | ->]. }
    destruct H as (r' & -> & H). rewrite !bind_Ok.
    set (t := take _ rest) in *.
    rewrite Packet.splice_front.
    destruct (atoll _) as [i|f] eqn:Ea; cbn [pmap shows]; [exists r'; auto|].
    by rewrite (atoll_faults _ _ Ea).
  - apply Hint; [lia|]. by apply (int_shows 2); [lia|].
  - apply Hint; [lia|]. pose proof (int_shows 1 r ltac:(lia) Hok) as H.
    assert (E : ∀ m, length m = 1%nat → s8 (bswap 1 (u8 (s8 (le_Z m)))) = s8 (le_Z m)).
    { intros m Hm. pose proof (le_Z_range m) as Hr. rewrite Hm in Hr. rewrite u_s, u_small by lia.
      rewrite <- Hm at 1. rewrite bswap_le_Z. unfold be_Z. by destruct m as [|b [|]]. }
    unfold ReadChar. change (Z.of_nat 1) with 1 in H.
    destruct (Z.ltb_spec (len r) (cur r + 1)) as [|Hc]; [exact H|].
    assert (Hr : read_range (cur r) 1 (ptr r) = Ok (take 1 (ahead r))).
    { apply (ahead_read r 1); [done|]. rewrite ahead_length by done. lia. }
    rewrite Hr, bind_Ok in H |- *. change (8 * 1) with 8 in H. rewrite E in H; [exact H|].
    rewrite length_take. pose proof (ahead_length r Hok). unfold Zlen in *. lia.
  - unfold ReadString. change (λ n : Z, negb (0 =? 0) && (0 <? n)) with (λ _ : Z, false).
    pose proof (text_shows (λ _, false) r Hok) as H. unfold text in *.
    destruct (varint 5 (ahead r)) as [[v rest]|]; [|cbn [shows] in H; by rewrite H].
    destruct (Zlen rest <? v mod 2 ^ 32).
    + destruct H as (x & r' & -> & Hx & H). exists None, r'. by destruct Hx as [-> | ->].
    + destruct H as (r' & -> & H). exists r'. auto.
Qed.
End grammar.

(** C17. The reader reads what the grammar says. Whatever bytes a peer sent, reading fields of
    the kinds [ks] from the cursor on delivers exactly the fields [Grammar.fields] finds
    there, and ends in front of the bytes it leaves; answers [false], with the cursor where
    the grammar refuses, exactly when it does; and leaves its array exactly when it says so,
    that is, at a length none of whose next five bytes ends it (or at a text of 128 digits
    for a 64-bit integer). *)
Theorem reader_grammar (ks : list Packet.kind) (r : BinaryStreamReader) :
  reader_ok r →
  match Grammar.fields ks (ahead r) with
  | Grammar.Value fs rest => ∃ r', Packet.read_all ks r = Ok (Some fs, r') ∧
      reader_ok r' ∧ ptr r' = ptr r ∧ ahead r' = rest
  | Grammar.Refused rest => ∃ r', Packet.read_all ks r = Ok (None, r') ∧
      reader_ok r' ∧ ptr r' = ptr r ∧ ahead r' = rest
  | Grammar.Escapes => Packet.read_all ks r = Stop OutOfBounds
  end.
Proof.
  revert r. induction ks as [|k ks IH]; intros r Hok; cbn [Packet.read_all Grammar.fields]; [by exists r|].
  pose proof (field_shows k r Hok) as H. destruct (Grammar.field k (ahead r)) as [f rest|rest|]; cbn [Grammar.shows] in H.
  - destruct H as (r1 & -> & Hok1 & Hp1 & <-). rewrite bind_Ok. specialize (IH r1 Hok1).
    destruct (Grammar.fields ks (ahead r1)) as [fs rest'|rest'|]; cbn [Grammar.pmap].
    + destruct IH as (r2 & -> & H2 & Hp2 & Ha2). exists r2. by rewrite Hp2, <- Hp1.
    + destruct IH as (r2 & -> & H2 & Hp2 & Ha2). exists r2. by rewrite Hp2, <- Hp1.
    + by rewrite IH.
  - destruct H as (x & r1 & -> & <- & H). exists r1. done.
  - by rewrite H.
Qed.

Lemma reader_grammar_witness :
  let r := BinaryStreamReader_ctor (replicate 6 x00 ++ [xff; xff; xff; xfe; x02; x2d; x37; x05; x61]) 15 in
  reader_ok r ∧
  (∃ r', Packet.read_all [Packet.KInt32; Packet.KInt64] r = Ok (Some [Packet.FInt32 (-2); Packet.FInt64 (-7)], r') ∧
     ahead r' = [x05; x61]) ∧
  (∃ r', Packet.read_all [Packet.KInt32; Packet.KInt64; Packet.KString] r = Ok (None, r') ∧ ahead r' = [x61]).
Proof.
  cbv zeta. set (r := BinaryStreamReader_ctor _ _).
  assert (H : reader_ok r) by (constructor; vm_compute; [reflexivity | split; congruence | congruence]).
  split; [exact H|]. split.
  - destruct (reader_grammar [Packet.KInt32; Packet.KInt64] r H) as (r' & E & _ & _ & Ha). exists r'. split; [exact E | exact Ha].
  - destruct (reader_grammar [Packet.KInt32; Packet.KInt64; Packet.KString] r H) as (r' & E & _ & _ & Ha).
    exists r'. split; [exact E | exact Ha].
Defined.
