(* ===== verification/Timers.v ===== *)
(** * Time and timers: [common/whisp_timestamp.h/.cpp], [network/timer.h/.cpp],
    [network/timer_id.h], [network/timer_queue.h/.cpp]

    A [Timer*] is an address (a [Z]) into a heap of [Timer] records; [new] takes the address
    the allocator chose, which must be fresh. The [std::set<Entry>] of the queue is a
    strictly sorted list of pairs (expiration at insertion, address) and an iterator into it
    is the entry it refers to, so that an erased entry is a dangling iterator.

    Callbacks are values of a type [TimerCallback]; what calling one does to the queue and to
    the rest of the process ([World]) is the parameter [call]. The calls of
    [assert_in_loop_thread] write a log line and go on (the logger's [crash] is commented
    out), so they do not appear. *)
From Stdlib Require Import Sorting.Sorted.
From S2P Require Import Prelude.

(** ** [Timestamp]: an [int64_t] count of microseconds *)
Abbreviation Timestamp := Z.
Definition kMicroSecondsPerSecond : Z := 1000 * 1000.

Definition Timestamp_add_assign (self lhs : Timestamp) : outcome Timestamp := i64 (self + lhs).
Definition Timestamp_sub_assign (self lhs : Timestamp) : outcome Timestamp := i64 (self - lhs).
Definition Timestamp_swap (self that : Timestamp) : Timestamp * Timestamp := (that, self).
Definition Timestamp_valid (self : Timestamp) : bool := 0 <? self.
Definition Timestamp_invalid : Timestamp := 0.
(** C++ division truncates towards zero. *)
Definition secondsSinceEpoch (self : Timestamp) : Z := Z.quot self kMicroSecondsPerSecond.

Definition ts_lt (lhs rhs : Timestamp) : bool := lhs <? rhs.
Definition ts_gt (lhs rhs : Timestamp) : bool := ts_lt rhs lhs.
Definition ts_le (lhs rhs : Timestamp) : bool := negb (ts_gt lhs rhs).
Definition ts_ge (lhs rhs : Timestamp) : bool := negb (ts_lt lhs rhs).
Definition ts_eq (lhs rhs : Timestamp) : bool := lhs =? rhs.
Definition ts_ne (lhs rhs : Timestamp) : bool := negb (ts_eq lhs rhs).

Definition add_time (timestamp : Timestamp) (microseconds : Z) : outcome Timestamp :=
  i64 (timestamp + microseconds).

(** [%0<width>d] and [%<width>d]: the sign counts and comes before the zeros. *)
Definition pad_zero (width : nat) (z : Z) : bytes :=
  let d := dec_pos (Z.abs z) in
  if z <? 0 then x2d :: replicate (width - 1 - length d) x30 ++ d
  else replicate (width - length d) x30 ++ d.
Definition pad_blank (width : nat) (z : Z) : bytes :=
  replicate (width - length (dec z)) x20 ++ dec z.

(** [snprintf(buf, n, ...)] keeps at most [n - 1] bytes of the text. *)
Definition snprintf (n : nat) (text : bytes) : bytes := take (n - 1) text.

Definition toString (self : Timestamp) : bytes :=
  let seconds := Z.quot self kMicroSecondsPerSecond in
  let microseconds := Z.rem self kMicroSecondsPerSecond in
  snprintf 63 (dec seconds ++ lit "." ++ pad_zero 6 microseconds).

(** The fields of [struct tm] the code prints; [localtime] is a parameter. *)
Record tm := mktm {
  tm_year : Z; tm_mon : Z; tm_mday : Z; tm_hour : Z; tm_min : Z; tm_sec : Z;
}.

Definition toFormattedString (localtime : Z → tm) (showMicroseconds : bool)
    (self : Timestamp) : bytes :=
  let t := localtime (Z.quot self kMicroSecondsPerSecond) in
  let date := pad_blank 4 (tm_year t + 1900) ++ pad_zero 2 (tm_mon t + 1) ++
              pad_zero 2 (tm_mday t) ++ lit " " ++ pad_zero 2 (tm_hour t) ++ lit ":" ++
              pad_zero 2 (tm_min t) ++ lit ":" ++ pad_zero 2 (tm_sec t) in
  if showMicroseconds
  then snprintf 32 (date ++ lit "." ++ pad_zero 6 (Z.rem self kMicroSecondsPerSecond))
  else snprintf 32 date.

(** ** Entries of the ordered set *)
Abbreviation Entry := (Z * Z)%type.

(** [std::pair]'s [operator<], with [Timestamp]'s for the first component. *)
Definition entry_lt (a b : Entry) : bool :=
  ts_lt a.1 b.1 || (negb (ts_lt b.1 a.1) && (a.2 <? b.2)).

(** [std::set::insert] on the sorted list: no effect when the key is present. *)
Fixpoint set_insert (e : Entry) (l : list Entry) : list Entry :=
  match l with
  | [] => [e]
  | x :: l' =>
      if entry_lt e x then e :: l
      else if entry_lt x e then x :: set_insert e l'
      else l
  end.

Definition set_erase (e : Entry) (l : list Entry) : list Entry :=
  filter (λ x, x ≠ e) l.

(** The iterator behind [e]. *)
Fixpoint next_after (e : Entry) (l : list Entry) : option Entry :=
  match l with
  | [] => None
  | x :: l' => if entry_lt e x then Some x else next_after e l'
  end.

Section timers.
Context {TimerCallback World : Type}.

Record Timer := mkTimer {
  callback_ : TimerCallback;
  expiration_ : Timestamp;
  interval_ : Z;
  repeat_count_ : Z;
  sequence_ : Z;
  canceled_ : bool;
}.

Record TimerId := mkTimerId { timer_ : Z; id_sequence_ : Z }.
Definition TimerId_default : TimerId := mkTimerId 0 0.
Definition get_timer (i : TimerId) : Z := timer_ i.

(** [heap] holds the live [Timer] objects, [created_num_] is the static counter. *)
Record TimerQueue := mkTimerQueue {
  heap : gmap Z Timer;
  timers_ : list Entry;
  created_num_ : Z;
  world : World;
}.

Definition set_heap (h : gmap Z Timer) (q : TimerQueue) : TimerQueue :=
  mkTimerQueue h (timers_ q) (created_num_ q) (world q).
Definition set_timers (l : list Entry) (q : TimerQueue) : TimerQueue :=
  mkTimerQueue (heap q) l (created_num_ q) (world q).
Definition set_world (w : World) (q : TimerQueue) : TimerQueue :=
  mkTimerQueue (heap q) (timers_ q) (created_num_ q) w.

Definition TimerQueue_ctor (created : Z) (w : World) : TimerQueue := mkTimerQueue ∅ [] created w.

(** The destructor deletes the timers still in the set. *)
Definition TimerQueue_dtor (q : TimerQueue) : TimerQueue :=
  set_timers [] (set_heap (foldr (λ e h, delete e.2 h) (heap q) (timers_ q)) q).

(** [new Timer(cb, when, interval, repeat_count)] at address [a]; the parameter's default
    is -1. *)
Definition Timer_new (a : Z) (cb : TimerCallback) (when : Timestamp)
    (interval repeat_count : Z) (q : TimerQueue) : TimerQueue :=
  let seq := created_num_ q + 1 in
  mkTimerQueue (<[a := mkTimer cb when interval repeat_count seq false]> (heap q))
    (timers_ q) seq (world q).

Definition cancel_timer (off : bool) (t : Timer) : Timer :=
  mkTimer (callback_ t) (expiration_ t) (interval_ t) (repeat_count_ t) (sequence_ t) off.

(** ** The operations that run in the loop thread *)
Definition insert (a : Z) (q : TimerQueue) : outcome TimerQueue :=
  match heap q !! a with
  | None => Stop Dangling
  | Some t => Ok (set_timers (set_insert (expiration_ t, a) (timers_ q)) q)
  end.

Definition add_timer_in_loop (a : Z) (q : TimerQueue) : outcome TimerQueue := insert a q.

(** The first entry with the address is erased; the object is not deleted. *)
Definition find_timer (a : Z) (l : list Entry) : option Entry :=
  snd <$> list_find (λ e : Entry, e.2 = a) l.

Definition remove_timer_in_loop (timer_id : TimerId) (q : TimerQueue) : TimerQueue :=
  match find_timer (timer_ timer_id) (timers_ q) with
  | None => q
  | Some e => set_timers (set_erase e (timers_ q)) q
  end.

Definition cancel_timer_in_loop (timer_id : TimerId) (off : bool) (q : TimerQueue)
    : TimerQueue :=
  match find_timer (timer_ timer_id) (timers_ q) with
  | None => q
  | Some e => set_heap (alter (cancel_timer off) e.2 (heap q)) q
  end.

(** The two overloads of [add_timer] called in the loop thread (so that [run_in_loop] calls
    at once). The first does not pass [repeat_count] on: [Timer]'s default of -1 applies. *)
Definition add_timer_lvalue (a : Z) (cb : TimerCallback) (when : Timestamp)
    (interval repeat_count : Z) (q : TimerQueue) : outcome (TimerQueue * TimerId) :=
  let q1 := Timer_new a cb when interval (-1) q in
  q2 ← add_timer_in_loop a q1; Ok (q2, mkTimerId a (created_num_ q1)).

Definition add_timer_rvalue (a : Z) (cb : TimerCallback) (when : Timestamp)
    (interval repeat_count : Z) (q : TimerQueue) : outcome (TimerQueue * TimerId) :=
  let q1 := Timer_new a cb when interval repeat_count q in
  q2 ← add_timer_in_loop a q1; Ok (q2, mkTimerId a (created_num_ q1)).

(** [remove_timer] and [cancel], called in the loop thread. *)
Definition remove_timer (timer_id : TimerId) (q : TimerQueue) : TimerQueue :=
  remove_timer_in_loop timer_id q.
Definition cancel (timer_id : TimerId) (off : bool) (q : TimerQueue) : TimerQueue :=
  cancel_timer_in_loop timer_id off q.

(** ** Running *)
Section run.
Context (call : TimerCallback → TimerQueue → outcome TimerQueue).

(** The part of [Timer::run] behind the callback. *)
Definition after_call (t : Timer) : outcome Timer :=
  let advance rc :=
    e ← Timestamp_add_assign (expiration_ t) (interval_ t);
    Ok (mkTimer (callback_ t) e (interval_ t) rc (sequence_ t) (canceled_ t)) in
  if repeat_count_ t =? -1 then advance (repeat_count_ t)
  else rc ← i64 (repeat_count_ t - 1);
       if rc =? 0
       then Ok (mkTimer (callback_ t) (expiration_ t) (interval_ t) rc (sequence_ t) (canceled_ t))
       else advance rc.

Definition Timer_run (a : Z) (q : TimerQueue) : outcome TimerQueue :=
  match heap q !! a with
  | None => Stop Dangling
  | Some t =>
      if canceled_ t then Ok q
      else
        q1 ← call (callback_ t) q;
        match heap q1 !! a with
        | None => Stop Dangling
        | Some t1 => t2 ← after_call t1; Ok (set_heap (<[a := t2]> (heap q1)) q1)
        end
  end.

(** The loop of [do_timer]; [None] when the fuel runs out (a callback can keep inserting
    timers that are already due). *)
Fixpoint do_timer_loop (fuel : nat) (now : Timestamp) (iter : option Entry) (q : TimerQueue)
    : option (outcome TimerQueue) :=
  match iter with
  | None => Some (Ok q)
  | Some e =>
      match fuel with
      | O => None
      | S f =>
          match heap q !! e.2 with
          | None => Some (Stop Dangling)
          | Some t =>
              if ts_le (expiration_ t) now then
                match Timer_run e.2 q with
                | Stop x => Some (Stop x)
                | Ok q1 =>
                    if bool_decide (e ∈ timers_ q1) then
                      match heap q1 !! e.2 with
                      | None => Some (Stop Dangling)
                      | Some t1 =>
                          let iter' := next_after e (timers_ q1) in
                          if repeat_count_ t1 =? 0
                          then do_timer_loop f now iter' (set_timers (set_erase e (timers_ q1)) q1)
                          else do_timer_loop f now iter' q1
                      end
                    else Some (Stop Dangling)
                end
              else Some (Ok q)
          end
      end
  end.

(** [now] is the value of [Timestamp::now()] at the start of the pass. *)
Definition do_timer (fuel : nat) (now : Timestamp) (q : TimerQueue)
    : option (outcome TimerQueue) :=
  do_timer_loop fuel now (head (timers_ q)) q.
End run.
End timers.
Arguments Timer : clear implicits.
Arguments TimerQueue : clear implicits.

(** ** The ordered set *)
Section ordered_set.
Implicit Types (e x : Entry) (l : list Entry).

Definition sorted : list Entry → Prop := StronglySorted (λ a b, entry_lt a b = true).

Lemma entry_lt_spec a b : entry_lt a b = true ↔ a.1 < b.1 ∨ (a.1 = b.1 ∧ a.2 < b.2).
Proof. unfold entry_lt, ts_lt. destruct a, b; simpl. lia. Qed.

Lemma entry_lt_irrefl e : entry_lt e e = false.
Proof. destruct (entry_lt e e) eqn:E; [apply entry_lt_spec in E; lia | done]. Qed.

Lemma entry_lt_trans a b c : entry_lt a b = true → entry_lt b c = true → entry_lt a c = true.
Proof. rewrite !entry_lt_spec. lia. Qed.

Lemma entry_lt_total a b : entry_lt a b = false → entry_lt b a = false → a = b.
Proof.
  intros H1 H2. apply not_true_iff_false in H1, H2. rewrite entry_lt_spec in H1, H2.
  destruct a, b; simpl in *. f_equal; lia.
Qed.

Lemma elem_of_set_insert e x l : x ∈ set_insert e l ↔ x = e ∨ x ∈ l.
Proof.
  induction l as [|y l IH]; simpl; [set_solver|].
  destruct (entry_lt e y) eqn:E1; [set_solver|]. destruct (entry_lt y e) eqn:E2; [set_solver|].
  pose proof (entry_lt_total _ _ E1 E2) as ->. set_solver.
Qed.

Lemma set_insert_sorted e l : sorted l → sorted (set_insert e l).
Proof.
  unfold sorted. induction 1 as [|y l Hl IH Hy]; simpl; [repeat constructor|].
  rewrite Forall_forall in Hy. destruct (entry_lt e y) eqn:E1.
  - constructor; [by constructor; [|apply Forall_forall]|]. apply Forall_forall.
    intros x [->|Hx]%elem_of_cons; [done|]. eapply entry_lt_trans; eauto.
  - destruct (entry_lt y e) eqn:E2; [|by constructor; [|apply Forall_forall]].
    constructor; [done|]. apply Forall_forall.
    intros x [->|Hx]%elem_of_set_insert; auto.
Qed.

Lemma set_erase_sorted e l : sorted l → sorted (set_erase e l).
Proof.
  unfold sorted, set_erase. induction 1 as [|y l Hl IH Hy]; [constructor|].
  rewrite filter_cons. destruct (decide _); [|done].
  constructor; [done|]. rewrite Forall_forall in *. intros x [_ Hx]%list_elem_of_filter. auto.
Qed.

Lemma sorted_app_inv l1 e l2 :
  sorted (l1 ++ e :: l2) →
  Forall (λ x, entry_lt x e = true) l1 ∧ Forall (λ x, entry_lt e x = true) l2.
Proof.
  induction l1 as [|y l1 IH]; simpl; intros [Hs Hf]%StronglySorted_inv; [by split|].
  destruct (IH Hs). split; [|done]. constructor; [|done].
  rewrite Forall_app, Forall_cons in Hf. tauto.
Qed.

(** The iterator step and the erasure at a position of a sorted list. *)
Lemma next_after_at l1 e l2 : sorted (l1 ++ e :: l2) → next_after e (l1 ++ e :: l2) = head l2.
Proof.
  intros [H1 H2]%sorted_app_inv. induction H1 as [|y l1 Hy _ IH]; simpl.
  - rewrite entry_lt_irrefl. destruct H2 as [|z l2 Hz H2]; [done|]. simpl. by rewrite Hz.
  - destruct (entry_lt e y) eqn:E; [|done].
    pose proof (entry_lt_trans _ _ _ Hy E). by rewrite entry_lt_irrefl in *.
Qed.

Lemma set_erase_notin e l : e ∉ l → set_erase e l = l.
Proof.
  unfold set_erase. induction l as [|y l IH]; intros Hn; [done|].
  rewrite filter_cons, decide_True, IH by set_solver. done.
Qed.

Lemma set_erase_at l1 e l2 : sorted (l1 ++ e :: l2) → set_erase e (l1 ++ e :: l2) = l1 ++ l2.
Proof.
  intros [H1 H2]%sorted_app_inv. unfold set_erase.
  rewrite filter_app, filter_cons, decide_False by (intros ?; done).
  fold (set_erase e l1) (set_erase e l2).
  rewrite !set_erase_notin; [done | |]; intros Hin; rewrite Forall_forall in *.
  - apply H2 in Hin. by rewrite entry_lt_irrefl in Hin.
  - apply H1 in Hin. by rewrite entry_lt_irrefl in Hin.
Qed.

Lemma find_timer_Some a l e : find_timer a l = Some e → e ∈ l ∧ e.2 = a.
Proof.
  unfold find_timer. intros ([i y] & E & ->)%fmap_Some. simpl.
  apply list_find_Some in E as (Hi & Hy & _). split; [by eapply list_elem_of_lookup_2 | done].
Qed.

Lemma find_timer_None a l : find_timer a l = None → ∀ e, e ∈ l → e.2 ≠ a.
Proof.
  unfold find_timer. intros E%fmap_None e He.
  apply list_find_None in E. rewrite Forall_forall in E. by apply E.
Qed.
End ordered_set.
#[export] Hint Resolve set_insert_sorted set_erase_sorted : talko.

(** ** Invariant *)
Section invariant.
Context {TimerCallback World : Type}.
Implicit Types (q : TimerQueue TimerCallback World) (t : Timer TimerCallback).

(** The set is ordered, every entry refers to a live timer and no timer is entered twice;
    sequence numbers identify timers. *)
Record twf q : Prop := {
  twf_sorted : sorted (timers_ q);
  twf_live : ∀ e, e ∈ timers_ q → is_Some (heap q !! e.2);
  twf_once : NoDup (timers_ q).*2;
  twf_seq_le : ∀ a t, heap q !! a = Some t → sequence_ t ≤ created_num_ q;
  twf_seq_inj : ∀ a b t u, heap q !! a = Some t → heap q !! b = Some u →
    sequence_ t = sequence_ u → a = b;
}.

Lemma twf_ctor created w : twf (TimerQueue_ctor created w).
Proof.
  split; simpl; try constructor; intros *; rewrite ?lookup_empty; try done. by intros ?%elem_of_nil.
Qed.

Lemma twf_set_world w q : twf q → twf (set_world w q).
Proof. by intros []. Qed.

Lemma twf_Timer_new a cb when interval rc q :
  heap q !! a = None → twf q → twf (Timer_new a cb when interval rc q).
Proof.
  intros Ha [Hs Hl Ho Hle Hinj]. split; simpl; try done.
  - intros e He. destruct (decide (e.2 = a)) as [->|]; [by rewrite lookup_insert_eq|].
    rewrite lookup_insert_ne by done. auto.
  - intros b t. rewrite lookup_insert_Some. intros [[-> <-]|[? Hb]]; [simpl; lia|].
    apply Hle in Hb. lia.
  - intros b c t u. rewrite !lookup_insert_Some.
    intros [[-> <-]|[? Hb]] [[-> <-]|[? Hc]] Hseq; simpl in *; try done.
    + apply Hle in Hc. lia.
    + apply Hle in Hb. lia.
    + eauto.
Qed.

Lemma NoDup_set_insert e (l : list Entry) :
  e.2 ∉ l.*2 → NoDup l.*2 → NoDup (set_insert e l).*2.
Proof.
  induction l as [|y l IH]; simpl; intros Hn Hd; [repeat constructor; set_solver|].
  apply not_elem_of_cons in Hn as [Hy Hn]. apply NoDup_cons in Hd as [Hyl Hd].
  destruct (entry_lt e y) eqn:E1.
  - simpl. apply NoDup_cons. split; [set_solver|]. by apply NoDup_cons.
  - destruct (entry_lt y e) eqn:E2; [|by apply NoDup_cons]. simpl. apply NoDup_cons.
    split; [|auto]. rewrite list_elem_of_fmap. intros (x & E & Hx).
    apply elem_of_set_insert in Hx as [->|Hx]; [congruence|].
    apply Hyl, list_elem_of_fmap. eauto.
Qed.

Lemma NoDup_set_erase e (l : list Entry) : NoDup l.*2 → NoDup (set_erase e l).*2.
Proof.
  unfold set_erase. induction l as [|y l IH]; simpl; [done|]. intros [Hy Hd]%NoDup_cons.
  rewrite filter_cons. destruct (decide _); [|auto]. simpl. apply NoDup_cons. split; [|auto].
  rewrite list_elem_of_fmap in *. intros (x & E & [_ Hx]%list_elem_of_filter). apply Hy. eauto.
Qed.

Lemma elem_of_set_erase e x l : x ∈ set_erase e l → x ∈ l.
Proof. unfold set_erase. by intros [_ ?]%list_elem_of_filter. Qed.

Lemma twf_erase e q : twf q → twf (set_timers (set_erase e (timers_ q)) q).
Proof.
  intros [Hs Hl Ho Hle Hinj]. split; simpl; try done; auto using NoDup_set_erase with talko.
  intros x Hx%elem_of_set_erase. auto.
Qed.

Lemma twf_insert a q q' :
  a ∉ (timers_ q).*2 → twf q → add_timer_in_loop a q = Ok q' → twf q'.
Proof.
  unfold add_timer_in_loop, insert. destruct (heap q !! a) as [t|] eqn:Ha; [|done].
  intros Hn [Hs Hl Ho Hle Hinj] [= <-]. split; simpl; try done; auto with talko.
  - intros e [->|He]%elem_of_set_insert; [simpl; by rewrite Ha | auto].
  - by apply NoDup_set_insert.
Qed.

(** A write to a live timer that keeps its sequence number. *)
Lemma twf_update a t t' q :
  heap q !! a = Some t → sequence_ t' = sequence_ t → twf q →
  twf (set_heap (<[a := t']> (heap q)) q).
Proof.
  intros Ha Hseq [Hs Hl Ho Hle Hinj].
  assert (Hold : ∀ b u, <[a := t']> (heap q) !! b = Some u →
            ∃ u0, heap q !! b = Some u0 ∧ sequence_ u = sequence_ u0).
  { intros b u [[-> <-]|[_ Hb]]%lookup_insert_Some; eauto. }
  split; simpl; try done.
  - intros e He. destruct (decide (e.2 = a)) as [->|]; [by rewrite lookup_insert_eq|].
    rewrite lookup_insert_ne by done. auto.
  - intros b u (u0 & Hb & ->)%Hold. eauto.
  - intros b c u v (u0 & Hb & ->)%Hold (v0 & Hc & ->)%Hold. eauto.
Qed.

Lemma twf_cancel id off q : twf q → twf (cancel_timer_in_loop id off q).
Proof.
  intros Hwf. unfold cancel_timer_in_loop.
  destruct (find_timer (timer_ id) (timers_ q)) as [e|] eqn:E; [|done].
  apply find_timer_Some in E as [He _].
  destruct (twf_live _ Hwf e He) as [t Ht].
  replace (alter (cancel_timer off) e.2 (heap q)) with (<[e.2 := cancel_timer off t]> (heap q)).
  - by apply (twf_update _ t).
  - apply map_eq. intros b. destruct (decide (b = e.2)) as [->|].
    + by rewrite lookup_insert_eq, lookup_alter_eq, Ht.
    + by rewrite lookup_insert_ne, lookup_alter_ne by done.
Qed.

Lemma twf_remove id q : twf q → twf (remove_timer_in_loop id q).
Proof.
  intros Hwf. unfold remove_timer_in_loop. destruct (find_timer _ _); [by apply twf_erase | done].
Qed.

Lemma after_call_sequence t t' : after_call t = Ok t' → sequence_ t' = sequence_ t.
Proof.
  unfold after_call. destruct (repeat_count_ t =? -1).
  - intros (e & _ & [= <-])%bind_Ok_inv. done.
  - intros (rc & _ & H)%bind_Ok_inv. destruct (rc =? 0); [by injection H as <-|].
    apply bind_Ok_inv in H as (e & _ & [= <-]). done.
Qed.
End invariant.

(** What a queue promises a callback and expects of it: calling one keeps [P]. *)
Class CallbackKeeps {TimerCallback World} (P : TimerQueue TimerCallback World → Prop)
    (call : TimerCallback → TimerQueue TimerCallback World
            → outcome (TimerQueue TimerCallback World)) : Prop :=
  callback_keeps : ∀ c q q', P q → call c q = Ok q' → P q'.

Section do_timer_invariant.
Context {TimerCallback World : Type}.
Context (call : TimerCallback → TimerQueue TimerCallback World
                → outcome (TimerQueue TimerCallback World)) `{!CallbackKeeps twf call}.

Lemma twf_Timer_run a q q' : twf q → Timer_run call a q = Ok q' → twf q'.
Proof.
  intros Hwf. unfold Timer_run. destruct (heap q !! a) as [t|]; [|done].
  destruct (canceled_ t); [by intros [= <-]|].
  intros (q1 & Hq1 & H)%bind_Ok_inv. pose proof (callback_keeps _ _ _ Hwf Hq1) as Hwf1.
  destruct (heap q1 !! a) as [t1|] eqn:E; [|done].
  apply bind_Ok_inv in H as (t2 & Ht2 & [= <-]).
  eapply twf_update; eauto using after_call_sequence.
Qed.

Lemma twf_do_timer_loop fuel now iter q q' :
  twf q → do_timer_loop call fuel now iter q = Some (Ok q') → twf q'.
Proof.
  revert iter q. induction fuel as [|f IH]; intros [e|] q Hwf; simpl;
    try (by intros [= <-]).
  destruct (heap q !! e.2) as [t|]; [|done].
  destruct (ts_le (expiration_ t) now); [|by intros [= <-]].
  destruct (Timer_run call e.2 q) as [q1|] eqn:Hrun; [|done].
  pose proof (twf_Timer_run _ _ _ Hwf Hrun).
  destruct (bool_decide _); [|done]. destruct (heap q1 !! e.2) as [t1|]; [|done].
  destruct (repeat_count_ t1 =? 0); apply IH; [by apply twf_erase | done].
Qed.
End do_timer_invariant.

(** ** A pass over the due timers, for callbacks that leave the queue alone *)
Section pass.
Context {TimerCallback World : Type} (effect : TimerCallback → World → World).
Implicit Types (q : TimerQueue TimerCallback World) (t : Timer TimerCallback)
  (h : gmap Z (Timer TimerCallback)).

Definition call_effect (c : TimerCallback) q : outcome (TimerQueue TimerCallback World) :=
  Ok (set_world (effect c (world q)) q).

#[export] Instance call_effect_keeps : CallbackKeeps twf call_effect.
Proof. intros c q q' Hwf [= <-]. by apply twf_set_world. Qed.

(** The specification of a pass: the entries in front of the first timer that is not due
    (by its current expiration); what one run makes of a timer: a count other than -1
    (forever) goes down by one, and the expiration moves by the interval unless the count has
    become 0; what it makes of the world, and whether the entry stays. *)
Fixpoint due_prefix (now : Timestamp) h (l : list Entry) : list Entry :=
  match l with
  | [] => []
  | e :: l' =>
      match h !! e.2 with
      | Some t => if expiration_ t <=? now then e :: due_prefix now h l' else []
      | None => []
      end
  end.

Definition after_run t : Timer TimerCallback :=
  if canceled_ t then t
  else mkTimer (callback_ t) (if repeat_count_ t =? 1 then expiration_ t else expiration_ t + interval_ t)
         (interval_ t) (if repeat_count_ t =? -1 then -1 else repeat_count_ t - 1) (sequence_ t) (canceled_ t).

Definition fire h (w : World) (e : Entry) : World :=
  match h !! e.2 with
  | Some t => if canceled_ t then w else effect (callback_ t) w
  | None => w
  end.

Definition stays h (e : Entry) : bool :=
  match h !! e.2 with Some t => negb (repeat_count_ (after_run t) =? 0) | None => true end.

(** No [int64_t] overflow when the timer is rescheduled. *)
Definition reschedulable t : Prop :=
  canceled_ t = true ∨
  (repeat_count_ t = -1 ∨ - 2 ^ 63 < repeat_count_ t ≤ 2 ^ 63) ∧
  (repeat_count_ t = 1 ∨ - 2 ^ 63 ≤ expiration_ t + interval_ t < 2 ^ 63).

Lemma i64_inv z y : i64 z = Ok y → y = z ∧ - 2 ^ 63 ≤ z < 2 ^ 63.
Proof.
  unfold i64. destruct (Z.leb_spec (-9223372036854775808) z), (Z.leb_spec z 9223372036854775807); try done.
  intros [= <-]. lia.
Qed.

(** The code behind the callback does what the specification says. *)
Lemma after_call_spec t t' :
  canceled_ t = false → after_call t = Ok t' ↔ reschedulable t ∧ t' = after_run t.
Proof.
  intros Hc. unfold after_call, reschedulable, after_run, Timestamp_add_assign. rewrite Hc.
  destruct (Z.eqb_spec (repeat_count_ t) (-1)) as [E|Hne].
  - rewrite E. change (-1 =? 1) with false. split.
    + intros (e & [-> He]%i64_inv & [= <-])%bind_Ok_inv. split; [right; auto | done].
    + intros [[|[_ [|H]]] ->]; [done | lia|]. by rewrite i64_ok by lia.
  - split.
    + intros (rc & [-> Hrc]%i64_inv & H)%bind_Ok_inv.
      destruct (Z.eqb_spec (repeat_count_ t - 1) 0), (Z.eqb_spec (repeat_count_ t) 1); try lia.
      * injection H as <-. split; [right; split; lia | done].
      * apply bind_Ok_inv in H as (e & [-> He]%i64_inv & [= <-]). split; [right; split; lia | done].
    + intros [[|[[|H1] H2]] ->]; [done | lia|]. rewrite (i64_ok (_ - 1)) by lia. rewrite bind_Ok.
      destruct (Z.eqb_spec (repeat_count_ t - 1) 0), (Z.eqb_spec (repeat_count_ t) 1); try lia; [done|].
      destruct H2; [lia|]. by rewrite i64_ok by lia.
Qed.

Lemma spec_ext h1 h2 now (l : list Entry) :
  (∀ e, e ∈ l → h1 !! e.2 = h2 !! e.2) →
  due_prefix now h1 l = due_prefix now h2 l ∧
  (∀ w, foldl (fire h1) w l = foldl (fire h2) w l) ∧
  filter (λ e, stays h1 e = true) l = filter (λ e, stays h2 e = true) l.
Proof.
  induction l as [|e l IH]; intros H; [done|].
  destruct IH as (I1 & I2 & I3); [set_solver|].
  assert (He : h1 !! e.2 = h2 !! e.2) by set_solver.
  split; [|split]; [| intros w |].
  - simpl. by rewrite He, I1.
  - simpl. unfold fire at 2 4. by rewrite He, I2.
  - assert (stays h1 e = stays h2 e) by (unfold stays; by rewrite He).
    rewrite !filter_cons, I3. by repeat destruct (decide _); congruence.
Qed.

Lemma due_prefix_prefix now h l : ∃ rest, l = due_prefix now h l ++ rest.
Proof.
  induction l as [|e l [rest IH]]; simpl; [by exists []|].
  destruct (h !! e.2); [|by exists (e :: l)]. destruct (_ <=? _); [|by exists (e :: l)].
  exists rest. simpl. by f_equal.
Qed.

(** One run. *)
Lemma Timer_run_effect a t q :
  heap q !! a = Some t → reschedulable t →
  Timer_run call_effect a q =
    Ok (set_world (fire (heap q) (world q) (0, a))
         (set_heap (<[a := after_run t]> (heap q)) q)).
Proof.
  intros Ha Hr. unfold Timer_run, fire, after_run, call_effect. simpl. rewrite Ha.
  destruct (canceled_ t) eqn:Hc.
  - rewrite insert_id by done. by destruct q.
  - simpl. rewrite ?Ha. rewrite (proj2 (after_call_spec t (after_run t) Hc)) by done.
    unfold after_run. by rewrite Hc.
Qed.

(** The state behind a pass over [todo], with [dn] already passed. *)
Record pass_result now q (dn todo : list Entry) q' : Prop := {
  pr_timers :
    let due := due_prefix now (heap q) todo in
    timers_ q' = dn ++ filter (λ e, stays (heap q) e = true) due ++ drop (length due) todo;
  pr_world : world q' = foldl (fire (heap q)) (world q) (due_prefix now (heap q) todo);
  pr_heap : ∀ a,
    heap q' !! a = if bool_decide (a ∈ (due_prefix now (heap q) todo).*2)
                   then after_run <$> heap q !! a else heap q !! a;
}.

(** A pass whose first timer [t] is due goes on from the state [q1] behind its run. *)
Lemma pass_result_cons now q q1 q' dn e t todo :
  heap q !! e.2 = Some t → expiration_ t ≤ now → e.2 ∉ todo.*2 →
  heap q1 = <[e.2 := after_run t]> (heap q) → world q1 = fire (heap q) (world q) e →
  pass_result now q1 (if stays (heap q) e then dn ++ [e] else dn) todo q' →
  pass_result now q dn (e :: todo) q'.
Proof.
  intros Ht Hdue He Hh1 Hw1 [T W H].
  assert (Hext : ∀ x, x ∈ todo → heap q1 !! x.2 = heap q !! x.2).
  { intros x Hx. rewrite Hh1. apply lookup_insert_ne. intros E. apply He. rewrite E.
    by apply list_elem_of_fmap_2. }
  destruct (due_prefix_prefix now (heap q) todo) as [rest Hrest].
  destruct (spec_ext (heap q1) (heap q) now todo Hext) as (E1 & _ & _).
  destruct (spec_ext (heap q1) (heap q) now (due_prefix now (heap q) todo)) as (_ & E2 & E3).
  { intros x Hx. apply Hext. rewrite Hrest. set_solver. }
  assert (E0 : due_prefix now (heap q) (e :: todo) = e :: due_prefix now (heap q) todo).
  { simpl. rewrite Ht. by destruct (Z.leb_spec (expiration_ t) now); [|lia]. }
  rewrite E1 in *. split; rewrite E0; cbv zeta.
  - rewrite T, E3, filter_cons. cbn [length drop].
    destruct (stays (heap q) e); [rewrite decide_True by done | by rewrite decide_False].
    by rewrite <- app_assoc.
  - by rewrite W, E2, Hw1.
  - intros a. rewrite H. cbn [fmap list_fmap]. destruct (decide (a = e.2)) as [->|Hne].
    + rewrite (bool_decide_eq_true_2 (e.2 ∈ e.2 :: _)) by set_solver.
      rewrite bool_decide_eq_false_2.
      * by rewrite Hh1, lookup_insert_eq, Ht.
      * intros Hin. apply He. rewrite Hrest, fmap_app. set_solver.
    + assert (heap q1 !! a = heap q !! a) as -> by (by rewrite Hh1, lookup_insert_ne).
      assert (Hiff : a ∈ (due_prefix now (heap q) todo).*2 ↔
                     a ∈ e.2 :: (due_prefix now (heap q) todo).*2) by set_solver.
      by rewrite (bool_decide_ext _ _ Hiff).
Qed.

Lemma twf_after_run a t w q :
  heap q !! a = Some t → twf q → twf (set_world w (set_heap (<[a := after_run t]> (heap q)) q)).
Proof.
  intros Ha Hwf. apply twf_set_world, (twf_update _ t); [done | | done]. unfold after_run.
  by destruct (canceled_ t).
Qed.

Lemma do_timer_loop_spec now todo dn q fuel :
  twf q → timers_ q = dn ++ todo → (length todo ≤ fuel)%nat →
  (∀ e t, e ∈ todo → heap q !! e.2 = Some t → reschedulable t) →
  ∃ q', do_timer_loop call_effect fuel now (head todo) q = Some (Ok q') ∧
        pass_result now q dn todo q'.
Proof.
  revert dn q fuel. induction todo as [|e todo IH]; intros dn q fuel Hwf Hq Hfuel Hres.
  - exists q. split; [by destruct fuel | by split; simpl].
  - destruct fuel as [|fuel]; [simpl in Hfuel; lia|]. simpl in Hfuel.
    destruct (twf_live _ Hwf e) as [t Ht]; [rewrite Hq; set_solver|].
    cbn [do_timer_loop head]. rewrite Ht.
    assert (ts_le (expiration_ t) now = (expiration_ t <=? now)) as ->
      by (unfold ts_le, ts_gt, ts_lt; lia).
    destruct (Z.leb_spec (expiration_ t) now) as [Hdue|].
    2: { exists q. assert (E0 : due_prefix now (heap q) (e :: todo) = []).
         { simpl. rewrite Ht. by destruct (Z.leb_spec (expiration_ t) now); [lia|]. }
         split; [done|]. split; rewrite E0; [by rewrite Hq | done..]. }
    rewrite (Timer_run_effect _ t) by eauto using list_elem_of_here.
    set (q1 := set_world _ _).
    assert (Hwf1 : twf q1) by (by apply twf_after_run).
    assert (Hq1 : timers_ q1 = dn ++ e :: todo) by done.
    rewrite bool_decide_eq_true_2 by (rewrite Hq1; set_solver).
    assert (heap q1 !! e.2 = Some (after_run t)) as -> by (simpl; by rewrite lookup_insert_eq).
    pose proof (twf_sorted _ Hwf1) as Hs1. rewrite Hq1 in Hs1.
    pose proof (twf_once _ Hwf1) as Ho1. rewrite Hq1, fmap_app in Ho1. simpl in Ho1.
    apply NoDup_app in Ho1 as (_ & _ & [He Ho1]%NoDup_cons).
    rewrite Hq1, next_after_at, set_erase_at by done.
    assert (Hres1 : ∀ x u, x ∈ todo → heap q1 !! x.2 = Some u → reschedulable u).
    { intros x u Hx. simpl. rewrite lookup_insert_ne.
      - apply Hres. set_solver.
      - intros E. apply He. rewrite E. by apply list_elem_of_fmap_2. }
    assert (Hst : stays (heap q) e = negb (repeat_count_ (after_run t) =? 0))
      by (unfold stays; by rewrite Ht).
    destruct (repeat_count_ (after_run t) =? 0).
    + destruct (IH dn (set_timers (dn ++ todo) q1) fuel) as (q' & R & P); try done; [|lia|].
      { rewrite <- (set_erase_at dn e todo) by done. rewrite <- Hq1. by apply twf_erase. }
      exists q'. split; [done|].
      eapply (pass_result_cons _ q (set_timers (dn ++ todo) q1)); try done. by rewrite Hst.
    + destruct (IH (dn ++ [e]) q1 fuel) as (q' & R & P); try done; [by rewrite <- app_assoc|lia|].
      exists q'. split; [done|]. eapply (pass_result_cons _ q q1); try done. by rewrite Hst.
Qed.
End pass.

(** ** Callbacks that use the queue: scripts of queue operations *)
Section scripts.
Context {TimerCallback World : Type}.

(** What user code does to the queue, in the loop thread. *)
Inductive tq_op :=
| OpAddLvalue (cb : TimerCallback) (when : Timestamp) (interval repeat_count : Z)
| OpAddRvalue (cb : TimerCallback) (when : Timestamp) (interval repeat_count : Z)
| OpRemove (a : Z)
| OpCancel (a : Z) (off : bool).

(** [new] takes some unused address other than null. *)
Definition exec_op (o : tq_op) (q : TimerQueue TimerCallback World)
    : outcome (TimerQueue TimerCallback World) :=
  let a := fresh ({[0]} ∪ dom (heap q)) in
  match o with
  | OpAddLvalue cb when interval rc => fst <$> add_timer_lvalue a cb when interval rc q
  | OpAddRvalue cb when interval rc => fst <$> add_timer_rvalue a cb when interval rc q
  | OpRemove a => Ok (remove_timer (mkTimerId a 0) q)
  | OpCancel a off => Ok (cancel (mkTimerId a 0) off q)
  end.

Lemma twf_add a (cb : TimerCallback) when interval rc (q : TimerQueue TimerCallback World) :
  heap q !! a = None → twf q →
  ∃ q', add_timer_in_loop a (Timer_new a cb when interval rc q) = Ok q' ∧ twf q'.
Proof.
  intros Ha Hwf. pose proof (twf_Timer_new a cb when interval rc q Ha Hwf) as Hwf1.
  destruct (add_timer_in_loop a (Timer_new a cb when interval rc q)) as [q'|f] eqn:E.
  - exists q'. split; [done|]. eapply (twf_insert a); [| exact Hwf1 | done].
    rewrite list_elem_of_fmap. intros (e & -> & He). simpl in He.
    destruct (twf_live _ Hwf e He). congruence.
  - unfold add_timer_in_loop, insert in E. simpl in E. by rewrite lookup_insert_eq in E.
Qed.

(** Every queue operation succeeds on a well-formed queue and keeps it so. *)
Lemma twf_exec_op o q : twf q → ∃ q', exec_op o q = Ok q' ∧ twf q'.
Proof.
  intros Hwf.
  assert (Hf : heap q !! fresh ({[0]} ∪ dom (heap q)) = None).
  { apply not_elem_of_dom. pose proof (is_fresh ({[0]} ∪ dom (heap q))). set_solver. }
  destruct o as [cb when i rc|cb when i rc|a|a off]; unfold exec_op.
  - unfold add_timer_lvalue.
    destruct (twf_add _ cb when i (-1) q Hf Hwf) as (q' & -> & H). by exists q'.
  - unfold add_timer_rvalue.
    destruct (twf_add _ cb when i rc q Hf Hwf) as (q' & -> & H). by exists q'.
  - eexists. split; [done|]. by apply twf_remove.
  - eexists. split; [done|]. by apply twf_cancel.
Qed.

End scripts.
Arguments tq_op : clear implicits.

Section logged_scripts.
Context {TimerCallback : Type}.

(** The world is the log of the callbacks called. *)
Abbreviation queue := (TimerQueue TimerCallback (list TimerCallback)).

Fixpoint exec_ops (os : list (tq_op TimerCallback)) (q : queue) : outcome queue :=
  match os with [] => Ok q | o :: os' => q1 ← exec_op o q; exec_ops os' q1 end.

(** Calling a callback logs it and executes its script. *)
Definition call_script (script : TimerCallback → list (tq_op TimerCallback)) (c : TimerCallback) (q : queue)
    : outcome queue :=
  exec_ops (script c) (set_world (world q ++ [c]) q).

Lemma twf_exec_ops os q : twf q → ∃ q', exec_ops os q = Ok q' ∧ twf q'.
Proof.
  revert q. induction os as [|o os IH]; intros q Hwf; simpl; [by exists q|].
  destruct (twf_exec_op o q Hwf) as (q1 & -> & Hwf1). by apply IH.
Qed.

#[export] Instance call_script_keeps script : CallbackKeeps twf (call_script script).
Proof.
  intros c q q' Hwf E. destruct (twf_exec_ops (script c) (set_world (world q ++ [c]) q))
    as (q2 & E2 & H2); [by apply twf_set_world|].
  unfold call_script in E. congruence.
Qed.

(** States reached by operations and passes, from an empty queue. *)
Inductive reachable (script : TimerCallback → list (tq_op TimerCallback)) : queue → Prop :=
| reach_start created : reachable script (TimerQueue_ctor created [])
| reach_op o q q' : reachable script q → exec_op o q = Ok q' → reachable script q'
| reach_pass fuel now q q' :
    reachable script q → do_timer (call_script script) fuel now q = Some (Ok q') →
    reachable script q'.

(** The timer queue's invariant holds in every state reached by any interleaving of
    operations and passes, with callbacks that themselves add, remove and cancel timers:
    the set stays ordered, every entry refers to a live timer, no timer is entered twice,
    sequence numbers identify timers; and every operation succeeds. *)
Theorem timer_queue_invariant (script : TimerCallback → list (tq_op TimerCallback)) (q : queue) (o : tq_op TimerCallback) :
  reachable script q → twf q ∧ ∃ q', exec_op o q = Ok q' ∧ twf q'.
Proof.
  intros H. assert (twf q); [|eauto using twf_exec_op].
  induction H as [created|o' q q' _ IH E|fuel now q q' _ IH E].
  - apply twf_ctor.
  - destruct (twf_exec_op o' q IH) as (? & ? & ?). congruence.
  - eapply twf_do_timer_loop; [| exact IH | exact E]. apply call_script_keeps.
Qed.
End logged_scripts.

Lemma timer_queue_invariant_witness :
  let script (n : nat) := if decide (n = 1)%nat then [OpAddRvalue 2%nat 7 0 1; OpCancel 1 true]
                          else [] in
  ∃ q, exec_op (OpAddLvalue 1%nat 5 10 1) (TimerQueue_ctor 0 ([] : list nat)) = Ok q ∧
       twf q ∧ ∃ q', exec_op (OpAddRvalue 3%nat 6 10 1) q = Ok q' ∧ twf q'.
Proof.
  cbv zeta. eexists. split; [vm_compute; reflexivity|].
  apply (timer_queue_invariant (λ n, if decide (n = 1)%nat
           then [OpAddRvalue 2%nat 7 0 1; OpCancel 1 true] else [])).
  eapply (reach_op _ (OpAddLvalue 1%nat 5 10 1)); [apply (reach_start _ 0)|].
  vm_compute. reflexivity.
Defined.

(** A callback that removes its own timer leaves the pass with a dangling iterator. *)
Example remove_self_dangles :
  let script (n : nat) := [OpRemove 1] in
  ∃ q, exec_op (OpAddRvalue 1%nat 5 10 3) (TimerQueue_ctor 0 ([] : list nat)) = Ok q ∧
       timers_ q = [(5, 1)] ∧
       do_timer (call_script script) 10 5 q = Some (Stop Dangling).
Proof. eexists. split; [vm_compute; reflexivity|]. by vm_compute. Qed.

(** ** What a pass does *)
Section pass_theorems.

(** C14. A pass over a well-formed queue, for callbacks that leave the queue alone and timers
    whose counts and times do not overflow [int64_t], terminates (fuel: the number of entries)
    and is the run of exactly the entries in front of the first timer that is not due: each of
    their timers is run once, in the order of the set, cancelled ones without a call and
    without a change; a count other than -1 goes down by one, a timer whose count becomes 0
    leaves the set and any other expires an interval later; its place in the set stays the
    one of its first expiration, and the rest of the queue is untouched. *)
Theorem do_timer_runs_due_prefix {TimerCallback World} (effect : TimerCallback → World → World)
    (q : TimerQueue TimerCallback World) (now : Timestamp) (fuel : nat) :
  twf q → (length (timers_ q) ≤ fuel)%nat →
  (∀ e t, e ∈ timers_ q → heap q !! e.2 = Some t → reschedulable t) →
  let due := due_prefix now (heap q) (timers_ q) in
  ∃ q', do_timer (call_effect effect) fuel now q = Some (Ok q') ∧ twf q' ∧
    timers_ q' = filter (λ e, stays (heap q) e = true) due ++ drop (length due) (timers_ q) ∧
    world q' = foldl (fire effect (heap q)) (world q) due ∧
    (∀ a, heap q' !! a = if bool_decide (a ∈ due.*2) then after_run <$> heap q !! a
                         else heap q !! a).
Proof.
  intros Hwf Hf Hres due.
  destruct (do_timer_loop_spec effect now (timers_ q) [] q fuel) as (q' & R & [T W H]); try done.
  exists q'. split; [done|]. split; [|done].
  eapply twf_do_timer_loop; [| exact Hwf | exact R]. apply call_effect_keeps.
Qed.

Lemma do_timer_runs_due_prefix_witness :
  let t1 := mkTimer 1%nat 5 10 2 1 false in
  let t2 := mkTimer 2%nat 6 0 1 2 false in
  let q := mkTimerQueue {[ 100 := t1; 200 := t2 ]} [(5, 100); (6, 200)] 2 [] in
  let due := due_prefix 6 (heap q) (timers_ q) in
  ∃ q', do_timer (call_effect (λ n w, w ++ [n])) 2 6 q = Some (Ok q') ∧ twf q' ∧
    timers_ q' = filter (λ e, stays (heap q) e = true) due ++ drop (length due) (timers_ q) ∧
    world q' = foldl (fire (λ n w, w ++ [n]) (heap q)) (world q) due ∧
    (∀ a, heap q' !! a = if bool_decide (a ∈ due.*2) then after_run <$> heap q !! a
                         else heap q !! a).
Proof.
  intros t1 t2 q due. apply do_timer_runs_due_prefix.
  - assert (Hq : ∀ a t, heap q !! a = Some t → (a = 100 ∧ t = t1) ∨ (a = 200 ∧ t = t2)).
    { intros a t. simpl. rewrite lookup_insert_Some, lookup_singleton_Some. naive_solver. }
    split.
    + repeat constructor.
    + intros e He. repeat (apply elem_of_cons in He as [->|He]; [by eexists|]).
      by apply elem_of_nil in He.
    + apply (bool_decide_unpack _). by vm_compute.
    + intros a t Ha. by destruct (Hq a t Ha) as [[-> ->]|[-> ->]].
    + intros a b t u Ha Hb. destruct (Hq a t Ha) as [[-> ->]|[-> ->]],
        (Hq b u Hb) as [[-> ->]|[-> ->]]; done.
  - simpl. lia.
  - intros e t He. change (e ∈ [(5, 100); (6, 200)]) in He.
    rewrite !elem_of_cons, elem_of_nil in He. destruct He as [->|[->|[]]]; intros [= <-];
      (right; split; [right; vm_compute; split; congruence | first [left; reflexivity | right; vm_compute; split; congruence]]).
Defined.

(** Several passes, at the given times; one entry of fuel per entry of the set and one for
    the end. Callbacks are logged. *)
Definition log_call : nat → list nat → list nat := λ n w, w ++ [n].

Fixpoint passes (nows : list Timestamp) (q : TimerQueue nat (list nat))
    : option (outcome (TimerQueue nat (list nat))) :=
  match nows with
  | [] => Some (Ok q)
  | now :: nows' =>
      match do_timer (call_effect log_call) (S (length (timers_ q))) now q with
      | Some (Ok q1) => passes nows' q1
      | r => r
      end
  end.

(** The loop's first step, at a timer that is due or not due. *)
Lemma do_timer_step (q : TimerQueue nat (list nat)) e t t' now fuel :
  heap q !! e.2 = Some t → expiration_ t ≤ now → canceled_ t = false →
  after_call t = Ok t' → e ∈ timers_ q →
  do_timer_loop (call_effect log_call) (S fuel) now (Some e) q =
    let q1 := set_world (world q ++ [callback_ t]) (set_heap (<[e.2 := t']> (heap q)) q) in
    do_timer_loop (call_effect log_call) fuel now (next_after e (timers_ q))
      (if repeat_count_ t' =? 0 then set_timers (set_erase e (timers_ q)) q1 else q1).
Proof.
  intros Ht Hdue Hc Ha He. cbn [do_timer_loop]. rewrite Ht.
  assert (ts_le (expiration_ t) now = true) as -> by (unfold ts_le, ts_gt, ts_lt; lia).
  apply after_call_spec in Ha as [Hr ->]; [|done].
  rewrite (Timer_run_effect log_call e.2 t) by done.
  unfold fire. cbn [snd]. rewrite Ht, Hc.
  cbn [timers_ set_world set_heap heap]. rewrite bool_decide_eq_true_2 by done.
  rewrite lookup_insert_eq. by destruct (repeat_count_ (after_run t) =? 0).
Qed.

Lemma do_timer_head_not_due (q : TimerQueue nat (list nat)) e t now fuel :
  head (timers_ q) = Some e → heap q !! e.2 = Some t → now < expiration_ t →
  do_timer (call_effect log_call) (S fuel) now q = Some (Ok q).
Proof.
  intros Hh Ht Hn. unfold do_timer. rewrite Hh. cbn [do_timer_loop]. rewrite Ht.
  assert (ts_le (expiration_ t) now = false) as -> by (unfold ts_le, ts_gt, ts_lt; lia). done.
Qed.

(** Passes over the empty set, and over one timer of interval 0. *)
Lemma passes_empty nows q : timers_ q = [] → passes nows q = Some (Ok q).
Proof.
  intros Hq. induction nows as [|now nows IH]; [done|]. simpl. unfold do_timer.
  by rewrite Hq.
Qed.

Definition single (a when rc seq : Z) (cb : nat) (w : list nat) : TimerQueue nat (list nat) :=
  mkTimerQueue {[ a := mkTimer cb when 0 rc seq false ]} [(when, a)] seq w.

Lemma pass_forever a when seq cb w now :
  (-9223372036854775808 ≤ when ≤ 9223372036854775807)%Z → when ≤ now →
  do_timer (call_effect log_call) 2 now (single a when (-1) seq cb w) =
    Some (Ok (single a when (-1) seq cb (w ++ [cb]))).
Proof.
  intros Hr Hw. unfold do_timer. cbn [timers_ single head].
  rewrite (do_timer_step _ _ (mkTimer cb when 0 (-1) seq false)
             (mkTimer cb when 0 (-1) seq false)); try done.
  - cbn [timers_ single next_after]. rewrite entry_lt_irrefl. cbn [single heap snd].
    rewrite insert_singleton_eq. done.
  - by apply lookup_singleton_eq.
  - unfold after_call. change (repeat_count_ _ =? -1) with true. cbv iota.
    unfold Timestamp_add_assign. cbn [expiration_ interval_]. by rewrite Z.add_0_r, i64_ok.
  - cbn [timers_ single]. set_solver.
Qed.

Lemma pass_last a when seq cb w now :
  when ≤ now →
  do_timer (call_effect log_call) 2 now (single a when 1 seq cb w) =
    Some (Ok (mkTimerQueue {[ a := mkTimer cb when 0 0 seq false ]} [] seq (w ++ [cb]))).
Proof.
  intros Hw. unfold do_timer. cbn [timers_ single head].
  rewrite (do_timer_step _ _ (mkTimer cb when 0 1 seq false)
             (mkTimer cb when 0 0 seq false)); try done.
  - cbn [timers_ single next_after]. rewrite entry_lt_irrefl. cbn [single heap snd].
    rewrite insert_singleton_eq. cbn [repeat_count_ Z.eqb].
    pose proof (set_erase_at [] (when, a) [] ltac:(repeat constructor)) as Hse.
    set (x := set_erase _ _). assert (x = []) as -> by exact Hse. done.
  - by apply lookup_singleton_eq.
  - cbn [timers_ single]. set_solver.
Qed.

(** [EventLoop::run_at] asks for one execution ([interval] 0, [repeat_count] 1). The
    overload that takes the callback by rvalue reference delivers it: over any passes at or
    after the requested time the callback is called once. The overload that takes it by
    const reference drops the count, and the callback is called again on every pass. *)
Theorem one_shot_timers (a when seq : Z) (cb : nat) (nows : list Timestamp) :
  -9223372036854775808 ≤ when ≤ 9223372036854775807 →
  nows ≠ [] → Forall (λ now, when ≤ now) nows →
  let q0 := TimerQueue_ctor seq [] in
  (∃ q id q', add_timer_rvalue a cb when 0 1 q0 = Ok (q, id) ∧
     passes nows q = Some (Ok q') ∧ world q' = [cb] ∧ timers_ q' = []) ∧
  (∃ q id q', add_timer_lvalue a cb when 0 1 q0 = Ok (q, id) ∧
     passes nows q = Some (Ok q') ∧ world q' = replicate (length nows) cb ∧
     timers_ q' = timers_ q).
Proof.
  intros Hr Hne Hall q0.
  assert (Hins : ∀ rc, add_timer_in_loop a (Timer_new a cb when 0 rc q0) =
                       Ok (single a when rc (seq + 1) cb [])).
  { intros rc. unfold add_timer_in_loop, insert, Timer_new. cbn [heap q0 TimerQueue_ctor].
    rewrite lookup_insert_eq. done. }
  split.
  - unfold add_timer_rvalue. rewrite Hins. do 3 eexists. split; [done|].
    destruct Hall as [|now nows Hw _]; [done|]. cbn [passes]. rewrite pass_last by done.
    rewrite passes_empty by done. done.
  - unfold add_timer_lvalue. rewrite Hins. do 2 eexists.
    exists (single a when (-1) (seq + 1) cb (replicate (length nows) cb)).
    split; [done|]. split; [|done]. clear Hins Hne.
    assert (H : ∀ w, passes nows (single a when (-1) (seq + 1) cb w) =
                Some (Ok (single a when (-1) (seq + 1) cb (w ++ replicate (length nows) cb))));
      [|apply (H [])].
    induction Hall as [|now nows Hw _ IH]; intros w; cbn [passes length replicate].
    + by rewrite app_nil_r.
    + change (S (length (timers_ (single a when (-1) (seq + 1) cb w)))) with 2%nat.
      rewrite pass_forever, IH, <- app_assoc by done. done.
Qed.

Lemma one_shot_timers_witness :
  let q0 := TimerQueue_ctor 0 [] in
  (∃ q id q', add_timer_rvalue 64 7%nat 5 0 1 q0 = Ok (q, id) ∧
     passes [5; 6; 7] q = Some (Ok q') ∧ world q' = [7%nat] ∧ timers_ q' = []) ∧
  (∃ q id q', add_timer_lvalue 64 7%nat 5 0 1 q0 = Ok (q, id) ∧
     passes [5; 6; 7] q = Some (Ok q') ∧ world q' = replicate (length [5; 6; 7]) 7%nat ∧
     timers_ q' = timers_ q).
Proof. apply one_shot_timers; [lia | congruence | repeat constructor; lia]. Defined.

(** Starvation: the set is ordered by the expiration at insertion while the pass stops
    at the first timer whose current expiration lies ahead. Behind a periodic timer that has
    just run, a one-shot timer that falls due before the period is over is not called by
    any number of passes until the period ends. *)
Theorem periodic_timer_starves_later_timers (a b t0 t1 period : Z) (cbA cbB : nat)
    (nows : list Timestamp) :
  a ≠ b → t0 < t1 → 0 < period →
  -9223372036854775808 ≤ t0 → t0 + period ≤ 9223372036854775807 →
  Forall (λ now, t1 ≤ now < t0 + period) nows →
  ∃ q1 id1 q2 id2 q',
    add_timer_lvalue a cbA t0 period (-1) (TimerQueue_ctor 0 []) = Ok (q1, id1) ∧
    add_timer_rvalue b cbB t1 0 1 q1 = Ok (q2, id2) ∧
    passes (t0 :: nows) q2 = Some (Ok q') ∧ world q' = [cbA] ∧ (t1, b) ∈ timers_ q'.
Proof.
  intros Hab Ht Hp Hlo Hhi Hall.
  set (A := mkTimer cbA t0 period (-1) 1 false). set (B := mkTimer cbB t1 0 1 2 false).
  set (A' := mkTimer cbA (t0 + period) period (-1) 1 false).
  exists (mkTimerQueue {[ a := A ]} [(t0, a)] 1 []), (mkTimerId a 1),
    (mkTimerQueue (<[b := B]> {[ a := A ]}) [(t0, a); (t1, b)] 2 []), (mkTimerId b 2),
    (mkTimerQueue (<[a := A']> (<[b := B]> {[ a := A ]})) [(t0, a); (t1, b)] 2 [cbA]).
  assert (Hlt : entry_lt (t0, a) (t1, b) = true) by (apply entry_lt_spec; simpl; lia).
  assert (Hgt : entry_lt (t1, b) (t0, a) = false).
  { apply not_true_iff_false. rewrite entry_lt_spec. simpl. lia. }
  split; [|split; [|split; [|split; [done | simpl; set_solver]]]].
  - unfold add_timer_lvalue, add_timer_in_loop, insert, Timer_new. cbn [heap TimerQueue_ctor].
    by rewrite lookup_insert_eq.
  - unfold add_timer_rvalue, add_timer_in_loop, insert, Timer_new. cbn [heap].
    rewrite lookup_insert_eq. cbn [mbind outcome_bind set_timers timers_ expiration_ set_insert].
    by rewrite Hgt, Hlt.
  - cbn [passes]. unfold do_timer at 1. cbn [timers_ head length].
    rewrite (do_timer_step _ _ A A'); try done.
    + cbn [timers_ next_after repeat_count_ A' Z.eqb]. rewrite entry_lt_irrefl, Hlt.
      cbn [do_timer_loop heap set_world set_heap snd].
      rewrite lookup_insert_ne, lookup_insert_eq by done.
      assert (ts_le (expiration_ B) t0 = false) as ->
        by (unfold ts_le, ts_gt, ts_lt; simpl; lia).
      induction Hall as [|now nows Hn _ IH]; [done|]. cbn [passes].
      rewrite (do_timer_head_not_due _ (t0, a) A'); [done | done | | simpl; lia].
      cbn [heap set_world set_heap snd]. by rewrite lookup_insert_eq.
    + cbn [heap snd]. rewrite lookup_insert_ne by done. apply lookup_singleton_eq.
    + unfold after_call. change (repeat_count_ _ =? -1) with true. cbv iota.
      unfold Timestamp_add_assign. cbn [expiration_ interval_ A]. by rewrite i64_ok by lia.
    + cbn [timers_]. set_solver.
Qed.

Lemma periodic_timer_starves_later_timers_witness :
  ∃ q1 id1 q2 id2 q',
    add_timer_lvalue 16 1%nat 1000 60000000 (-1) (TimerQueue_ctor 0 []) = Ok (q1, id1) ∧
    add_timer_rvalue 32 2%nat 2000 0 1 q1 = Ok (q2, id2) ∧
    passes [1000; 2000; 30000000; 60000999] q2 = Some (Ok q') ∧
    world q' = [1%nat] ∧ (2000, 32) ∈ timers_ q'.
Proof.
  apply (periodic_timer_starves_later_timers 16 32 1000 2000 60000000 1%nat 2%nat
           [2000; 30000000; 60000999]); try lia; repeat constructor; lia.
Defined.
End pass_theorems.

(** ** Printing *)
Section printing.

Lemma dec_value_app acc (xs ys : bytes) : dec_value acc (xs ++ ys) = dec_value (dec_value acc xs) ys.
Proof. revert acc. induction xs as [|x xs IH]; intros acc; simpl; auto. Qed.

Lemma dec_value_shift acc (ys : bytes) :
  dec_value acc ys = acc * 10 ^ Zlen ys + dec_value 0 ys.
Proof.
  revert acc. induction ys as [|y ys IH]; intros acc; cbn [dec_value].
  - change (Zlen []) with 0. lia.
  - rewrite IH, (IH (0 * 10 + digit_value y)). unfold Zlen. cbn [length].
    rewrite Nat2Z.inj_succ, Z.pow_succ_r by lia. lia.
Qed.

Lemma dec_value_zeros n ys : dec_value 0 (replicate n x30 ++ ys) = dec_value 0 ys.
Proof. induction n as [|n IH]; [done|]. cbn [replicate app dec_value]. by rewrite <- IH. Qed.

Lemma pad_zero_spec w z :
  0 ≤ z < 10 ^ Z.of_nat w → (0 < w)%nat →
  length (pad_zero w z) = w ∧ dec_value 0 (pad_zero w z) = z ∧
  Forall (λ c, is_digit c = true) (pad_zero w z).
Proof.
  intros Hz Hw. unfold pad_zero. destruct (Z.ltb_spec z 0); [lia|]. rewrite Z.abs_eq by lia.
  pose proof (dec_digits_length (S (Z.to_nat (Z.log2 z))) z [] w Hz Hw) as Hl.
  fold (dec_pos z) in Hl. cbn [length] in Hl.
  split; [rewrite length_app, length_replicate; lia|]. split.
  - rewrite dec_value_zeros. by apply dec_pos_value.
  - apply Forall_app. split; [|by apply dec_pos_digits]. by apply Forall_replicate.
Qed.

(** The text of a valid timestamp determines it: whole seconds, a point and exactly
    six digits, whose digits taken together are the count of microseconds; nothing is cut
    off by the buffer. *)
Theorem toString_determines (self : Timestamp) :
  0 ≤ self < 2 ^ 63 →
  ∃ secs micros, toString self = secs ++ lit "." ++ micros ∧ length micros = 6%nat ∧
    Forall (λ c, is_digit c = true) (secs ++ micros) ∧
    dec_value 0 secs = secondsSinceEpoch self ∧
    dec_value 0 (secs ++ micros) = self.
Proof.
  intros Hs. unfold toString, secondsSinceEpoch, kMicroSecondsPerSecond.
  change (1000 * 1000) with 1000000. rewrite Z.quot_div_nonneg, Z.rem_mod_nonneg by lia.
  pose proof (Z.mod_pos_bound self 1000000 ltac:(lia)).
  pose proof (Z.div_pos self 1000000 ltac:(lia) ltac:(lia)).
  assert (self / 1000000 < 2 ^ 63) by (apply Z.div_lt_upper_bound; lia).
  assert (H63 : 2 ^ 63 < 10 ^ Z.of_nat 20) by (vm_compute; reflexivity).
  destruct (pad_zero_spec 6 (self mod 1000000)) as (Hlen & Hval & Hdig); [simpl; lia | lia |].
  assert (Hd : dec (self / 1000000) = dec_pos (self / 1000000)).
  { unfold dec. by destruct (Z.ltb_spec (self / 1000000) 0); [lia|]. }
  assert (Hl20 : (length (dec_pos (self / 1000000)) ≤ 20)%nat).
  { pose proof (dec_digits_length (S (Z.to_nat (Z.log2 (self / 1000000)))) (self / 1000000) [] 20
      ltac:(lia) ltac:(lia)) as Hl. cbn [length] in Hl. unfold dec_pos. lia. }
  exists (dec_pos (self / 1000000)), (pad_zero 6 (self mod 1000000)).
  assert (Hv : dec_value 0 (dec_pos (self / 1000000)) = self / 1000000)
    by (by apply dec_pos_value).
  split; [|split; [done|split; [|split; [done|]]]].
  - unfold snprintf. rewrite Hd, take_ge; [done|]. rewrite !length_app, Hlen. simpl. lia.
  - apply Forall_app. split; [by apply dec_pos_digits | done].
  - rewrite dec_value_app, dec_value_shift, Hv, Hval. unfold Zlen. rewrite Hlen.
    change (10 ^ Z.of_nat 6) with 1000000. pose proof (Z.div_mod self 1000000 ltac:(lia)). lia.
Qed.

Lemma toString_determines_witness :
  ∃ secs micros, toString 1700000000000042 = secs ++ lit "." ++ micros ∧
    length micros = 6%nat ∧ Forall (λ c, is_digit c = true) (secs ++ micros) ∧
    dec_value 0 secs = secondsSinceEpoch 1700000000000042 ∧
    dec_value 0 (secs ++ micros) = 1700000000000042.
Proof. apply toString_determines. lia. Defined.
End printing.
