(* ===== verification/Poller.v ===== *)
(** * Channels and the epoll poller: [network/channel.h/.cpp], [network/epoll_poller.h/.cpp],
    [network/poller.h/.cpp] and the channel operations of [network/event_loop.cpp]

    A [Channel*] is an address into the map [chans] of live channels; [channels_] is the
    poller's map from descriptors to channels and [kernel] the interest set of the epoll
    instance (descriptor to registered events and [data.ptr]). [epoll_ctl] is a parameter:
    the class [EpollCtl] states its documented behaviour, [epoll_ideal] is an instance. *)
From S2P Require Import Prelude.

(** [<poll.h>] on Linux. *)
Definition POLLIN : Z := 1.
Definition POLLPRI : Z := 2.
Definition POLLOUT : Z := 4.
Definition POLLERR : Z := 8.
Definition POLLHUP : Z := 16.
Definition POLLNVAL : Z := 32.
Definition POLLRDHUP : Z := 8192.

Definition none_event_ : Z := 0.
Definition read_event_ : Z := Z.lor POLLIN POLLPRI.
Definition write_event_ : Z := POLLOUT.

Definition new_ : Z := -1.
Definition added_ : Z := 1.
Definition deleted_ : Z := 2.

Definition init_event_list_size_ : Z := 16.

(** A test of the sources such as [if (revents_ & POLLIN)]. *)
Definition has (mask flags : Z) : bool := negb (Z.land flags mask =? 0).

Inductive epoll_op := XEPOLL_CTL_ADD | XEPOLL_CTL_DEL | XEPOLL_CTL_MOD.
Abbreviation interest := (gmap Z (Z * Z)).

Section poller.
Context {Callback : Type}.

Record Channel := mkChannel {
  loop_ : Z;
  fd_ : Z;
  events_ : Z;
  revents_ : Z;
  index_ : Z;
  read_callback_ : option Callback;
  write_callback_ : option Callback;
  close_callback_ : option Callback;
  error_callback_ : option Callback;
}.

Definition Channel_ctor (loop fd : Z) : Channel := mkChannel loop fd 0 0 (-1) None None None None.

Definition set_events (e : Z) (c : Channel) : Channel :=
  mkChannel (loop_ c) (fd_ c) e (revents_ c) (index_ c) (read_callback_ c) (write_callback_ c)
    (close_callback_ c) (error_callback_ c).
Definition set_revents (e : Z) (c : Channel) : Channel :=
  mkChannel (loop_ c) (fd_ c) (events_ c) e (index_ c) (read_callback_ c) (write_callback_ c)
    (close_callback_ c) (error_callback_ c).
Definition add_revents (e : Z) (c : Channel) : Channel := set_revents (Z.lor (revents_ c) e) c.
Definition set_index (i : Z) (c : Channel) : Channel :=
  mkChannel (loop_ c) (fd_ c) (events_ c) (revents_ c) i (read_callback_ c) (write_callback_ c)
    (close_callback_ c) (error_callback_ c).
Definition set_callbacks (r w cl er : option Callback) (c : Channel) : Channel :=
  mkChannel (loop_ c) (fd_ c) (events_ c) (revents_ c) (index_ c) r w cl er.

Definition is_event_none (c : Channel) : bool := events_ c =? none_event_.
Definition is_writing (c : Channel) : bool := has write_event_ (events_ c).

Definition revents_2_string (c : Channel) : bytes :=
  let part mask text := if has mask (revents_ c) then lit text else [] in
  dec (fd_ c) ++ lit ": " ++ part POLLIN "IN " ++ part POLLPRI "PRI " ++ part POLLOUT "OUT " ++
  part POLLHUP "HUP " ++ part POLLRDHUP "RDHUP " ++ part POLLERR "ERR " ++ part POLLNVAL "NVAL ".

(** ** Dispatch

    [state] holds the channel; calling a callback is the parameter [call]. The channel is
    looked up again behind each callback, because a callback may change or free it. *)
Section dispatch.
Context {state : Type} (channel : state → outcome Channel)
  (call : Callback → state → outcome state).

Definition call_if (cb : Channel → option Callback) (guard : Channel → bool) (s : state)
    : outcome state :=
  c ← channel s;
  if guard c then match cb c with Some k => call k s | None => Ok s end else Ok s.

Definition handle_event (s : state) : outcome state :=
  s ← call_if close_callback_
        (λ c, has POLLHUP (revents_ c) && negb (has POLLIN (revents_ c))) s;
  s ← call_if error_callback_ (λ c, has (Z.lor POLLERR POLLNVAL) (revents_ c)) s;
  s ← call_if read_callback_
        (λ c, has (Z.lor (Z.lor POLLIN POLLPRI) POLLRDHUP) (revents_ c)) s;
  call_if write_callback_ (λ c, has POLLOUT (revents_ c)) s.
End dispatch.

(** ** The poller *)
Record EpollPoller := mkPoller {
  chans : gmap Z Channel;
  channels_ : gmap Z Z;
  events_size : Z;             (* [events_.size()] *)
  kernel : interest;
}.

Definition EpollPoller_ctor : EpollPoller := mkPoller ∅ ∅ init_event_list_size_ ∅.

Definition set_chans (m : gmap Z Channel) (p : EpollPoller) : EpollPoller :=
  mkPoller m (channels_ p) (events_size p) (kernel p).
Definition set_channels (m : gmap Z Z) (p : EpollPoller) : EpollPoller :=
  mkPoller (chans p) m (events_size p) (kernel p).
Definition set_kernel (k : interest) (p : EpollPoller) : EpollPoller :=
  mkPoller (chans p) (channels_ p) (events_size p) k.
Definition set_size (n : Z) (p : EpollPoller) : EpollPoller :=
  mkPoller (chans p) (channels_ p) n (kernel p).

(** Use of a [Channel*]. *)
Definition deref (a : Z) (p : EpollPoller) : outcome Channel :=
  match chans p !! a with Some c => Ok c | None => Stop Dangling end.
Definition store (a : Z) (c : Channel) (p : EpollPoller) : EpollPoller :=
  set_chans (<[a := c]> (chans p)) p.

Definition has_channel (a : Z) (p : EpollPoller) : outcome bool :=
  c ← deref a p; Ok (bool_decide (channels_ p !! fd_ c = Some a)).

(** [EventLoop::print_active_channels] logs a line per channel. *)
Definition print_active_channels (active : list Z) (p : EpollPoller) : outcome (list bytes) :=
  mapM (λ a, c ← deref a p; Ok (revents_2_string c)) active.

(** A mismatch ends the loop, so later events of the round are dropped. *)
Fixpoint fill_active_channels (evs : list (Z * Z)) (p : EpollPoller)
    : outcome (list Z * EpollPoller) :=
  match evs with
  | [] => Ok ([], p)
  | (ev, a) :: evs' =>
      c ← deref a p;
      if bool_decide (channels_ p !! fd_ c = Some a) then
        '(active, p') ← fill_active_channels evs' (store a (set_revents ev c) p);
        Ok (a :: active, p')
      else Ok ([], p)
  end.

(** [numEvents] is the result of [epoll_wait], [evs] what it stored in [events_]. *)
Definition poll (numEvents : Z) (evs : list (Z * Z)) (p : EpollPoller)
    : outcome (list Z * EpollPoller) :=
  if 0 <? numEvents then
    '(active, p1) ← fill_active_channels (take (Z.to_nat numEvents) evs) p;
    Ok (active, if numEvents =? events_size p1 then set_size (events_size p1 * 2) p1 else p1)
  else Ok ([], p).

Section updates.
Context (epoll_ctl : epoll_op → Z → Z * Z → interest → option interest).

Definition EpollPoller__update (op : epoll_op) (a : Z) (p : EpollPoller)
    : outcome (bool * EpollPoller) :=
  c ← deref a p;
  match epoll_ctl op (fd_ c) (events_ c, a) (kernel p) with
  | None => Ok (false, p)
  | Some k => Ok (true, set_kernel k p)
  end.

Definition update_channel (a : Z) (p : EpollPoller) : outcome (bool * EpollPoller) :=
  c ← deref a p;
  let index := index_ c in
  let fd := fd_ c in
  if (index =? new_) || (index =? deleted_) then
    if index =? new_ then
      if bool_decide (is_Some (channels_ p !! fd)) then Ok (false, p)
      else EpollPoller__update XEPOLL_CTL_ADD a
             (store a (set_index added_ c) (set_channels (<[fd := a]> (channels_ p)) p))
    else if bool_decide (channels_ p !! fd = Some a)
         then EpollPoller__update XEPOLL_CTL_ADD a (store a (set_index added_ c) p)
         else Ok (false, p)
  else if negb (bool_decide (channels_ p !! fd = Some a)) || negb (index =? added_)
  then Ok (false, p)
  else if is_event_none c then
    '(ok, p1) ← EpollPoller__update XEPOLL_CTL_DEL a p;
    if ok : bool then c1 ← deref a p1; Ok (true, store a (set_index deleted_ c1) p1)
    else Ok (false, p1)
  else EpollPoller__update XEPOLL_CTL_MOD a p.

Definition remove_channel (a : Z) (p : EpollPoller) : outcome EpollPoller :=
  c ← deref a p;
  let fd := fd_ c in
  if negb (bool_decide (channels_ p !! fd = Some a)) || negb (is_event_none c) then Ok p
  else
    let index := index_ c in
    if negb (index =? added_) && negb (index =? deleted_) then Ok p
    else
      let p1 := set_channels (delete fd (channels_ p)) p in
      p2 ← (if index =? added_ then snd <$> EpollPoller__update XEPOLL_CTL_DEL a p1 else Ok p1);
      c2 ← deref a p2; Ok (store a (set_index new_ c2) p2).

(** [EventLoop::update_channel], [remove_channel] and the channel's calls of them. *)
Definition EventLoop_update_channel (this a : Z) (p : EpollPoller)
    : outcome (bool * EpollPoller) :=
  c ← deref a p; if negb (loop_ c =? this) then Ok (false, p) else update_channel a p.

Definition EventLoop_remove_channel (this a : Z) (p : EpollPoller) : outcome EpollPoller :=
  c ← deref a p; if negb (loop_ c =? this) then Ok p else remove_channel a p.

Definition EventLoop_has_channel (a : Z) (p : EpollPoller) : outcome bool := has_channel a p.

Definition Channel__update (a : Z) (p : EpollPoller) : outcome (bool * EpollPoller) :=
  c ← deref a p; EventLoop_update_channel (loop_ c) a p.

(** The five operations that change [events_] and update. *)
Definition with_events (f : Z → Z) (a : Z) (p : EpollPoller) : outcome (bool * EpollPoller) :=
  c ← deref a p; Channel__update a (store a (set_events (f (events_ c)) c) p).

Definition enable_reading := with_events (λ e, Z.lor e read_event_).
Definition disable_reading := with_events (λ e, Z.land e (Z.lnot read_event_)).
Definition enable_writing := with_events (λ e, Z.lor e write_event_).
Definition disable_writing := with_events (λ e, Z.land e (Z.lnot write_event_)).
Definition disable_all := with_events (λ _, none_event_).

Definition Channel_remove (a : Z) (p : EpollPoller) : outcome EpollPoller :=
  c ← deref a p; if is_event_none c then EventLoop_remove_channel (loop_ c) a p else Ok p.
End updates.
End poller.
Arguments Channel : clear implicits.
Arguments EpollPoller : clear implicits.

(** ** The contract of [epoll_ctl] *)
Class EpollCtl (ctl : epoll_op → Z → Z * Z → interest → option interest) : Prop := {
  ctl_add fd ev k k' : ctl XEPOLL_CTL_ADD fd ev k = Some k' → k' = <[fd := ev]> k;
  ctl_mod fd ev k k' : ctl XEPOLL_CTL_MOD fd ev k = Some k' → is_Some (k !! fd) ∧ k' = <[fd := ev]> k;
  ctl_del fd ev k k' : ctl XEPOLL_CTL_DEL fd ev k = Some k' → k' = delete fd k;
  (* EBADF or ENOENT: the descriptor is not, or no longer, in the set *)
  ctl_del_fails fd ev k : ctl XEPOLL_CTL_DEL fd ev k = None → k !! fd = None;
}.

(** An epoll instance that moreover fails only as documented for the interest set, with EEXIST
    and ENOENT: its descriptors are open and can be polled, and it does not run out of
    memory or watches. *)
Class EpollWorks (ctl : epoll_op → Z → Z * Z → interest → option interest) : Prop := {
  #[global] works_ctl :: EpollCtl ctl;
  works_add fd ev k : k !! fd = None → is_Some (ctl XEPOLL_CTL_ADD fd ev k);
  works_mod fd ev k : is_Some (k !! fd) → is_Some (ctl XEPOLL_CTL_MOD fd ev k);
}.

Section works.
Context (ctl : epoll_op → Z → Z * Z → interest → option interest) `{!EpollWorks ctl}.

Lemma works_add_eq fd ev k : k !! fd = None → ctl XEPOLL_CTL_ADD fd ev k = Some (<[fd := ev]> k).
Proof. intros Hk. destruct (works_add fd ev k Hk) as [k' E]. by rewrite E, (ctl_add fd ev k k' E). Qed.
Lemma works_mod_eq fd ev x k : k !! fd = Some x → ctl XEPOLL_CTL_MOD fd ev k = Some (<[fd := ev]> k).
Proof.
  intros Hk. destruct (works_mod fd ev k ltac:(by exists x)) as [k' E]. rewrite E.
  by destruct (ctl_mod fd ev k k' E) as [_ ->].
Qed.
Lemma works_del_eq fd ev x k : k !! fd = Some x → ctl XEPOLL_CTL_DEL fd ev k = Some (delete fd k).
Proof.
  intros Hk. destruct (ctl XEPOLL_CTL_DEL fd ev k) as [k'|] eqn:E; [by rewrite (ctl_del fd ev k k' E)|].
  apply ctl_del_fails in E. congruence.
Qed.
End works.

(** An instance. *)
Definition epoll_ideal (op : epoll_op) (fd : Z) (ev : Z * Z) (k : interest) : option interest :=
  match op, k !! fd with
  | XEPOLL_CTL_ADD, None => Some (<[fd := ev]> k)
  | XEPOLL_CTL_MOD, Some _ => Some (<[fd := ev]> k)
  | XEPOLL_CTL_DEL, Some _ => Some (delete fd k)
  | _, _ => None
  end.

#[export] Instance epoll_ideal_works : EpollWorks epoll_ideal.
Proof.
  split; [split|..]; intros *; unfold epoll_ideal; destruct (k !! fd); naive_solver.
Qed.

(** ** Registration invariant *)
Section invariant.
Context {Callback : Type}.
Implicit Types (p : EpollPoller Callback) (c : Channel Callback).

(** The map and the index fields agree; the interest set refers to registered, live
    channels only, whose index is [added_]. *)
Record pwf p : Prop := {
  pwf_map : ∀ fd a, channels_ p !! fd = Some a →
    ∃ c, chans p !! a = Some c ∧ fd_ c = fd ∧ (index_ c = added_ ∨ index_ c = deleted_);
  pwf_index : ∀ a c, chans p !! a = Some c →
    index_ c = new_ ∨
    (index_ c = added_ ∨ index_ c = deleted_) ∧ channels_ p !! fd_ c = Some a;
  pwf_kernel : ∀ fd ev a, kernel p !! fd = Some (ev, a) →
    channels_ p !! fd = Some a ∧ ∃ c, chans p !! a = Some c ∧ index_ c = added_;
}.

Lemma pwf_ctor : pwf EpollPoller_ctor.
Proof. split; intros *; simpl; by rewrite lookup_empty. Qed.

(** A change of one channel [a] that ends with it registered under its descriptor. *)
Lemma pwf_registered p a c c' k n :
  pwf p → chans p !! a = Some c → fd_ c' = fd_ c → (index_ c' = added_ ∨ index_ c' = deleted_) →
  (channels_ p !! fd_ c = None ∨ channels_ p !! fd_ c = Some a) →
  (∀ fd, fd ≠ fd_ c → k !! fd = kernel p !! fd) →
  (∀ ev b, k !! fd_ c = Some (ev, b) → b = a ∧ index_ c' = added_) →
  pwf (mkPoller (<[a := c']> (chans p)) (<[fd_ c := a]> (channels_ p)) n k).
Proof.
  intros [Hm Hi Hk] Ha Hfd Hix Hreg Hother Hthis. split; simpl.
  - intros fd b [[<- <-]|[Hne Hb]]%lookup_insert_Some.
    + exists c'. by rewrite lookup_insert_eq.
    + destruct (Hm fd b Hb) as (cb & Hcb & Hf & Hix'). exists cb.
      assert (a ≠ b) by (intros ->; congruence). by rewrite lookup_insert_ne.
  - intros b cb [[<- <-]|[Hne Hb]]%lookup_insert_Some.
    + right. split; [done|]. by rewrite Hfd, lookup_insert_eq.
    + destruct (Hi b cb Hb) as [|[? Hch]]; [by left | right]. split; [done|].
      assert (fd_ c ≠ fd_ cb) by (intros E; rewrite E in *; destruct Hreg; congruence).
      by rewrite lookup_insert_ne.
  - intros fd ev b Hb. destruct (decide (fd = fd_ c)) as [->|Hne].
    + destruct (Hthis ev b Hb) as [-> Hadd]. rewrite lookup_insert_eq. split; [done|].
      exists c'. by rewrite lookup_insert_eq.
    + rewrite Hother in Hb by done. destruct (Hk fd ev b Hb) as (Hch & cb & Hcb & Hix').
      rewrite lookup_insert_ne by done. split; [done|]. exists cb.
      assert (a ≠ b); [|by rewrite lookup_insert_ne].
      intros ->. destruct (Hm fd b Hch) as (? & ? & ? & ?). congruence.
Qed.

(** ... and one that ends with it unregistered. *)
Lemma pwf_unregistered p a c c' k n :
  pwf p → chans p !! a = Some c → fd_ c' = fd_ c → index_ c' = new_ →
  channels_ p !! fd_ c = Some a →
  (∀ fd, fd ≠ fd_ c → k !! fd = kernel p !! fd) → k !! fd_ c = None →
  pwf (mkPoller (<[a := c']> (chans p)) (delete (fd_ c) (channels_ p)) n k).
Proof.
  intros [Hm Hi Hk] Ha Hfd Hix Hreg Hother Hthis. split; simpl.
  - intros fd b [Hne Hb]%lookup_delete_Some. destruct (Hm fd b Hb) as (cb & Hcb & Hf & Hix').
    exists cb. assert (a ≠ b) by (intros ->; congruence). by rewrite lookup_insert_ne.
  - intros b cb [[<- <-]|[Hne Hb]]%lookup_insert_Some; [by left|].
    destruct (Hi b cb Hb) as [|[? Hch]]; [by left | right]. split; [done|].
    rewrite lookup_delete_ne; [done|]. intros E. rewrite E in Hreg. congruence.
  - intros fd ev b Hb. destruct (decide (fd = fd_ c)) as [->|Hne]; [congruence|].
    rewrite Hother in Hb by done. destruct (Hk fd ev b Hb) as (Hch & cb & Hcb & Hix').
    rewrite lookup_delete_ne by done. split; [done|]. exists cb.
    assert (a ≠ b); [|by rewrite lookup_insert_ne].
    intros ->. destruct (Hm fd b Hch) as (? & ? & ? & ?). congruence.
Qed.

(** A write to a channel that keeps descriptor and index. *)
Lemma pwf_store p a c c' :
  pwf p → chans p !! a = Some c → fd_ c' = fd_ c → index_ c' = index_ c → pwf (store a c' p).
Proof.
  intros [Hm Hi Hk] Ha Hfd Hix.
  assert (Hold : ∀ b d, <[a := c']> (chans p) !! b = Some d →
            ∃ d0, chans p !! b = Some d0 ∧ fd_ d = fd_ d0 ∧ index_ d = index_ d0).
  { intros b d [[<- <-]|[_ Hb]]%lookup_insert_Some; eauto. }
  assert (Hnew : ∀ b d0, chans p !! b = Some d0 →
            ∃ d, <[a := c']> (chans p) !! b = Some d ∧ fd_ d = fd_ d0 ∧ index_ d = index_ d0).
  { intros b d0 Hb. destruct (decide (a = b)) as [<-|].
    - exists c'. rewrite lookup_insert_eq. naive_solver.
    - exists d0. by rewrite lookup_insert_ne. }
  split; simpl.
  - intros fd b Hb. destruct (Hm fd b Hb) as (d0 & Hd0 & <- & Hx).
    destruct (Hnew b d0 Hd0) as (d & Hd & Ef & E). exists d. by rewrite Ef, E.
  - intros b d Hb. destruct (Hold b d Hb) as (d0 & Hd0 & -> & ->). eauto.
  - intros fd ev b Hb. destruct (Hk fd ev b Hb) as (Hc & d0 & Hd0 & Hx). split; [done|].
    destruct (Hnew b d0 Hd0) as (d & Hd & _ & E). exists d. by rewrite E.
Qed.

Lemma pwf_set_size n p : pwf p → pwf (set_size n p).
Proof. by intros []. Qed.

(** [close(2)] of a descriptor takes it out of the interest set. *)
Lemma pwf_kernel_close fd p : pwf p → pwf (set_kernel (delete fd (kernel p)) p).
Proof.
  intros [Hm Hi Hk]. split; simpl; try done. intros f ev a [_ Ha]%lookup_delete_Some. eauto.
Qed.

Lemma pwf_new_channel a c p :
  chans p !! a = None → index_ c = new_ → pwf p → pwf (store a c p).
Proof.
  intros Ha Hix [Hm Hi Hk].
  assert (Hne : ∀ b d, chans p !! b = Some d → a ≠ b) by (intros b d Hb ->; congruence).
  split; simpl.
  - intros fd b Hb. destruct (Hm fd b Hb) as (d & Hd & ?). exists d.
    rewrite lookup_insert_ne by eauto. done.
  - intros b d [[<- <-]|[_ Hb]]%lookup_insert_Some; [by left | eauto].
  - intros fd ev b Hb. destruct (Hk fd ev b Hb) as (Hc & d & Hd & Hx). split; [done|].
    exists d. rewrite lookup_insert_ne by eauto. done.
Qed.

(** Freeing an unregistered channel. *)
Lemma pwf_free_channel a c p :
  chans p !! a = Some c → index_ c = new_ → pwf p → pwf (set_chans (delete a (chans p)) p).
Proof.
  intros Ha Hix [Hm Hi Hk].
  assert (Hne : ∀ b d, chans p !! b = Some d → index_ d ≠ new_ → a ≠ b)
    by (intros b d Hb Hd ->; congruence).
  split; simpl.
  - intros fd b Hb. destruct (Hm fd b Hb) as (d & Hd & Hf & Hx). exists d.
    rewrite lookup_delete_ne; [done|]. apply (Hne b d Hd). by destruct Hx as [-> | ->].
  - intros b d [_ Hb]%lookup_delete_Some. eauto.
  - intros fd ev b Hb. destruct (Hk fd ev b Hb) as (Hc & d & Hd & Hx). split; [done|].
    exists d. rewrite lookup_delete_ne; [done|]. apply (Hne b d Hd). by rewrite Hx.
Qed.
End invariant.
#[export] Hint Resolve pwf_set_size pwf_kernel_close pwf_new_channel pwf_free_channel : talko.

Section updates_invariant.
Context {Callback : Type} (ctl : epoll_op → Z → Z * Z → interest → option interest)
  `{!EpollCtl ctl}.
Implicit Types (p : EpollPoller Callback) (c : Channel Callback).

(** Only channel [a] differs, and it in its index only. *)
Definition frame (a : Z) p p' : Prop :=
  (∀ b, b ≠ a → chans p' !! b = chans p !! b) ∧
  ∃ c i, chans p !! a = Some c ∧ chans p' !! a = Some (set_index i c).

Lemma deref_ok a c p : chans p !! a = Some c → deref a p = Ok c.
Proof. unfold deref. by intros ->. Qed.

Lemma set_index_id c : set_index (index_ c) c = c.
Proof. by destruct c. Qed.

(** [_update] with [ADD] or [MOD] on the channel just stored. *)
Lemma update_add op a c p :
  op ≠ XEPOLL_CTL_DEL → chans p !! a = Some c →
  ∃ b k, EpollPoller__update ctl op a p = Ok (b, set_kernel k p) ∧
    (k = kernel p ∨ k = <[fd_ c := (events_ c, a)]> (kernel p)).
Proof.
  intros Hop Ha. unfold EpollPoller__update. rewrite (deref_ok a c) by done. cbn [mbind outcome_bind].
  destruct (ctl op (fd_ c) (events_ c, a) (kernel p)) as [k|] eqn:E.
  - exists true, k. split; [done | right]. destruct op; [|done|].
    + by apply ctl_add in E.
    + by apply ctl_mod in E as [_ E].
  - exists false, (kernel p). split; [by destruct p | by left].
Qed.

Lemma update_del a c p :
  chans p !! a = Some c →
  ∃ b k, EpollPoller__update ctl XEPOLL_CTL_DEL a p = Ok (b, set_kernel k p) ∧
    k = delete (fd_ c) (kernel p) ∧ (b = false → k = kernel p).
Proof.
  intros Ha. unfold EpollPoller__update. rewrite (deref_ok a c) by done. cbn [mbind outcome_bind].
  destruct (ctl XEPOLL_CTL_DEL (fd_ c) (events_ c, a) (kernel p)) as [k|] eqn:E.
  - exists true, k. by apply ctl_del in E.
  - exists false, (kernel p). split; [by destruct p|]. apply ctl_del_fails in E.
    by rewrite delete_id.
Qed.

Lemma frame_store a c i m k p :
  chans p !! a = Some c → frame a p (set_kernel k (store a (set_index i c) (set_channels m p))).
Proof.
  intros Ha. split; simpl; [intros b Hb; by rewrite lookup_insert_ne|].
  exists c, i. by rewrite lookup_insert_eq.
Qed.

(** [a] registered, as [added_] or [deleted_], with the interest set changed at most at its
    descriptor. *)
Lemma pwf_reindex a c i k p :
  pwf p → chans p !! a = Some c → (i = added_ ∨ i = deleted_) →
  (channels_ p !! fd_ c = None ∨ channels_ p !! fd_ c = Some a) →
  (k = kernel p ∧ i = added_ ∨ k = <[fd_ c := (events_ c, a)]> (kernel p) ∧ i = added_ ∨
   k = delete (fd_ c) (kernel p)) →
  pwf (set_kernel k (store a (set_index i c) (set_channels (<[fd_ c := a]> (channels_ p)) p))).
Proof.
  intros Hwf Ha Hi Hch Hk. apply (pwf_registered p a c); try done.
  - destruct Hk as [[-> _]|[[-> _] | ->]]; intros fd Hne; [done| |];
      by rewrite ?lookup_insert_ne, ?lookup_delete_ne.
  - intros ev b. destruct Hk as [[-> ->]|[[-> ->] | ->]].
    + intros Hb. destruct (pwf_kernel p Hwf _ _ _ Hb). split; [destruct Hch; congruence | done].
    + rewrite lookup_insert_eq. by intros [= _ ->].
    + by rewrite lookup_delete_eq.
Qed.

(** The state of a channel that is registered as [added_], written as a store. *)
Lemma store_same a c i k p :
  chans p !! a = Some c → index_ c = i → channels_ p !! fd_ c = Some a →
  set_kernel k p =
    set_kernel k (store a (set_index i c) (set_channels (<[fd_ c := a]> (channels_ p)) p)).
Proof.
  intros Ha <- Hch. unfold store, set_kernel, set_channels, set_chans. cbn.
  by rewrite set_index_id, !insert_id.
Qed.

(** The two branches that end in [ADD]. *)
Lemma pwf_update_add a c p :
  pwf p → chans p !! a = Some c →
  (channels_ p !! fd_ c = None ∨ channels_ p !! fd_ c = Some a) →
  ∃ b p', EpollPoller__update ctl XEPOLL_CTL_ADD a
            (store a (set_index added_ c) (set_channels (<[fd_ c := a]> (channels_ p)) p))
          = Ok (b, p') ∧ pwf p' ∧ frame a p p'.
Proof.
  intros Hwf Ha Hch. set (p1 := store _ _ _).
  destruct (update_add XEPOLL_CTL_ADD a (set_index added_ c) p1) as (b & k & -> & Hk);
    [done | simpl; by rewrite lookup_insert_eq |].
  do 2 eexists. split; [done|]. split; [|by apply frame_store].
  apply pwf_reindex; [done | done | by left | done |]. simpl in Hk. tauto.
Qed.

Lemma pwf_update_channel a c p :
  pwf p → chans p !! a = Some c →
  ∃ b p', update_channel ctl a p = Ok (b, p') ∧ pwf p' ∧ frame a p p'.
Proof.
  intros Hwf Ha. unfold update_channel. rewrite (deref_ok a c) by done. cbn [mbind outcome_bind].
  assert (Hsame : frame a p p).
  { split; [done|]. exists c, (index_ c). by rewrite set_index_id. }
  destruct (pwf_index p Hwf a c Ha) as [Hix|[Hix Hch]].
  - rewrite Hix. cbn [Z.eqb orb new_ Pos.eqb].
    destruct (bool_decide_reflect (is_Some (channels_ p !! fd_ c))) as [|Hn]; [by exists false, p|].
    apply pwf_update_add; [done | done | left]. by apply eq_None_not_Some in Hn.
  - destruct Hix as [Hix|Hix]; rewrite Hix;
      cbn [Z.eqb orb new_ deleted_ added_ Pos.eqb negb]; rewrite bool_decide_eq_true_2 by done;
      cbn [negb orb].
    + destruct (is_event_none c).
      * destruct (update_del a c p Ha) as (b & k & -> & Hkd & Hf). cbn [mbind outcome_bind].
        destruct b.
        -- rewrite (deref_ok a c) by done. cbn [mbind outcome_bind]. do 2 eexists.
           split; [done|].
           change (store a (set_index deleted_ c) (set_kernel k p))
             with (set_kernel k (store a (set_index deleted_ c) (set_channels (channels_ p) p))).
           rewrite <- (insert_id (channels_ p) (fd_ c) a) by done.
           split; [apply pwf_reindex; auto | by apply frame_store].
        -- do 2 eexists. split; [done|]. rewrite (store_same a c added_) by done.
           split; [apply pwf_reindex; auto | by apply frame_store].
      * destruct (update_add XEPOLL_CTL_MOD a c p) as (b & k & -> & Hk'); [done | done |].
        do 2 eexists. split; [done|]. rewrite (store_same a c added_) by done.
        split; [apply pwf_reindex; auto; tauto | by apply frame_store].
    + replace (store a (set_index added_ c) p) with
        (store a (set_index added_ c) (set_channels (<[fd_ c := a]> (channels_ p)) p))
        by (unfold store, set_channels, set_chans; cbn; by rewrite (insert_id (channels_ p))).
      apply pwf_update_add; auto.
Qed.

(** A channel that is not registered is not in the interest set. *)
Lemma unregistered_not_polled a c p :
  pwf p → chans p !! a = Some c → index_ c = new_ → ∀ fd ev, kernel p !! fd ≠ Some (ev, a).
Proof.
  intros Hwf Ha Hix fd ev Hk. destruct (pwf_kernel p Hwf _ _ _ Hk) as (_ & c' & Hc' & Hix').
  unfold new_, added_ in *. assert (c = c') by congruence. subst c'. lia.
Qed.

Lemma pwf_remove_channel a c p :
  pwf p → chans p !! a = Some c →
  ∃ p', remove_channel ctl a p = Ok p' ∧ pwf p' ∧ frame a p p' ∧
    (events_ c = none_event_ → ∃ c', chans p' !! a = Some c' ∧ index_ c' = new_).
Proof.
  intros Hwf Ha. unfold remove_channel. rewrite (deref_ok a c) by done. cbn [mbind outcome_bind].
  assert (Hsame : frame a p p).
  { split; [done|]. exists c, (index_ c). by rewrite set_index_id. }
  destruct (pwf_index p Hwf a c Ha) as [Hix|[Hix Hch]].
  - exists p. split; [|by eauto 6]. rewrite Hix. by destruct (_ || _).
  - rewrite bool_decide_eq_true_2 by done. cbn [negb orb]. unfold is_event_none.
    destruct (Z.eqb_spec (events_ c) none_event_) as [He|He]; cbn [negb]; [|by exists p].
    assert (E : negb (index_ c =? added_) && negb (index_ c =? deleted_) = false)
      by (destruct Hix as [-> | ->]; done).
    rewrite E. set (p1 := set_channels _ p).
    assert (Hkey : ∀ k, (∀ fd, fd ≠ fd_ c → k !! fd = kernel p !! fd) → k !! fd_ c = None →
      ∃ p', (c2 ← deref a (set_kernel k p1);
             Ok (store a (set_index new_ c2) (set_kernel k p1))) = Ok p' ∧ pwf p' ∧
            frame a p p' ∧ (events_ c = none_event_ → ∃ c', chans p' !! a = Some c' ∧ index_ c' = new_)).
    { intros k Hko Hkt. rewrite (deref_ok a c) by done. eexists. split; [done|].
      split; [by apply (pwf_unregistered p a c)|]. split; [by apply (frame_store a c)|].
      intros _. exists (set_index new_ c). simpl. by rewrite lookup_insert_eq. }
    destruct Hix as [Hix|Hix]; rewrite Hix; cbn [Z.eqb added_ deleted_ Pos.eqb].
    + destruct (update_del a c p1 Ha) as (b & k & -> & Hk & _). cbn [fmap outcome_fmap snd mbind outcome_bind].
      apply Hkey; rewrite Hk; [|apply lookup_delete_eq].
      intros fd Hne. by rewrite lookup_delete_ne.
    + cbn [mbind outcome_bind]. replace p1 with (set_kernel (kernel p) p1) by (by destruct p).
      apply Hkey; [done|]. destruct (kernel p !! fd_ c) as [[ev b]|] eqn:Hk; [|done].
      destruct (pwf_kernel p Hwf _ _ _ Hk) as (Hb & d & Hd & Hdx).
      assert (b = a) as -> by congruence. assert (d = c) as -> by congruence.
      unfold added_, deleted_ in *. congruence.
Qed.

(** The operations of a channel: they succeed, keep the invariant and touch [a] only. *)
Lemma pwf_with_events f a c p :
  pwf p → chans p !! a = Some c →
  ∃ b p', with_events ctl f a p = Ok (b, p') ∧ pwf p' ∧
    (∀ a', a' ≠ a → chans p' !! a' = chans p !! a') ∧
    ∃ i, chans p' !! a = Some (set_index i (set_events (f (events_ c)) c)).
Proof.
  intros Hwf Ha. unfold with_events. rewrite (deref_ok a c) by done. cbn [mbind outcome_bind].
  set (c1 := set_events (f (events_ c)) c). set (p1 := store a c1 p).
  assert (Hwf1 : pwf p1) by (by apply (pwf_store p a c)).
  assert (Ha1 : chans p1 !! a = Some c1) by (simpl; by rewrite lookup_insert_eq).
  unfold Channel__update, EventLoop_update_channel. rewrite !(deref_ok a c1) by done.
  cbn [mbind outcome_bind]. rewrite Z.eqb_refl. cbn [negb].
  destruct (pwf_update_channel a c1 p1 Hwf1 Ha1) as (b & p' & -> & Hwf' & Hoth & d & i & Hd & Hd').
  do 2 eexists. split; [done|]. split; [done|]. split.
  - intros a' Hne. rewrite Hoth by done. simpl. by rewrite lookup_insert_ne.
  - exists i. rewrite Hd'. congruence.
Qed.

Lemma pwf_Channel_remove a c p :
  pwf p → chans p !! a = Some c →
  ∃ p', Channel_remove ctl a p = Ok p' ∧ pwf p' ∧ frame a p p' ∧
    (events_ c = none_event_ → ∃ c', chans p' !! a = Some c' ∧ index_ c' = new_).
Proof.
  intros Hwf Ha. unfold Channel_remove. rewrite (deref_ok a c) by done. cbn [mbind outcome_bind].
  unfold is_event_none. destruct (Z.eqb_spec (events_ c) none_event_).
  - unfold EventLoop_remove_channel. rewrite (deref_ok a c) by done. cbn [mbind outcome_bind].
    rewrite Z.eqb_refl. cbn [negb]. by apply pwf_remove_channel.
  - exists p. split; [done|]. split; [done|]. split; [|done].
    split; [done|]. exists c, (index_ c). by rewrite set_index_id.
Qed.
End updates_invariant.

(** ** Polling *)
Section polling.
Context {Callback : Type}.
Implicit Types (p : EpollPoller Callback) (c : Channel Callback).

(** What [epoll_wait] can report: events on [data.ptr]s of the interest set, each at most
    once per round. *)
Definition from_kernel p (evs : list (Z * Z)) : Prop :=
  NoDup evs.*2 ∧ ∀ ev a, (ev, a) ∈ evs → ∃ fd ev0, kernel p !! fd = Some (ev0, a).

Lemma fill_active_ok evs p :
  pwf p → from_kernel p evs →
  ∃ p', fill_active_channels evs p = Ok (evs.*2, p') ∧ pwf p' ∧
    kernel p' = kernel p ∧ channels_ p' = channels_ p ∧ events_size p' = events_size p ∧
    (∀ a, a ∉ evs.*2 → chans p' !! a = chans p !! a) ∧
    (∀ ev a, (ev, a) ∈ evs →
       ∃ c, chans p !! a = Some c ∧ chans p' !! a = Some (set_revents ev c)).
Proof.
  revert p. induction evs as [|[ev a] evs IH]; intros p Hwf [Hd Hk].
  - exists p. split; [done|]. split; [done|]. do 3 (split; [done|]). split; [done|].
    by intros ev a ?%elem_of_nil.
  - cbn [fmap list_fmap] in *. apply NoDup_cons in Hd as [Hn Hd]. cbn [snd] in Hn.
    destruct (Hk ev a) as (fd & ev0 & Hfd); [set_solver|].
    destruct (pwf_kernel p Hwf _ _ _ Hfd) as (Hch & c & Hc & Hix).
    destruct (pwf_map p Hwf _ _ Hch) as (c' & Hc' & Hf & _).
    assert (c' = c) as -> by congruence.
    cbn [fill_active_channels]. rewrite (deref_ok a c) by done. cbn [mbind outcome_bind].
    rewrite bool_decide_eq_true_2 by congruence.
    destruct (IH (store a (set_revents ev c) p)) as (p' & -> & Hwf' & K & C & S & Ho & Hr).
    + by apply (pwf_store p a c).
    + split; [done|]. intros ev' a' Hin. apply (Hk ev'). set_solver.
    + exists p'. cbn [mbind outcome_bind]. split; [done|]. split; [done|].
      do 3 (split; [done|]). split.
      * intros b Hb. rewrite Ho by set_solver. simpl. rewrite lookup_insert_ne; [done|]. set_solver.
      * intros ev' a' [[= -> ->]|Hin]%elem_of_cons.
        -- exists c. split; [done|]. rewrite Ho by done. simpl. by rewrite lookup_insert_eq.
        -- destruct (Hr ev' a' Hin) as (d & Hd0 & Hd1). exists d. split; [|done].
           simpl in Hd0. rewrite lookup_insert_ne in Hd0; [done|]. intros ->. apply Hn.
           apply list_elem_of_fmap. by exists (ev', a').
Qed.

Lemma poll_ok evs p :
  pwf p → from_kernel p evs → evs ≠ [] →
  ∃ p', poll (Zlen evs) evs p = Ok (evs.*2, p') ∧ pwf p' ∧
    events_size p' = (if Zlen evs =? events_size p then events_size p * 2 else events_size p) ∧
    (∀ ev a, (ev, a) ∈ evs → ∃ c, chans p !! a = Some c ∧ chans p' !! a = Some (set_revents ev c)).
Proof.
  intros Hwf Hev Hne. unfold poll.
  assert (0 < Zlen evs) by (destruct evs; [done | unfold Zlen; simpl; lia]).
  destruct (Z.ltb_spec 0 (Zlen evs)); [|lia].
  rewrite take_ge by (unfold Zlen; lia).
  destruct (fill_active_ok evs p Hwf Hev) as (p' & -> & Hwf' & _ & _ & S & _ & Hr).
  cbn [mbind outcome_bind]. eexists. split; [done|]. rewrite S.
  destruct (Zlen evs =? events_size p); eauto with talko.
Qed.
End polling.

(** ** Reachable states of a poller *)
Section reachability.
Context {Callback : Type} (ctl : epoll_op → Z → Z * Z → interest → option interest)
  `{!EpollCtl ctl}.
Abbreviation poller := (EpollPoller Callback).

(** Channels are created and freed by their owners (freed when not registered), change
    their events, are removed; descriptors are closed; rounds of [epoll_wait] are handled. *)
Inductive reachable : poller → Prop :=
| reach_ctor : reachable EpollPoller_ctor
| reach_new p a loop fd r w cl er :
    reachable p → chans p !! a = None →
    reachable (store a (set_callbacks r w cl er (Channel_ctor loop fd)) p)
| reach_free p a c :
    reachable p → chans p !! a = Some c → index_ c = new_ →
    reachable (set_chans (delete a (chans p)) p)
| reach_events p f a b p' :
    reachable p → with_events ctl f a p = Ok (b, p') → reachable p'
| reach_remove p a p' : reachable p → Channel_remove ctl a p = Ok p' → reachable p'
| reach_close p fd : reachable p → reachable (set_kernel (delete fd (kernel p)) p)
| reach_poll p evs act p' :
    reachable p → from_kernel p evs → poll (Zlen evs) evs p = Ok (act, p') → reachable p'.

Lemma reachable_pwf p : reachable p → pwf p.
Proof.
  induction 1 as [|p a loop fd r w cl er _ IH Ha|p a c _ IH Ha Hix|p f a b p' _ IH E
                  |p a p' _ IH E|p fd _ IH|p evs act p' _ IH Hev E]; eauto with talko.
  - apply pwf_ctor.
  - destruct (chans p !! a) as [c|] eqn:Ha.
    + destruct (pwf_with_events ctl f a c p IH Ha) as (? & ? & ? & ? & _). congruence.
    + unfold with_events, deref in E. by rewrite Ha in E.
  - destruct (chans p !! a) as [c|] eqn:Ha.
    + destruct (pwf_Channel_remove ctl a c p IH Ha) as (? & ? & ? & _). congruence.
    + unfold Channel_remove, deref in E. by rewrite Ha in E.
  - destruct (decide (evs = [])) as [->|Hne]; [by injection E as <- <-|].
    destruct (poll_ok evs p IH Hev Hne) as (? & ? & ? & _). congruence.
Qed.

(** Safety of polling for every epoll instance that keeps its documented contract. In
    every reachable state the registration invariant holds; the events of the next round
    never refer to a freed channel, all of them are delivered, in order, with their
    [revents_] set, and the event array doubles exactly when it was filled; and removing a
    channel whose events are off leaves no interest in it behind. *)
Theorem polling_safe (p : poller) (evs : list (Z * Z)) :
  reachable p → from_kernel p evs → evs ≠ [] →
  pwf p ∧
  (∃ p', poll (Zlen evs) evs p = Ok (evs.*2, p') ∧ pwf p' ∧
     events_size p' = (if Zlen evs =? events_size p then events_size p * 2 else events_size p) ∧
     (∀ ev a, (ev, a) ∈ evs →
        ∃ c, chans p !! a = Some c ∧ chans p' !! a = Some (set_revents ev c))) ∧
  (∀ a c, chans p !! a = Some c → events_ c = none_event_ →
     ∃ p', Channel_remove ctl a p = Ok p' ∧ ∀ fd ev, kernel p' !! fd ≠ Some (ev, a)).
Proof.
  intros Hr Hev Hne. pose proof (reachable_pwf p Hr) as Hwf. split; [done|]. split.
  - by apply poll_ok.
  - intros a c Ha He.
    destruct (pwf_Channel_remove ctl a c p Hwf Ha) as (p' & -> & Hwf' & _ & H).
    exists p'. split; [done|]. destruct (H He) as (c' & Hc' & Hix).
    by eapply unregistered_not_polled.
Qed.
End reachability.

Lemma polling_safe_witness :
  ∃ p : EpollPoller unit, chans p !! 100 = Some (mkChannel 1 7 3 0 1 None None None None) ∧
    kernel p = {[ 7 := (3, 100) ]} ∧
    (∃ p', poll (Zlen [(1, 100)]) [(1, 100)] p = Ok ([(1, 100)].*2, p')).
Proof.
  set (p0 := store 100 (set_callbacks None None None None (Channel_ctor 1 7))
               (@EpollPoller_ctor unit)).
  destruct (enable_reading epoll_ideal 100 p0) as [[b p]|] eqn:E; [|vm_compute in E; congruence].
  assert (Hr : reachable epoll_ideal p).
  { eapply reach_events; [|exact E]. eapply reach_new; [apply reach_ctor | reflexivity]. }
  vm_compute in E. injection E as <- <-.
  destruct (polling_safe epoll_ideal _ [(1, 100)] Hr) as (_ & (p' & Hp' & _) & _).
  - split; [apply (bool_decide_unpack _); reflexivity|].
    intros ev a [= -> ->]%list_elem_of_singleton. by exists 7, 3.
  - congruence.
  - eexists. split; [|split; [|exists p'; exact Hp']]; reflexivity.
Defined.

(** ** The interest set mirrors the channels *)
Section in_sync.
Context {Callback : Type}.
Implicit Types (p : EpollPoller Callback) (c : Channel Callback).

(** The interest set the channels ask for. *)
Definition wanted p (fd : Z) : option (Z * Z) :=
  match channels_ p !! fd with
  | Some a =>
      match chans p !! a with
      | Some c => if index_ c =? added_ then Some (events_ c, a) else None
      | None => None
      end
  | None => None
  end.

Definition in_sync p : Prop := ∀ fd, kernel p !! fd = wanted p fd.

(** Descriptors other than the one of the changed channel. *)
Lemma wanted_frame p a c c' n k m fd :
  pwf p → chans p !! a = Some c → fd ≠ fd_ c → m !! fd = channels_ p !! fd →
  wanted (mkPoller (<[a := c']> (chans p)) m n k) fd = wanted p fd.
Proof.
  intros Hwf Ha Hne Hm. unfold wanted. simpl. rewrite Hm.
  destruct (channels_ p !! fd) as [b|] eqn:Hb; [|done].
  destruct (pwf_map p Hwf fd b Hb) as (d & Hd & Hfd & _).
  rewrite lookup_insert_ne; [done|]. intros ->. congruence.
Qed.

Context (ctl : epoll_op → Z → Z * Z → interest → option interest) `{!EpollWorks ctl}.

(** The state [with_events] ends in, with an epoll instance that works: [c'] is the channel with
    its new events. *)
Lemma with_events_works f a c p :
  pwf p → in_sync p → chans p !! a = Some c →
  (channels_ p !! fd_ c = None ∨ channels_ p !! fd_ c = Some a) →
  let e' := f (events_ c) in
  let off := (e' =? none_event_) && (index_ c =? added_) in
  with_events ctl f a p =
    Ok (true, mkPoller
      (<[a := set_index (if off then deleted_ else added_) (set_events e' c)]> (chans p))
      (<[fd_ c := a]> (channels_ p)) (events_size p)
      (if off then delete (fd_ c) (kernel p) else <[fd_ c := (e', a)]> (kernel p))).
Proof.
  intros Hwf Hs Ha Hch e' off. pose proof (Hs (fd_ c)) as Hk. unfold wanted in Hk.
  unfold with_events. rewrite (deref_ok a c) by done. cbn [mbind outcome_bind]. fold e'.
  set (c1 := set_events e' c). set (p1 := store a c1 p).
  assert (Ha1 : chans p1 !! a = Some c1) by (simpl; by rewrite lookup_insert_eq).
  unfold Channel__update, EventLoop_update_channel, update_channel.
  rewrite !(deref_ok a c1) by done. cbn [mbind outcome_bind]. rewrite Z.eqb_refl. cbn [negb].
  change (index_ c1) with (index_ c). change (fd_ c1) with (fd_ c).
  change (channels_ p1) with (channels_ p).
  destruct (pwf_index p Hwf a c Ha) as [Hix|[Hix Hreg]].
  - assert (Hn : channels_ p !! fd_ c = None).
    { destruct Hch as [|Hch]; [done|]. destruct (pwf_map p Hwf _ _ Hch) as (d & Hd & _ & Hdx).
      assert (d = c) as -> by congruence. unfold new_, added_, deleted_ in *. lia. }
    rewrite Hn in Hk. subst off. rewrite Hix, Hn. cbn [Z.eqb orb new_ added_ Pos.eqb].
    rewrite andb_false_r. rewrite bool_decide_eq_false_2 by (by intros [? ?]).
    unfold EpollPoller__update. rewrite (deref_ok a (set_index added_ c1))
      by (simpl; by rewrite lookup_insert_eq).
    cbn. rewrite works_add_eq by done.
    unfold store, set_channels, set_chans, set_kernel. cbn. by rewrite insert_insert_eq.
  - rewrite Hreg, Ha in Hk. rewrite (bool_decide_eq_true_2 (channels_ p !! fd_ c = Some a)) by done.
    rewrite (insert_id (channels_ p)) by done. subst off.
    destruct Hix as [Hix|Hix]; rewrite Hix in *;
      cbn [Z.eqb orb new_ deleted_ added_ Pos.eqb negb andb] in *;
      rewrite ?bool_decide_eq_true_2 by done; cbn [negb orb].
    + rewrite andb_true_r. change (is_event_none c1) with (e' =? none_event_).
      destruct (e' =? none_event_); unfold EpollPoller__update; rewrite ?(deref_ok a c1) by done;
        cbn; rewrite ?(works_mod_eq _ _ _ _ _ Hk), ?(works_del_eq _ _ _ _ _ Hk).
      * cbn [mbind outcome_bind]. rewrite (deref_ok a c1) by (simpl; by rewrite lookup_insert_eq).
        cbn [mbind outcome_bind]. unfold store, set_chans, set_kernel. cbn.
        by rewrite insert_insert_eq.
      * unfold set_kernel. cbn. do 4 f_equal. subst c1. destruct c; simpl in *. by subst.
    + rewrite andb_false_r. unfold EpollPoller__update.
      rewrite (deref_ok a (set_index added_ c1)) by (simpl; by rewrite lookup_insert_eq).
      cbn. rewrite works_add_eq by done.
      unfold store, set_chans, set_kernel. cbn. by rewrite insert_insert_eq.
Qed.

Lemma events_in_sync (f : Z → Z) (a : Z) c p :
  pwf p → in_sync p → chans p !! a = Some c →
  (channels_ p !! fd_ c = None ∨ channels_ p !! fd_ c = Some a) →
  ∃ p', with_events ctl f a p = Ok (true, p') ∧ pwf p' ∧ in_sync p' ∧
    kernel p' !! fd_ c = (if (f (events_ c) =? none_event_) && (index_ c =? added_)
                          then None else Some (f (events_ c), a)).
Proof.
  intros Hwf Hs Ha Hch.
  destruct (pwf_with_events ctl f a c p Hwf Ha) as (b & p' & E & Hwf' & _ & _).
  rewrite (with_events_works f a c p) in E by done. rewrite (with_events_works f a c p) by done.
  set (off := _ && _) in *. injection E as <- <-. eexists. split; [done|]. split; [done|].
  split.
  - intros fd. destruct (decide (fd = fd_ c)) as [->|Hne].
    + unfold wanted. simpl. rewrite !lookup_insert_eq. destruct off; simpl.
      * apply lookup_delete_eq.
      * apply lookup_insert_eq.
    + rewrite (wanted_frame p a c) by (done || by rewrite lookup_insert_ne).
      rewrite <- Hs. simpl. destruct off; by rewrite ?lookup_delete_ne, ?lookup_insert_ne.
  - simpl. destruct off; [apply lookup_delete_eq | apply lookup_insert_eq].
Qed.

(** C13. With any epoll instance that fails only as documented, every change of a channel's
    events whose descriptor no other channel holds succeeds and leaves the interest set
    exactly what the channels ask for. Turning the last event off takes the descriptor out
    of the set; on a channel that was not in the set it is registered, with no events. *)
Theorem interest_set_in_sync (f : Z → Z) (a : Z) c p :
  pwf p → in_sync p → chans p !! a = Some c →
  (channels_ p !! fd_ c = None ∨ channels_ p !! fd_ c = Some a) →
  ∃ p', with_events ctl f a p = Ok (true, p') ∧ pwf p' ∧ in_sync p' ∧
    kernel p' !! fd_ c = (if (f (events_ c) =? none_event_) && (index_ c =? added_)
                          then None else Some (f (events_ c), a)).
Proof. apply events_in_sync. Qed.
End in_sync.

Lemma interest_set_in_sync_witness :
  let c := mkChannel 1 7 0 0 (-1) None None None None : Channel unit in
  let p := mkPoller {[ 100 := c ]} ∅ 16 ∅ in
  ∃ p', with_events epoll_ideal (λ e, Z.lor e read_event_) 100 p = Ok (true, p') ∧ pwf p' ∧
    in_sync p' ∧ kernel p' !! 7 = Some (3, 100).
Proof.
  intros c p. apply (interest_set_in_sync epoll_ideal (λ e, Z.lor e read_event_) 100 c p).
  - apply (pwf_new_channel 100 c EpollPoller_ctor); [done | done | apply pwf_ctor].
  - intros fd. done.
  - done.
  - by left.
Defined.
