(* ===== verification/TcpConnection.v ===== *)
(** * A TCP connection: [network/tcp_connect.h], [network/tcp_connect.cpp]

    The connection state machine, its output path and its user callbacks. What a connection
    needs of its channel is the class [ChannelOps] with the laws [ChannelContract]; the epoll
    poller discharges them ([epoll_channel_contract]).

    Results of system calls are arguments of the operations that make them. The bytes the
    kernel accepted are [wire]; functors handed to [queue_in_loop] (or to [run_in_loop] by
    another thread) are [tasks], and [run_task] runs one; calls of the user's callbacks are
    logged in [calls], and what user code does in them appears as the operations that
    follow. *)
From S2P Require Import Prelude ByteBuffer Poller.

Inductive StateE := kDisconnected | kConnecting | kConnected | kDisconnecting.

#[export] Instance StateE_eq_dec : EqDecision StateE.
Proof. solve_decision. Defined.

Definition _state_2_string (s : StateE) : bytes :=
  match s with
  | kDisconnected => lit "kDisconnected"
  | kConnecting => lit "kConnecting"
  | kConnected => lit "kConnected"
  | kDisconnecting => lit "kDisconnecting"
  end.

(** [<errno.h>] *)
Definition EWOULDBLOCK : Z := 11.
Definition EPIPE : Z := 32.
Definition ECONNRESET : Z := 104.

(** ** What a connection uses of its channel *)
Class ChannelOps (P : Type) := {
  ch_events : P → Z;
  ch_enable_reading : P → outcome (bool * P);
  ch_enable_writing : P → outcome (bool * P);
  ch_disable_writing : P → outcome (bool * P);
  ch_disable_all : P → outcome (bool * P);
  ch_remove : P → outcome P;
}.

(** The event set is changed whatever the poller's answer is; no operation faults. *)
Class ChannelContract (P : Type) `{!ChannelOps P} := {
  ch_ok : P → Prop;
  enable_reading_law p : ch_ok p →
    ∃ b p', ch_enable_reading p = Ok (b, p') ∧ ch_ok p' ∧ ch_events p' = Z.lor (ch_events p) read_event_;
  enable_writing_law p : ch_ok p →
    ∃ b p', ch_enable_writing p = Ok (b, p') ∧ ch_ok p' ∧ ch_events p' = Z.lor (ch_events p) write_event_;
  disable_writing_law p : ch_ok p →
    ∃ b p', ch_disable_writing p = Ok (b, p') ∧ ch_ok p' ∧
      ch_events p' = Z.land (ch_events p) (Z.lnot write_event_);
  disable_all_law p : ch_ok p →
    ∃ b p', ch_disable_all p = Ok (b, p') ∧ ch_ok p' ∧ ch_events p' = none_event_;
  remove_law p : ch_ok p → ∃ p', ch_remove p = Ok p' ∧ ch_ok p' ∧ ch_events p' = ch_events p;
}.

(** Functors in the loop's queue, and calls of user callbacks ([CallConn] with what
    [connected()] answers). *)
Inductive task :=
| QSend (message : bytes) | QShutdown | QForceClose | QWriteComplete | QHighWaterMark (n : Z).
Inductive user_call := CallConn (connected : bool) | CallMessage | CallClose
| CallWriteComplete | CallHighWaterMark (n : Z).

#[export] Instance user_call_eq_dec : EqDecision user_call.
Proof. solve_decision. Defined.

Section connection.
Context {P : Type} `{!ChannelOps P}.

Record TcpConnection := mkConn {
  state_ : StateE;
  channel_ : P;
  high_water_mark_ : Z;
  input_buffer_ : ByteBuffer;
  output_buffer_ : ByteBuffer;
  write_complete_callback_ : bool;       (* set or not *)
  high_water_mark_callback_ : bool;
  wire : bytes;
  wr_shut : bool;                        (* shutdown(SHUT_WR) was called *)
  tasks : list task;
  calls : list user_call;
}.

Definition TcpConnection_ctor (channel : P) : TcpConnection :=
  mkConn kConnecting channel (64 * 1024 * 1024) (ByteBuffer_ctor initial_size)
    (ByteBuffer_ctor initial_size) false false [] false [] [].

Definition _set_state (s : StateE) (c : TcpConnection) : TcpConnection :=
  mkConn s (channel_ c) (high_water_mark_ c) (input_buffer_ c) (output_buffer_ c)
    (write_complete_callback_ c) (high_water_mark_callback_ c) (wire c) (wr_shut c) (tasks c) (calls c).
Definition set_channel (p : P) (c : TcpConnection) : TcpConnection :=
  mkConn (state_ c) p (high_water_mark_ c) (input_buffer_ c) (output_buffer_ c)
    (write_complete_callback_ c) (high_water_mark_callback_ c) (wire c) (wr_shut c) (tasks c) (calls c).
Definition set_input (b : ByteBuffer) (c : TcpConnection) : TcpConnection :=
  mkConn (state_ c) (channel_ c) (high_water_mark_ c) b (output_buffer_ c)
    (write_complete_callback_ c) (high_water_mark_callback_ c) (wire c) (wr_shut c) (tasks c) (calls c).
Definition set_output (b : ByteBuffer) (c : TcpConnection) : TcpConnection :=
  mkConn (state_ c) (channel_ c) (high_water_mark_ c) (input_buffer_ c) b
    (write_complete_callback_ c) (high_water_mark_callback_ c) (wire c) (wr_shut c) (tasks c) (calls c).
Definition set_wcc (b : bool) (c : TcpConnection) : TcpConnection :=
  mkConn (state_ c) (channel_ c) (high_water_mark_ c) (input_buffer_ c) (output_buffer_ c)
    b (high_water_mark_callback_ c) (wire c) (wr_shut c) (tasks c) (calls c).
Definition set_hwm (n : Z) (c : TcpConnection) : TcpConnection :=
  mkConn (state_ c) (channel_ c) n (input_buffer_ c) (output_buffer_ c)
    (write_complete_callback_ c) true (wire c) (wr_shut c) (tasks c) (calls c).
Definition transmit (bs : bytes) (c : TcpConnection) : TcpConnection :=
  mkConn (state_ c) (channel_ c) (high_water_mark_ c) (input_buffer_ c) (output_buffer_ c)
    (write_complete_callback_ c) (high_water_mark_callback_ c) (wire c ++ bs) (wr_shut c) (tasks c) (calls c).
Definition shut (c : TcpConnection) : TcpConnection :=
  mkConn (state_ c) (channel_ c) (high_water_mark_ c) (input_buffer_ c) (output_buffer_ c)
    (write_complete_callback_ c) (high_water_mark_callback_ c) (wire c) true (tasks c) (calls c).
Definition queue (t : task) (c : TcpConnection) : TcpConnection :=
  mkConn (state_ c) (channel_ c) (high_water_mark_ c) (input_buffer_ c) (output_buffer_ c)
    (write_complete_callback_ c) (high_water_mark_callback_ c) (wire c) (wr_shut c) (tasks c ++ [t]) (calls c).
Definition user (k : user_call) (c : TcpConnection) : TcpConnection :=
  mkConn (state_ c) (channel_ c) (high_water_mark_ c) (input_buffer_ c) (output_buffer_ c)
    (write_complete_callback_ c) (high_water_mark_callback_ c) (wire c) (wr_shut c) (tasks c) (calls c ++ [k]).
Definition set_tasks (l : list task) (c : TcpConnection) : TcpConnection :=
  mkConn (state_ c) (channel_ c) (high_water_mark_ c) (input_buffer_ c) (output_buffer_ c)
    (write_complete_callback_ c) (high_water_mark_callback_ c) (wire c) (wr_shut c) l (calls c).

Definition connected (c : TcpConnection) : bool := bool_decide (state_ c = kConnected).
Definition writing (c : TcpConnection) : bool := has write_event_ (ch_events (channel_ c)).

(** ** Sending

    [nw] and [err] are the result of [socks_write] and [errno] behind it. *)
Definition direct_write (data : bytes) (nw err : Z) (c : TcpConnection)
    : Z * Z * bool * TcpConnection :=       (* nwrote, remaining, faultError *)
  let len := Zlen data in
  if negb (writing c) && (bb_bytes_readable (output_buffer_ c) =? 0) then
    if 0 <=? nw then
      let remaining := len ⊖ nw in
      let c1 := transmit (take (Z.to_nat nw) data) c in
      (nw, remaining, false,
       if (remaining =? 0) && write_complete_callback_ c then queue QWriteComplete c1 else c1)
    else (0, len, negb (err =? EWOULDBLOCK) && ((err =? EPIPE) || (err =? ECONNRESET)), c)
  else (0, len, false, c).

(** The last block: the rest goes to the output buffer. *)
Definition buffer_remaining (rest : bytes) (c : TcpConnection) : outcome TcpConnection :=
  let remaining := Zlen rest in
  let oldLen := bb_bytes_readable (output_buffer_ c) in
  let c1 := if (high_water_mark_ c <=? oldLen ⊕ remaining) &&
               (oldLen <? high_water_mark_ c) && high_water_mark_callback_ c
            then queue (QHighWaterMark (oldLen ⊕ remaining)) c else c in
  b ← bb_append rest (output_buffer_ c1);
  let c2 := set_output b c1 in
  if writing c2 then Ok c2
  else '(_, p) ← ch_enable_writing (channel_ c2); Ok (set_channel p c2).

Definition _send_in_loop (data : bytes) (nw err : Z) (c : TcpConnection)
    : outcome TcpConnection :=
  if bool_decide (state_ c = kDisconnected) then Ok c
  else
    let '(nwrote, remaining, faultError, c1) := direct_write data nw err c in
    if Zlen data <? remaining then Ok c1
    else if negb faultError && (0 <? remaining)
    then buffer_remaining (slice nwrote remaining data) c1
    else Ok c1.

(** [send(const std::string&)]; the other overloads copy their argument into a string. *)
Definition send (in_loop : bool) (message : bytes) (nw err : Z) (c : TcpConnection)
    : outcome TcpConnection :=
  if connected c then
    if in_loop then _send_in_loop message nw err c else Ok (queue (QSend message) c)
  else Ok c.

(** [send] of a [ByteBuffer] pointer: the connection and the emptied buffer. *)
Definition send_buffer (in_loop : bool) (buf : ByteBuffer) (nw err : Z) (c : TcpConnection)
    : outcome (TcpConnection * ByteBuffer) :=
  if connected c then
    if in_loop then
      data ← read_range (bb_peek buf) (bb_bytes_readable buf) (buffer_ buf);
      c1 ← _send_in_loop data nw err c; Ok (c1, bb_retrieve_all buf)
    else
      '(message, buf1) ← bb_retrieve_all_as_string buf; Ok (queue (QSend message) c, buf1)
  else Ok (c, buf).

(** ** Shutting down and closing *)
Definition _shutdown_in_loop (c : TcpConnection) : TcpConnection :=
  if negb (writing c) then shut c else c.

Definition shutdown (in_loop : bool) (c : TcpConnection) : TcpConnection :=
  if connected c then
    let c1 := _set_state kDisconnecting c in
    if in_loop then _shutdown_in_loop c1 else queue QShutdown c1
  else c.

Definition force_close (c : TcpConnection) : TcpConnection :=
  if bool_decide (state_ c = kConnected ∨ state_ c = kDisconnecting)
  then queue QForceClose (_set_state kDisconnecting c) else c.

Definition _handle_close (c : TcpConnection) : outcome TcpConnection :=
  if bool_decide (state_ c = kDisconnected) then Ok c
  else
    let c1 := _set_state kDisconnected c in
    '(_, p) ← ch_disable_all (channel_ c1);
    let c2 := set_channel p c1 in
    Ok (user CallClose (user (CallConn (connected c2)) c2)).

Definition _force_close_in_loop (c : TcpConnection) : outcome TcpConnection :=
  if bool_decide (state_ c = kConnected ∨ state_ c = kDisconnecting)
  then _handle_close c else Ok c.

Definition _handle_error (c : TcpConnection) : outcome TcpConnection := _handle_close c.

(** ** Events *)
Definition _handle_read (n err : Z) (extrabuf : bytes) (c : TcpConnection)
    : outcome TcpConnection :=
  '(n, _, b) ← bb_read_fd n err extrabuf (input_buffer_ c);
  let c1 := set_input b c in
  if 0 <? n then Ok (user CallMessage c1)
  else if n =? 0 then _handle_close c1
  else _handle_error c1.

(** [nw] is the result of [socks_write] of the readable bytes. *)
Definition _handle_write (nw : Z) (c : TcpConnection) : outcome TcpConnection :=
  if writing c then
    if 0 <? nw then
      let c1 := transmit (take (Z.to_nat nw) (content (output_buffer_ c))) c in
      let c2 := set_output (bb_retrieve nw (output_buffer_ c1)).2 c1 in
      if bb_bytes_readable (output_buffer_ c2) =? 0 then
        '(_, p) ← ch_disable_writing (channel_ c2);
        let c3 := set_channel p c2 in
        let c4 := if write_complete_callback_ c3 then queue QWriteComplete c3 else c3 in
        Ok (if bool_decide (state_ c4 = kDisconnecting) then _shutdown_in_loop c4 else c4)
      else Ok c2
    else _handle_close c
  else Ok c.

Definition conn_established (c : TcpConnection) : outcome TcpConnection :=
  if negb (bool_decide (state_ c = kConnecting)) then Ok c
  else
    let c1 := _set_state kConnected c in
    '(ok, p) ← ch_enable_reading (channel_ c1);
    let c2 := set_channel p c1 in
    if (ok : bool) then Ok (user (CallConn (connected c2)) c2) else _handle_close c2.

Definition conn_destroyed (c : TcpConnection) : outcome TcpConnection :=
  c1 ← (if bool_decide (state_ c = kConnected) then
          let c1 := _set_state kDisconnected c in
          '(_, p) ← ch_disable_all (channel_ c1);
          let c2 := set_channel p c1 in Ok (user (CallConn (connected c2)) c2)
        else Ok c);
  p ← ch_remove (channel_ c1); Ok (set_channel p c1).

(** The loop runs the functor at the head of its queue. *)
Definition run_task (nw err : Z) (c : TcpConnection) : outcome TcpConnection :=
  match tasks c with
  | [] => Ok c
  | t :: ts =>
      let c1 := set_tasks ts c in
      match t with
      | QSend m => _send_in_loop m nw err c1
      | QShutdown => Ok (_shutdown_in_loop c1)
      | QForceClose => _force_close_in_loop c1
      | QWriteComplete => Ok (user CallWriteComplete c1)
      | QHighWaterMark n => Ok (user (CallHighWaterMark n) c1)
      end
  end.
End connection.
Arguments TcpConnection : clear implicits.

(** ** The epoll poller keeps the channel contract *)
Section epoll_channel.
Context {Callback : Type} (ctl : epoll_op → Z → Z * Z → interest → option interest)
  `{!EpollCtl ctl} (a : Z).

#[local] Instance epoll_channel_ops : ChannelOps (EpollPoller Callback) := {
  ch_events p := match chans p !! a with Some c => events_ c | None => 0 end;
  ch_enable_reading := enable_reading ctl a;
  ch_enable_writing := enable_writing ctl a;
  ch_disable_writing := disable_writing ctl a;
  ch_disable_all := disable_all ctl a;
  ch_remove := Channel_remove ctl a;
}.

Lemma with_events_law f (p : EpollPoller Callback) :
  pwf p ∧ is_Some (chans p !! a) →
  ∃ b p', with_events ctl f a p = Ok (b, p') ∧ (pwf p' ∧ is_Some (chans p' !! a)) ∧
    ch_events p' = f (ch_events p).
Proof.
  intros [Hwf [c Hc]].
  destruct (pwf_with_events ctl f a c p Hwf Hc) as (b & p' & E & Hwf' & _ & i & Hi).
  exists b, p'. unfold ch_events. simpl. rewrite Hc, Hi. eauto.
Qed.

#[local] Instance epoll_channel_contract : ChannelContract (EpollPoller Callback).
Proof.
  refine {| ch_ok p := pwf p ∧ is_Some (chans p !! a) |}; try apply with_events_law.
  intros p [Hwf [c Hc]].
  destruct (pwf_Channel_remove ctl a c p Hwf Hc) as (p' & E & Hwf' & (_ & d & i & Hd & Hd') & _).
  exists p'. unfold ch_events. simpl. rewrite Hd, Hd'. split; [done|]. by split; [split|].
Defined.
End epoll_channel.

(** ** The output path *)
Section output.
Context {P : Type} `{!ChannelOps P} `{!ChannelContract P}.
Implicit Types c : TcpConnection P.

(** Connections are related to the bytes [sent] through them: what was written to the
    socket and what is still buffered make up [sent], and write interest is on exactly
    while bytes are buffered. *)
Record out_inv (sent : bytes) c : Prop := {
  oi_chan : ch_ok (channel_ c);
  oi_wf : wf (output_buffer_ c);
  oi_stream : wire c ++ content (output_buffer_ c) = sent;
  oi_room : write_idx_ (output_buffer_ c) ≤ cheap_prepend + Zlen sent;
  oi_writing : state_ c ≠ kDisconnected →
    writing c = negb (bb_bytes_readable (output_buffer_ c) =? 0);
  oi_closed : state_ c = kDisconnected → ch_events (channel_ c) = none_event_;
}.

Lemma lor_write e : has write_event_ (Z.lor e write_event_) = true.
Proof.
  unfold has, write_event_, POLLOUT. rewrite Z.land_lor_distr_l. change (Z.land 4 4) with 4.
  destruct (Z.eqb_spec (Z.lor (Z.land e 4) 4) 0) as [E|]; [|done].
  apply Z.lor_eq_0_iff in E as [_ E]. lia.
Qed.

Lemma land_write e : has write_event_ (Z.land e (Z.lnot write_event_)) = false.
Proof.
  unfold has, write_event_, POLLOUT. rewrite <- Z.land_assoc.
  change (Z.land (Z.lnot 4) 4) with 0. by rewrite Z.land_0_r.
Qed.

Lemma none_write : has write_event_ none_event_ = false.
Proof. done. Qed.

Lemma lor_read_write e : has write_event_ (Z.lor e read_event_) = has write_event_ e.
Proof.
  unfold has, write_event_, read_event_, POLLOUT, POLLIN, POLLPRI. rewrite Z.land_lor_distr_l.
  change (Z.land (Z.lor 1 2) 4) with 0. by rewrite Z.lor_0_r.
Qed.

Lemma closed_not_writing sent c : out_inv sent c → state_ c = kDisconnected → writing c = false.
Proof. intros [] Hs. unfold writing. by rewrite oi_closed0. Qed.

(** What [write(2)] of [len] bytes can return, other than a broken connection. *)
Definition valid_write (len nw err : Z) : Prop :=
  0 ≤ nw ≤ len ∨ nw < 0 ∧ err ≠ EPIPE ∧ err ≠ ECONNRESET.

(** The changes that do not concern the output path. *)
Lemma out_inv_queue sent t c : out_inv sent c → out_inv sent (queue t c).
Proof. by intros []. Qed.
Lemma out_inv_user sent k c : out_inv sent c → out_inv sent (user k c).
Proof. by intros []. Qed.
Lemma out_inv_shut sent c : out_inv sent c → out_inv sent (shut c).
Proof. by intros []. Qed.
Lemma out_inv_tasks sent l c : out_inv sent c → out_inv sent (set_tasks l c).
Proof. by intros []. Qed.
Lemma out_inv_input sent b c : out_inv sent c → out_inv sent (set_input b c).
Proof. by intros []. Qed.
Lemma out_inv_state sent s c :
  s ≠ kDisconnected → state_ c ≠ kDisconnected → out_inv sent c → out_inv sent (_set_state s c).
Proof. intros Hs Hc []. split; simpl; try done. intros _. by apply oi_writing0. Qed.

Lemma readable_0 (b : ByteBuffer) :
  wf b → (bb_bytes_readable b =? 0) = bool_decide (content b = []).
Proof.
  intros. rewrite readable_content by done. destruct (content b) eqn:E.
  - by rewrite bool_decide_eq_true_2.
  - rewrite bool_decide_eq_false_2 by done. unfold Zlen. simpl. lia.
Qed.

(** What sending leaves alone. *)
Definition side c := (state_ c, calls c, input_buffer_ c).

(** The rest is buffered and write interest is on. *)
Lemma buffer_remaining_total sent rest c :
  out_inv sent c → state_ c ≠ kDisconnected → rest ≠ [] → Zlen rest ≤ max_size →
  memory (max_size < cheap_prepend + Zlen sent + Zlen rest) (buffer_remaining rest c)
    (λ c', out_inv (sent ++ rest) c' ∧ side c' = side c).
Proof.
  intros Hinv Hs Hne Hmax. unfold buffer_remaining. cbv zeta.
  set (c1 := if (_ : bool) then queue _ c else c).
  assert (out_inv sent c1 ∧ side c1 = side c) as [Hinv1 Hside]
    by (subst c1; destruct (_ && _); auto using out_inv_queue).
  clearbody c1. clear Hinv. rewrite <- Hside. assert (state_ c1 = state_ c) as Hs1
    by (by injection Hside). rewrite <- Hs1 in Hs. clear Hside Hs1 c.
  destruct Hinv1 as [Hch Hwf Hst Hroom Hwr Hcl].
  destruct (append_total rest (output_buffer_ c1) Hwf Hmax)
    as [[Hbig ->]|(b & -> & Hwf' & Hc & Hw & _)]; [left; split; [lia | done]|].
  apply memory_ok. cbn [mbind outcome_bind].
  assert (Hb : (bb_bytes_readable b =? 0) = false).
  { rewrite readable_0, Hc by done. apply bool_decide_eq_false_2. by intros [_ ?]%app_nil. }
  assert (Hinv : ∀ p, ch_ok p → has write_event_ (ch_events p) = true →
            out_inv (sent ++ rest) (set_channel p (set_output b c1))).
  { intros p Hp Hwp. split; simpl; try done.
    - rewrite <- Hst, Hc. by rewrite app_assoc.
    - rewrite Zlen_app. lia.
    - intros _. unfold writing. simpl. by rewrite Hwp, Hb. }
  unfold writing at 1. simpl. destruct (has write_event_ (ch_events (channel_ c1))) eqn:E.
  - exists (set_output b c1). split; [done|]. split; [|done].
    replace (set_output b c1) with (set_channel (channel_ c1) (set_output b c1)) by done. auto.
  - destruct (enable_writing_law (channel_ c1) Hch) as (ok & p & -> & Hp & He).
    cbn [mbind outcome_bind]. eexists. split; [done|]. split; [|done].
    apply Hinv; [done|]. rewrite He. apply lor_write.
Qed.

(** Everything behind the direct write of the first [nwrote] bytes. *)
Lemma send_tail_total sent1 data nwrote c1 :
  out_inv sent1 c1 → state_ c1 ≠ kDisconnected → 0 ≤ nwrote ≤ Zlen data → Zlen data ≤ max_size →
  let remaining := Zlen data - nwrote in
  memory (max_size < cheap_prepend + Zlen sent1 + remaining)
    (if Zlen data <? remaining then Ok c1
     else if negb false && (0 <? remaining)
     then buffer_remaining (slice nwrote remaining data) c1 else Ok c1)
    (λ c', out_inv (sent1 ++ drop (Z.to_nat nwrote) data) c' ∧ side c' = side c1).
Proof.
  intros Hinv Hs Hn Hmax remaining. subst remaining.
  destruct (Z.ltb_spec (Zlen data) (Zlen data - nwrote)); [lia|]. cbn [negb andb].
  destruct (Z.ltb_spec 0 (Zlen data - nwrote)).
  - assert (slice nwrote (Zlen data - nwrote) data = drop (Z.to_nat nwrote) data) as ->.
    { unfold slice. apply take_ge. rewrite length_drop. unfold Zlen in *. lia. }
    assert (Hl : Zlen (drop (Z.to_nat nwrote) data) = Zlen data - nwrote)
      by (rewrite Zlen_drop; lia).
    rewrite <- Hl. apply buffer_remaining_total; [done | done | | lia].
    intros E. rewrite E in Hl. change (Zlen (@nil byte)) with 0 in Hl. lia.
  - apply memory_ret. rewrite drop_ge by (unfold Zlen in *; lia). by rewrite app_nil_r.
Qed.

(** The direct write met a broken connection: the message is dropped. *)
Definition write_broken (nw err : Z) c : bool :=
  negb (writing c) && (bb_bytes_readable (output_buffer_ c) =? 0) && (nw <? 0) &&
  ((err =? EPIPE) || (err =? ECONNRESET)).

Lemma send_in_loop_total sent data nw err c :
  out_inv sent c → state_ c ≠ kDisconnected → nw ≤ Zlen data → Zlen data ≤ max_size →
  memory (max_size < cheap_prepend + Zlen sent + Zlen data) (_send_in_loop data nw err c)
    (λ c', out_inv (sent ++ (if write_broken nw err c then [] else data)) c' ∧ side c' = side c).
Proof.
  intros Hinv Hs Hv Hmax. pose proof Hinv as [Hch Hwf Hst Hroom Hwr Hcl].
  pose proof (Zlen_nonneg data). pose proof (Zlen_nonneg sent).
  unfold _send_in_loop. rewrite bool_decide_eq_false_2 by done.
  pose proof (send_tail_total sent data 0 c Hinv Hs ltac:(lia) Hmax) as Hall.
  cbv zeta in Hall. rewrite Z.sub_0_r in Hall. change (drop (Z.to_nat 0) data) with data in Hall.
  unfold direct_write, write_broken.
  destruct (negb (writing c) && (bb_bytes_readable (output_buffer_ c) =? 0)) eqn:Hidle; [|exact Hall].
  apply andb_true_iff in Hidle as [_ Hc]. rewrite readable_0 in Hc by done.
  apply bool_decide_eq_true_1 in Hc. cbn [andb]. destruct (Z.leb_spec 0 nw).
  - destruct (Z.ltb_spec nw 0); [lia|]. cbn [andb].
    rewrite u64_small by (unfold cheap_prepend, max_size in *; lia).
    assert (Hinv1 : out_inv (sent ++ take (Z.to_nat nw) data) (transmit (take (Z.to_nat nw) data) c)).
    { split; simpl; try done.
      - rewrite <- Hst, Hc, !app_nil_r. done.
      - rewrite Zlen_app, Zlen_take. lia. }
    set (c1 := if (Zlen data - nw =? 0) && write_complete_callback_ c
               then queue QWriteComplete (transmit (take (Z.to_nat nw) data) c)
               else transmit (take (Z.to_nat nw) data) c).
    assert (out_inv (sent ++ take (Z.to_nat nw) data) c1 ∧ side c1 = side c) as [Hi E1]
      by (subst c1; destruct ((Zlen data - nw =? 0) && write_complete_callback_ c);
          (split; [|done]); auto using out_inv_queue).
    eapply memory_mono;
      [apply (send_tail_total (sent ++ take (Z.to_nat nw) data) data nw c1);
         [done | by injection E1 as -> | lia | lia]
      | rewrite Zlen_app, Zlen_take; lia |].
    intros c' _ [Hi' Hside]. rewrite <- app_assoc, take_drop in Hi'.
    split; [done | congruence].
  - destruct (Z.ltb_spec nw 0); [|lia]. cbn [andb].
    destruct (Z.eqb_spec err EWOULDBLOCK) as [->|]; [exact Hall|]. cbn [negb andb].
    destruct ((err =? EPIPE) || (err =? ECONNRESET)); [|exact Hall].
    destruct (Z.ltb_spec (Zlen data) (Zlen data)); [lia|]. cbn [negb andb].
    apply memory_ret. by rewrite app_nil_r.
Qed.

Lemma valid_not_broken len nw err c : valid_write len nw err → write_broken nw err c = false.
Proof.
  unfold write_broken. intros [?|(_ & He1 & He2)].
  - destruct (Z.ltb_spec nw 0); [lia|]. by rewrite andb_false_r.
  - destruct (Z.eqb_spec err EPIPE), (Z.eqb_spec err ECONNRESET); try done. by rewrite !andb_false_r.
Qed.

Lemma send_in_loop_inv sent data nw err c :
  out_inv sent c → state_ c ≠ kDisconnected → valid_write (Zlen data) nw err →
  cheap_prepend + Zlen sent + Zlen data ≤ max_size →
  ∃ c', _send_in_loop data nw err c = Ok c' ∧ out_inv (sent ++ data) c' ∧ side c' = side c.
Proof.
  intros Hinv Hs Hv Hmax. pose proof (Zlen_nonneg sent). pose proof (Zlen_nonneg data).
  unfold cheap_prepend in *.
  destruct (memory_fits _ _ _ (send_in_loop_total sent data nw err c Hinv Hs
    ltac:(destruct Hv; lia) ltac:(lia)) ltac:(unfold cheap_prepend; lia)) as (c' & E & H').
  exists c'. by rewrite (valid_not_broken _ _ _ _ Hv) in H'.
Qed.

(** ** Every operation on the connection *)

(** What a message callback does with the buffer it is given: it retrieves [n] bytes. *)
Definition consume (n : Z) c : TcpConnection P := set_input (bb_retrieve (u64 n) (input_buffer_ c)).2 c.

Inductive conn_op :=
| OEstablished
| OSend (in_loop : bool) (message : bytes) (nw err : Z)
| OTask (nw err : Z)
| OReadable (n err : Z) (extrabuf : bytes)
| OWritable (nw : Z)
| OError
| OHangup
| OShutdown (in_loop : bool)
| OForceClose
| ODestroyed
| OSetWriteComplete (b : bool)
| OSetHighWaterMark (n : Z)
| OConsume (n : Z).

#[export] Instance conn_op_eq_dec : EqDecision conn_op.
Proof. solve_decision. Defined.

Definition exec (o : conn_op) c : outcome (TcpConnection P) :=
  match o with
  | OEstablished => conn_established c
  | OSend in_loop m nw err => send in_loop m nw err c
  | OTask nw err => run_task nw err c
  | OReadable n err extrabuf => _handle_read n err extrabuf c
  | OWritable nw => _handle_write nw c
  | OError => _handle_error c
  | OHangup => _handle_close c
  | OShutdown in_loop => Ok (shutdown in_loop c)
  | OForceClose => Ok (force_close c)
  | ODestroyed => conn_destroyed c
  | OSetWriteComplete b => Ok (set_wcc b c)
  | OSetHighWaterMark n => Ok (set_hwm n c)
  | OConsume n => Ok (consume n c)
  end.

(** The bytes an operation commits to the stream. *)
Definition accepted (o : conn_op) c : bytes :=
  match o with
  | OSend true m _ _ => if connected c then m else []
  | OTask _ _ =>
      match tasks c with
      | QSend m :: _ => if bool_decide (state_ c = kDisconnected) then [] else m
      | _ => []
      end
  | _ => []
  end.

(** What the system calls can answer. *)
Definition answers_ok (o : conn_op) c : Prop :=
  match o with
  | OSend true m nw err => valid_write (Zlen m) nw err
  | OTask nw err => ∀ m ts, tasks c = QSend m :: ts → valid_write (Zlen m) nw err
  | OReadable n err extrabuf =>
      Zlen extrabuf = 65536 ∧ n ≤ 65536 ∧ Zlen (buffer_ (input_buffer_ c)) + 65536 ≤ max_size
  | OWritable nw => nw ≤ Zlen (content (output_buffer_ c))
  | _ => True
  end.

(** The user callbacks that report the connection's life, and what they may be in each
    state. *)
Definition life (l : list user_call) : list user_call :=
  List.filter (λ k, match k with CallConn _ | CallClose => true | _ => false end) l.

Definition life_ok c : Prop :=
  match state_ c with
  | kConnecting => life (calls c) = []
  | kConnected | kDisconnecting => life (calls c) = [CallConn true]
  | kDisconnected =>
      life (calls c) = [CallConn true; CallConn false; CallClose] ∨
      life (calls c) = [CallConn true; CallConn false] ∨
      life (calls c) = [CallConn false; CallClose]
  end.

Record conn_inv (sent : bytes) c : Prop := {
  ci_out : out_inv sent c;
  ci_in : wf (input_buffer_ c);
  ci_life : life_ok c;
}.

Lemma life_app l1 l2 : life (l1 ++ l2) = life l1 ++ life l2.
Proof. apply List.filter_app. Qed.

(** Changes that keep the state and the reported life. *)
Lemma conn_inv_same sent sent' c c' :
  conn_inv sent c → out_inv sent' c' → input_buffer_ c' = input_buffer_ c →
  state_ c' = state_ c → life (calls c') = life (calls c) → conn_inv sent' c'.
Proof.
  intros [_ Hin Hlife] Hout Hi Hs Hl. split; [done | by rewrite Hi |].
  unfold life_ok in *. by rewrite Hs, Hl.
Qed.

Lemma conn_inv_ctor p :
  ch_ok p → ch_events p = none_event_ → conn_inv [] (TcpConnection_ctor p).
Proof.
  intros Hp He. split; [split|..]; simpl; try done; try apply ctor_wf.
  intros _. unfold writing. simpl. rewrite He. done.
Qed.

Lemma disable_all_inv sent c :
  out_inv sent c → ∃ b p, ch_disable_all (channel_ c) = Ok (b, p) ∧
    out_inv sent (set_channel p (_set_state kDisconnected c)).
Proof.
  intros [Hch Hwf Hst Hroom Hwr Hcl]. destruct (disable_all_law _ Hch) as (b & p & E & Hp & He).
  exists b, p. split; [done|]. by split.
Qed.

Lemma handle_close_inv sent c :
  conn_inv sent c → ∃ c', _handle_close c = Ok c' ∧ conn_inv sent c'.
Proof.
  intros Hinv. unfold _handle_close. case_bool_decide as Hs; [by exists c|].
  destruct (disable_all_inv sent c (ci_out _ _ Hinv)) as (b & p & E & Ho).
  simpl. rewrite E. cbn [mbind outcome_bind]. eexists. split; [done|].
  destruct Hinv as [_ Hin Hlife]. split; [by do 2 apply out_inv_user | done |].
  unfold life_ok in *. simpl. rewrite !life_app.
  destruct (state_ c); simpl; try done; rewrite Hlife; tauto.
Qed.

Lemma established_inv sent c :
  conn_inv sent c → ∃ c', conn_established c = Ok c' ∧ conn_inv sent c'.
Proof.
  intros Hinv. unfold conn_established. case_bool_decide as Hs; cbn [negb]; [|by exists c].
  pose proof Hinv as [[Hch Hwf Hst Hroom Hwr Hcl] Hin Hlife].
  destruct (enable_reading_law _ Hch) as (b & p & E & Hp & He). simpl. rewrite E.
  cbn [mbind outcome_bind].
  assert (Ho : ∀ s, s ≠ kDisconnected → out_inv sent (set_channel p (_set_state s c))).
  { intros s Hne. split; simpl; try done. intros _. unfold writing. simpl.
    rewrite He, lor_read_write. apply Hwr. by rewrite Hs. }
  unfold life_ok in Hlife. rewrite Hs in Hlife. destruct b.
  - eexists. split; [done|]. split; [by apply out_inv_user, Ho | done |].
    unfold life_ok. simpl. rewrite life_app, Hlife. done.
  - destruct (handle_close_inv sent (set_channel p (_set_state kConnecting c))) as (c' & E' & H').
    { split; [by apply Ho | done |]. done. }
    exists c'. split; [|done]. rewrite <- E'. unfold _handle_close. simpl. done.
Qed.

Lemma destroyed_inv sent c :
  conn_inv sent c → ∃ c', conn_destroyed c = Ok c' ∧ conn_inv sent c'.
Proof.
  intros Hinv. unfold conn_destroyed.
  assert (Hrm : ∀ c1, conn_inv sent c1 →
    ∃ c', (p ← ch_remove (channel_ c1); Ok (set_channel p c1)) = Ok c' ∧ conn_inv sent c').
  { intros c1 H1. pose proof H1 as [[Hch Hwf Hst Hroom Hwr Hcl] Hin Hlife].
    destruct (remove_law _ Hch) as (p & E & Hp & He). rewrite E. cbn [mbind outcome_bind].
    eexists. split; [done|]. apply (conn_inv_same sent sent c1); try done.
    split; simpl; try done; unfold writing in *; simpl; by rewrite He. }
  case_bool_decide as Hs; [|cbn [mbind outcome_bind]; by apply Hrm].
  destruct (disable_all_inv sent c (ci_out _ _ Hinv)) as (b & p & E & Ho).
  simpl. rewrite E. cbn [mbind outcome_bind]. apply Hrm.
  destruct Hinv as [_ Hin Hlife]. split; [by apply out_inv_user | done |].
  unfold life_ok in *. rewrite Hs in Hlife. simpl. rewrite life_app, Hlife. auto.
Qed.

Lemma read_fd_total n err extrabuf b :
  wf b → Zlen extrabuf = 65536 → n ≤ 65536 → Zlen (buffer_ b) + 65536 ≤ max_size →
  ∃ e b', bb_read_fd n err extrabuf b = Ok (n, e, b') ∧ wf b'.
Proof.
  intros Hwf Hx Hn Hm. destruct (Z.leb_spec n 0).
  - unfold bb_read_fd. destruct (Z.leb_spec n 0); [|lia]. eauto.
  - destruct (read_fd_spec n err extrabuf b Hwf Hx ltac:(lia) Hm) as (b' & E & H' & _). eauto.
Qed.

Lemma handle_read_inv sent n err extrabuf c :
  conn_inv sent c → answers_ok (OReadable n err extrabuf) c →
  ∃ c', _handle_read n err extrabuf c = Ok c' ∧ conn_inv sent c'.
Proof.
  intros Hinv (Hx & Hn & Hm). unfold _handle_read.
  destruct (read_fd_total n err extrabuf (input_buffer_ c) (ci_in _ _ Hinv) Hx Hn Hm)
    as (e & b & -> & Hb). cbn [mbind outcome_bind].
  assert (H1 : conn_inv sent (set_input b c)).
  { destruct Hinv as [Ho _ Hl]. split; [by apply out_inv_input | done | done]. }
  destruct (0 <? n).
  - eexists. split; [done|]. eapply conn_inv_same; [exact H1 | | done | done |].
    + apply out_inv_user, H1.
    + simpl. by rewrite life_app, app_nil_r.
  - destruct (n =? 0); by apply handle_close_inv.
Qed.

Lemma handle_write_inv sent nw c :
  conn_inv sent c → answers_ok (OWritable nw) c →
  ∃ c', _handle_write nw c = Ok c' ∧ conn_inv sent c'.
Proof.
  intros Hinv Hn. simpl in Hn. unfold _handle_write.
  destruct (writing c) eqn:Hw; [|by exists c].
  destruct (Z.ltb_spec 0 nw); [|by apply handle_close_inv].
  pose proof Hinv as [[Hch Hwf Hst Hroom Hwr Hcl] Hin Hlife].
  set (c2 := set_output _ _).
  destruct (retrieve_spec nw (output_buffer_ c) Hwf ltac:(lia)) as (Hwf2 & _ & Hw2 & Hr).
  rewrite bool_decide_eq_true_2 in Hr by done. destruct Hr as [_ Hc2].
  assert (Hst2 : wire c2 ++ content (output_buffer_ c2) = sent).
  { subst c2. simpl. rewrite Hc2, <- app_assoc, take_drop. done. }
  assert (Hroom2 : write_idx_ (output_buffer_ c2) ≤ cheap_prepend + Zlen sent).
  { subst c2. simpl. pose proof (Zlen_nonneg sent). lia. }
  destruct (bb_bytes_readable (output_buffer_ c2) =? 0) eqn:Hrd.
  - destruct (disable_writing_law _ Hch) as (b & p & E & Hp & He).
    change (channel_ c2) with (channel_ c). rewrite E. cbn [mbind outcome_bind].
    assert (Ho : out_inv sent (set_channel p c2)).
    { split; try done.
      - intros _. unfold writing. simpl. rewrite He, land_write. symmetry. by apply negb_false_iff.
      - intros Hs. by rewrite (closed_not_writing sent c) in Hw by done || apply Hinv. }
    eexists. split; [done|]. set (c4 := if (_ : bool) then _ else set_channel p c2).
    assert (H4 : out_inv sent c4 ∧ input_buffer_ c4 = input_buffer_ c ∧ state_ c4 = state_ c ∧
                 calls c4 = calls c).
    { subst c4. simpl. destruct (write_complete_callback_ c); (split; [|done]);
        auto using out_inv_queue. }
    destruct H4 as (Ho4 & Hi4 & Hs4 & Hc4).
    apply (conn_inv_same sent sent c); [done | ..];
      (case_bool_decide; [unfold _shutdown_in_loop; destruct (writing c4)|]); cbn [negb];
      try done; simpl; rewrite ?Hc4; auto using out_inv_shut.
  - exists c2. split; [done|]. apply (conn_inv_same sent sent c); try done.
    split; try done. intros Hs. rewrite Hrd. cbn [negb]. exact Hw.
Qed.

(** What one accepted write does: the first [nw] buffered bytes go out; with the last of
    them write interest goes off, the user is told, and a pending shutdown is carried out. *)
Lemma handle_write_step sent nw c :
  conn_inv sent c → writing c = true → 0 < nw ≤ Zlen (content (output_buffer_ c)) →
  ∃ c', _handle_write nw c = Ok c' ∧
    wire c' = wire c ++ take (Z.to_nat nw) (content (output_buffer_ c)) ∧
    content (output_buffer_ c') = drop (Z.to_nat nw) (content (output_buffer_ c)) ∧
    state_ c' = state_ c ∧ calls c' = calls c ∧
    write_complete_callback_ c' = write_complete_callback_ c ∧
    let last := bool_decide (content (output_buffer_ c') = []) in
    tasks c' = tasks c ++ (if last && write_complete_callback_ c then [QWriteComplete] else []) ∧
    wr_shut c' = wr_shut c || last && bool_decide (state_ c = kDisconnecting).
Proof.
  intros [[Hch Hwf Hst Hroom Hwr Hcl] _ _] Hw Hn. unfold _handle_write. rewrite Hw.
  destruct (Z.ltb_spec 0 nw); [|lia].
  destruct (retrieve_spec nw (output_buffer_ c) Hwf ltac:(lia)) as (Hwf2 & _ & _ & Hr).
  rewrite bool_decide_eq_true_2 in Hr by lia. destruct Hr as [_ Hc2].
  cbn [transmit output_buffer_ set_output]. rewrite readable_0 by done.
  case_bool_decide as Hlast; simpl.
  - destruct (disable_writing_law _ Hch) as (b & p & E & Hp & He). rewrite E. cbn [mbind outcome_bind].
    eexists. split; [done|]. simpl. unfold _shutdown_in_loop, writing.
    destruct (write_complete_callback_ c) eqn:Ewc; case_bool_decide as Hs; simpl in *;
      rewrite ?He, ?land_write; simpl;
      rewrite ?Ewc, ?app_nil_r, ?(bool_decide_eq_true_2 _ Hlast), ?(bool_decide_eq_true_2 _ Hs), ?(bool_decide_eq_false_2 _ Hs), ?orb_false_r, ?orb_true_r;
      repeat split; try done; simpl; by rewrite app_nil_r.
  - eexists. split; [done|]. simpl. rewrite bool_decide_eq_false_2 by done. simpl.
    rewrite app_nil_r, orb_false_r. by repeat split.
Qed.

Lemma send_inv sent data nw err c :
  conn_inv sent c → valid_write (Zlen data) nw err →
  cheap_prepend + Zlen sent + Zlen data ≤ max_size →
  ∃ c', _send_in_loop data nw err c = Ok c' ∧
    conn_inv (sent ++ (if bool_decide (state_ c = kDisconnected) then [] else data)) c'.
Proof.
  intros Hinv Hv Hm. case_bool_decide as Hs.
  - exists c. unfold _send_in_loop. rewrite bool_decide_eq_true_2 by done.
    by rewrite app_nil_r.
  - destruct (send_in_loop_inv sent data nw err c) as (c' & E & Ho & Hs'); try done.
    + apply Hinv.
    + injection Hs' as E1 E2 E3. exists c'. split; [done|].
      apply (conn_inv_same sent _ c); congruence.
Qed.

Lemma shutdown_in_loop_inv sent c : conn_inv sent c → conn_inv sent (_shutdown_in_loop c).
Proof.
  intros Hinv. unfold _shutdown_in_loop. destruct (writing c); [done|]. cbn [negb].
  apply (conn_inv_same sent sent c); try done. apply out_inv_shut, Hinv.
Qed.

Lemma disconnecting_inv sent c :
  conn_inv sent c → state_ c = kConnected ∨ state_ c = kDisconnecting →
  conn_inv sent (_set_state kDisconnecting c).
Proof.
  intros [Ho Hi Hl] Hs. split; [| done |].
  - apply out_inv_state; [done | | done]. by destruct Hs as [-> | ->].
  - unfold life_ok in *. simpl. by destruct Hs as [Hs | Hs]; rewrite Hs in Hl.
Qed.

Lemma conn_inv_queue sent t c : conn_inv sent c → conn_inv sent (queue t c).
Proof. intros Hc. apply (conn_inv_same sent sent c); try done. apply out_inv_queue, Hc. Qed.

Lemma conn_inv_tasks sent ts c : conn_inv sent c → conn_inv sent (set_tasks ts c).
Proof. intros Hc. apply (conn_inv_same sent sent c); try done. apply out_inv_tasks, Hc. Qed.

Lemma shutdown_inv sent in_loop c : conn_inv sent c → conn_inv sent (shutdown in_loop c).
Proof.
  intros Hinv. unfold shutdown, connected. case_bool_decide as Hs; [|done].
  pose proof (disconnecting_inv sent c Hinv (or_introl Hs)).
  destruct in_loop; [by apply shutdown_in_loop_inv | by apply conn_inv_queue].
Qed.

Lemma force_close_inv sent c : conn_inv sent c → conn_inv sent (force_close c).
Proof.
  intros Hinv. unfold force_close. case_bool_decide; [|done].
  by apply conn_inv_queue, disconnecting_inv.
Qed.

Lemma set_wcc_inv sent b c : conn_inv sent c → conn_inv sent (set_wcc b c).
Proof. intros Hinv. apply (conn_inv_same sent sent c); try done. by destruct Hinv as [[] _ _]. Qed.

Lemma set_hwm_inv sent n c : conn_inv sent c → conn_inv sent (set_hwm n c).
Proof. intros Hinv. apply (conn_inv_same sent sent c); try done. by destruct Hinv as [[] _ _]. Qed.

Lemma consume_inv sent n c : conn_inv sent c → conn_inv sent (consume n c).
Proof.
  intros [Ho Hin Hl]. split; [by apply out_inv_input | | done]. simpl.
  apply (retrieve_spec (u64 n) (input_buffer_ c) Hin). apply (u_range 64). lia.
Qed.

Lemma conn_inv_user sent k c : conn_inv sent c → life [k] = [] → conn_inv sent (user k c).
Proof.
  intros Hc Hk. eapply conn_inv_same; [exact Hc | | done | done |].
  - apply out_inv_user, Hc.
  - simpl. by rewrite life_app, Hk, app_nil_r.
Qed.

Lemma run_task_inv sent nw err c :
  conn_inv sent c → answers_ok (OTask nw err) c →
  cheap_prepend + Zlen sent + Zlen (accepted (OTask nw err) c) ≤ max_size →
  ∃ c', run_task nw err c = Ok c' ∧ conn_inv (sent ++ accepted (OTask nw err) c) c'.
Proof.
  intros Hinv Ha Hm. unfold run_task, accepted in *. simpl in Ha.
  destruct (tasks c) as [|t ts] eqn:Ht; [exists c; by rewrite app_nil_r|].
  pose proof (conn_inv_tasks sent ts c Hinv) as H1.
  destruct t as [m| | | |n].
  - case_bool_decide as Hs.
    + exists (set_tasks ts c). split; [|by rewrite app_nil_r].
      unfold _send_in_loop. simpl. by rewrite bool_decide_eq_true_2.
    + destruct (send_inv sent m nw err (set_tasks ts c)) as (c' & E & H'); eauto.
      exists c'. split; [done|]. simpl in H'. by rewrite bool_decide_eq_false_2 in H'.
  - rewrite app_nil_r. eexists. split; [done|]. by apply shutdown_in_loop_inv.
  - rewrite app_nil_r. unfold _force_close_in_loop. case_bool_decide; [|by eexists].
    by apply handle_close_inv.
  - rewrite app_nil_r. eauto using conn_inv_user.
  - rewrite app_nil_r. eauto using conn_inv_user.
Qed.

(** One operation: it succeeds, and commits [accepted] to the stream. *)
Lemma exec_inv sent o c :
  conn_inv sent c → answers_ok o c →
  cheap_prepend + Zlen sent + Zlen (accepted o c) ≤ max_size →
  ∃ c', exec o c = Ok c' ∧ conn_inv (sent ++ accepted o c) c'.
Proof.
  intros Hinv Ha Hm. destruct o as [|in_loop m nw err|nw err|n err x|nw| | |in_loop| | |b|n|j];
    cbn [exec]; try (cbn [accepted]; rewrite app_nil_r).
  - by apply established_inv.
  - unfold send, accepted in *. unfold connected in *. case_bool_decide as Hs.
    + destruct in_loop.
      * destruct (send_inv sent m nw err c) as (c' & E & H'); try done.
        exists c'. split; [done|]. by rewrite bool_decide_eq_false_2 in H' by (by rewrite Hs).
      * rewrite app_nil_r. eexists. split; [done|]. by apply conn_inv_queue.
    + exists c. destruct in_loop; by rewrite app_nil_r.
  - by apply run_task_inv.
  - by apply handle_read_inv.
  - by apply handle_write_inv.
  - by apply handle_close_inv.
  - by apply handle_close_inv.
  - eauto using shutdown_inv.
  - eauto using force_close_inv.
  - by apply destroyed_inv.
  - eauto using set_wcc_inv.
  - eauto using set_hwm_inv.
  - eauto using consume_inv.
Qed.

(** A connection's history: operations with answers of the system calls, and the bytes
    committed to the stream, from its construction on. *)
Inductive history : bytes → TcpConnection P → Prop :=
| history_start p :
    ch_ok p → ch_events p = none_event_ → history [] (TcpConnection_ctor p)
| history_step sent o c c' :
    history sent c → answers_ok o c → exec o c = Ok c' →
    history (sent ++ accepted o c) c'.

Lemma history_inv sent c :
  history sent c → cheap_prepend + Zlen sent ≤ max_size → conn_inv sent c.
Proof.
  induction 1 as [p Hp He|sent o c c' _ IH Ha E]; intros Hm; [by apply conn_inv_ctor|].
  rewrite Zlen_app in Hm. pose proof (Zlen_nonneg (accepted o c)).
  destruct (exec_inv sent o c) as (c2 & E2 & H2); [apply IH; lia | done | lia |].
  congruence.
Qed.

(** C3. The output stream is reliable. In every history whose writes do not meet a broken
    connection, the bytes handed to the kernel followed by the bytes still buffered are
    exactly the messages committed, in order: nothing is lost, duplicated or reordered by
    the mixture of direct writes, short writes and buffering. While the connection is open
    write interest is on exactly when bytes are buffered, so a buffered byte is never
    forgotten. And no operation faults. *)
Theorem stream_integrity sent c o :
  history sent c → answers_ok o c →
  cheap_prepend + Zlen sent + Zlen (accepted o c) ≤ max_size →
  wire c ++ content (output_buffer_ c) = sent ∧
  (state_ c ≠ kDisconnected → writing c = bool_decide (content (output_buffer_ c) ≠ [])) ∧
  ∃ c', exec o c = Ok c' ∧
    wire c' ++ content (output_buffer_ c') = sent ++ accepted o c.
Proof.
  intros Hh Ha Hm. pose proof (Zlen_nonneg (accepted o c)).
  pose proof (history_inv sent c Hh ltac:(lia)) as Hinv.
  pose proof Hinv as [[Hch Hwf Hst Hroom Hwr Hcl] _ _]. split; [done|]. split.
  - intros Hs. rewrite Hwr, readable_0 by done. symmetry. apply bool_decide_not.
  - destruct (exec_inv sent o c) as (c' & E & [[] _ _]); eauto.
Qed.

(** ** Whatever the system answers

    A broken connection loses the message it is met with; otherwise only memory can be
    lacking. *)
Definition answers_any (o : conn_op) c : Prop :=
  match o with
  | OSend _ m nw err => nw ≤ Zlen m ∧ Zlen m ≤ max_size
  | OTask nw err => ∀ m ts, tasks c = QSend m :: ts → nw ≤ Zlen m ∧ Zlen m ≤ max_size
  | OReadable n err extrabuf => Zlen extrabuf = 65536 ∧ n ≤ 65536
  | OWritable nw => nw ≤ Zlen (content (output_buffer_ c))
  | _ => True
  end.

Lemma read_fd_memory n err extrabuf b :
  wf b → Zlen extrabuf = 65536 → n ≤ 65536 →
  memory True (bb_read_fd n err extrabuf b) (λ r, r.1.1 = n ∧ wf r.2).
Proof.
  intros Hwf Hx Hn. unfold bb_read_fd. destruct (Z.leb_spec n 0); [by apply memory_ret|].
  rewrite writeable_wf by done. pose proof Hwf as Hwf0. wf_facts.
  destruct (Z.leb_spec n (Zlen (buffer_ b) - write_idx_ b)).
  - apply memory_ret. split; [done|]. u64_simp.
    split; simpl; unfold cheap_prepend, initial_size, max_size; lia.
  - u64_simp. rewrite read_range_ok by (unfold max_size; lia). cbn [mbind outcome_bind].
    assert (wf (set_write (Zlen (buffer_ b)) b)) as Hwf1
      by (split; simpl; unfold cheap_prepend, initial_size, max_size; lia).
    apply (memory_bind _ _ _ (λ b', wf b')).
    + eapply memory_mono; [apply (append_total _ _ Hwf1) | done | by intros b' _ (? & _)].
      rewrite Zlen_slice by lia. unfold max_size. lia.
    + intros b' _ Hb'. by apply memory_ret.
Qed.

Lemma send_memory sent data nw err c :
  conn_inv sent c → nw ≤ Zlen data → Zlen data ≤ max_size →
  memory True (_send_in_loop data nw err c) (λ c', ∃ sent', conn_inv sent' c').
Proof.
  intros Hinv Hv Hm. destruct (decide (state_ c = kDisconnected)) as [Hs|Hs].
  - unfold _send_in_loop. rewrite bool_decide_eq_true_2 by done. apply memory_ret. eauto.
  - eapply memory_mono; [apply (send_in_loop_total sent); [apply Hinv | done..] | done |].
    intros c' _ [Ho Hside]. injection Hside as E1 E2 E3. eexists.
    by apply (conn_inv_same sent _ c); [| exact Ho | | | congruence].
Qed.

(** Every operation goes through whatever the system answers, and keeps the invariant. *)
Lemma exec_memory sent o c :
  conn_inv sent c → answers_any o c → memory True (exec o c) (λ c', ∃ sent', conn_inv sent' c').
Proof.
  intros Hinv Ha.
  assert (Hok : ∀ m, (∃ c', m = Ok c' ∧ conn_inv sent c') →
            memory True m (λ c', ∃ sent', conn_inv sent' c'))
    by (intros m (c' & E & H'); apply memory_ok; eauto).
  destruct o as [|in_loop m nw err|nw err|n err x|nw| | |in_loop| | |b|n|j]; cbn [exec answers_any] in *.
  - apply Hok. by apply established_inv.
  - unfold send. destruct (connected c); [|apply Hok; eauto].
    destruct Ha, in_loop; [by apply (send_memory sent) | apply Hok; eauto using conn_inv_queue].
  - unfold run_task. destruct (tasks c) as [|t ts] eqn:Ht; [apply Hok; eauto|].
    pose proof (conn_inv_tasks sent ts c Hinv) as H1. destruct t as [m| | | |n].
    + destruct (Ha m ts eq_refl). by apply (send_memory sent).
    + apply Hok. eauto using shutdown_in_loop_inv.
    + apply Hok. unfold _force_close_in_loop. case_bool_decide; [|by eexists]. by apply handle_close_inv.
    + apply Hok. eauto using conn_inv_user.
    + apply Hok. eauto using conn_inv_user.
  - destruct Ha as [Hx Hn]. unfold _handle_read.
    eapply memory_bind; [apply (read_fd_memory n err x _ (ci_in _ _ Hinv) Hx Hn)|].
    intros [[n2 e] b] _ [En Hb]. cbn [fst snd] in *. subst n2.
    assert (H1 : conn_inv sent (set_input b c)).
    { destruct Hinv as [Ho _ Hl]. split; [by apply out_inv_input | done | done]. }
    destruct (0 <? n); [apply Hok; eexists; split; [done|]; by apply conn_inv_user|].
    apply Hok. destruct (n =? 0); by apply handle_close_inv.
  - apply Hok. by apply handle_write_inv.
  - apply Hok. by apply handle_close_inv.
  - apply Hok. by apply handle_close_inv.
  - apply Hok. eauto using shutdown_inv.
  - apply Hok. eauto using force_close_inv.
  - apply Hok. by apply destroyed_inv.
  - apply Hok. eauto using set_wcc_inv.
  - apply Hok. eauto using set_hwm_inv.
  - apply Hok. eauto using consume_inv.
Qed.

(** A closed connection stays closed, and leaves its channel alone until it is destroyed. *)
Lemma exec_closed o c c' :
  state_ c = kDisconnected → writing c = false → exec o c = Ok c' →
  state_ c' = kDisconnected ∧ wire c' = wire c ∧ life (calls c') = life (calls c) ∧
  (o ≠ ODestroyed → channel_ c' = channel_ c).
Proof.
  intros Hs Hw E.
  assert (Hclose : ∀ c1 c2, state_ c1 = kDisconnected → _handle_close c1 = Ok c2 → c2 = c1).
  { intros c1 c2 H1. unfold _handle_close. rewrite bool_decide_eq_true_2 by done. congruence. }
  destruct o as [|in_loop m nw err|nw err|n err x|nw| | |in_loop| | |b|n|j]; cbn [exec] in E.
  - unfold conn_established in E. rewrite bool_decide_eq_false_2 in E by (by rewrite Hs).
    by injection E as <-.
  - unfold send, connected in E. rewrite bool_decide_eq_false_2 in E by (by rewrite Hs).
    by injection E as <-.
  - unfold run_task in E. destruct (tasks c) as [|[m| | | |k] ts]; simplify_eq; try done.
    + unfold _send_in_loop in E. rewrite bool_decide_eq_true_2 in E by done. by simplify_eq.
    + unfold _shutdown_in_loop, writing in *. simpl. rewrite Hw. done.
    + unfold _force_close_in_loop in E. case_bool_decide; [|by simplify_eq].
      by apply Hclose in E; [subst|].
    + simpl. by rewrite life_app, app_nil_r.
    + simpl. by rewrite life_app, app_nil_r.
  - unfold _handle_read in E. apply bind_Ok_inv in E as ([[n' e] b] & _ & E). destruct (0 <? n').
    + simplify_eq. simpl. by rewrite life_app, app_nil_r.
    + destruct (n' =? 0); apply Hclose in E; by subst.
  - unfold _handle_write in E. rewrite Hw in E. by simplify_eq.
  - by apply Hclose in E; [subst|].
  - by apply Hclose in E; [subst|].
  - unfold shutdown, connected in E. rewrite bool_decide_eq_false_2 in E by (by rewrite Hs).
    by simplify_eq.
  - unfold force_close in E. rewrite bool_decide_eq_false_2 in E by (rewrite Hs; by intros [|]).
    by simplify_eq.
  - unfold conn_destroyed in E. rewrite bool_decide_eq_false_2 in E by (by rewrite Hs).
    cbn [mbind outcome_bind] in E. apply bind_Ok_inv in E as (p & _ & [= <-]). by repeat split.
  - by simplify_eq.
  - by simplify_eq.
  - by simplify_eq.
Qed.

(** Messages that a [std::string] can hold. *)
Definition task_fits (t : task) : Prop :=
  match t with QSend m => Zlen m ≤ max_size | _ => True end.
Definition op_fits (o : conn_op) : Prop :=
  match o with OSend _ m _ _ => Zlen m ≤ max_size | _ => True end.

Lemma queue_fits t c :
  task_fits t → Forall task_fits (tasks c) → Forall task_fits (tasks (queue t c)).
Proof. intros Ht Hc. simpl. apply Forall_app. auto. Qed.

Lemma send_in_loop_tasks data nw err c c' :
  _send_in_loop data nw err c = Ok c' → Forall task_fits (tasks c) → Forall task_fits (tasks c').
Proof.
  intros E Hf. unfold _send_in_loop in E. case_bool_decide; [by simplify_eq|].
  destruct (direct_write data nw err c) as [[[nwrote remaining] fault] c1] eqn:Ed.
  assert (H1 : Forall task_fits (tasks c1)).
  { unfold direct_write in Ed. repeat case_match; simplify_eq; auto; by apply queue_fits. }
  repeat case_match; simplify_eq; try done. revert E. unfold buffer_remaining. cbv zeta.
  set (c2 := if (_ : bool) then queue _ c1 else c1).
  assert (Hc2 : Forall task_fits (tasks c2)) by (subst c2; case_match; [by apply queue_fits | done]).
  clearbody c2. intros (b & _ & E)%bind_Ok_inv. case_match; [by simplify_eq|].
  apply bind_Ok_inv in E as ([? p] & _ & E). by simplify_eq.
Qed.

Lemma exec_tasks o c c' :
  exec o c = Ok c' → op_fits o → Forall task_fits (tasks c) → Forall task_fits (tasks c').
Proof.
  assert (Hclose : ∀ c1 c2, _handle_close c1 = Ok c2 → Forall task_fits (tasks c1) → Forall task_fits (tasks c2)).
  { intros c1 c2. unfold _handle_close. case_bool_decide; [congruence|].
    by intros ([? p] & _ & [= <-])%bind_Ok_inv. }
  intros E Ho Hf.
  destruct o as [|in_loop m nw err|nw err|n err x|nw| | |in_loop| | |b|n|j]; cbn [exec op_fits] in *;
    try (by simplify_eq); try (by eapply Hclose).
  - unfold conn_established in E. case_match; [by simplify_eq|].
    apply bind_Ok_inv in E as ([ok p] & _ & E). case_match; [by simplify_eq | by eapply Hclose].
  - unfold send in E. repeat case_match; simplify_eq; [by eapply send_in_loop_tasks | by apply queue_fits | done].
  - unfold run_task in E. destruct (tasks c) as [|t ts] eqn:Ht; [simplify_eq; by rewrite Ht|].
    apply Forall_cons in Hf as [Hm Hts]. destruct t as [m| | | |k]; simplify_eq; try done.
    + by eapply send_in_loop_tasks.
    + unfold _shutdown_in_loop. by case_match.
    + unfold _force_close_in_loop in E. case_bool_decide; [by eapply Hclose | by simplify_eq].
  - unfold _handle_read in E. apply bind_Ok_inv in E as ([[n' e] b] & _ & E).
    repeat case_match; simplify_eq; try done; by eapply Hclose.
  - unfold _handle_write in E. repeat (case_match; simplify_eq; try done); [|by eapply Hclose].
    apply bind_Ok_inv in E as ([? p] & _ & [= <-]).
    case_bool_decide; [unfold _shutdown_in_loop; case_match|]; simpl; case_match; by try apply queue_fits.
  - simplify_eq. unfold shutdown. case_match; [|done]. case_match; [|by apply queue_fits].
    unfold _shutdown_in_loop. by case_match.
  - simplify_eq. unfold force_close. case_match; [|done]. by apply queue_fits.
  - unfold conn_destroyed in E. apply bind_Ok_inv in E as (c1 & E1 & E).
    apply bind_Ok_inv in E as (p & _ & [= <-]). simpl. case_match; [|by simplify_eq].
    by apply bind_Ok_inv in E1 as ([? q] & _ & [= <-]).
Qed.

(** C4. The life of a connection as its owner sees it: in every history the connection
    callback reports UP at most once and DOWN at most once, in this order, the close
    callback comes last and at most once, and the reports determine what state the
    connection is in. A closed connection stays closed and writes nothing more. *)
Theorem connection_lifecycle sent c o c' :
  history sent c → cheap_prepend + Zlen sent + Zlen (accepted o c) ≤ max_size →
  answers_ok o c → exec o c = Ok c' →
  life_ok c ∧ life_ok c' ∧
  (state_ c = kDisconnected →
     state_ c' = kDisconnected ∧ wire c' = wire c ∧ life (calls c') = life (calls c)).
Proof.
  intros Hh Hm Ha E. pose proof (Zlen_nonneg (accepted o c)).
  pose proof (history_inv sent c Hh ltac:(lia)) as Hinv.
  destruct (exec_inv sent o c Hinv Ha Hm) as (c2 & E2 & Hinv2).
  assert (c2 = c') as -> by congruence.
  split; [apply Hinv|]. split; [apply Hinv2|]. intros Hs.
  destruct (exec_closed o c c' Hs (closed_not_writing _ _ (ci_out _ _ Hinv) Hs) E) as (? & ? & ? & _).
  done.
Qed.
End output.

(** ** A connection on the epoll poller *)
Section on_epoll.

(** The channel at address 100 for descriptor 7, on an ideal epoll instance. *)
#[local] Instance demo_ops : ChannelOps (EpollPoller unit) := epoll_channel_ops epoll_ideal 100.
#[local] Instance demo_contract : ChannelContract (EpollPoller unit) :=
  epoll_channel_contract epoll_ideal 100.

Definition demo_poller : EpollPoller unit := mkPoller {[ 100 := Channel_ctor 1 7 ]} ∅ 16 ∅.

Lemma demo_ok : ch_ok demo_poller.
Proof.
  split; [|by eexists].
  apply (pwf_new_channel 100 (Channel_ctor 1 7) EpollPoller_ctor); [done | done | apply pwf_ctor].
Qed.

Lemma stream_integrity_witness :
  ∃ c, conn_established (TcpConnection_ctor demo_poller) = Ok c ∧
    wire c ++ content (output_buffer_ c) = [] ∧
    (state_ c ≠ kDisconnected → writing c = bool_decide (content (output_buffer_ c) ≠ [])) ∧
    ∃ c', exec (OSend true (lit "hello") 2 0) c = Ok c' ∧
      wire c' ++ content (output_buffer_ c') =
        [] ++ accepted (OSend true (lit "hello") 2 0) c.
Proof.
  destruct (conn_established (TcpConnection_ctor demo_poller)) as [c|] eqn:E;
    [|vm_compute in E; congruence].
  exists c. split; [reflexivity|].
  assert (Hh : history [] c).
  { apply (history_step [] OEstablished (TcpConnection_ctor demo_poller) c);
      [|exact I|exact E]. apply history_start; [apply demo_ok | reflexivity]. }
  apply (stream_integrity [] c); [exact Hh | left; vm_compute; split; congruence |].
  vm_compute in E. injection E as <-. vm_compute. congruence.
Defined.

Lemma connection_lifecycle_witness :
  ∃ c c', conn_established (TcpConnection_ctor demo_poller) = Ok c ∧ exec OHangup c = Ok c' ∧
    life_ok c ∧ life_ok c' ∧
    (state_ c = kDisconnected →
       state_ c' = kDisconnected ∧ wire c' = wire c ∧ life (calls c') = life (calls c)).
Proof.
  destruct (conn_established (TcpConnection_ctor demo_poller)) as [c|] eqn:E;
    [|vm_compute in E; congruence].
  destruct (exec OHangup c) as [c'|] eqn:E'.
  - exists c, c'. split; [reflexivity|]. split; [exact E'|].
    apply (connection_lifecycle [] c OHangup c'); [| vm_compute; congruence | exact I | exact E'].
    apply (history_step [] OEstablished (TcpConnection_ctor demo_poller) c);
      [|exact I|exact E]. apply history_start; [apply demo_ok | reflexivity].
  - exfalso. vm_compute in E. injection E as <-. vm_compute in E'. congruence.
Defined.

(** Destroying a connection and its place in the poller, for every epoll instance that
    keeps its contract: [conn_destroyed] takes a connection that is open or closed out of
    the poller, so that its channel may be freed; a connection that is being shut down
    (state [kDisconnecting], reading still on) stays registered: the guard tests
    [kConnected] only, and [Channel::remove] does nothing while events are on. *)
Theorem destroyed_leaves_poller {Callback} (ctl : epoll_op → Z → Z * Z → interest → option interest)
    `{!EpollCtl ctl} (a : Z) (c : TcpConnection (EpollPoller Callback)) (ch : Channel Callback) :
  pwf (channel_ c) → chans (channel_ c) !! a = Some ch →
  (state_ c = kDisconnected → events_ ch = none_event_) →
  let ops := epoll_channel_ops ctl a in
  ∃ c' ch', @conn_destroyed _ ops c = Ok c' ∧ pwf (channel_ c') ∧
    chans (channel_ c') !! a = Some ch' ∧
    (state_ c = kConnected ∨ state_ c = kDisconnected →
       index_ ch' = new_ ∧ ∀ fd ev, kernel (channel_ c') !! fd ≠ Some (ev, a)) ∧
    (state_ c = kDisconnecting → events_ ch ≠ none_event_ → channel_ c' = channel_ c).
Proof.
  intros Hwf Ha Hclosed ops. unfold conn_destroyed.
  assert (Hrm : ∀ (p : EpollPoller Callback) d, pwf p → chans p !! a = Some d →
    ∃ p' d', Channel_remove ctl a p = Ok p' ∧ pwf p' ∧ chans p' !! a = Some d' ∧
      (events_ d = none_event_ →
         index_ d' = new_ ∧ ∀ fd ev, kernel p' !! fd ≠ Some (ev, a)) ∧
      (events_ d ≠ none_event_ → p' = p)).
  { intros p d Hp Hd.
    destruct (pwf_Channel_remove ctl a d p Hp Hd) as (p' & E & Hp' & (_ & x & i & _ & Hd') & Hn).
    exists p', (set_index i x). split; [done|]. split; [done|]. split; [done|]. split.
    - intros He. destruct (Hn He) as (d' & Hd1 & Hix).
      assert (d' = set_index i x) as -> by congruence.
      split; [done|]. by eapply unregistered_not_polled.
    - intros He. revert E. unfold Channel_remove. rewrite (deref_ok a d) by done.
      cbn [mbind outcome_bind]. unfold is_event_none.
      destruct (Z.eqb_spec (events_ d) none_event_); [done | by intros [= ->]]. }
  case_bool_decide as Hs.
  - destruct (pwf_with_events ctl (λ _, none_event_) a ch (channel_ c) Hwf Ha)
      as (b & p & E & Hp & _ & i & Hi).
    simpl. unfold disable_all. rewrite E. cbn [mbind outcome_bind].
    destruct (Hrm p _ Hp Hi) as (p' & d' & E' & Hp' & Hd' & Hnone & _). simpl. rewrite E'.
    do 2 eexists. split; [done|]. split; [done|]. split; [done|].
    split; [intros _; by apply Hnone | congruence].
  - cbn [mbind outcome_bind].
    destruct (Hrm (channel_ c) ch Hwf Ha) as (p' & d' & E' & Hp' & Hd' & Hnone & Hsome).
    simpl. rewrite E'. do 2 eexists. split; [done|]. split; [done|]. split; [done|].
    split; [intros [?|Hs']; [done | auto] | intros _ He; by apply Hsome].
Qed.

Lemma destroyed_leaves_poller_witness :
  let ch := mkChannel 1 7 3 0 1 None None None None : Channel unit in
  let p := mkPoller {[ 100 := ch ]} {[ 7 := 100 ]} 16 {[ 7 := (3, 100) ]} in
  let c := _set_state kDisconnecting (TcpConnection_ctor p) in
  ∃ c', @conn_destroyed _ (epoll_channel_ops epoll_ideal 100) c = Ok c' ∧ channel_ c' = p.
Proof.
  intros ch p c.
  assert (Hp : pwf p).
  { split; simpl.
    - intros fd a [<- <-]%lookup_singleton_Some. exists ch. auto.
    - intros a d [<- <-]%lookup_singleton_Some. right. auto.
    - intros fd ev a [<- [= <- <-]]%lookup_singleton_Some. split; [done|]. by exists ch. }
  destruct (destroyed_leaves_poller epoll_ideal 100 c ch Hp) as (c' & ch' & E & _ & _ & _ & H).
  - reflexivity.
  - done.
  - exists c'. split; [exact E|]. by apply H.
Defined.
End on_epoll.

(** ** A channel that is only its event set, for examples *)
#[export] Instance event_set_channel : ChannelOps Z := {
  ch_events p := p;
  ch_enable_reading p := Ok (true, Z.lor p read_event_);
  ch_enable_writing p := Ok (true, Z.lor p write_event_);
  ch_disable_writing p := Ok (true, Z.land p (Z.lnot write_event_));
  ch_disable_all p := Ok (true, none_event_);
  ch_remove p := Ok p;
}.
#[export] Instance event_set_contract : ChannelContract Z.
Proof.
  refine {| ch_ok _ := True |}; intros p _; simpl; by repeat eexists.
Defined.
