(* ===== verification/EventLoop.v ===== *)
(** * The event loop: [network/event_loop.h], [network/event_loop.cpp]

    One loop thread runs [loop()]; any number of other threads call [queue_in_loop],
    [run_in_loop] and [quit]. The state has the members of the class, the counter of the
    eventfd, and the position of the loop thread in [loop()]; a step is one action of the
    loop thread or of another thread. In another thread [queue_in_loop] is two steps, the
    push under the mutex and the write to the eventfd behind it.

    What callbacks and functors do to the loop is a list of [act]s. Timers are those of
    [Timers]; [run_at], [run_after] and [run_every] are defined on them here. *)
From S2P Require Import Prelude Timers.

Definition poll_time_ms : Z := 1.

(** ** Timers, called in the loop thread

    [a] is the address of the new timer, [now] the value of [Timestamp::now()]. *)
Section loop_timers.
Context {TimerCallback World : Type}.
Abbreviation queue := (TimerQueue TimerCallback World).

Definition run_at_lvalue (a : Z) (time : Timestamp) (cb : TimerCallback) (q : queue)
    : outcome (queue * TimerId) := add_timer_lvalue a cb time 0 1 q.
Definition run_at_rvalue (a : Z) (time : Timestamp) (cb : TimerCallback) (q : queue)
    : outcome (queue * TimerId) := add_timer_rvalue a cb time 0 1 q.

Definition run_after_lvalue (a : Z) (now : Timestamp) (delay : Z) (cb : TimerCallback) (q : queue)
    : outcome (queue * TimerId) := time ← add_time now delay; run_at_lvalue a time cb q.
Definition run_after_rvalue (a : Z) (now : Timestamp) (delay : Z) (cb : TimerCallback) (q : queue)
    : outcome (queue * TimerId) := time ← add_time now delay; run_at_rvalue a time cb q.

Definition run_every_lvalue (a : Z) (now : Timestamp) (interval : Z) (cb : TimerCallback) (q : queue)
    : outcome (queue * TimerId) :=
  time ← add_time now interval; add_timer_lvalue a cb time interval (-1) q.
Definition run_every_rvalue (a : Z) (now : Timestamp) (interval : Z) (cb : TimerCallback) (q : queue)
    : outcome (queue * TimerId) :=
  time ← add_time now interval; add_timer_rvalue a cb time interval (-1) q.

Definition EventLoop_cancel (timer_id : TimerId) (off : bool) (q : queue) : queue :=
  cancel timer_id off q.
Definition EventLoop_remove (timer_id : TimerId) (q : queue) : queue :=
  remove_timer timer_id q.
End loop_timers.

(** ** The loop *)
Section loop.
Context {Functor : Type}.

(** What code called by the loop thread does to the loop. *)
Inductive act := AQueue (f : Functor) | AQuit.

(** Positions of the loop thread: before [loop()], at the [while] test, at [do_timer], at
    [poll], handling the active channels, in [do_other_tasks] before and after the swap, at
    the frame functor, and behind the loop. *)
Inductive position := PStart | PCheck | PTimers | PPoll | PEvents | PSwap | PRun | PFrame | PExit.

#[export] Instance position_eq_dec : EqDecision position.
Proof. solve_decision. Defined.

Record EventLoop := mkLoop {
  looping_ : bool;
  quit_ : bool;
  event_handling_ : bool;
  doing_other_tasks_ : bool;
  iteration_ : Z;
  pending_functors_ : list Functor;
  frame_functor_ : option Functor;
  wakeup_fd_ : Z;                   (* the eventfd's counter *)
  pos : position;
  functors : list Functor;          (* the local vector of [do_other_tasks] *)
  inflight : nat;                   (* threads that will write to the eventfd next *)
  enqueued : list Functor;          (* history: every functor pushed, in order *)
  executed : list Functor;          (* history: every functor run by [do_other_tasks] *)
}.

Definition EventLoop_ctor : EventLoop :=
  mkLoop false false false false 0 [] None 0 PStart [] 0 [] [].

Definition set_pos (p : position) (l : EventLoop) : EventLoop :=
  mkLoop (looping_ l) (quit_ l) (event_handling_ l) (doing_other_tasks_ l) (iteration_ l)
    (pending_functors_ l) (frame_functor_ l) (wakeup_fd_ l) p (functors l) (inflight l)
    (enqueued l) (executed l).
Definition set_flags (looping quit handling doing : bool) (l : EventLoop) : EventLoop :=
  mkLoop looping quit handling doing (iteration_ l)
    (pending_functors_ l) (frame_functor_ l) (wakeup_fd_ l) (pos l) (functors l) (inflight l)
    (enqueued l) (executed l).
Definition push (f : Functor) (l : EventLoop) : EventLoop :=
  mkLoop (looping_ l) (quit_ l) (event_handling_ l) (doing_other_tasks_ l) (iteration_ l)
    (pending_functors_ l ++ [f]) (frame_functor_ l) (wakeup_fd_ l) (pos l) (functors l)
    (inflight l) (enqueued l ++ [f]) (executed l).
Definition set_wakeup (n : Z) (l : EventLoop) : EventLoop :=
  mkLoop (looping_ l) (quit_ l) (event_handling_ l) (doing_other_tasks_ l) (iteration_ l)
    (pending_functors_ l) (frame_functor_ l) n (pos l) (functors l) (inflight l)
    (enqueued l) (executed l).
Definition set_inflight (n : nat) (l : EventLoop) : EventLoop :=
  mkLoop (looping_ l) (quit_ l) (event_handling_ l) (doing_other_tasks_ l) (iteration_ l)
    (pending_functors_ l) (frame_functor_ l) (wakeup_fd_ l) (pos l) (functors l) n
    (enqueued l) (executed l).
Definition next_iteration (l : EventLoop) : EventLoop :=
  mkLoop (looping_ l) (quit_ l) (event_handling_ l) (doing_other_tasks_ l) (iteration_ l + 1)
    (pending_functors_ l) (frame_functor_ l) (wakeup_fd_ l) (pos l) (functors l) (inflight l)
    (enqueued l) (executed l).
Definition set_frame_functor (f : option Functor) (l : EventLoop) : EventLoop :=
  mkLoop (looping_ l) (quit_ l) (event_handling_ l) (doing_other_tasks_ l) (iteration_ l)
    (pending_functors_ l) f (wakeup_fd_ l) (pos l) (functors l) (inflight l)
    (enqueued l) (executed l).

(** The write and the read of the eventfd; a read resets the counter. *)
Definition wakeup (l : EventLoop) : EventLoop := set_wakeup (wakeup_fd_ l + 1) l.
Definition handle_read (l : EventLoop) : EventLoop := set_wakeup 0 l.

(** Called by the loop thread. *)
Definition queue_in_loop (f : Functor) (l : EventLoop) : EventLoop :=
  let l1 := push f l in if doing_other_tasks_ l1 then wakeup l1 else l1.

Definition quit (l : EventLoop) : EventLoop :=
  set_flags (looping_ l) true (event_handling_ l) (doing_other_tasks_ l) l.

Definition do_act (a : act) (l : EventLoop) : EventLoop :=
  match a with AQueue f => queue_in_loop f l | AQuit => quit l end.
Definition do_acts (acts : list act) (l : EventLoop) : EventLoop :=
  fold_left (λ l a, do_act a l) acts l.

(** [do_other_tasks]: the swap, and one iteration of its loop. *)
Definition swap_functors (l : EventLoop) : EventLoop :=
  mkLoop (looping_ l) (quit_ l) (event_handling_ l) (doing_other_tasks_ l) (iteration_ l)
    [] (frame_functor_ l) (wakeup_fd_ l) PRun (pending_functors_ l) (inflight l)
    (enqueued l) (executed l).
Definition take_functor (f : Functor) (fs : list Functor) (l : EventLoop) : EventLoop :=
  mkLoop (looping_ l) (quit_ l) (event_handling_ l) (doing_other_tasks_ l) (iteration_ l)
    (pending_functors_ l) (frame_functor_ l) (wakeup_fd_ l) (pos l) fs (inflight l)
    (enqueued l) (executed l ++ [f]).

(** [acts] of a functor. *)
Context (body : Functor → list act).

(** [run_in_loop]: at once in the loop thread, queued from another one. *)
Definition run_in_loop (in_loop_thread : bool) (f : Functor) (l : EventLoop) : EventLoop :=
  if in_loop_thread then do_acts (body f) l else set_inflight (S (inflight l)) (push f l).

(** The loop thread. [LTimers] and [LEvent] carry what the callbacks called there do. *)
Inductive loop_step : EventLoop → EventLoop → Prop :=
| LStart l :
    pos l = PStart →
    loop_step l (set_pos PCheck (set_flags true false (event_handling_ l) (doing_other_tasks_ l) l))
| LExit l :
    pos l = PCheck → quit_ l = true →
    loop_step l (set_pos PExit (set_flags false true (event_handling_ l) (doing_other_tasks_ l) l))
| LCheck l : pos l = PCheck → quit_ l = false → loop_step l (set_pos PTimers l)
| LTimers l acts : pos l = PTimers → loop_step l (set_pos PPoll (do_acts acts l))
| LPoll l :
    pos l = PPoll →
    loop_step l (set_pos PEvents (next_iteration
      (set_flags (looping_ l) (quit_ l) true (doing_other_tasks_ l) l)))
| LWakeupEvent l : pos l = PEvents → 0 < wakeup_fd_ l → loop_step l (handle_read l)
| LEvent l acts : pos l = PEvents → loop_step l (do_acts acts l)
| LEventsDone l :
    pos l = PEvents →
    loop_step l (set_pos PSwap (set_flags (looping_ l) (quit_ l) false true l))
| LSwap l : pos l = PSwap → loop_step l (swap_functors l)
| LRun l f fs :
    pos l = PRun → functors l = f :: fs → loop_step l (do_acts (body f) (take_functor f fs l))
| LRunDone l :
    pos l = PRun → functors l = [] →
    loop_step l (set_pos PFrame (set_flags (looping_ l) (quit_ l) (event_handling_ l) false l))
| LFrame l :
    pos l = PFrame →
    loop_step l (set_pos PCheck
      (match frame_functor_ l with Some f => do_acts (body f) l | None => l end)).

(** Other threads: the push of [queue_in_loop], the assignment of [quit], and the write to
    the eventfd that both make next. *)
Inductive other_step : EventLoop → EventLoop → Prop :=
| OPush l f : other_step l (set_inflight (S (inflight l)) (push f l))
| OQuit l : other_step l (set_inflight (S (inflight l)) (quit l))
| OWakeup l n : inflight l = S n → other_step l (set_inflight n (wakeup l)).

Inductive reachable : EventLoop → Prop :=
| reach_start frame : reachable (set_frame_functor frame EventLoop_ctor)
| reach_loop l l' : reachable l → loop_step l l' → reachable l'
| reach_other l l' : reachable l → other_step l l' → reachable l'.
End loop.
Arguments EventLoop : clear implicits.
Arguments act : clear implicits.

(** ** Functors are run once, in the order in which they were queued *)
Section fifo.
Context {Functor : Type} (body : Functor → list (act Functor)).
Implicit Types l : EventLoop Functor.

(** What acts of the loop thread change, and what they leave alone. *)
Lemma do_acts_spec acts l :
  ∃ fs,
    pending_functors_ (do_acts acts l) = pending_functors_ l ++ fs ∧
    enqueued (do_acts acts l) = enqueued l ++ fs ∧
    functors (do_acts acts l) = functors l ∧ executed (do_acts acts l) = executed l ∧
    pos (do_acts acts l) = pos l ∧ inflight (do_acts acts l) = inflight l ∧
    doing_other_tasks_ (do_acts acts l) = doing_other_tasks_ l ∧
    wakeup_fd_ l ≤ wakeup_fd_ (do_acts acts l) ∧
    (doing_other_tasks_ l = true → fs ≠ [] → wakeup_fd_ l < wakeup_fd_ (do_acts acts l)).
Proof.
  revert l. induction acts as [|a acts IH]; intros l; cbn [do_acts fold_left].
  - exists []. rewrite !app_nil_r. repeat split; try done; lia.
  - destruct (IH (do_act a l)) as (fs & E1 & E2 & E3 & E4 & E5 & E6 & E7 & E8 & E9).
    unfold do_acts in *. rewrite E1, E2, E3, E4, E5, E6, E7. destruct a as [f|]; simpl in *.
    + exists (f :: fs). unfold queue_in_loop in *. simpl in *.
      destruct (doing_other_tasks_ l) eqn:Hd; simpl in *;
        rewrite <- !app_assoc; repeat split; try done; lia.
    + exists fs. unfold quit in *. simpl in *. repeat split; done.
Qed.

(** Where the loop thread is tells the flag and the local vector. *)
Record loop_inv l : Prop := {
  li_fifo : executed l ++ functors l ++ pending_functors_ l = enqueued l;
  li_local : pos l ≠ PRun → functors l = [];
  li_doing : doing_other_tasks_ l = bool_decide (pos l = PSwap ∨ pos l = PRun);
  li_counter : 0 ≤ wakeup_fd_ l;
}.

Lemma loop_inv_acts acts l : loop_inv l → loop_inv (do_acts acts l).
Proof.
  intros [Hf Hl Hd Hc].
  destruct (do_acts_spec acts l) as (fs & E1 & E2 & E3 & E4 & E5 & _ & E7 & E8 & _).
  split; rewrite ?E1, ?E2, ?E3, ?E4, ?E5, ?E7; try done; [|lia].
  rewrite <- Hf. by rewrite !app_assoc.
Qed.

Lemma loop_inv_other l l' : loop_inv l → other_step l l' → loop_inv l'.
Proof.
  intros [Hf Hl Hd Hc]. inversion 1; subst; split; simpl; try done; try lia.
  rewrite <- Hf. by rewrite !app_assoc.
Qed.

(** A move of the loop thread that leaves the vectors alone. *)
Lemma loop_inv_move l l' p :
  loop_inv l → pos l' = p → executed l' = executed l → functors l' = functors l →
  pending_functors_ l' = pending_functors_ l → enqueued l' = enqueued l →
  wakeup_fd_ l' = wakeup_fd_ l → (p ≠ PRun → functors l = []) →
  doing_other_tasks_ l' = bool_decide (p = PSwap ∨ p = PRun) → loop_inv l'.
Proof.
  intros [Hf Hl Hd Hc] Hp E1 E2 E3 E4 E5 Hloc Hdo.
  split; rewrite ?Hp, ?E1, ?E2, ?E3, ?E4, ?E5; done.
Qed.

Lemma loop_inv_loop l l' : loop_inv l → loop_step body l l' → loop_inv l'.
Proof.
  intros Hinv. pose proof Hinv as [Hf Hl Hd Hc].
  assert (Hflag : ∀ p, pos l = p →
            doing_other_tasks_ l = bool_decide (p = PSwap ∨ p = PRun)) by (by intros p <-).
  inversion 1 as [? Hp|? Hp Hq|? Hp Hq|? acts Hp|? Hp|? Hp Hw|? acts Hp|? Hp|? Hp
                 |? f fs Hp Hfs|? Hp Hfs|? Hp]; subst;
    try (assert (Hnil : functors l = []) by (apply Hl; rewrite Hp; done));
    try (apply (loop_inv_move l _ _ Hinv eq_refl); simpl; try done; by rewrite (Hflag _ Hp)).
  - pose proof (loop_inv_acts acts l Hinv) as Ha.
    destruct (do_acts_spec acts l) as (? & _ & _ & E3 & _ & _ & _ & E7 & _).
    apply (loop_inv_move _ _ _ Ha eq_refl); simpl; try done; [by rewrite E3|].
    by rewrite E7, (Hflag _ Hp).
  - split; simpl; try done; lia.
  - by apply loop_inv_acts.
  - split; simpl; try done; [by rewrite app_nil_r, <- Hf, Hnil | by rewrite (Hflag _ Hp)].
  - apply loop_inv_acts. split; simpl; try done. rewrite <- Hf, Hfs. by rewrite <- !app_assoc.
  - destruct (frame_functor_ l) as [f|].
    + pose proof (loop_inv_acts (body f) l Hinv) as Ha.
      destruct (do_acts_spec (body f) l) as (? & _ & _ & E3 & _ & _ & _ & E7 & _).
      apply (loop_inv_move _ _ _ Ha eq_refl); simpl; try done; [by rewrite E3|].
      by rewrite E7, (Hflag _ Hp).
    + apply (loop_inv_move l _ _ Hinv eq_refl); simpl; try done. by rewrite (Hflag _ Hp).
Qed.

Lemma reachable_inv l : reachable body l → loop_inv l.
Proof.
  induction 1; eauto using loop_inv_loop, loop_inv_other. by split.
Qed.

(** C11. Functors queued by any threads, at any time, are run exactly once and in the order
    in which they were pushed: in every reachable state the ones run, the ones taken by the
    current [do_other_tasks] and the ones pending make up, in this order, all that were ever
    queued. And the loop thread is never stuck. *)
Theorem functors_fifo_exactly_once l :
  reachable body l →
  executed l ++ functors l ++ pending_functors_ l = enqueued l ∧
  (pos l ≠ PExit → ∃ l', loop_step body l l').
Proof.
  intros Hr. pose proof (reachable_inv l Hr) as [Hf Hl _ _]. split; [done|]. intros Hp.
  destruct (pos l) eqn:E; try done.
  - eexists. by apply LStart.
  - destruct (quit_ l) eqn:Hq; eexists; [by apply LExit | by apply LCheck].
  - eexists. by apply (LTimers _ l []).
  - eexists. by apply LPoll.
  - eexists. by apply LEventsDone.
  - eexists. by apply LSwap.
  - destruct (functors l) eqn:Hfs; eexists; [by apply LRunDone | by eapply LRun].
  - eexists. by apply LFrame.
Qed.

(** ** Wakeups *)

(** Histories in which timer callbacks and the frame functor queue nothing. *)
Inductive reachable_quiet : EventLoop Functor → Prop :=
| quiet_start frame : reachable_quiet (set_frame_functor frame EventLoop_ctor)
| quiet_loop l l' :
    reachable_quiet l → loop_step body l l' →
    (pos l = PTimers ∨ pos l = PFrame → pending_functors_ l' = pending_functors_ l) →
    reachable_quiet l'
| quiet_other l l' : reachable_quiet l → other_step l l' → reachable_quiet l'.

Lemma quiet_reachable l : reachable_quiet l → reachable body l.
Proof. induction 1; eauto using reachable. Qed.

(** Someone will wake the loop thread, or it is on its way to the swap. *)
Definition wake_inv l : Prop :=
  pending_functors_ l ≠ [] →
  0 < wakeup_fd_ l ∨ (0 < inflight l)%nat ∨ pos l = PEvents ∨ pos l = PSwap.

Lemma wake_inv_loop l l' :
  loop_inv l → wake_inv l → loop_step body l l' →
  (pos l = PTimers ∨ pos l = PFrame → pending_functors_ l' = pending_functors_ l) → wake_inv l'.
Proof.
  intros [_ _ Hd Hc] Hw Hstep Hq. unfold wake_inv in *.
  assert (Hact : ∀ acts, (pos l = PTimers ∨ pos l = PFrame) →
    pending_functors_ (do_acts acts l) = pending_functors_ l →
    pending_functors_ (do_acts acts l) ≠ [] →
    0 < wakeup_fd_ (do_acts acts l) ∨ (0 < inflight (do_acts acts l))%nat).
  { intros acts Hp Hsame Hne.
    destruct (do_acts_spec acts l) as (fs & _ & _ & _ & _ & _ & E6 & _ & E8 & _).
    rewrite Hsame in Hne. destruct (Hw Hne) as [?|[?|[?|?]]]; destruct Hp; try congruence;
      (left; lia) || (right; lia). }
  inversion Hstep as [? Hp|? Hp ?|? Hp ?|? acts Hp|? Hp|? Hp ?|? acts Hp|? Hp|? Hp
                     |? f fs Hp Hfs|? Hp Hfs|? Hp]; subst; simpl in *;
    try (intros Hne; destruct (Hw Hne) as [?|[?|[?|?]]]; solve [auto | congruence]);
    try (intros _; rewrite ?Hp; auto; fail).
  - intros Hne. destruct (Hact acts) as [?|?]; auto.
  - intros _. destruct (do_acts_spec acts l) as (? & _ & _ & _ & _ & E5 & _). rewrite E5. auto.
  - intros ?. done.
  - destruct (do_acts_spec (body f) (take_functor f fs l))
      as (gs & E1 & _ & _ & _ & _ & E6 & _ & E8 & E9). simpl in *.
    rewrite Hd in E9. rewrite bool_decide_eq_true_2 in E9 by auto. intros Hne.
    destruct gs as [|g gs]; [|left; specialize (E9 eq_refl ltac:(done)); lia].
    rewrite E1, app_nil_r in Hne. rewrite E6.
    destruct (Hw Hne) as [?|[?|[?|?]]]; [left; lia | auto | congruence | congruence].
  - destruct (frame_functor_ l) as [f|].
    + intros Hne. destruct (Hact (body f)) as [?|?]; auto.
    + intros Hne. destruct (Hw Hne) as [?|[?|[?|?]]]; auto; congruence.
Qed.

(** C12. No lost wakeup: whenever the loop thread is about to wait in [poll] while functors
    are pending, the eventfd is readable already or a thread is about to write it, so the
    wait is cut short. This is for functors queued by other threads, by channel callbacks
    and by functors; what timer callbacks and the frame functor queue waits for the poll
    timeout of one millisecond. *)
Theorem no_lost_wakeup l :
  reachable_quiet l → pos l = PPoll → pending_functors_ l ≠ [] →
  0 < wakeup_fd_ l ∨ (0 < inflight l)%nat.
Proof.
  intros Hr Hp Hne.
  assert (Hw : wake_inv l).
  { clear Hp Hne. induction Hr as [frame|l l' Hr IH Hs Hq|l l' Hr IH Hs].
    - by intros [].
    - eapply wake_inv_loop; eauto using reachable_inv, quiet_reachable.
    - pose proof (reachable_inv l (quiet_reachable l Hr)) as [_ _ _ Hc]. unfold wake_inv in *.
      inversion Hs; subst; simpl; intros; [right; left; lia | right; left; lia | left; lia]. }
  destruct (Hw Hne) as [?|[?|[?|?]]]; auto; congruence.
Qed.

(** ** A turn of the loop runs what was queued before its poll *)
Definition turn_inv (l0 l : EventLoop Functor) : Prop :=
  (pos l = PPoll ∨ pos l = PEvents ∨ pos l = PSwap) ∧ enqueued l0 `prefix_of` enqueued l ∨
  enqueued l0 `prefix_of` executed l ++ functors l.

Lemma prefix_app_r {A} (a b c : list A) : a `prefix_of` b → a `prefix_of` b ++ c.
Proof. intros [k ->]. exists (k ++ c). by rewrite app_assoc. Qed.

Definition step l l' : Prop := loop_step body l l' ∨ other_step l l'.

Lemma step_inv l l' : loop_inv l → step l l' → loop_inv l'.
Proof. intros Hi [H|H]; eauto using loop_inv_loop, loop_inv_other. Qed.

Lemma turn_inv_step l0 l l' : loop_inv l → turn_inv l0 l → step l l' → turn_inv l0 l'.
Proof.
  intros [Hf Hl _ _] Ht [Hs|Hs]; unfold turn_inv in *.
  - inversion Hs as [? Hp|? Hp ?|? Hp ?|? acts Hp|? Hp|? Hp ?|? acts Hp|? Hp|? Hp
                    |? f fs Hp Hfs|? Hp Hfs|? Hp]; subst; simpl in *; rewrite ?Hp in Ht;
      try (destruct Ht as [[[?|[?|?]] ?]|?]; auto; congruence).
    + destruct (do_acts_spec acts l) as (? & _ & _ & E3 & E4 & _). rewrite E3, E4.
      destruct Ht as [[[?|[?|?]] ?]|?]; auto; congruence.
    + destruct (do_acts_spec acts l) as (fs & _ & E2 & E3 & E4 & E5 & _). rewrite E2, E3, E4, E5.
      destruct Ht as [[? ?]|?]; [left | by right]. rewrite Hp. auto using prefix_app_r.
    + right. destruct Ht as [[_ Hpre]|Hpre].
      * rewrite <- Hf in Hpre. by rewrite Hl in Hpre by (by rewrite Hp).
      * rewrite Hl, app_nil_r in Hpre by (by rewrite Hp). by apply prefix_app_r.
    + destruct (do_acts_spec (body f) (take_functor f fs l)) as (? & _ & _ & E3 & E4 & _).
      rewrite E3, E4. simpl. right. destruct Ht as [[[?|[?|?]] ?]|Hpre]; try congruence.
      rewrite Hfs in Hpre. by rewrite <- app_assoc.
    + destruct (frame_functor_ l) as [f|]; [|destruct Ht as [[[?|[?|?]] ?]|?]; auto; congruence].
      destruct (do_acts_spec (body f) l) as (? & _ & _ & E3 & E4 & _). rewrite E3, E4.
      destruct Ht as [[[?|[?|?]] ?]|?]; auto; congruence.
  - inversion Hs; subst; simpl in *; destruct Ht as [[? ?]|?]; auto using prefix_app_r.
Qed.

Lemma turn_inv_rtc l0 l l' :
  rtc step l l' → loop_inv l → turn_inv l0 l → loop_inv l' ∧ turn_inv l0 l'.
Proof. induction 1; eauto using step_inv, turn_inv_step. Qed.

(** A turn of the loop runs what was queued before its poll: from a state in which the
    loop thread is about to poll, whatever the threads do meanwhile, when it reaches the
    end of the turn every functor queued up to then has been run. *)
Theorem turn_runs_queued l0 l :
  reachable body l0 → pos l0 = PPoll → rtc step l0 l → pos l = PFrame →
  enqueued l0 `prefix_of` executed l.
Proof.
  intros Hr Hp0 Hsteps Hp.
  assert (Ht : turn_inv l0 l0) by (left; auto).
  pose proof (turn_inv_rtc l0 l0 l Hsteps (reachable_inv l0 Hr) Ht) as H.
  destruct H as [[_ Hl _ _] [[[?|[?|?]] _]|Hpre]]; try congruence.
  rewrite Hl, app_nil_r in Hpre by (by rewrite Hp). done.
Qed.
End fifo.

(** ** Concrete histories

    A functor [n] queues [n - 1] when it is positive. *)
Section histories.
Definition countdown (n : nat) : list (act nat) := match n with O => [] | S m => [AQueue m] end.

(** [advance H c]: the history [H] goes on with the loop thread's step [c]. *)
Tactic Notation "advance" hyp(H) uconstr(c) :=
  let H' := fresh in
  epose proof (reach_loop _ _ _ H ltac:(eapply c; reflexivity)) as H'; clear H; rename H' into H.
Tactic Notation "advance_other" hyp(H) uconstr(c) :=
  let H' := fresh in
  epose proof (reach_other _ _ _ H ltac:(eapply c; reflexivity)) as H'; clear H; rename H' into H.

Lemma functors_fifo_exactly_once_witness :
  ∃ l, executed l = [1%nat] ∧ pending_functors_ l = [0%nat] ∧ enqueued l = [1; 0]%nat ∧
    executed l ++ functors l ++ pending_functors_ l = enqueued l ∧
    (pos l ≠ PExit → ∃ l', loop_step countdown l l').
Proof.
  pose proof (reach_start countdown None) as H.
  advance H (LStart). advance H (LCheck).
  advance_other H (OPush _ 1%nat).
  advance H (LTimers _ _ []). advance H (LPoll).
  advance_other H (OWakeup). advance H (LWakeupEvent).
  advance H (LEventsDone). advance H (LSwap).
  advance H (LRun).
  pose proof (functors_fifo_exactly_once countdown _ H) as Hp.
  eexists. split; [|split; [|split; [|exact Hp]]]; reflexivity.
Defined.

Lemma no_lost_wakeup_witness :
  ∃ l, reachable_quiet countdown l ∧ pos l = PPoll ∧ pending_functors_ l = [7%nat] ∧
    (0 < wakeup_fd_ l ∨ (0 < inflight l)%nat).
Proof.
  pose proof (quiet_start countdown None) as H.
  epose proof (quiet_loop _ _ _ H ltac:(eapply LStart; reflexivity) ltac:(done)) as H1.
  epose proof (quiet_loop _ _ _ H1 ltac:(eapply LCheck; reflexivity) ltac:(done)) as H2.
  pose proof (quiet_other _ _ _ H2 (OPush _ 7%nat)) as H3.
  epose proof (quiet_loop _ _ _ H3 ltac:(eapply (LTimers _ _ []); reflexivity) ltac:(done)) as H4.
  pose proof (no_lost_wakeup countdown _ H4 eq_refl ltac:(done)) as Hp.
  eexists. split; [exact H4|]. split; [reflexivity|]. split; [reflexivity | exact Hp].
Defined.

(** What a timer callback queues is not announced: poll waits for its timeout. *)
Example timer_queue_without_wakeup :
  ∃ l, reachable countdown l ∧ pos l = PPoll ∧ pending_functors_ l = [7%nat] ∧
    wakeup_fd_ l = 0 ∧ inflight l = O.
Proof.
  pose proof (reach_start countdown None) as H.
  advance H (LStart). advance H (LCheck).
  advance H (LTimers _ _ [AQueue 7%nat]). eexists. split; [exact H|]. done.
Qed.

(** A [quit] before [loop] is entered is overwritten. *)
Example early_quit_is_lost :
  ∃ l l', reachable countdown l ∧ quit_ l = true ∧ pos l = PStart ∧
    loop_step countdown l l' ∧ quit_ l' = false ∧ pos l' = PCheck.
Proof.
  pose proof (reach_start countdown None) as H. advance_other H (OQuit _).
  do 2 eexists. split; [exact H|]. split; [done|]. split; [done|].
  split; [by apply LStart | done].
Qed.

Lemma turn_runs_queued_witness :
  ∃ l0 l, pos l0 = PPoll ∧ pos l = PFrame ∧ enqueued l0 = [5%nat] ∧
    enqueued l0 `prefix_of` executed l.
Proof.
  pose proof (reach_start countdown None) as H.
  advance H (LStart). advance H (LCheck).
  advance_other H (OPush _ 5%nat). advance H (LTimers _ _ []).
  match type of H with reachable _ ?l => set (l0 := l) in * end.
  assert (Hs : ∃ l, rtc (step countdown) l0 l ∧ pos l = PFrame).
  { eexists. split.
    - eapply rtc_l; [left; eapply LPoll; reflexivity|].
      eapply rtc_l; [left; eapply LEventsDone; reflexivity|].
      eapply rtc_l; [left; eapply LSwap; reflexivity|].
      eapply rtc_l; [left; eapply LRun; reflexivity|].
      eapply rtc_l; [left; eapply LRunDone; reflexivity|].
      apply rtc_refl.
    - reflexivity. }
  destruct Hs as (l & Hs & Hp). exists l0, l. split; [reflexivity|]. split; [exact Hp|].
  split; [reflexivity|]. exact (turn_runs_queued countdown l0 l H eq_refl Hs Hp).
Defined.
End histories.
