(* ===== verification/TcpServer.v ===== *)
(** * The TCP server: [network/tcp_server.h/.cpp], [network/event_loop_threadpool.h/.cpp],
    [network/event_loop_thread.h/.cpp], [network/acceptor.h/.cpp]

    Loops and connections are addresses; a null pointer is [None]. What is handed to another
    loop with [run_in_loop] or [queue_in_loop] is logged in [posted]. A worker's loop is a
    local variable of its thread function, so it is gone when the thread has been joined;
    [ended] holds the addresses of such loops, and using one is [Dangling]. *)
From S2P Require Import Prelude Timers.

(** ** [EventLoopThread]

    [thread_] is null before [start_loop]; then it holds a thread that is joinable or not. *)
Record EventLoopThread := mkThread {
  thread_loop_ : option Z;
  exiting_ : bool;
  thread_ : option bool;
  callback_ : bool;
}.

Definition EventLoopThread_ctor (cb : bool) : EventLoopThread := mkThread None false None cb.

(** [loop] is the address of the local [EventLoop] of [_thread_func]. The third result is the
    argument the initialisation callback gets. *)
Definition start_loop (loop : Z) (t : EventLoopThread) : EventLoopThread * Z * list Z :=
  (mkThread (Some loop) (exiting_ t) (Some true) (callback_ t), loop,
   if callback_ t then [loop] else []).

(** [thread_->join()] of a finished thread throws [std::system_error]; behind it
    [_thread_func] has returned, so [loop_] is null. *)
Definition join (t : EventLoopThread) : outcome EventLoopThread :=
  match thread_ t with
  | None => Stop NullDeref
  | Some false => Stop RuntimeError
  | Some true => Ok (mkThread None (exiting_ t) (Some false) (callback_ t))
  end.

(** The first result is the loop that was told to quit. *)
Definition stop_loop (t : EventLoopThread) : outcome (option Z * EventLoopThread) :=
  t1 ← join t; Ok (thread_loop_ t, t1).

Definition EventLoopThread_dtor (t : EventLoopThread) : outcome EventLoopThread :=
  let t1 := mkThread (thread_loop_ t) true (thread_ t) (callback_ t) in
  match thread_loop_ t1 with None => Ok t1 | Some _ => join t1 end.

(** ** [EventLoopThreadPool] *)
Record EventLoopThreadPool := mkPool {
  base_loop_ : option Z;
  pool_started_ : bool;
  num_threads_ : Z;
  next_ : Z;
  threads_ : list EventLoopThread;
  loops_ : list Z;
}.

Definition EventLoopThreadPool_ctor : EventLoopThreadPool := mkPool None false 0 0 [] [].

Definition pool_init (base_loop : Z) (threads_num : Z) (p : EventLoopThreadPool)
    : EventLoopThreadPool :=
  mkPool (Some base_loop) (pool_started_ p) threads_num (next_ p) (threads_ p) (loops_ p).

(** [new_loop i] is the loop the [i]-th worker thread creates; the second result are the
    arguments the thread initialisation callback is called with. *)
Definition pool_start (new_loop : nat → Z) (has_cb : bool) (p : EventLoopThreadPool)
    : EventLoopThreadPool * list Z :=
  match base_loop_ p with
  | None => (p, [])
  | Some base =>
      if pool_started_ p then (p, [])
      else
        let ts := map (λ i, start_loop (new_loop i) (EventLoopThread_ctor has_cb))
                    (seq 0 (Z.to_nat (num_threads_ p))) in
        (mkPool (Some base) true (num_threads_ p) (next_ p)
           (threads_ p ++ map (λ t, t.1.1) ts) (loops_ p ++ map (λ t, t.1.2) ts),
         concat (map snd ts) ++ (if (num_threads_ p =? 0) && has_cb then [base] else []))
  end.

Definition pool_stop (p : EventLoopThreadPool) : outcome EventLoopThreadPool :=
  ts ← mapM stop_loop (threads_ p);
  Ok (mkPool (base_loop_ p) (pool_started_ p) (num_threads_ p) (next_ p) (map snd ts) (loops_ p)).

(** [loops_[next_]] is in range by the invariant; out of range is undefined behaviour. *)
Definition get_next_loop (p : EventLoopThreadPool) : outcome (option Z * EventLoopThreadPool) :=
  match base_loop_ p with
  | None => Stop NullDeref
  | Some base =>
      if negb (pool_started_ p) then Ok (None, p)
      else if bool_decide (loops_ p = []) then Ok (Some base, p)
      else match loops_ p !! Z.to_nat (next_ p) with
           | None => Stop OutOfBounds
           | Some loop =>
               let n := next_ p + 1 in
               Ok (Some loop, mkPool (base_loop_ p) (pool_started_ p) (num_threads_ p)
                                (if Zlen (loops_ p) <=? n then 0 else n) (threads_ p) (loops_ p))
           end
  end.

Definition get_loop_for_hash (hashCode : Z) (p : EventLoopThreadPool) : outcome Z :=
  match base_loop_ p with
  | None => Stop NullDeref
  | Some base =>
      if bool_decide (loops_ p = []) then Ok base
      else match loops_ p !! Z.to_nat (hashCode mod Zlen (loops_ p)) with
           | None => Stop OutOfBounds
           | Some loop => Ok loop
           end
  end.

Definition get_all_loops (p : EventLoopThreadPool) : outcome (list Z) :=
  match base_loop_ p with
  | None => Stop NullDeref
  | Some base => Ok (if bool_decide (loops_ p = []) then [base] else loops_ p)
  end.

(** [thread_id] is the text of a loop's thread id. *)
Definition info (thread_id : Z → bytes) (p : EventLoopThreadPool) : bytes :=
  lines_text (lit "print threads id info " ::
    imap (λ i l, dec (Z.of_nat i) ++ lit ": id = " ++ thread_id l) (loops_ p)).

(** ** [TcpServer] *)
Inductive job := JEstablished | JDestroyed.

Record TcpServer := mkServer {
  loop_ : Z;
  host_port_ : bytes;
  name_ : bytes;
  event_loop_threadpool_ : option EventLoopThreadPool;
  started_ : Z;
  next_conn_id_ : Z;
  conn_map_ : gmap bytes (option Z);
  conns : gmap Z (bytes * Z);            (* connections: their name and loop *)
  listening : bool;                      (* [Acceptor::listen] was posted to the loop *)
  posted : list (Z * Z * job);           (* to which loop, for which connection *)
  ended : gset Z;                        (* loops of joined threads *)
}.

Definition TcpServer_ctor (loop : Z) (host_port nameArg : bytes) : TcpServer :=
  mkServer loop host_port nameArg None 0 1 ∅ ∅ false [] ∅.

Definition start (new_loop : nat → Z) (workerThreadCount : Z) (s : TcpServer) : TcpServer :=
  if started_ s =? 0 then
    let pool0 := pool_init (loop_ s) workerThreadCount EventLoopThreadPool_ctor in
    let pool := (pool_start new_loop false pool0).1 in
    mkServer (loop_ s) (host_port_ s) (name_ s) (Some pool) 1
      (next_conn_id_ s) (conn_map_ s) (conns s) true (posted s)
      (ended s ∖ list_to_set (loops_ pool))
  else s.

(** The loop over [conn_map_]: every entry is copied and reset, then the copy is used, so an
    entry that is null already is a null dereference. *)
Definition destroy_all (m : gmap bytes (option Z)) (cs : gmap Z (bytes * Z)) (dead : gset Z)
    : outcome (list (Z * Z * job)) :=
  foldr (λ '(_, e) acc,
           match e with
           | None => Stop NullDeref
           | Some a =>
               match cs !! a with
               | None => Stop Dangling
               | Some (_, io) =>
                   if bool_decide (io ∈ dead) then Stop Dangling
                   else js ← acc; Ok ((io, a, JDestroyed) :: js)
               end
           end) (Ok []) (map_to_list m).

Definition stop (s : TcpServer) : outcome TcpServer :=
  if started_ s =? 0 then Ok s
  else
    js ← destroy_all (conn_map_ s) (conns s) (ended s);
    match event_loop_threadpool_ s with
    | None => Stop NullDeref
    | Some pool =>
        pool' ← pool_stop pool;
        Ok (mkServer (loop_ s) (host_port_ s) (name_ s) (Some pool') 0
              (next_conn_id_ s) ((λ _, None) <$> conn_map_ s) (conns s) (listening s)
              (posted s ++ js) (ended s ∪ list_to_set (loops_ pool)))
    end.

Definition TcpServer_dtor (s : TcpServer) : outcome TcpServer := stop s.

(** [char buf[32]; snprintf(buf, sizeof buf, ":%s#%d", ...)]. *)
Definition conn_suffix (host_port : bytes) (id : Z) : bytes :=
  snprintf 32 (lit ":" ++ host_port ++ lit "#" ++ dec id).
Definition conn_name (s : TcpServer) (id : Z) : bytes := name_ s ++ conn_suffix (host_port_ s) id.

(** [a] is the address of the new connection. *)
Definition new_conn (a : Z) (s : TcpServer) : outcome TcpServer :=
  match event_loop_threadpool_ s with
  | None => Stop NullDeref
  | Some pool =>
      '(io, pool') ← get_next_loop pool;
      let connName := conn_name s (next_conn_id_ s) in
      if 2147483647 <=? next_conn_id_ s then Stop SignedOverflow
      else match io with
           | None => Stop NullDeref
           | Some ioLoop =>
               if bool_decide (ioLoop ∈ ended s) then Stop Dangling
               else Ok (mkServer (loop_ s) (host_port_ s) (name_ s) (Some pool') (started_ s)
                     (next_conn_id_ s + 1) (<[connName := Some a]> (conn_map_ s))
                     (<[a := (connName, ioLoop)]> (conns s)) (listening s)
                     (posted s ++ [(ioLoop, a, JEstablished)]) (ended s))
           end
  end.

Definition remove_conn_in_loop (a : Z) (s : TcpServer) : outcome TcpServer :=
  match conns s !! a with
  | None => Stop Dangling
  | Some (cname, io) =>
      match conn_map_ s !! cname with
      | None => Ok s
      | Some _ =>
          if bool_decide (io ∈ ended s) then Stop Dangling
          else Ok (mkServer (loop_ s) (host_port_ s) (name_ s) (event_loop_threadpool_ s)
                (started_ s) (next_conn_id_ s) (delete cname (conn_map_ s)) (conns s)
                (listening s) (posted s ++ [(io, a, JDestroyed)]) (ended s))
      end
  end.

(** ** [Acceptor::_handle_read]

    [fds] are the descriptors of the process, [accepted] those handed to the new-connection
    callback. [connfd] and [err] are the results of [accept]; the second [accept] and the
    [open] of the EMFILE branch return [connfd2] and [nullfd]. *)
Record Acceptor := mkAcceptor {
  acc_listening_ : bool;
  has_new_conn_callback : bool;
  idle_fd_ : Z;
  fds : gset Z;
  accepted : list Z;
}.

Definition EMFILE : Z := 24.

Definition close_fd (fd : Z) (s : gset Z) : gset Z := s ∖ {[ fd ]}.
Definition open_fd (fd : Z) (s : gset Z) : gset Z := if 0 <=? fd then {[ fd ]} ∪ s else s.

Definition Acceptor_listen (a : Acceptor) : Acceptor :=
  mkAcceptor true (has_new_conn_callback a) (idle_fd_ a) (fds a) (accepted a).

Definition Acceptor_handle_read (connfd err connfd2 nullfd : Z) (a : Acceptor) : Acceptor :=
  if 0 <=? connfd then
    let s := open_fd connfd (fds a) in
    if has_new_conn_callback a
    then mkAcceptor (acc_listening_ a) true (idle_fd_ a) s (accepted a ++ [connfd])
    else mkAcceptor (acc_listening_ a) false (idle_fd_ a) (close_fd connfd s) (accepted a)
  else if err =? EMFILE then
    let s1 := close_fd (idle_fd_ a) (fds a) in
    let s2 := open_fd connfd2 s1 in
    let s3 := close_fd connfd2 s2 in
    mkAcceptor (acc_listening_ a) (has_new_conn_callback a) nullfd (open_fd nullfd s3) (accepted a)
  else a.

(** ** Round robin *)
Section pool.
Implicit Types p : EventLoopThreadPool.

(** A started pool. *)
Record pool_ok p : Prop := {
  po_base : is_Some (base_loop_ p);
  po_started : pool_started_ p = true;
  po_next : 0 ≤ next_ p ∧ (loops_ p ≠ [] → next_ p < Zlen (loops_ p));
}.

Lemma pool_start_ok new_loop base n has_cb :
  pool_ok (pool_start new_loop has_cb (pool_init base n EventLoopThreadPool_ctor)).1.
Proof.
  split; simpl; [by eexists | done |]. split; [done|].
  destruct (seq 0 (Z.to_nat n)); [done|]. intros _. unfold Zlen. simpl. lia.
Qed.

(** The loops of a fresh pool are those its threads made; all threads can be joined. *)
Lemma pool_start_threads new_loop base n has_cb :
  let p := (pool_start new_loop has_cb (pool_init base n EventLoopThreadPool_ctor)).1 in
  (∀ io, io ∈ loops_ p → ∃ i, io = new_loop i) ∧ Forall (λ t, thread_ t = Some true) (threads_ p).
Proof.
  simpl. rewrite !map_map. split.
  - intros io (i & <- & _)%list_elem_of_In%in_map_iff. by exists i.
  - apply Forall_forall. intros t (i & <- & _)%list_elem_of_In%in_map_iff. done.
Qed.

Lemma pool_stop_ok p :
  Forall (λ t, thread_ t = Some true) (threads_ p) →
  ∃ ts, pool_stop p =
    Ok (mkPool (base_loop_ p) (pool_started_ p) (num_threads_ p) (next_ p) ts (loops_ p)).
Proof.
  intros H. unfold pool_stop.
  assert (∃ ts, mapM stop_loop (threads_ p) = Ok ts) as [ts ->]; [|by eexists].
  induction H as [|t l Ht _ [ts IH]]; [by exists []|].
  unfold mapM, stop_loop, join in *. rewrite Ht. simpl. rewrite IH. by eexists.
Qed.

Lemma get_next_loop_ok p :
  pool_ok p →
  ∃ io n', let p' := mkPool (base_loop_ p) (pool_started_ p) (num_threads_ p) n' (threads_ p) (loops_ p) in
    get_next_loop p = Ok (Some io, p') ∧ pool_ok p' ∧
    (loops_ p = [] → base_loop_ p = Some io) ∧
    (loops_ p ≠ [] → loops_ p !! Z.to_nat (next_ p) = Some io ∧
       n' = (next_ p + 1) mod Zlen (loops_ p)).
Proof.
  intros [[base Hb] Hs [Hn Hlt]]. unfold get_next_loop. rewrite Hb, Hs. cbn [negb].
  case_bool_decide as Hl.
  - exists base, (next_ p). rewrite Hl. split; [destruct p; naive_solver|].
    split; [split; simpl; eauto; by split|]. done.
  - specialize (Hlt Hl). destruct (loops_ p !! Z.to_nat (next_ p)) as [io|] eqn:E.
    + exists io. eexists. split; [done|]. cbn [base_loop_ pool_started_ next_ loops_].
      assert (Hnext : (if Zlen (loops_ p) <=? next_ p + 1 then 0 else next_ p + 1) =
                      (next_ p + 1) mod Zlen (loops_ p)).
      { destruct (Z.leb_spec (Zlen (loops_ p)) (next_ p + 1)).
        - replace (next_ p + 1) with (Zlen (loops_ p)) by lia. by rewrite Z.mod_same by lia.
        - rewrite Z.mod_small; lia. }
      rewrite Hnext. pose proof (Z.mod_pos_bound (next_ p + 1) (Zlen (loops_ p)) ltac:(lia)).
      split; [split; simpl; eauto; split; lia|]. split; [done | auto].
    + apply lookup_ge_None in E. unfold Zlen in *. lia.
Qed.

(** [k] calls in a row. *)
Fixpoint next_loops (k : nat) p : outcome (list (option Z) * EventLoopThreadPool) :=
  match k with
  | O => Ok ([], p)
  | S k' => '(x, p1) ← get_next_loop p; '(xs, p2) ← next_loops k' p1; Ok (x :: xs, p2)
  end.

(** Load distribution: a started pool with [n > 0] loops hands them out in strict
    rotation, the [i]-th of any [k] consecutive calls giving loop [(next_ + i) mod n] (so
    every loop exactly once in [n] calls), and never indexes out of range. *)
Theorem round_robin (k : nat) p :
  pool_ok p → loops_ p ≠ [] →
  ∃ p', next_loops k p =
      Ok (map (λ i, loops_ p !! Z.to_nat ((next_ p + Z.of_nat i) mod Zlen (loops_ p))) (seq 0 k), p')
    ∧ pool_ok p' ∧ loops_ p' = loops_ p.
Proof.
  revert p. induction k as [|k IH]; intros p Hp Hl; [by exists p|]. cbn [next_loops].
  destruct (get_next_loop_ok p Hp) as (io & n1 & -> & Hp1 & _ & Hio).
  destruct (Hio Hl) as [Eio En]. cbn [mbind outcome_bind].
  destruct (IH _ Hp1) as (p' & -> & Hp' & Hl'); [done|]. cbn [mbind outcome_bind].
  exists p'. split; [|done]. do 2 f_equal. cbn [loops_ next_].
  assert (0 < Zlen (loops_ p)) by (destruct (loops_ p); [done | unfold Zlen; simpl; lia]).
  destruct Hp as [_ _ [Hn Hlt]]. specialize (Hlt Hl). cbn [seq map]. f_equal.
  - rewrite Z.add_0_r, Z.mod_small by lia. done.
  - rewrite <- seq_shift, map_map. apply map_ext. intros i. rewrite En.
    rewrite Zplus_mod_idemp_l. do 2 f_equal. f_equal. lia.
Qed.
End pool.

Lemma round_robin_witness :
  let p := (pool_start (λ i, 1000 + Z.of_nat i) false (pool_init 7 3 EventLoopThreadPool_ctor)).1 in
  ∃ p', next_loops 5 p =
      Ok (map (λ i, loops_ p !! Z.to_nat ((next_ p + Z.of_nat i) mod Zlen (loops_ p))) (seq 0 5), p')
    ∧ pool_ok p' ∧ loops_ p' = loops_ p.
Proof. apply round_robin; [apply pool_start_ok | vm_compute; congruence]. Defined.

(** ** Connection names and the connection map *)
Section server.
Implicit Types s : TcpServer.

Lemma dec_nonneg n : 0 ≤ n → dec n = dec_pos n.
Proof. intros. unfold dec. by destruct (Z.ltb_spec n 0); [lia|]. Qed.

(** The 32-byte buffer holds the whole suffix: up to 21 bytes of host and port (a dotted
    address with its port) and eight digits. *)
Lemma conn_suffix_inj hp i j :
  (length hp ≤ 21)%nat → 0 ≤ i < 10 ^ 8 → 0 ≤ j < 10 ^ 8 →
  conn_suffix hp i = conn_suffix hp j → i = j.
Proof.
  intros Hhp Hi Hj. unfold conn_suffix, snprintf.
  assert (Hlen : ∀ n, 0 ≤ n < 10 ^ 8 → (length (dec n) ≤ 8)%nat).
  { intros n Hn. rewrite dec_nonneg by lia.
    pose proof (dec_digits_length (S (Z.to_nat (Z.log2 n))) n [] 8 ltac:(simpl; lia) ltac:(lia)) as H.
    cbn [length] in H. unfold dec_pos. lia. }
  rewrite !take_ge by (rewrite !length_app; simpl length; rewrite Nat.sub_diag || idtac;
    pose proof (Hlen i Hi); pose proof (Hlen j Hj); lia).
  intros E. apply app_inv_head in E. apply app_inv_head in E. apply app_inv_head in E.
  rewrite !dec_nonneg in E by lia. apply dec_pos_inj; lia || done.
Qed.

(** The pool of a running server: its loops exist and its threads can be joined. *)
Record pool_live s p : Prop := {
  pl_ok : pool_ok p;
  pl_base : base_loop_ p = Some (loop_ s);
  pl_loops : ∀ io, io ∈ loops_ p → io ∉ ended s ∧ io ≠ loop_ s;
  pl_threads : Forall (λ t, thread_ t = Some true) (threads_ p);
}.

(** Every key is the name of a connection made before, and an entry that is not null is a
    live connection of that name, whose loop exists. *)
Record server_ok s : Prop := {
  so_next : 1 ≤ next_conn_id_ s;
  so_keys : ∀ k e, conn_map_ s !! k = Some e →
    ∃ id, 1 ≤ id < next_conn_id_ s ∧ k = conn_name s id;
  so_live : ∀ k a, conn_map_ s !! k = Some (Some a) →
    ∃ io, conns s !! a = Some (k, io) ∧ io ∉ ended s;
  so_base : loop_ s ∉ ended s;
  so_pool : started_ s ≠ 0 → ∃ p, event_loop_threadpool_ s = Some p ∧ pool_live s p;
}.

(** Workers' loops are not at the address of the base loop. *)
Inductive reachable (host_port nameArg : bytes) : TcpServer → Prop :=
| reach_ctor loop : reachable host_port nameArg (TcpServer_ctor loop host_port nameArg)
| reach_begin s new_loop n :
    reachable host_port nameArg s → (∀ i, new_loop i ≠ loop_ s) →
    reachable host_port nameArg (start new_loop n s)
| reach_stop s s' : reachable host_port nameArg s → stop s = Ok s' → reachable host_port nameArg s'
| reach_accept s a s' :
    reachable host_port nameArg s → started_ s ≠ 0 → conns s !! a = None →
    new_conn a s = Ok s' → reachable host_port nameArg s'
| reach_close s a s' :
    reachable host_port nameArg s → remove_conn_in_loop a s = Ok s' → reachable host_port nameArg s'.

(** The loop a running server picks exists. *)
Lemma pool_live_next s p :
  loop_ s ∉ ended s → pool_live s p →
  ∃ io p', get_next_loop p = Ok (Some io, p') ∧ pool_live s p' ∧ io ∉ ended s.
Proof.
  intros Hb [Hok Hbase Hloops Hth]. destruct (get_next_loop_ok p Hok) as (io & n & E & Hok' & He & Hne).
  exists io. eexists. split; [exact E|]. split; [by split|].
  destruct (decide (loops_ p = [])) as [Hl|Hl]; [specialize (He Hl); congruence|].
  destruct (Hne Hl) as [Hio _]. apply Hloops. by eapply list_elem_of_lookup_2.
Qed.

(** [new_conn] on a running server. *)
Lemma new_conn_running s a :
  server_ok s → started_ s ≠ 0 → next_conn_id_ s < 2147483647 →
  ∃ io p', pool_live s p' ∧ io ∉ ended s ∧
    let k := conn_name s (next_conn_id_ s) in
    new_conn a s = Ok (mkServer (loop_ s) (host_port_ s) (name_ s) (Some p') (started_ s)
      (next_conn_id_ s + 1) (<[k := Some a]> (conn_map_ s)) (<[a := (k, io)]> (conns s))
      (listening s) (posted s ++ [(io, a, JEstablished)]) (ended s)).
Proof.
  intros [_ _ _ Hb Hp] Hst Hid. destruct (Hp Hst) as (p & Ep & Hpl).
  destruct (pool_live_next s p Hb Hpl) as (io & p' & E & Hpl' & Hio). exists io, p'.
  split; [done|]. split; [done|]. unfold new_conn. rewrite Ep, E. cbn [mbind outcome_bind].
  destruct (Z.leb_spec 2147483647 (next_conn_id_ s)); [lia|]. by rewrite bool_decide_eq_false_2.
Qed.

Lemma new_conn_id s a s' : new_conn a s = Ok s' → next_conn_id_ s < 2147483647.
Proof.
  unfold new_conn. destruct (event_loop_threadpool_ s); [|done].
  intros ([io p'] & _ & E)%bind_Ok_inv. destruct (Z.leb_spec 2147483647 (next_conn_id_ s)); [done | lia].
Qed.

Lemma server_ok_new s a s' :
  server_ok s → conns s !! a = None → started_ s ≠ 0 → new_conn a s = Ok s' →
  server_ok s' ∧ host_port_ s' = host_port_ s ∧ name_ s' = name_ s.
Proof.
  intros Hs Ha Hst E. pose proof (new_conn_id s a s' E) as Hid.
  destruct (new_conn_running s a Hs Hst Hid) as (io & p' & Hpl & Hio & E'). cbv zeta in E'.
  rewrite E' in E. injection E as <-. split; [|done].
  destruct Hs as [Hn Hk Hl Hb Hp]. split; simpl; [lia | | | done |].
  - intros k e [[<- _]|[_ He]]%lookup_insert_Some.
    + exists (next_conn_id_ s). split; [lia | done].
    + destruct (Hk k e He) as (id & ? & ?). exists id. split; [lia | done].
  - intros k b [[<- [= <-]]|[_ Hb']]%lookup_insert_Some.
    + exists io. by rewrite lookup_insert_eq.
    + destruct (Hl k b Hb') as (io' & Hb'' & ?). exists io'. rewrite lookup_insert_ne; [done|]. congruence.
  - intros _. exists p'. split; [done|]. by destruct Hpl.
Qed.

Lemma server_ok_start s new_loop n :
  server_ok s → (∀ i, new_loop i ≠ loop_ s) → server_ok (start new_loop n s).
Proof.
  intros Hs Hnew. unfold start. destruct (started_ s =? 0); [|done].
  destruct Hs as [Hn Hk Hl Hb Hp].
  destruct (pool_start_threads new_loop (loop_ s) n false) as [Hth Hj].
  pose proof (pool_start_ok new_loop (loop_ s) n false) as Hok.
  set (p := (pool_start _ _ _).1) in *. assert (Hbase : base_loop_ p = Some (loop_ s)) by done.
  clearbody p. split; simpl; try done; [| set_solver |].
  - intros k a He. destruct (Hl k a He) as (io & ? & ?). exists io. set_solver.
  - intros _. exists p. split; [done|]. split; simpl; try done. intros io Hio.
    split; [set_solver|]. destruct (Hth io Hio) as [i ->]. done.
Qed.

Lemma destroy_all_ok (m : gmap bytes (option Z)) (cs : gmap Z (bytes * Z)) (dead : gset Z) :
  (∀ k e, m !! k = Some e → ∃ a n io, e = Some a ∧ cs !! a = Some (n, io) ∧ io ∉ dead) →
  ∃ js, destroy_all m cs dead = Ok js.
Proof.
  intros H. unfold destroy_all.
  assert (Hl : ∀ k e, (k, e) ∈ map_to_list m → ∃ a n io, e = Some a ∧ cs !! a = Some (n, io) ∧ io ∉ dead).
  { intros k e He%elem_of_map_to_list. eauto. }
  clear H. induction (map_to_list m) as [|[k e] l IH]; [by exists []|].
  destruct (Hl k e) as (a & nm & io & -> & Ha & Hio); [set_solver|]. cbn [foldr]. rewrite Ha.
  rewrite bool_decide_eq_false_2 by done.
  destruct IH as [js ->]; [intros k' e' Hin; apply (Hl k'); set_solver|]. by eexists.
Qed.

Lemma destroy_all_posted (m : gmap bytes (option Z)) cs dead js k b :
  destroy_all m cs dead = Ok js → m !! k = Some (Some b) → ∃ io, (io, b, JDestroyed) ∈ js.
Proof.
  unfold destroy_all. intros E Hk%elem_of_map_to_list. revert js E.
  induction (map_to_list m) as [|[k' e] l IH]; intros js; [set_solver|]. cbn [foldr].
  destruct e as [b'|]; [|done]. destruct (cs !! b') as [[nm io]|]; [|done].
  case_bool_decide; [done|]. intros (js' & Ejs' & [= <-])%bind_Ok_inv.
  apply elem_of_cons in Hk as [[= _ ->]|Hk]; [exists io; set_solver|].
  destruct (IH Hk js' Ejs') as [io' ?]. exists io'. set_solver.
Qed.

(** [stop] of a running server without null entries. *)
Lemma stop_running s :
  server_ok s → started_ s ≠ 0 → (∀ k e, conn_map_ s !! k = Some e → e ≠ None) →
  ∃ p ts js, event_loop_threadpool_ s = Some p ∧ pool_live s p ∧
    destroy_all (conn_map_ s) (conns s) (ended s) = Ok js ∧
    stop s = Ok (mkServer (loop_ s) (host_port_ s) (name_ s)
      (Some (mkPool (base_loop_ p) (pool_started_ p) (num_threads_ p) (next_ p) ts (loops_ p))) 0
      (next_conn_id_ s) ((λ _, None) <$> conn_map_ s) (conns s) (listening s)
      (posted s ++ js) (ended s ∪ list_to_set (loops_ p))).
Proof.
  intros [Hn Hk Hl Hb Hp] Hst Hnull. destruct (Hp Hst) as (p & Ep & Hpl).
  destruct (pool_stop_ok p (pl_threads _ _ Hpl)) as [ts Ets].
  destruct (destroy_all_ok (conn_map_ s) (conns s) (ended s)) as [js Ejs].
  { intros k [a|] He; [|by destruct (Hnull k None He)].
    destruct (Hl k a He) as (io & ? & ?). by exists a, k, io. }
  exists p, ts, js. split; [done|]. split; [done|]. split; [done|].
  unfold stop. destruct (Z.eqb_spec (started_ s) 0); [done|]. rewrite Ejs. cbn [mbind outcome_bind].
  by rewrite Ep, Ets.
Qed.

(** What [stop] leaves, when it returns on a running server. *)
Lemma stop_inv s s' :
  started_ s ≠ 0 → stop s = Ok s' →
  ∃ p, event_loop_threadpool_ s = Some p ∧ ended s' = ended s ∪ list_to_set (loops_ p) ∧
    conn_map_ s' = (λ _, None) <$> conn_map_ s ∧ started_ s' = 0 ∧
    next_conn_id_ s' = next_conn_id_ s ∧ host_port_ s' = host_port_ s ∧ name_ s' = name_ s ∧
    loop_ s' = loop_ s.
Proof.
  intros Hst. unfold stop. destruct (Z.eqb_spec (started_ s) 0); [done|].
  intros (js & _ & E)%bind_Ok_inv. destruct (event_loop_threadpool_ s) as [p|]; [|done].
  apply bind_Ok_inv in E as (p' & _ & [= <-]). by exists p.
Qed.

Lemma reachable_ok hp nm s : reachable hp nm s → server_ok s ∧ host_port_ s = hp ∧ name_ s = nm.
Proof.
  induction 1 as [loop|s nl n _ (IH & E1 & E2) Hnew|s s' _ (IH & E1 & E2) E
                 |s a s' _ (IH & E1 & E2) Hst Ha E|s a s' _ (IH & E1 & E2) E].
  - split; [|done]. split; simpl; try done; intros *; by rewrite lookup_empty.
  - split; [by apply server_ok_start|]. unfold start. by destruct (started_ s =? 0).
  - destruct (decide (started_ s = 0)) as [H0|Hst].
    { unfold stop in E. rewrite H0 in E. by injection E as <-. }
    destruct (stop_inv s s' Hst E) as (p & Ep & Ee & Em & Es & En & Eh & Enm & Elp).
    split; [|by rewrite Eh, Enm]. destruct IH as [Hn Hk Hl Hb Hp].
    destruct (Hp Hst) as (p0 & Ep0 & [_ _ Hloops _]). assert (p0 = p) as -> by congruence.
    split; rewrite ?Ee, ?Em, ?Es, ?En, ?Elp; try done.
    + intros k e. rewrite lookup_fmap. intros (e0 & He & ->)%fmap_Some.
      destruct (Hk k e0 He) as (id & ? & ->). exists id. unfold conn_name. by rewrite Eh, Enm.
    + intros k b. rewrite lookup_fmap. by intros (e0 & _ & ?)%fmap_Some.
    + rewrite elem_of_union, elem_of_list_to_set. intros [?|H%Hloops]; naive_solver.
  - destruct (server_ok_new s a s' IH Ha Hst E) as (? & -> & ->). done.
  - unfold remove_conn_in_loop in E. destruct (conns s !! a) as [[cn io]|]; [|done].
    destruct (conn_map_ s !! cn); [|by simplify_eq]. case_bool_decide; [done|].
    injection E as <-. split; [|done].
    destruct IH as [Hn Hk Hl Hb Hp]. split; simpl; try done.
    + intros k e [_ He]%lookup_delete_Some. eauto.
    + intros k b [_ He]%lookup_delete_Some. eauto.
    + intros Hst. destruct (Hp Hst) as (p & ? & []). exists p. split; [done|]. by split.
Qed.

(** The name of the next connection is new. *)
Lemma conn_name_fresh hp nm s :
  (length hp ≤ 21)%nat → reachable hp nm s → next_conn_id_ s < 10 ^ 8 →
  conn_map_ s !! conn_name s (next_conn_id_ s) = None.
Proof.
  intros Hhp Hr Hid. destruct (reachable_ok hp nm s Hr) as ([Hn Hk _ _ _] & E1 & E2).
  destruct (conn_map_ s !! _) as [e|] eqn:He; [|done].
  destruct (Hk _ e He) as (id & Hrange & E). unfold conn_name in E.
  apply app_inv_head in E. rewrite E1 in E. apply conn_suffix_inj in E; lia || done.
Qed.

(** C19. Connection names are unique: for a listening address of at most 21 bytes, in every
    reachable state of a running server that has made fewer than 10^8 connections, a new
    connection succeeds and gets a name no entry of the map has, so no connection is ever
    overwritten; it is entered under its name, and its establishment is posted to the loop
    that was chosen for it. *)
Theorem new_conn_fresh_name (hp nm : bytes) s (a : Z) :
  (length hp ≤ 21)%nat → reachable hp nm s → started_ s ≠ 0 →
  next_conn_id_ s < 10 ^ 8 →
  let k := conn_name s (next_conn_id_ s) in
  conn_map_ s !! k = None ∧
  ∃ s' io, new_conn a s = Ok s' ∧ conn_map_ s' = <[k := Some a]> (conn_map_ s) ∧
    conns s' !! a = Some (k, io) ∧ posted s' = posted s ++ [(io, a, JEstablished)].
Proof.
  intros Hhp Hr Hst Hid k. destruct (reachable_ok hp nm s Hr) as (Hs & E1 & E2).
  split.
  - by apply (conn_name_fresh hp nm).
  - destruct (new_conn_running s a Hs Hst ltac:(lia)) as (io & p' & _ & _ & ->).
    do 2 eexists. split; [done|]. cbn [conn_map_ conns posted]. rewrite lookup_insert_eq. done.
Qed.

(** Past 10^8 connections the buffer cuts the id: two names collide. *)
Example long_ids_collide :
  conn_suffix (lit "192.168.100.100:20000") 100000000 =
  conn_suffix (lit "192.168.100.100:20000") 100000001.
Proof. by vm_compute. Qed.
End server.

Lemma new_conn_fresh_name_witness :
  let hp := lit "0.0.0.0:20000" in
  let s := start (λ i, 50 + Z.of_nat i) 2 (TcpServer_ctor 7 hp (lit "chat")) in
  let k := conn_name s (next_conn_id_ s) in
  conn_map_ s !! k = None ∧
  ∃ s' io, new_conn 900 s = Ok s' ∧ conn_map_ s' = <[k := Some 900]> (conn_map_ s) ∧
    conns s' !! 900 = Some (k, io) ∧ posted s' = posted s ++ [(io, 900, JEstablished)].
Proof.
  apply (new_conn_fresh_name (lit "0.0.0.0:20000") (lit "chat")).
  - vm_compute. lia.
  - apply reach_begin; [apply reach_ctor | simpl; lia].
  - done.
  - vm_compute. reflexivity.
Defined.

(** ** Stopping *)
Section stopping.
Implicit Types s : TcpServer.

(** A null entry makes the loop dereference it. *)
Lemma destroy_all_null (m : gmap bytes (option Z)) cs dead :
  m ≠ ∅ → destroy_all ((λ _, None) <$> m) cs dead = Stop NullDeref.
Proof.
  intros Hm. unfold destroy_all. rewrite map_to_list_fmap.
  destruct (map_to_list m) as [|[k e] l] eqn:E; [by apply map_to_list_empty_iff in E | done].
Qed.

(** A stopped pool still hands out the loops of its ended threads. *)
Lemma new_conn_stopped s a p :
  event_loop_threadpool_ s = Some p → pool_ok p → loops_ p ≠ [] →
  (∀ io, io ∈ loops_ p → io ∈ ended s) → next_conn_id_ s < 2147483647 →
  new_conn a s = Stop Dangling.
Proof.
  intros Ep Hok Hl Hended Hid. unfold new_conn. rewrite Ep.
  destruct (get_next_loop_ok p Hok) as (io & n & -> & _ & _ & Hne). cbn [mbind outcome_bind].
  destruct (Hne Hl) as [Hio%list_elem_of_lookup_2 _].
  destruct (Z.leb_spec 2147483647 (next_conn_id_ s)); [lia|].
  by rewrite bool_decide_eq_true_2 by auto.
Qed.

(** C20. [stop] works once. On a running server without null entries it returns: every
    worker thread is joined, the destruction of every connection is posted and the server is
    marked stopped. But it leaves the acceptor listening and the connection map filled with
    null pointers: a connection accepted on the stopped server (one with worker threads) is
    handed to a loop that no longer exists, and when the server is started again and stopped
    while an entry is left, [stop] dereferences a null pointer. *)
Theorem stop_after_restart hp nm s new_loop n (a : Z) :
  reachable hp nm s → started_ s ≠ 0 → (∀ k e, conn_map_ s !! k = Some e → e ≠ None) →
  next_conn_id_ s < 2147483647 →
  ∃ s1 p, stop s = Ok s1 ∧ started_ s1 = 0 ∧ event_loop_threadpool_ s = Some p ∧
    dom (conn_map_ s1) = dom (conn_map_ s) ∧ listening s1 = listening s ∧
    (∀ k b, conn_map_ s !! k = Some (Some b) → ∃ io, (io, b, JDestroyed) ∈ posted s1) ∧
    (loops_ p ≠ [] → new_conn a s1 = Stop Dangling) ∧
    (conn_map_ s ≠ ∅ → stop (start new_loop n s1) = Stop NullDeref).
Proof.
  intros Hr Hst Hnull Hid. destruct (reachable_ok hp nm s Hr) as (Hs & _ & _).
  destruct (stop_running s Hs Hst Hnull) as (p & ts & js & Ep & Hpl & Ejs & E).
  eexists _, p. split; [exact E|]. split; [done|]. split; [done|].
  split; [by apply dom_fmap_L|]. split; [done|]. split; [|split].
  - intros k b Hk. destruct (destroy_all_posted _ _ _ _ k b Ejs Hk) as [io Hio].
    exists io. cbn [posted]. set_solver.
  - intros Hl. destruct Hpl as [[? ? ?] _ _ _]. eapply new_conn_stopped; simpl; [done | by split | done | | done].
    intros io Hio. set_solver.
  - intros Hne. unfold stop at 1, start. cbn [started_ Z.eqb conn_map_ conns ended].
    by rewrite destroy_all_null.
Qed.
End stopping.

Lemma stop_after_restart_witness :
  let hp := lit "0.0.0.0:20000" in
  let s0 := start (λ i, 50 + Z.of_nat i) 2 (TcpServer_ctor 7 hp (lit "chat")) in
  ∃ s s1 p, new_conn 900 s0 = Ok s ∧ stop s = Ok s1 ∧ started_ s1 = 0 ∧
    event_loop_threadpool_ s = Some p ∧ dom (conn_map_ s1) = dom (conn_map_ s) ∧
    listening s1 = listening s ∧
    (∀ k b, conn_map_ s !! k = Some (Some b) → ∃ io, (io, b, JDestroyed) ∈ posted s1) ∧
    (loops_ p ≠ [] → new_conn 901 s1 = Stop Dangling) ∧
    (conn_map_ s ≠ ∅ → stop (start (λ _, 60) 1 s1) = Stop NullDeref).
Proof.
  intros hp s0. assert (Hr : reachable hp (lit "chat") s0).
  { apply reach_begin; [apply reach_ctor | simpl; lia]. }
  destruct (reachable_ok _ _ _ Hr) as (Hs & _).
  destruct (new_conn_running s0 900 Hs) as (io & p' & _ & _ & E); [done | done|]. cbv zeta in E.
  eexists. assert (Hm : conn_map_ s0 = ∅) by done.
  match type of E with _ = Ok ?x => set (s := x) in E end.
  destruct (stop_after_restart hp (lit "chat") s (λ _, 60) 1 901) as (s1 & p & H).
  - by eapply reach_accept; [exact Hr | done | | exact E].
  - done.
  - subst s. cbn [conn_map_]. rewrite Hm. intros k e [[_ <-]|[_ H]]%lookup_insert_Some; [done|].
    by rewrite lookup_empty in H.
  - done.
  - exists s1, p. split; [exact E | exact H].
Defined.

(** ** Running out of descriptors *)
Section accepting.

(** The reserve descriptor works: when [accept] fails with EMFILE the acceptor gives
    up its reserve, accepts and closes the waiting connection and takes the reserve back;
    the process ends up with the descriptors it had (the reserve possibly under another
    number), and no connection is handed on. Otherwise a descriptor that was accepted is
    either handed to the callback or closed, so none is leaked. *)
Theorem accept_descriptors (connfd err connfd2 nullfd : Z) (a : Acceptor) :
  idle_fd_ a ∈ fds a → (0 ≤ connfd → connfd ∉ fds a) →
  connfd2 ∉ fds a ∖ {[ idle_fd_ a ]} →
  0 ≤ nullfd → nullfd ∉ fds a ∖ {[ idle_fd_ a ]} →
  let a' := Acceptor_handle_read connfd err connfd2 nullfd a in
  idle_fd_ a' ∈ fds a' ∧
  (0 ≤ connfd → fds a' = (if has_new_conn_callback a then {[ connfd ]} ∪ fds a else fds a) ∧
     accepted a' = accepted a ++ (if has_new_conn_callback a then [connfd] else [])) ∧
  (connfd < 0 → accepted a' = accepted a ∧ fds a' ∖ {[ idle_fd_ a' ]} = fds a ∖ {[ idle_fd_ a ]} ∧
     (err = EMFILE → idle_fd_ a' = nullfd)).
Proof.
  intros Hidle Hc Hc2 Hn Hnf a'. subst a'. unfold Acceptor_handle_read, open_fd, close_fd.
  destruct (Z.leb_spec 0 connfd).
  - specialize (Hc ltac:(done)). destruct (has_new_conn_callback a); simpl.
    + split; [set_solver|]. split; [done | lia].
    + split; [set_solver|]. split; [|lia]. intros _. rewrite app_nil_r. split; [set_solver | done].
  - destruct (Z.eqb_spec err EMFILE); simpl; (split; [|split; [lia|]]); try done.
    + destruct (Z.leb_spec 0 nullfd); [set_solver | lia].
    + intros _. split; [done|]. destruct (Z.leb_spec 0 nullfd); [|lia].
      destruct (Z.leb_spec 0 connfd2); (split; [|done]); apply set_eq; intros x;
        destruct (decide (x = connfd2)); destruct (decide (x = nullfd)); set_solver.
Qed.

Lemma accept_descriptors_witness :
  let a := mkAcceptor true true 5 {[ 3; 5 ]} [] in
  let a' := Acceptor_handle_read (-1) EMFILE 5 5 a in
  idle_fd_ a' ∈ fds a' ∧ (-1 < 0 → accepted a' = accepted a ∧
    fds a' ∖ {[ idle_fd_ a' ]} = fds a ∖ {[ idle_fd_ a ]} ∧ (EMFILE = EMFILE → idle_fd_ a' = 5)).
Proof.
  cbv zeta.
  destruct (accept_descriptors (-1) EMFILE 5 5 (mkAcceptor true true 5 {[ 3; 5 ]} []))
    as (H1 & _ & H3); [vm_compute; set_solver | lia | set_solver | lia | set_solver |].
  split; [exact H1 | exact H3].
Defined.
End accepting.
