(* ===== verification/Lifetime.v ===== *)
(** * The lifetime of connections: [TcpServer], [TcpConnection] and the queues between them

    A connection object is owned by [std::shared_ptr]s: the server's map, functors that were
    bound to a [TcpConnectionPtr] or to [shared_from_this()], pointers of users, and a thread
    that is inside a member function called through such a pointer. Functors bound to [this]
    ([_send_in_loop], [_shutdown_in_loop]) own nothing. The object is deleted with its last
    owner.

    The state joins the server, and for every connection its object, the functors that wait
    in its loop (which are run in order), and the calls of [remove_conn_in_loop] that wait in
    the server's loop. The loops' queues are those of [EventLoop]; a step runs one functor,
    handles one event or makes one call. *)
From S2P Require Import Prelude ByteBuffer Poller TcpConnection TcpServer.

(** A functor of a connection in its loop's queue. *)
Inductive work := WEstablished | WDestroyed | WTask (t : task).

(** Whether the functor holds a [shared_ptr]. *)
Definition owning (w : work) : bool :=
  match w with WTask (QSend _) | WTask QShutdown => false | _ => true end.

Section lifetime.
Context {P : Type} `{!ChannelOps P}.

Record cell := mkCell {
  obj : option (TcpConnection P);      (* [None]: deleted *)
  todo : list work;
  removing : nat;                      (* [remove_conn_in_loop] queued for it *)
  gone : bool;                         (* [conn_destroyed] has run *)
  senders : list bytes;                (* calls of [send] behind the test of the state *)
  holders : nat;                       (* [shared_ptr]s of users *)
}.

Record system := mkSystem { srv : TcpServer; cells : gmap Z cell }.

Definition mapped (s : TcpServer) (a : Z) : bool :=
  match conns s !! a with
  | Some (k, _) => bool_decide (conn_map_ s !! k = Some (Some a))
  | None => false
  end.

(** Some [shared_ptr] is left. *)
Definition owned (s : TcpServer) (a : Z) (x : cell) : bool :=
  mapped s a || (0 <? removing x)%nat || existsb owning (todo x) || negb (bool_decide (senders x = [])) ||
  (0 <? holders x)%nat.

Definition settle (s : TcpServer) (a : Z) (x : cell) : cell :=
  if owned s a x then x else mkCell None (todo x) (removing x) (gone x) (senders x) (holders x).
Definition put (s : TcpServer) (a : Z) (x : cell) (sys : system) : system :=
  mkSystem s (<[a := settle s a x]> (cells sys)).

Definition closes (l : list user_call) : nat :=
  length (List.filter (λ k, match k with CallClose => true | _ => false end) l).

(** What an operation on the object leaves behind: functors it queued, and a call of
    [remove_conn] for every call of the close callback. *)
Definition absorb (c c' : TcpConnection P) (x : cell) : cell :=
  mkCell (Some (set_tasks [] c')) (todo x ++ map WTask (tasks c'))
    (removing x + (closes (calls c') - closes (calls c))) (gone x) (senders x) (holders x).

Inductive act :=
| AAccept (a : Z) (channel : P)             (* [new_conn] in the server's loop *)
| ARun (a : Z) (nw err : Z)                 (* the connection's loop runs the next functor *)
| AEvent (a : Z) (o : conn_op)              (* the loop handles an event of the channel *)
| AHold (a : Z)                             (* a user gets a pointer: from a callback, or [weak_ptr::lock] *)
| ACall (a : Z) (o : conn_op)               (* a call by a user *)
| ADrop (a : Z)                             (* a user lets go of a pointer *)
| ARemove (a : Z)                           (* the server's loop runs [remove_conn_in_loop] *)
| AStop                                     (* [TcpServer::stop] *)
| ACheck (a : Z) (m : bytes)                (* [send] in another thread tests the state ... *)
| APost (a : Z).                            (* ... and queues the functor *)

Definition run_work (w : work) (nw err : Z) (c : TcpConnection P) : outcome (TcpConnection P) :=
  match w with
  | WEstablished => conn_established c
  | WDestroyed => conn_destroyed c
  | WTask t => run_task nw err (set_tasks [t] c)
  end.

(** An operation on the object. *)
Definition on_object (a : Z) (o : conn_op) (sys : system) : outcome system :=
  match cells sys !! a with
  | Some x =>
      match obj x with
      | None => Stop Dangling
      | Some c => c' ← exec o c; Ok (put (srv sys) a (absorb c c' x) sys)
      end
  | None => Ok sys
  end.

(** The destructions that were posted for [a]. *)
Definition destructions (a : Z) (js : list (Z * Z * job)) : list work :=
  omap (λ '(_, b, j), match j with JDestroyed => if b =? a then Some WDestroyed else None | _ => None end) js.

Definition sys_step (m : act) (sys : system) : outcome system :=
  match m with
  | AAccept a channel =>
      s' ← new_conn a (srv sys);
      Ok (put s' a (mkCell (Some (TcpConnection_ctor channel)) [WEstablished] 0 false [] 0) sys)
  | ARun a nw err =>
      match cells sys !! a with
      | Some (mkCell o (w :: ws) r g sd h) =>
          match o with
          | None => Stop Dangling
          | Some c =>
              c' ← run_work w nw err c;
              Ok (put (srv sys) a
                    (absorb c c' (mkCell o ws r (g || match w with WDestroyed => true | _ => false end) sd h)) sys)
          end
      | _ => Ok sys
      end
  | AEvent a o | ACall a o => on_object a o sys
  | AHold a =>
      match cells sys !! a with
      | Some (mkCell (Some c) ws r g sd h) => Ok (put (srv sys) a (mkCell (Some c) ws r g sd (S h)) sys)
      | _ => Ok sys
      end
  | ADrop a =>
      match cells sys !! a with
      | Some (mkCell o ws r g sd (S h)) => Ok (put (srv sys) a (mkCell o ws r g sd h) sys)
      | _ => Ok sys
      end
  | ARemove a =>
      match cells sys !! a with
      | Some (mkCell o ws (S r) g sd h) =>
          match o with
          | None => Stop Dangling
          | Some _ =>
              s' ← remove_conn_in_loop a (srv sys);
              let posted' := drop (length (posted (srv sys))) (posted s') in
              Ok (put s' a (mkCell o (ws ++ map (λ _, WDestroyed) posted') r g sd h) sys)
          end
      | _ => Ok sys
      end
  | AStop =>
      s' ← stop (srv sys);
      let js := drop (length (posted (srv sys))) (posted s') in
      Ok (mkSystem s' (map_imap (λ a x,
            Some (settle s' a (mkCell (obj x) (todo x ++ destructions a js) (removing x) (gone x)
                                 (senders x) (holders x)))) (cells sys)))
  | ACheck a m =>
      match cells sys !! a with
      | Some (mkCell (Some c) ws r g sd h) =>
          if connected c then Ok (put (srv sys) a (mkCell (Some c) ws r g (sd ++ [m]) h) sys) else Ok sys
      | _ => Ok sys
      end
  | APost a =>
      match cells sys !! a with
      | Some (mkCell o ws r g (m :: sd) h) =>
          Ok (put (srv sys) a (mkCell o (ws ++ [WTask (QSend m)]) r g sd h) sys)
      | _ => Ok sys
      end
  end.
End lifetime.
Arguments cell : clear implicits.
Arguments system : clear implicits.
Arguments act : clear implicits.

(** ** What one operation does to the state of a connection *)
Section effects.
Context {P : Type} `{!ChannelOps P} `{!ChannelContract P}.
Implicit Types c : TcpConnection P.

Definition open_state (s : StateE) : Prop := s = kConnected ∨ s = kDisconnecting.

(** Either the connection is closed, and the close callback called, or neither. *)
Definition moved c c' : Prop :=
  (state_ c ≠ kDisconnected ∧ state_ c' = kDisconnected ∧
     closes (calls c') = S (closes (calls c))) ∨
  ((state_ c = kDisconnected ↔ state_ c' = kDisconnected) ∧
   (open_state (state_ c) → open_state (state_ c')) ∧ closes (calls c') = closes (calls c)).

Lemma closes_app l1 l2 : closes (l1 ++ l2) = (closes l1 + closes l2)%nat.
Proof. unfold closes. by rewrite List.filter_app, length_app. Qed.

Lemma moved_same c c' : state_ c' = state_ c → calls c' = calls c → moved c c'.
Proof. intros Hs Hc. right. rewrite Hs, Hc. done. Qed.

Lemma moved_user c c' k :
  state_ c' = state_ c → calls c' = calls c ++ [k] → k ≠ CallClose → moved c c'.
Proof.
  intros Hs Hc Hk. right. rewrite Hs, Hc, closes_app. split; [done|]. split; [done|].
  destruct k; try done; unfold closes; simpl; lia.
Qed.

Lemma handle_close_moved c c' : _handle_close c = Ok c' → moved c c' ∧ state_ c' = kDisconnected ∧ tasks c' = tasks c.
Proof.
  unfold _handle_close. case_bool_decide as Hs.
  - intros [= <-]. split; [by apply moved_same | done].
  - intros ([b p] & _ & [= <-])%bind_Ok_inv. split; [|done]. left. split; [done|]. split; [done|].
    simpl. rewrite !closes_app. change (closes [CallClose]) with 1%nat.
    change (closes [CallConn _]) with 0%nat. lia.
Qed.

Lemma send_in_loop_moved data nw err c c' : _send_in_loop data nw err c = Ok c' → moved c c'.
Proof.
  intros E. assert (H : state_ c' = state_ c ∧ calls c' = calls c); [|destruct H; by apply moved_same].
  unfold _send_in_loop in E. case_bool_decide; [by simplify_eq|].
  destruct (direct_write data nw err c) as [[[nwrote remaining] fault] c1] eqn:Ed.
  assert (H1 : state_ c1 = state_ c ∧ calls c1 = calls c).
  { unfold direct_write in Ed. by repeat case_match; simplify_eq. }
  repeat case_match; simplify_eq; try done. revert E. unfold buffer_remaining. cbv zeta.
  set (c2 := if (_ : bool) then queue _ c1 else c1).
  assert (Hc2 : state_ c2 = state_ c ∧ calls c2 = calls c) by (subst c2; by case_match).
  clearbody c2. intros (b & _ & E)%bind_Ok_inv. case_match; [by simplify_eq|].
  apply bind_Ok_inv in E as ([? p] & _ & E). by simplify_eq.
Qed.

Lemma shutdown_in_loop_moved c : moved c (_shutdown_in_loop c).
Proof. unfold _shutdown_in_loop. destruct (negb _); by apply moved_same. Qed.

Lemma run_task_moved nw err c c' : run_task nw err c = Ok c' → moved c c'.
Proof.
  intros E. unfold run_task in E.
  destruct (tasks c) as [|t ts] eqn:Ht; [injection E as <-; by apply moved_same|].
  destruct t as [m| | | |n].
  - by apply (send_in_loop_moved _ _ _ (set_tasks ts c)) in E.
  - injection E as <-. apply (shutdown_in_loop_moved (set_tasks ts c)).
  - unfold _force_close_in_loop in E. case_bool_decide.
    + by apply (handle_close_moved (set_tasks ts c)) in E as [? _].
    + injection E as <-. by apply moved_same.
  - injection E as <-. by eapply moved_user.
  - injection E as <-. by eapply moved_user.
Qed.

Lemma handle_write_moved nw c c' : _handle_write nw c = Ok c' → moved c c'.
Proof.
  unfold _handle_write. destruct (writing c); [|by intros [= <-]; apply moved_same].
  destruct (0 <? nw); [|by intros [? _]%handle_close_moved].
  case_match; [|by intros [= <-]; apply moved_same].
  intros ([b p] & _ & [= <-])%bind_Ok_inv.
  set (c4 := if write_complete_callback_ _ then _ else _).
  assert (H4 : state_ c4 = state_ c ∧ calls c4 = calls c) by (subst c4; by case_match).
  clearbody c4. destruct H4 as [H1 H2]. case_bool_decide; [|by apply moved_same].
  unfold _shutdown_in_loop. case_match; by apply moved_same.
Qed.

(** Events, and calls by the user. *)
Definition is_event (o : conn_op) : bool :=
  match o with OReadable _ _ _ | OWritable _ | OHangup | OError => true | _ => false end.
Definition is_user (o : conn_op) : bool :=
  match o with
  | OSend _ _ _ _ | OShutdown _ | OForceClose | OSetWriteComplete _ | OSetHighWaterMark _ | OConsume _ => true
  | _ => false
  end.
Definition is_call (o : conn_op) : bool := is_event o || is_user o.

Lemma call_moved o c c' : is_call o = true → exec o c = Ok c' → moved c c'.
Proof.
  intros Ho E.
  destruct o as [|in_loop m nw err|nw err|n err x|nw| | |in_loop| | |b|n|j]; try done; cbn [exec] in E.
  - unfold send in E. repeat case_match; [by eapply send_in_loop_moved | injection E as <-; by apply moved_same..].
  - unfold _handle_read in E. apply bind_Ok_inv in E as ([[n' e] b] & _ & E).
    destruct (0 <? n'); [injection E as <-; by eapply moved_user|].
    destruct (n' =? 0); by apply (handle_close_moved (set_input b c)) in E as [? _].
  - by apply handle_write_moved in E.
  - by apply handle_close_moved in E as [? _].
  - by apply handle_close_moved in E as [? _].
  - injection E as <-. unfold shutdown, connected. case_bool_decide as Hs; [|by apply moved_same].
    assert (Hd : moved c (_set_state kDisconnecting c)).
    { right. simpl. rewrite Hs. split; [done|]. split; [by right | done]. }
    destruct in_loop; [|exact Hd]. unfold _shutdown_in_loop. case_match; exact Hd.
  - injection E as <-. unfold force_close. case_bool_decide as Hs; [|by apply moved_same].
    right. simpl. split; [|split; [by right | done]]. destruct Hs as [-> | ->]; done.
  - injection E as <-. by apply moved_same.
  - injection E as <-. by apply moved_same.
  - injection E as <-. by apply moved_same.
Qed.

Lemma established_moved c c' :
  state_ c = kConnecting → conn_established c = Ok c' →
  tasks c' = tasks c ∧
  (open_state (state_ c') ∧ closes (calls c') = closes (calls c) ∨
   state_ c' = kDisconnected ∧ closes (calls c') = S (closes (calls c))).
Proof.
  intros Hs. unfold conn_established. rewrite bool_decide_eq_true_2 by done. cbn [negb].
  intros ([b p] & _ & E)%bind_Ok_inv. destruct b.
  - injection E as <-. split; [done|]. left. split; [by left|]. simpl. rewrite closes_app.
    change (closes [CallConn _]) with 0%nat. lia.
  - apply handle_close_moved in E as (Hm & Hd & Ht). split; [done|]. right. split; [done|].
    destruct Hm as [(_ & _ & H)|([_ H] & _)]; [exact H|]. by specialize (H Hd).
Qed.

(** A closed connection queues nothing. *)
Lemma call_closed o c c' :
  state_ c = kDisconnected → writing c = false → is_call o = true → exec o c = Ok c' →
  tasks c' = tasks c.
Proof.
  intros Hs Hw Ho E.
  destruct o as [|in_loop m nw err|nw err|n err x|nw| | |in_loop| | |b|n|j]; try done; cbn [exec] in E.
  - unfold send, connected in E. rewrite bool_decide_eq_false_2 in E by (by rewrite Hs).
    by injection E as <-.
  - unfold _handle_read in E. apply bind_Ok_inv in E as ([[n' e] b] & _ & E).
    destruct (0 <? n'); [by injection E as <-|].
    destruct (n' =? 0); by apply handle_close_moved in E as (_ & _ & ?).
  - unfold _handle_write in E. rewrite Hw in E. by injection E as <-.
  - by apply handle_close_moved in E as (_ & _ & ?).
  - by apply handle_close_moved in E as (_ & _ & ?).
  - injection E as <-. unfold shutdown, connected. by rewrite bool_decide_eq_false_2 by (by rewrite Hs).
  - injection E as <-. unfold force_close. rewrite bool_decide_eq_false_2; [done|].
    rewrite Hs. by intros [|].
  - by injection E as <-.
  - by injection E as <-.
  - by injection E as <-.
Qed.

End effects.

(** ** The phases of a connection *)
Section phases.
Context {P : Type} `{!ChannelOps P} `{!ChannelContract P}.
Implicit Types (c : TcpConnection P) (x : cell P) (s : TcpServer) (sys : system P).

Definition is_task (w : work) : bool := match w with WTask _ => true | _ => false end.

(** The bytes committed to the stream. *)
Definition sent_of c : bytes := wire c ++ content (output_buffer_ c).
Definition fine c : Prop := tasks c = [] ∧ ∃ sent, conn_inv sent c.

(** The first argument: whether the server's map has the connection. *)
Inductive phase : bool → cell P → Prop :=
| ph_new c : state_ c = kConnecting → fine c → phase true (mkCell (Some c) [WEstablished] 0 false [] 0)
| ph_open c ws h : open_state (state_ c) → fine c → forallb is_task ws = true →
    phase true (mkCell (Some c) ws 0 false [] h)
| ph_closed c ws h : state_ c = kDisconnected → fine c → forallb is_task ws = true →
    phase true (mkCell (Some c) ws 1 false [] h)
| ph_leaving c ws h : state_ c = kDisconnected → fine c → forallb is_task ws = true →
    phase false (mkCell (Some c) (ws ++ [WDestroyed]) 0 false [] h)
| ph_held c h : state_ c = kDisconnected → fine c → phase false (mkCell (Some c) [] 0 true [] (S h))
| ph_deleted : phase false (mkCell None [] 0 true [] 0).

Lemma fine_absorbed sent c : conn_inv sent c → fine (set_tasks [] c).
Proof. intros H. split; [done|]. exists sent. by apply conn_inv_tasks. Qed.

Lemma settle_owned s a x : owned s a x = true → settle s a x = x.
Proof. unfold settle. by intros ->. Qed.

Lemma owned_mapped s a x : mapped s a = true → owned s a x = true.
Proof. unfold owned. by intros ->. Qed.

Lemma tasks_are_tasks (l : list task) : forallb is_task (map WTask l) = true.
Proof. by induction l. Qed.

(** An operation on an object that is open or closed, but not yet given up. *)
Lemma phase_absorb c c' ws r h sent :
  phase true (mkCell (Some c) ws r false [] h) → moved c c' → state_ c ≠ kConnecting →
  conn_inv sent c' → forallb is_task ws = true →
  phase true (absorb c c' (mkCell (Some c) ws r false [] h)).
Proof.
  intros Hp Hm Hs Hinv Hws. unfold absorb. cbn [todo removing gone senders holders].
  assert (Hf : fine (set_tasks [] c')) by (by eapply fine_absorbed).
  assert (Ht : forallb is_task (ws ++ map WTask (tasks c')) = true).
  { by rewrite forallb_app, Hws, tasks_are_tasks. }
  inversion Hp; subst; try done.
  - destruct Hm as [(_ & Hd & ->)|(_ & Ho & ->)].
    + rewrite Nat.sub_succ_l, Nat.sub_diag by lia. by apply ph_closed.
    + rewrite Nat.sub_diag. apply ph_open; [|done|done]. simpl. auto.
  - destruct Hm as [(? & _)|([Hd _] & _ & ->)]; [done|]. rewrite Nat.sub_diag.
    apply ph_closed; [|done|done]. simpl. auto.
Qed.

Lemma run_work_task t nw err c :
  fine c → answers_any (OTask nw err) (set_tasks [t] c) →
  memory True (run_task nw err (set_tasks [t] c)) (λ c', moved c c' ∧ ∃ sent, conn_inv sent c').
Proof.
  intros [Ht [sent Hinv]] Ha.
  eapply memory_mono; [apply (exec_memory sent (OTask nw err)); [by apply conn_inv_tasks | done] | done|].
  intros c' E Hc'. split; [|done]. exact (run_task_moved nw err (set_tasks [t] c) c' E).
Qed.

(** The server's map of other connections. *)
Lemma mapped_new s a b k io s' :
  conn_map_ s !! k = None → conns s' = <[a := (k, io)]> (conns s) →
  conn_map_ s' = <[k := Some a]> (conn_map_ s) → b ≠ a → mapped s' b = mapped s b.
Proof.
  intros Hk Hc Hm Hne. unfold mapped. rewrite Hc, Hm, lookup_insert_ne by done.
  destruct (conns s !! b) as [[kb ?]|]; [|done]. apply bool_decide_ext.
  destruct (decide (kb = k)) as [->|Hkb]; [|by rewrite lookup_insert_ne].
  rewrite lookup_insert_eq, Hk. naive_solver.
Qed.

Lemma mapped_remove s a b k io s' :
  conns s !! a = Some (k, io) → conn_map_ s !! k = Some (Some a) → conns s' = conns s →
  conn_map_ s' = delete k (conn_map_ s) → b ≠ a → mapped s' b = mapped s b.
Proof.
  intros Ha Hk Hc Hm Hne. unfold mapped. rewrite Hc, Hm.
  destruct (conns s !! b) as [[kb ?]|]; [|done]. apply bool_decide_ext.
  destruct (decide (kb = k)) as [->|Hkb]; [|by rewrite lookup_delete_ne].
  rewrite lookup_delete_eq, Hk. naive_solver.
Qed.

(** ** Histories of the whole system

    Other threads' calls of [send] are single steps here ([OSend false]). Events come only for
    a channel that [conn_established] has enabled and [conn_destroyed] not yet taken out of
    the poller; users call through pointers they hold, which they get from callbacks or by
    [weak_ptr::lock] once the connection is established. The server is not stopped. [read]
    and [write] answer anything, errors of a broken connection included. *)
Definition enabled (m : act P) sys : Prop :=
  match m with
  | AAccept a p => ch_ok p ∧ ch_events p = none_event_ ∧ conns (srv sys) !! a = None ∧
                   next_conn_id_ (srv sys) < 10 ^ 8
  | ARun a nw err => ∀ c t ws r g sd h,
      cells sys !! a = Some (mkCell (Some c) (WTask t :: ws) r g sd h) →
      answers_any (OTask nw err) (set_tasks [t] c)
  | AEvent a o => is_event o = true ∧ ∃ x, cells sys !! a = Some x ∧ gone x = false ∧
      ∀ c, obj x = Some c → state_ c ≠ kConnecting ∧ answers_any o c
  | AHold a => ∀ x c, cells sys !! a = Some x → obj x = Some c → state_ c ≠ kConnecting
  | ACall a o => is_user o = true ∧ ∃ x, cells sys !! a = Some x ∧ (0 < holders x)%nat ∧
      ∀ c, obj x = Some c → answers_any o c
  | ADrop _ | ARemove _ => True
  | AStop | ACheck _ _ | APost _ => False
  end.

Record sys_inv (hp nm : bytes) sys : Prop := {
  si_server : reachable hp nm (srv sys);
  si_started : started_ (srv sys) ≠ 0;
  si_phase : ∀ a x, cells sys !! a = Some x → phase (mapped (srv sys) a) x;
}.

Lemma put_inv hp nm s a x sys :
  sys_inv hp nm sys → reachable hp nm s → started_ s ≠ 0 →
  (∀ b, b ≠ a → mapped s b = mapped (srv sys) b) →
  phase (mapped s a) (settle s a x) → sys_inv hp nm (put s a x sys).
Proof.
  intros [_ _ Hph] Hr Hst Hm Hx. split; simpl; [done | done |].
  intros b y [[<- <-]|[Hne Hy]]%lookup_insert_Some; [done|]. rewrite Hm by done. by apply Hph.
Qed.

Lemma accept_inv hp nm a p sys :
  (length hp ≤ 21)%nat → sys_inv hp nm sys → enabled (AAccept a p) sys →
  memory True (sys_step (AAccept a p) sys) (sys_inv hp nm).
Proof.
  intros Hhp Hinv (Hp & He & Ha & Hid). pose proof Hinv as [Hr Hst Hph]. cbn [sys_step].
  destruct (reachable_ok hp nm (srv sys) Hr) as (Hs & E1 & E2).
  destruct (new_conn_running (srv sys) a Hs Hst ltac:(lia)) as (io & p' & _ & _ & E). cbv zeta in E.
  assert (Hk : conn_map_ (srv sys) !! conn_name (srv sys) (next_conn_id_ (srv sys)) = None).
  { by apply (conn_name_fresh hp nm). }
  pose proof (reach_accept hp nm (srv sys) a _ Hr Hst Ha E) as Hr'.
  rewrite E, bind_Ok. apply memory_ret.
  match type of Hr' with reachable _ _ ?x => set (s' := x) in * end.
  assert (Hma : mapped s' a = true).
  { unfold mapped, s'. cbn [conns conn_map_]. rewrite !lookup_insert_eq. by apply bool_decide_eq_true_2. }
  apply put_inv; [done | done | done | |].
  - intros b Hne. by apply (mapped_new (srv sys) a b _ io s' Hk).
  - rewrite settle_owned, Hma by by apply owned_mapped. apply ph_new; [done|]. split; [done|].
    exists []. by apply conn_inv_ctor.
Qed.

(** A functor of a connection that is in the map. *)
Lemma run_task_mapped hp nm a nw err sys c t ws r h :
  sys_inv hp nm sys → mapped (srv sys) a = true →
  cells sys !! a = Some (mkCell (Some c) (WTask t :: ws) r false [] h) →
  phase true (mkCell (Some c) ws r false [] h) → state_ c ≠ kConnecting → fine c →
  forallb is_task ws = true → answers_any (OTask nw err) (set_tasks [t] c) →
  memory True (sys_step (ARun a nw err) sys) (sys_inv hp nm).
Proof.
  intros Hinv Hm Ea Hp Hs Hf Hws Ha. cbn [sys_step]. rewrite Ea. cbn [run_work].
  eapply memory_bind; [by apply run_work_task|]. intros c' _ (Hmv & sent & Hc').
  apply memory_ret. destruct Hinv as [Hr Hst Hph].
  apply put_inv; try done. rewrite settle_owned by by apply owned_mapped. cbn [orb].
  rewrite Hm. by eapply phase_absorb.
Qed.

(** A connection that is not yet destroyed, off the map. *)
Lemma owned_leaving s a (o : option (TcpConnection P)) ws r g sd h :
  owned s a (mkCell o (ws ++ [WDestroyed]) r g sd h) = true.
Proof.
  unfold owned. cbn [removing todo senders holders]. rewrite existsb_app. simpl.
  by rewrite !orb_true_r.
Qed.

(** A functor of a closed connection has no effect. *)
Lemma closed_task t nw err c :
  state_ c = kDisconnected → fine c →
  ∃ c', run_task nw err (set_tasks [t] c) = Ok c' ∧ tasks c' = [] ∧ state_ c' = kDisconnected ∧
    closes (calls c') = closes (calls c) ∧ ∃ sent, conn_inv sent c'.
Proof.
  intros Hs [_ [sent Hc]]. assert (Hi : conn_inv sent (set_tasks [] c)) by (by apply conn_inv_tasks).
  unfold run_task. cbn [tasks set_tasks]. destruct t as [m| | | |n].
  - unfold _send_in_loop. rewrite bool_decide_eq_true_2 by done. eexists. split; [done|]. eauto 6.
  - eexists. split; [done|]. do 3 (split; [unfold _shutdown_in_loop; by case_match|]).
    exists sent. by apply shutdown_in_loop_inv.
  - unfold _force_close_in_loop. rewrite bool_decide_eq_false_2; [eexists; split; [done|]; eauto 6|].
    simpl. rewrite Hs. by intros [|].
  - eexists. split; [done|]. do 2 (split; [done|]). simpl. rewrite closes_app. change (closes [_]) with 0%nat.
    split; [lia|]. exists sent. by apply conn_inv_user.
  - eexists. split; [done|]. do 2 (split; [done|]). simpl. rewrite closes_app. change (closes [_]) with 0%nat.
    split; [lia|]. exists sent. by apply conn_inv_user.
Qed.

(** The work of a connection that has left the map: its functors, then its destruction. *)
Lemma run_unmapped a nw err sys c ws h :
  cells sys !! a = Some (mkCell (Some c) (ws ++ [WDestroyed]) 0 false [] h) →
  state_ c = kDisconnected → fine c → forallb is_task ws = true →
  ∃ c', state_ c' = kDisconnected ∧ fine c' ∧
    sys_step (ARun a nw err) sys = Ok (put (srv sys) a
      (match ws with
       | [] => mkCell (Some c') [] 0 true [] h
       | _ :: ws' => mkCell (Some c') (ws' ++ [WDestroyed]) 0 false [] h
       end) sys).
Proof.
  intros Ea H Hf Hws. cbn [sys_step]. rewrite Ea. destruct ws as [|[| |t] ws]; try done; cbn [app run_work].
  - destruct Hf as [Ht [sent Hc]]. destruct (destroyed_inv _ _ Hc) as (c' & E & Hc'). rewrite E, bind_Ok.
    exists (set_tasks [] c').
    assert (Hkeep : state_ c' = kDisconnected ∧ tasks c' = [] ∧ calls c' = calls c).
    { revert E. unfold conn_destroyed. rewrite bool_decide_eq_false_2 by (by rewrite H).
      rewrite bind_Ok. by intros (p & _ & [= <-])%bind_Ok_inv. }
    destruct Hkeep as (Hk0 & Hk1 & Hk2). split; [done|]. split; [by eapply fine_absorbed|].
    unfold absorb. cbn [todo removing gone senders holders orb]. by rewrite Hk1, Hk2, Nat.sub_diag.
  - destruct (closed_task t nw err c H Hf) as (c' & E & Ht' & Hs' & Hcl & sent & Hc'). rewrite E, bind_Ok.
    exists (set_tasks [] c'). split; [done|]. split; [by eapply fine_absorbed|].
    unfold absorb. cbn [todo removing gone senders holders orb]. by rewrite Ht', Hcl, Nat.sub_diag, app_nil_r.
Qed.

Lemma run_unmapped_inv hp nm a nw err sys c ws h :
  sys_inv hp nm sys → mapped (srv sys) a = false →
  cells sys !! a = Some (mkCell (Some c) (ws ++ [WDestroyed]) 0 false [] h) →
  state_ c = kDisconnected → fine c → forallb is_task ws = true →
  ∃ sys', sys_step (ARun a nw err) sys = Ok sys' ∧ sys_inv hp nm sys'.
Proof.
  intros Hinv Hm Ea H Hf Hws. destruct (run_unmapped a nw err sys c ws h Ea H Hf Hws) as (c' & Hs' & Hf' & ->).
  eexists. split; [done|]. destruct Hinv as [Hr Hst Hph]. apply put_inv; try done. rewrite Hm.
  destruct ws as [|w ws].
  - unfold settle, owned. rewrite Hm. destruct h as [|h]; cbn; by constructor.
  - rewrite settle_owned by apply owned_leaving. apply andb_true_iff in Hws as [_ Hws]. by constructor.
Qed.

Lemma run_inv hp nm a nw err sys :
  sys_inv hp nm sys → enabled (ARun a nw err) sys →
  memory True (sys_step (ARun a nw err) sys) (sys_inv hp nm).
Proof.
  intros Hinv Hen. pose proof Hinv as [Hr Hst Hph]. cbn [enabled] in Hen.
  assert (Hidle : ∀ o r g sd h, cells sys !! a = Some (mkCell o [] r g sd h) →
    memory True (sys_step (ARun a nw err) sys) (sys_inv hp nm)).
  { intros o r g sd h Ex. cbn [sys_step]. rewrite Ex. by apply memory_ret. }
  destruct (cells sys !! a) as [x|] eqn:Ea; [|cbn [sys_step]; rewrite Ea; by apply memory_ret].
  specialize (Hph a x Ea).
  destruct (mapped (srv sys) a) eqn:Hm; inversion Hph; subst; clear Hph; try by eapply Hidle.
  - (* the establishment *)
    destruct H0 as [Ht [sent Hc]]. cbn [sys_step]. rewrite Ea. cbn [run_work].
    destruct (established_inv _ _ Hc) as (c' & E & Hc'). rewrite E, bind_Ok. apply memory_ret, put_inv; try done.
    rewrite Hm, settle_owned by by apply owned_mapped.
    destruct (established_moved c c' H E) as (Ht' & Hcl). rewrite Ht in Ht'.
    assert (Hf : fine (set_tasks [] c')) by (by eapply fine_absorbed).
    unfold absorb. cbn [todo removing gone senders holders app orb]. rewrite Ht'. cbn [map].
    destruct Hcl as [[Ho ->]|[Hd ->]].
    + rewrite Nat.sub_diag. by apply ph_open.
    + rewrite Nat.sub_succ_l, Nat.sub_diag by lia. by apply ph_closed.
  - destruct ws as [|[| |t] ws]; try done; [by eapply Hidle|].
    eapply run_task_mapped; [done | done | exact Ea | by apply ph_open | | done | done | by eapply Hen].
    by destruct H as [-> | ->].
  - destruct ws as [|[| |t] ws]; try done; [by eapply Hidle|].
    eapply run_task_mapped; [done | done | exact Ea | by apply ph_closed | | done | done | by eapply Hen].
    by rewrite H.
  - by eapply memory_ok, run_unmapped_inv.
Qed.

(** An operation on an object: an event, or a call. *)
Lemma on_object_inv hp nm a o sys x c :
  sys_inv hp nm sys → cells sys !! a = Some x → obj x = Some c → state_ c ≠ kConnecting →
  is_call o = true → answers_any o c → memory True (on_object a o sys) (sys_inv hp nm).
Proof.
  intros Hinv Ea Ec Hs Ho Hans. pose proof Hinv as [Hr Hst Hph].
  unfold on_object. rewrite Ea, Ec. specialize (Hph a x Ea).
  assert (Hf : fine c) by (inversion Hph; subst; simpl in Ec; simplify_eq; done).
  destruct Hf as [Ht [sent Hc]].
  eapply memory_bind; [exact (exec_memory sent o c Hc Hans)|]. intros c' E [sent' Hc'].
  pose proof (call_moved o c c' Ho E) as Hmv. apply memory_ret, put_inv; try done.
  destruct (mapped (srv sys) a) eqn:Hm.
  - rewrite settle_owned by by apply owned_mapped. inversion Hph; subst; simpl in Ec; simplify_eq; try done.
    + by eapply phase_absorb; eauto.
    + by eapply phase_absorb; eauto.
  - assert (Hd : state_ c = kDisconnected) by (inversion Hph; subst; simpl in Ec; by simplify_eq).
    assert (Ht' : tasks c' = []).
    { rewrite <- Ht. eapply call_closed; eauto. by apply (closed_not_writing _ _ (ci_out _ _ Hc)). }
    destruct Hmv as [[? _]|([Hd' _] & _ & Hcl)]; [done|]. specialize (Hd' Hd).
    assert (Hf' : fine (set_tasks [] c')) by (by eapply fine_absorbed).
    inversion Hph; subst; simpl in Ec; simplify_eq; unfold absorb; cbn [todo removing gone senders holders];
      rewrite Ht', Hcl, Nat.sub_diag; cbn [map]; rewrite ?app_nil_r, settle_owned.
    + by apply ph_leaving.
    + apply owned_leaving.
    + by apply ph_held.
    + unfold owned. simpl. by rewrite !orb_true_r.
Qed.

Lemma event_inv hp nm a o sys :
  sys_inv hp nm sys → enabled (AEvent a o) sys → memory True (on_object a o sys) (sys_inv hp nm).
Proof.
  intros Hinv (Ho & x & Ea & Hg & Hx). pose proof (si_phase _ _ _ Hinv a x Ea) as Hph.
  assert (∃ c, obj x = Some c) as [c Ec] by (inversion Hph; subst; simpl in *; try done; eauto).
  destruct (Hx c Ec). eapply on_object_inv; eauto. unfold is_call. by rewrite Ho.
Qed.

Lemma call_inv hp nm a o sys :
  sys_inv hp nm sys → enabled (ACall a o) sys → memory True (on_object a o sys) (sys_inv hp nm).
Proof.
  intros Hinv (Ho & x & Ea & Hh & Hx). pose proof (si_phase _ _ _ Hinv a x Ea) as Hph.
  assert (∃ c, obj x = Some c ∧ state_ c ≠ kConnecting) as (c & Ec & Hs).
  { inversion Hph as [c0|c0 ws h Hs|c0 ws h Hs|c0 ws h Hs|c0 h Hs|]; subst; simpl in *; try lia; exists c0;
      (split; [done|]); [by destruct Hs as [-> | ->] | by rewrite Hs..]. }
  eapply on_object_inv; eauto. unfold is_call. by rewrite Ho, orb_true_r.
Qed.

Lemma hold_inv hp nm a sys :
  sys_inv hp nm sys → enabled (AHold a) sys → memory True (sys_step (AHold a) sys) (sys_inv hp nm).
Proof.
  intros Hinv Hen. pose proof Hinv as [Hr Hst Hph]. cbn [sys_step enabled] in *.
  destruct (cells sys !! a) as [x|] eqn:Ea; [|by apply memory_ret]. specialize (Hph a x Ea).
  destruct x as [[c|] ws r g sd h]; [|by apply memory_ret]. specialize (Hen _ c eq_refl eq_refl).
  apply memory_ret, put_inv; try done.
  assert (Hset : settle (srv sys) a (mkCell (Some c) ws r g sd (S h)) = mkCell (Some c) ws r g sd (S h)).
  { apply settle_owned. unfold owned. simpl. by rewrite !orb_true_r. }
  rewrite Hset. destruct (mapped (srv sys) a); inversion Hph; subst; try done; by constructor.
Qed.

Lemma drop_inv hp nm a sys :
  sys_inv hp nm sys → memory True (sys_step (ADrop a) sys) (sys_inv hp nm).
Proof.
  intros Hinv. pose proof Hinv as [Hr Hst Hph]. cbn [sys_step].
  destruct (cells sys !! a) as [x|] eqn:Ea; [|by apply memory_ret]. specialize (Hph a x Ea).
  destruct x as [o ws r g sd [|h]]; [by apply memory_ret|].
  apply memory_ret, put_inv; try done. destruct (mapped (srv sys) a) eqn:Hm.
  - rewrite settle_owned by by apply owned_mapped. inversion Hph; subst; by constructor.
  - inversion Hph; subst; [rewrite settle_owned by apply owned_leaving; by constructor|].
    unfold settle, owned. rewrite Hm. destruct h as [|h]; cbn; by constructor.
Qed.

Lemma remove_mapped hp nm a s :
  reachable hp nm s → mapped s a = true →
  ∃ s' io, remove_conn_in_loop a s = Ok s' ∧ mapped s' a = false ∧ started_ s' = started_ s ∧
    posted s' = posted s ++ [(io, a, JDestroyed)] ∧ ∀ b, b ≠ a → mapped s' b = mapped s b.
Proof.
  intros Hr Hm. pose proof Hm as Hm'. unfold mapped in Hm'.
  destruct (conns s !! a) as [[k io]|] eqn:Ek; [|done]. apply bool_decide_eq_true in Hm'.
  destruct (reachable_ok hp nm s Hr) as ([_ _ Hlive _ _] & _ & _).
  destruct (Hlive k a Hm') as (io' & Ek' & Hio). assert (io' = io) as -> by congruence.
  unfold remove_conn_in_loop. rewrite Ek, Hm', bool_decide_eq_false_2 by done.
  eexists _, io. split; [done|]. split; [|split; [done | split; [done|]]].
  - unfold mapped. cbn [conns conn_map_]. rewrite Ek, lookup_delete_eq. by apply bool_decide_eq_false_2.
  - intros b Hne. by eapply (mapped_remove s).
Qed.

Lemma remove_inv hp nm a sys :
  sys_inv hp nm sys → ∃ sys', sys_step (ARemove a) sys = Ok sys' ∧ sys_inv hp nm sys'.
Proof.
  intros Hinv. pose proof Hinv as [Hr Hst Hph]. cbn [sys_step].
  destruct (cells sys !! a) as [x|] eqn:Ea; [|by exists sys]. specialize (Hph a x Ea).
  destruct (mapped (srv sys) a) eqn:Hm; inversion Hph; subst; try by exists sys.
  destruct (remove_mapped hp nm a (srv sys) Hr Hm) as (s' & io & E & Hm1 & Hst' & Hpost & Hoth).
  rewrite E, bind_Ok. eexists. split; [done|]. rewrite Hpost, drop_app_length. cbn [map].
  apply put_inv; [done | by eapply reach_close | by rewrite Hst' | |].
  - done.
  - rewrite Hm1, settle_owned by apply owned_leaving. by apply ph_leaving.
Qed.

Lemma sys_step_inv hp nm m sys :
  (length hp ≤ 21)%nat → sys_inv hp nm sys → enabled m sys →
  memory True (sys_step m sys) (sys_inv hp nm).
Proof.
  intros Hhp Hinv Hen. destruct m as [a p|a nw err|a o|a|a o|a|a| |a m|a]; try done.
  - by apply accept_inv.
  - by apply run_inv.
  - by apply event_inv.
  - by apply hold_inv.
  - by apply call_inv.
  - by apply drop_inv.
  - by apply memory_ok, remove_inv.
Qed.

(** The histories: a running server without connections, and steps that can happen. *)
Inductive sys_reach (hp nm : bytes) : system P → Prop :=
| sys_start s : reachable hp nm s → started_ s ≠ 0 → sys_reach hp nm (mkSystem s ∅)
| sys_next m sys sys' :
    sys_reach hp nm sys → enabled m sys → sys_step m sys = Ok sys' → sys_reach hp nm sys'.

Lemma sys_reach_inv hp nm sys : (length hp ≤ 21)%nat → sys_reach hp nm sys → sys_inv hp nm sys.
Proof.
  intros Hhp. induction 1 as [s Hr Hst|m sys sys' _ IH Hen E].
  - split; [done | done |]. simpl. intros a x Hx. by rewrite lookup_empty in Hx.
  - destruct (sys_step_inv hp nm m sys Hhp IH Hen) as [[_ E2]|(sys2 & E2 & H2)]; congruence.
Qed.



End phases.


(** ** Release *)
Section release.
Context {P : Type} `{!ChannelOps P} `{!ChannelContract P}.
Implicit Types (c : TcpConnection P) (x : cell P) (sys : system P).

Fixpoint run_all (l : list (act P)) sys : outcome (system P) :=
  match l with
  | [] => Ok sys
  | m :: l' => sys' ← sys_step m sys; run_all l' sys'
  end.

(** The functors that wait, and the destruction. *)
Lemma drain hp nm a ws h c sys :
  sys_inv hp nm sys → mapped (srv sys) a = false → state_ c = kDisconnected → fine c →
  forallb is_task ws = true →
  cells sys !! a = Some (mkCell (Some c) (ws ++ [WDestroyed]) 0 false [] h) →
  ∃ sys', run_all (repeat (ARun a 0 0) (S (length ws))) sys = Ok sys' ∧ srv sys' = srv sys ∧
    match h with
    | O => cells sys' !! a = Some (mkCell None [] 0 true [] 0)
    | S _ => ∃ c', cells sys' !! a = Some (mkCell (Some c') [] 0 true [] h)
    end.
Proof.
  revert c sys. induction ws as [|w ws IH]; intros c sys Hinv Hm Hs Hf Hws Ea;
    (destruct (run_unmapped a 0 0 sys c _ h Ea Hs Hf Hws) as (c' & Hs' & Hf' & E));
    (destruct (run_unmapped_inv hp nm a 0 0 sys c _ h Hinv Hm Ea Hs Hf Hws) as (sys1 & E1 & Hinv1));
    rewrite E in E1; injection E1 as <-; cbn [length repeat run_all]; rewrite E, bind_Ok.
  - eexists. split; [done|]. split; [done|]. cbn [cells put]. rewrite lookup_insert_eq.
    unfold settle, owned. rewrite Hm. destruct h as [|h]; cbn; [done | by exists c'].
  - apply andb_true_iff in Hws as [_ Hws].
    destruct (IH c' (put (srv sys) a (mkCell (Some c') (ws ++ [WDestroyed]) 0 false [] h) sys))
      as (sys2 & E2 & Hsrv & H2); try done.
    + cbn [cells put]. by rewrite lookup_insert_eq, settle_owned by apply owned_leaving.
    + exists sys2. by rewrite Hsrv.
Qed.

Lemma run_all_app l1 l2 sys : run_all (l1 ++ l2) sys = run_all l1 sys ≫= run_all l2.
Proof.
  revert sys. induction l1 as [|m l1 IH]; intros sys; [done|]. cbn [app run_all].
  destruct (sys_step m sys) as [sys'|]; [|done]. rewrite !bind_Ok. apply IH.
Qed.

(** The users let go. *)
Lemma holders_dropped a h c sys :
  mapped (srv sys) a = false → cells sys !! a = Some (mkCell (Some c) [] 0 true [] (S h)) →
  ∃ sys', run_all (repeat (ADrop a) (S h)) sys = Ok sys' ∧ cells sys' !! a = Some (mkCell None [] 0 true [] 0).
Proof.
  revert sys. induction h as [|h IH]; intros sys Hm Ea; cbn [repeat run_all sys_step]; rewrite Ea, bind_Ok.
  - eexists. split; [done|]. cbn [cells put]. rewrite lookup_insert_eq. unfold settle, owned. by rewrite Hm.
  - apply IH; [done|]. cbn [cells put]. rewrite lookup_insert_eq. unfold settle, owned. rewrite Hm. done.
Qed.

(** A closed connection is released: whatever is still queued for it, once the server's loop
    has run the removal and its own loop the functors that wait, it is destroyed, and once
    its users have let go of it, it is deleted. *)
Definition release (a : Z) x : list (act P) :=
  ARemove a :: repeat (ARun a 0 0) (length (todo x) + removing x) ++ repeat (ADrop a) (holders x).

Lemma release_leaving hp nm a c ws h sys :
  sys_inv hp nm sys → mapped (srv sys) a = false → state_ c = kDisconnected → fine c →
  forallb is_task ws = true →
  cells sys !! a = Some (mkCell (Some c) (ws ++ [WDestroyed]) 0 false [] h) →
  ∃ sys', run_all (repeat (ARun a 0 0) (length (ws ++ [WDestroyed]) + 0) ++ repeat (ADrop a) h) sys = Ok sys' ∧
    cells sys' !! a = Some (mkCell None [] 0 true [] 0).
Proof.
  intros Hinv Hm Hs Hf Hws Ea. rewrite length_app, Nat.add_0_r, Nat.add_1_r, run_all_app.
  destruct (drain hp nm a ws h c sys Hinv Hm Hs Hf Hws Ea) as (sys1 & -> & Hsrv & H1). rewrite bind_Ok.
  destruct h as [|h]; [by exists sys1|]. destruct H1 as [c' H1]. eapply holders_dropped; [by rewrite Hsrv | exact H1].
Qed.
End release.

(** C9. Every closed connection is released: from any reachable state, running the removal in
    the server's loop and then the functors that wait in the connection's loop (one for each
    that is queued, and the destruction) deletes the object as soon as its users have let go
    of it; none of the functors in front of the destruction has an effect or keeps the
    connection alive. *)
Theorem closed_connection_released {P} `{!ChannelOps P} `{!ChannelContract P} hp nm
    (sys : system P) a x c :
  (length hp ≤ 21)%nat → sys_reach hp nm sys → cells sys !! a = Some x → obj x = Some c →
  state_ c = kDisconnected → cheap_prepend + Zlen (sent_of c) ≤ max_size →
  ∃ sys', run_all (release a x) sys = Ok sys' ∧ cells sys' !! a = Some (mkCell None [] 0 true [] 0).
Proof.
  intros Hhp Hr Ea Ec Hs Hroom. pose proof (sys_reach_inv hp nm sys Hhp Hr) as Hinv.
  pose proof (si_phase _ _ _ Hinv a x Ea) as Hp.
  destruct (remove_inv hp nm a sys Hinv) as (sys1 & E & Hinv1).
  unfold release. cbn [run_all]. rewrite E, bind_Ok. cbn [sys_step] in E. rewrite Ea in E.
  destruct (mapped (srv sys) a) eqn:Hm;
    inversion Hp as [c0 H0|c0 ws h H0|c0 ws h _ Hf Hws|c0 ws h _ Hf Hws|c0 h|]; subst; simpl in Ec; simplify_eq.
  - by rewrite Hs in H0.
  - by destruct H0 as [H0|H0]; rewrite Hs in H0.
  - destruct (remove_mapped hp nm a (srv sys) (si_server _ _ _ Hinv) Hm)
      as (s' & io & E' & Hm' & _ & Hpost & _).
    rewrite E', bind_Ok, Hpost, drop_app_length in E. cbn [map] in E. injection E as <-.
    cbn [todo removing holders].
    replace (length ws + 1)%nat with (length (ws ++ [WDestroyed]) + 0)%nat by (rewrite length_app; simpl; lia).
    eapply (release_leaving hp nm); try done. cbn [cells put].
    by rewrite lookup_insert_eq, settle_owned by apply owned_leaving.
  - by eapply (release_leaving hp nm).
  - cbn [todo removing holders length Nat.add repeat app]. by eapply holders_dropped.
Qed.

(** ** A call of [send] that is overtaken *)
Section race.
Context {P : Type} `{!ChannelOps P} `{!ChannelContract P}.

Lemma put_at s a (x : cell P) sys : cells (put s a x sys) !! a = Some (settle s a x).
Proof. apply lookup_insert_eq. Qed.

Lemma put_owned s a (x : cell P) sys :
  owned s a x = true → ∃ sys', put s a x sys = sys' ∧ srv sys' = s ∧ cells sys' !! a = Some x.
Proof. intros H. eexists. split; [done|]. split; [done|]. by rewrite put_at, settle_owned. Qed.

(** The pool thread tests the state; the peer hangs up, the server removes the connection
    and its loop runs the destruction; the pool thread queues [_send_in_loop] bound to
    [this] and lets go of its pointer; the loop runs the functor. *)
Definition overtaken (a : Z) (m : bytes) : list (act P) :=
  [ACheck a m; AEvent a OHangup; ARemove a; ARun a 0 0; APost a; ARun a 0 0].

Lemma hangup_ok (c : TcpConnection P) :
  fine c → open_state (state_ c) →
  ∃ c', exec OHangup c = Ok c' ∧ state_ c' = kDisconnected ∧ tasks c' = [] ∧
    closes (calls c') = S (closes (calls c)) ∧ ∃ d, conn_destroyed (set_tasks [] c') = Ok d ∧
      tasks d = [] ∧ calls d = calls c'.
Proof.
  intros [Ht [sent Hinv]] Ho. cbn [exec].
  destruct (handle_close_inv sent c Hinv) as (c' & E & Hinv').
  exists c'. destruct (handle_close_moved c c' E) as ([(_ & Hd & Hcl)|([_ H] & _)] & Hs & Ht').
  - split; [done|]. split; [done|]. rewrite Ht'. split; [done|]. split; [done|].
    destruct (fine_absorbed _ _ Hinv') as [_ [sent' Hf]].
    destruct (destroyed_inv _ _ Hf) as (d & Ed & _). exists d. split; [done|].
    revert Ed. unfold conn_destroyed. rewrite bool_decide_eq_false_2 by (simpl; by rewrite Hd).
    rewrite bind_Ok. by intros (p & _ & [= <-])%bind_Ok_inv.
  - specialize (H Hs). by destruct Ho as [Ho|Ho]; rewrite H in Ho.
Qed.
End race.

(** Goes on with the system after a step that leaves the connection an owner. *)
Ltac keep_owned sys Es Ec :=
  match goal with
  | |- context [put ?s ?a ?x ?sys0] => destruct (put_owned s a x sys0) as (sys & -> & Es & Ec)
  end.

(** C10. [send] from another thread is not safe: between its test of the state and the moment
    the loop runs [_send_in_loop], which is bound to the bare [this], the connection can be
    closed, removed, destroyed and deleted. From every reachable state with an open
    connection that has nothing queued and no other user, the interleaving [overtaken] ends in the loop
    calling a member function of a deleted object. *)
Theorem send_race_dangles {P} `{!ChannelOps P} `{!ChannelContract P} hp nm (sys : system P) a c m :
  (length hp ≤ 21)%nat → sys_reach hp nm sys →
  cells sys !! a = Some (mkCell (Some c) [] 0 false [] 0) → connected c = true →
  run_all (overtaken a m) sys = Stop Dangling ∧
  ∃ sys', run_all (take 5 (overtaken a m)) sys = Ok sys' ∧
    cells sys' !! a = Some (mkCell None [WTask (QSend m)] 0 true [] 0).
Proof.
  intros Hhp Hr Ea Hc. pose proof (sys_reach_inv hp nm sys Hhp Hr) as [Hsrv _ Hph].
  specialize (Hph a _ Ea).
  assert (Hphase : mapped (srv sys) a = true ∧ fine c ∧ open_state (state_ c)).
  { apply bool_decide_eq_true in Hc. destruct (mapped (srv sys) a); inversion Hph; try done.
    match goal with H : _ ++ [WDestroyed] = [] |- _ => by apply app_eq_nil in H as [_ ?] end. }
  destruct Hphase as (Hm & Hf & Ho).
  destruct (hangup_ok c Hf Ho) as (c1 & E1 & Hs1 & Ht1 & Hcl1 & d & Ed & Htd & Hcd).
  destruct (remove_mapped hp nm a (srv sys) Hsrv Hm) as (s2 & io & E2 & Hm2 & _ & Hpost & _).
  assert (Hrun : ∃ sys', run_all (take 5 (overtaken a m)) sys = Ok sys' ∧
    cells sys' !! a = Some (mkCell None [WTask (QSend m)] 0 true [] 0)).
  { unfold overtaken. cbn [take run_all sys_step]. rewrite Ea, Hc, bind_Ok. change ([] ++ [m]) with [m].
    keep_owned sys1 Es1 Ec1; [by apply owned_mapped|].
    unfold on_object. rewrite Ec1. cbn [obj]. rewrite E1, !bind_Ok. unfold absorb. cbn [todo removing gone senders holders].
    rewrite Hcl1, Nat.sub_succ_l, Nat.sub_diag, Ht1, Es1 by lia. cbn [Nat.add map app].
    keep_owned sys2 Es2 Ec2; [by apply owned_mapped|].
    rewrite Ec2, Es2, E2, !bind_Ok, Hpost, drop_app_length. cbn [map app].
    keep_owned sys3 Es3 Ec3; [unfold owned; simpl; by rewrite !orb_true_r|].
    rewrite Ec3. cbn [run_work]. rewrite Ed, !bind_Ok, Es3, Htd. simpl (calls (set_tasks _ _)).
    rewrite Hcd, Nat.sub_diag. cbn [map app orb Nat.add].
    keep_owned sys4 Es4 Ec4; [unfold owned; simpl; by rewrite !orb_true_r|].
    rewrite Ec4, bind_Ok, Es4. eexists. split; [done|]. rewrite put_at. unfold settle, owned.
    by rewrite Hm2. }
  split; [|exact Hrun]. destruct Hrun as (sys' & E & Ecell).
  change (@overtaken P a m) with (take 5 (@overtaken P a m) ++ [ARun a 0 0]).
  rewrite run_all_app, E, bind_Ok. cbn [run_all sys_step]. by rewrite Ecell.
Qed.

(** ** An example: one connection, on a channel that is only its event set *)
Module OneClient.
Definition hp : bytes := lit "0.0.0.0:20000".
Definition started : system Z :=
  mkSystem (start (λ i, 50 + Z.of_nat i) 2 (TcpServer_ctor 7 hp (lit "chat"))) ∅.

Lemma started_reach : sys_reach hp (lit "chat") started.
Proof. apply sys_start; [|done]. apply reach_begin; [apply reach_ctor | simpl; lia]. Qed.

Definition step_or (m : act Z) (sys : system Z) : system Z :=
  match sys_step m sys with Ok s => s | Stop _ => sys end.

Definition accepted1 : system Z := step_or (AAccept 900 0) started.
Definition open1 : system Z := step_or (ARun 900 0 0) accepted1.
Definition closed1 : system Z := step_or (AEvent 900 OHangup) open1.

Lemma step_reach m sys :
  sys_reach hp (lit "chat") sys → enabled m sys → sys_reach hp (lit "chat") (step_or m sys).
Proof.
  intros Hr Hen. assert (Hhp : (length hp ≤ 21)%nat) by (vm_compute; lia).
  unfold step_or. destruct (sys_step m sys) as [sys'|] eqn:E; [by eapply sys_next | done].
Qed.

Lemma accepted_reach : sys_reach hp (lit "chat") accepted1.
Proof. apply step_reach; [apply started_reach|]. split; [exact I|]. split; [done|]. by split. Qed.

Lemma open_reach : sys_reach hp (lit "chat") open1.
Proof.
  apply step_reach; [apply accepted_reach|].
  intros c t ws r g sd h E. vm_compute in E. discriminate E.
Qed.

Lemma hangup_enabled : enabled (AEvent 900 OHangup) open1.
Proof.
  split; [done|]. eexists. split; [vm_compute; reflexivity|]. split; [done|].
  intros c Hc. simpl in Hc. injection Hc as <-. split; [discriminate | exact I].
Qed.

Lemma closed_reach : sys_reach hp (lit "chat") closed1.
Proof. apply step_reach; [apply open_reach | apply hangup_enabled]. Qed.
End OneClient.


(** Why the server must not be stopped: [stop] queues the destruction of an open connection.
    Here the server has no worker threads, a user asks another thread to send and lets go of
    the connection; its loop destroys it, and then runs [_send_in_loop] on it. *)
Definition stop_under_send : list (act Z) :=
  [AAccept 900 0; ARun 900 0 0; AHold 900; AStop; ACall 900 (OSend false (lit "hi") 0 0); ADrop 900; ARun 900 0 0].
Example stop_strands_send :
  let sys := mkSystem (start (λ i, 50 + Z.of_nat i) 0 (TcpServer_ctor 7 OneClient.hp (lit "chat"))) ∅ in
  (λ s, (srv s).(started_)) <$> run_all stop_under_send sys = Ok 0 ∧
  run_all (stop_under_send ++ [ARun 900 0 0]) sys = Stop Dangling.
Proof. vm_compute. done. Qed.

Lemma closed_connection_released_witness :
  ∃ x sys', cells OneClient.closed1 !! 900 = Some x ∧
    run_all (release 900 x) OneClient.closed1 = Ok sys' ∧
    cells sys' !! 900 = Some (mkCell None [] 0 true [] 0).
Proof.
  destruct (cells OneClient.closed1 !! 900) as [x|] eqn:Ex; [|vm_compute in Ex; discriminate].
  destruct (obj x) as [c|] eqn:Ec.
  - destruct (closed_connection_released OneClient.hp (lit "chat") OneClient.closed1 900 x c)
      as (sys' & E & H); [vm_compute; lia | apply OneClient.closed_reach | exact Ex | exact Ec | | |].
    + vm_compute in Ex. injection Ex as <-. simpl in Ec. by injection Ec as <-.
    + vm_compute in Ex. injection Ex as <-. simpl in Ec. injection Ec as <-. by vm_compute.
    + exists x, sys'. by split.
  - exfalso. vm_compute in Ex. injection Ex as <-. done.
Defined.

Lemma send_race_dangles_witness :
  run_all (overtaken 900 (lit "hi")) OneClient.open1 = Stop Dangling.
Proof.
  destruct (cells OneClient.open1 !! 900) as [x|] eqn:Ex; [|vm_compute in Ex; discriminate].
  destruct (obj x) as [c|] eqn:Ec.
  - assert (E : x = mkCell (Some c) [] 0 false [] 0).
    { vm_compute in Ex. injection Ex as <-. simpl in Ec. by injection Ec as <-. }
    rewrite E in Ex.
    destruct (send_race_dangles OneClient.hp (lit "chat") OneClient.open1 900 c (lit "hi"))
      as [H _]; [vm_compute; lia | apply OneClient.open_reach | exact Ex | | exact H].
    vm_compute in Ex. by injection Ex as <-.
  - exfalso. vm_compute in Ex. injection Ex as <-. done.
Defined.
