(* ===== verification/Reactor.v ===== *)
(** * One loop with its connections: [EventLoop::loop], [EpollPoller], [Channel] and
    [TcpConnection] as one system

    The connections of a loop share its poller: an operation on the connection at address [a]
    is the operation of [TcpConnection] on the channel at [a] of this poller ([on]). A turn of
    the loop ([turn]) polls, handles the active channels one after the other, each through the
    callbacks its constructor registered, and runs the functors that were queued; callbacks of
    the user act on any connections of the loop while they are called. The timers of an
    iteration are added in [TimedLoop]; the counter of the eventfd, the races for the queue
    and the frame functor, which nothing sets, are in [EventLoop]; who owns a connection is
    the subject of [Lifetime].

    [conn] of a node has no channel of its own: the channel is in the poller. *)
From S2P Require Import Prelude ByteBuffer Poller TcpConnection Lifetime.

(** The callbacks of the channels: of the connection at [a], and of the eventfd. *)
Inductive cb := CbRead (a : Z) | CbWrite (a : Z) | CbClose (a : Z) | CbError (a : Z) | CbWakeup.

Definition cb_conn (k : cb) : option Z :=
  match k with CbRead a | CbWrite a | CbClose a | CbError a => Some a | CbWakeup => None end.

Record node := mkNode {
  conn : TcpConnection unit;
  destroyed : bool;                    (* [conn_destroyed] has run *)
}.

Record reactor := mkReactor {
  poller_ : EpollPoller cb;
  nodes : gmap Z node;
  pending : list (Z * work);           (* [pending_functors_] *)
  closing : list Z;                    (* [remove_conn_in_loop] waits in the server's loop *)
}.

Definition set_poller (p : EpollPoller cb) (s : reactor) : reactor :=
  mkReactor p (nodes s) (pending s) (closing s).
Definition set_nodes (m : gmap Z node) (s : reactor) : reactor :=
  mkReactor (poller_ s) m (pending s) (closing s).
Definition set_pending (l : list (Z * work)) (s : reactor) : reactor :=
  mkReactor (poller_ s) (nodes s) l (closing s).
Definition set_closing (l : list Z) (s : reactor) : reactor :=
  mkReactor (poller_ s) (nodes s) (pending s) l.

(** The connection [c] with the channel [p]. *)
Definition on {P Q} (p : Q) (c : TcpConnection P) : TcpConnection Q :=
  mkConn (state_ c) p (high_water_mark_ c) (input_buffer_ c) (output_buffer_ c)
    (write_complete_callback_ c) (high_water_mark_callback_ c) (wire c) (wr_shut c) (tasks c) (calls c).

(** What user code calls on a connection. *)
Inductive user_op := USend (message : bytes) | UShutdown | UForceClose
| USetWriteComplete (b : bool) | USetHighWaterMark (n : Z) | UConsume (n : Z).

Section reactor.
(** [ctl] is [epoll_ctl]; [this] the address of the loop; [same_loop] says whether it is the
    server's loop. *)
Context (ctl : epoll_op → Z → Z * Z → interest → option interest) (this : Z) (same_loop : bool).

(** What the outside does during a turn: what a callback of the user calls, and what
    [read] and [write] answer. *)
Record env := mkEnv {
  react : Z → user_call → reactor → list (Z * user_op);
  rd : Z → TcpConnection unit → Z * Z * bytes;              (* result, errno, array read into *)
  wr : Z → TcpConnection unit → bytes → Z * Z;              (* result, errno *)
}.

(** ** An operation on a connection of the loop *)
Definition get (a : Z) (s : reactor) : outcome node :=
  match nodes s !! a with Some n => Ok n | None => Stop Dangling end.

(** The connection [c] is stored at [a]; the functors it queued go to the loop's queue. *)
Definition write_back (a : Z) (n : node) (c : TcpConnection (EpollPoller cb)) (s : reactor) : reactor :=
  mkReactor (channel_ c) (<[a := mkNode (on () (set_tasks [] c)) (destroyed n)]> (nodes s))
    (pending s ++ map (λ t, (a, WTask t)) (tasks c)) (closing s).

(** The second component is the calls of callbacks the operation makes. *)
Definition operate (a : Z) (o : conn_op) (ts : list task) (s : reactor)
    : outcome (reactor * list user_call) :=
  n ← get a s;
  c ← @exec _ (epoll_channel_ops ctl a) o (set_tasks ts (on (poller_ s) (conn n)));
  Ok (write_back a n c s, drop (length (calls (conn n))) (calls c)).

Section turn.
Context (e : env).

(** A call of the user in the loop's thread. *)
Definition user_conn_op (b : Z) (u : user_op) (c : TcpConnection unit) : conn_op :=
  match u with
  | USend m => OSend true m (wr e b c m).1 (wr e b c m).2
  | UShutdown => OShutdown true
  | UForceClose => OForceClose
  | USetWriteComplete x => OSetWriteComplete x
  | USetHighWaterMark x => OSetHighWaterMark x
  | UConsume x => OConsume x
  end.

Definition user_call_op (bu : Z * user_op) (s : reactor) : outcome reactor :=
  n ← get bu.1 s; fst <$> operate bu.1 (user_conn_op bu.1 bu.2 (conn n)) [] s.

(** A callback: the close callback is [TcpServer::remove_conn], the others are the user's. *)
Definition callback (a : Z) (k : user_call) (s : reactor) : outcome reactor :=
  match k with
  | CallClose => Ok (if same_loop then set_pending (pending s ++ [(a, WDestroyed)]) s
                     else set_closing (closing s ++ [a]) s)
  | _ => each user_call_op (react e a k s) s
  end.

Definition run_op (a : Z) (o : conn_op) (ts : list task) (s : reactor) : outcome reactor :=
  '(s1, ks) ← operate a o ts s; each (callback a) ks s1.

(** ** A turn of the loop *)
Definition call (k : cb) (s : reactor) : outcome reactor :=
  match k with
  | CbRead a => n ← get a s; let '(r, err, x) := rd e a (conn n) in run_op a (OReadable r err x) [] s
  | CbWrite a => n ← get a s; run_op a (OWritable (wr e a (conn n) (content (output_buffer_ (conn n)))).1) [] s
  | CbClose a => run_op a OHangup [] s
  | CbError a => run_op a OError [] s
  | CbWakeup => Ok s
  end.

Definition handle_channel (a : Z) (s : reactor) : outcome reactor :=
  handle_event (λ s, deref a (poller_ s)) call s.

Definition mark_destroyed (a : Z) (s : reactor) : reactor :=
  set_nodes (alter (λ n, mkNode (conn n) true) a (nodes s)) s.

Definition run_functor (f : Z * work) (s : reactor) : outcome reactor :=
  let a := f.1 in
  match f.2 with
  | WEstablished => run_op a OEstablished [] s
  | WDestroyed => mark_destroyed a <$> run_op a ODestroyed [] s
  | WTask t =>
      n ← get a s;
      let '(nw, err) := match t with QSend m => wr e a (conn n) m | _ => (0, 0) end in
      run_op a (OTask nw err) [t] s
  end.

(** [do_other_tasks]: the queue is swapped with a local vector first. *)
Definition do_other_tasks (s : reactor) : outcome reactor :=
  each run_functor (pending s) (set_pending [] s).

Definition turn (evs : list (Z * Z)) (s : reactor) : outcome reactor :=
  '(active, p) ← poll (Zlen evs) evs (poller_ s);
  _ ← print_active_channels active p;
  s1 ← each handle_channel active (set_poller p s);
  do_other_tasks s1.
End turn.

(** ** What happens between turns *)

(** The constructor of the loop registers the eventfd [wfd]; its channel is at [w]. *)
Definition reactor_ctor (w wfd : Z) : outcome reactor :=
  '(_, p) ← enable_reading ctl w
              (store w (set_callbacks (Some CbWakeup) None None None (Channel_ctor this wfd)) EpollPoller_ctor);
  Ok (mkReactor p ∅ [] []).

(** The constructor of a connection for the descriptor [fd]. *)
Definition new_node (a fd : Z) (s : reactor) : reactor :=
  mkReactor
    (store a (set_callbacks (Some (CbRead a)) (Some (CbWrite a)) (Some (CbClose a)) (Some (CbError a))
                (Channel_ctor this fd)) (poller_ s))
    (<[a := mkNode (TcpConnection_ctor ()) false]> (nodes s)) (pending s) (closing s).

(** [TcpServer::new_conn]: [run_in_loop] calls [conn_established] at once in the server's own
    loop and queues it for another one. *)
Definition accept_conn (e : env) (a fd : Z) (s : reactor) : outcome reactor :=
  let s1 := new_node a fd s in
  if same_loop then run_op e a OEstablished [] s1
  else Ok (set_pending (pending s1 ++ [(a, WEstablished)]) s1).

(** A call of the user from another thread. *)
Definition foreign_call (a : Z) (u : user_op) (s : reactor) : outcome reactor :=
  let o := match u with
           | USend m => OSend false m 0 0
           | UShutdown => OShutdown false
           | UForceClose => OForceClose
           | USetWriteComplete x => OSetWriteComplete x
           | USetHighWaterMark x => OSetHighWaterMark x
           | UConsume x => OConsume x
           end in
  fst <$> operate a o [] s.

(** The server's loop runs [remove_conn_in_loop] for the next connection. *)
Definition post_destroyed (s : reactor) : reactor :=
  match closing s with
  | [] => s
  | a :: l => set_closing l (set_pending (pending s ++ [(a, WDestroyed)]) s)
  end.

(** The last owner of a connection is gone: the channel is freed and the descriptor closed. *)
Definition delete_conn (a : Z) (s : reactor) : outcome reactor :=
  ch ← deref a (poller_ s);
  Ok (mkReactor (mkPoller (delete a (chans (poller_ s))) (channels_ (poller_ s)) (events_size (poller_ s))
                   (delete (fd_ ch) (kernel (poller_ s))))
        (delete a (nodes s)) (pending s) (closing s)).
End reactor.

(** What users call makes no callback in the call itself: callbacks are queued. So
    [user_call_op] and [foreign_call] drop none. *)
Lemma user_ops_call_nothing {P} `{!ChannelOps P} o (c c' : TcpConnection P) :
  match o with OSend _ _ _ _ | OShutdown _ | OForceClose | OSetWriteComplete _ | OSetHighWaterMark _ | OConsume _ => True | _ => False end →
  exec o c = Ok c' → calls c' = calls c.
Proof.
  destruct o as [|in_loop m nw err| | | | | |in_loop| | |b|n|j]; try done; intros _; cbn [exec].
  - unfold send, _send_in_loop, direct_write, buffer_remaining. intros E.
    repeat first [case_match | apply bind_Ok_inv in E as (? & ? & E)]; simplify_eq; done.
  - intros [= <-]. unfold shutdown, _shutdown_in_loop. by repeat case_match.
  - intros [= <-]. unfold force_close. by case_match.
  - by intros [= <-].
  - by intros [= <-].
  - by intros [= <-].
Qed.

(** ** The poller of a loop

    Channels have different descriptors. *)
Definition uniq (p : EpollPoller cb) : Prop :=
  ∀ a b c d, chans p !! a = Some c → chans p !! b = Some d → fd_ c = fd_ d → a = b.

(** Everything of a channel but its events and its index. *)
Definition shape (c : Channel cb) :=
  (loop_ c, fd_ c, revents_ c, (read_callback_ c, write_callback_ c, close_callback_ c, error_callback_ c)).

(** A property [good] of pollers that the operations on channels keep: nothing at all for
    any epoll instance, and agreement with the interest set for an ideal one. *)
Class KernelKeeps (ctl : epoll_op → Z → Z * Z → interest → option interest)
    (good : EpollPoller cb → Prop) : Prop := {
  keeps_ctl :: EpollCtl ctl;
  keeps_ctor : good EpollPoller_ctor;
  keeps_events f a c p b p' : pwf p → uniq p → good p → chans p !! a = Some c →
    with_events ctl f a p = Ok (b, p') → good p';
  keeps_remove a c p p' : pwf p → good p → chans p !! a = Some c →
    Channel_remove ctl a p = Ok p' → good p';
  keeps_new a c p : pwf p → good p → chans p !! a = None → events_ c = none_event_ → good (store a c p);
  keeps_free a c p : pwf p → uniq p → good p → chans p !! a = Some c → index_ c = new_ →
    good (mkPoller (delete a (chans p)) (channels_ p) (events_size p) (delete (fd_ c) (kernel p)));
  keeps_revents a c ev p : pwf p → good p → chans p !! a = Some c → good (store a (set_revents ev c) p);
  keeps_size n p : good p → good (set_size n p);
}.

#[export] Instance any_kernel ctl `{!EpollCtl ctl} : KernelKeeps ctl (λ _, True).
Proof. by split. Qed.

(** A descriptor of which the poller knows is known under the channel that has it. *)
Lemma uniq_registered a c p :
  pwf p → uniq p → chans p !! a = Some c →
  channels_ p !! fd_ c = None ∨ channels_ p !! fd_ c = Some a.
Proof.
  intros Hwf Hu Ha. destruct (channels_ p !! fd_ c) as [b|] eqn:Hb; [right | by left].
  destruct (pwf_map p Hwf _ _ Hb) as (d & Hd & Hf & _). f_equal. by eapply Hu.
Qed.

Lemma wanted_ext (p p' : EpollPoller cb) :
  channels_ p' = channels_ p →
  (∀ fd a, channels_ p !! fd = Some a →
     (λ c, (index_ c, events_ c)) <$> chans p' !! a = (λ c, (index_ c, events_ c)) <$> chans p !! a) →
  ∀ fd, wanted p' fd = wanted p fd.
Proof.
  intros Hc Hch fd. unfold wanted. rewrite Hc. destruct (channels_ p !! fd) as [a|] eqn:E; [|done].
  specialize (Hch fd a E). destruct (chans p' !! a), (chans p !! a); try done.
  by injection Hch as -> ->.
Qed.

Section working_kernel.
Context (ctl : epoll_op → Z → Z * Z → interest → option interest) `{!EpollWorks ctl}.

Lemma remove_sync a c (p p' : EpollPoller cb) :
  pwf p → in_sync p → chans p !! a = Some c → Channel_remove ctl a p = Ok p' → in_sync p'.
Proof.
  intros Hwf Hs Ha. unfold Channel_remove, EventLoop_remove_channel, remove_channel.
  rewrite !(deref_ok a c) by done. cbn [mbind outcome_bind]. rewrite Z.eqb_refl. cbn [negb].
  destruct (is_event_none c) eqn:He; [|by intros [= <-]]. cbn [negb orb]. rewrite orb_false_r.
  case_bool_decide as Hm; [|by intros [= <-]]. cbn [negb].
  destruct (negb (index_ c =? added_) && negb (index_ c =? deleted_)) eqn:Hix; [by intros [= <-]|].
  pose proof (Hs (fd_ c)) as Hk. unfold wanted in Hk. rewrite Hm, Ha in Hk.
  assert (Hout : ∀ k, k !! fd_ c = None → (∀ fd, fd ≠ fd_ c → k !! fd = kernel p !! fd) →
    in_sync (mkPoller (<[a := set_index new_ c]> (chans p)) (delete (fd_ c) (channels_ p)) (events_size p) k)).
  { intros k Hk0 Hk1 fd. destruct (decide (fd = fd_ c)) as [->|Hne].
    - simpl. rewrite Hk0. unfold wanted. simpl. by rewrite lookup_delete_eq.
    - rewrite (wanted_frame p a c) by (done || by rewrite lookup_delete_ne). simpl. by rewrite Hk1. }
  destruct (index_ c =? added_) eqn:Hadd.
  - unfold EpollPoller__update. rewrite (deref_ok a c) by done. cbn [mbind outcome_bind].
    cbn. rewrite (works_del_eq _ _ _ _ _ Hk). cbn [fmap outcome_fmap snd mbind outcome_bind].
    rewrite (deref_ok a c) by done. cbn [mbind outcome_bind]. intros [= <-].
    apply (Hout (delete (fd_ c) (kernel p))); [apply lookup_delete_eq|].
    intros fd Hne. by rewrite lookup_delete_ne.
  - cbn [mbind outcome_bind]. rewrite (deref_ok a c) by done. cbn [mbind outcome_bind].
    intros [= <-]. by apply Hout.
Qed.

(** The interest set is the one the channels ask for, and every channel that asks for events
    is in it. *)
Definition synced (p : EpollPoller cb) : Prop :=
  in_sync p ∧
  ∀ a c, chans p !! a = Some c → events_ c ≠ none_event_ →
    index_ c = added_ ∧ channels_ p !! fd_ c = Some a.

Lemma synced_kernel a c p :
  synced p → chans p !! a = Some c → events_ c ≠ none_event_ → kernel p !! fd_ c = Some (events_ c, a).
Proof.
  intros [Hs Hl] Ha He. destruct (Hl a c Ha He) as [Hix Hch]. rewrite Hs. unfold wanted.
  by rewrite Hch, Ha, Hix.
Qed.

Lemma synced_events f a c p b p' :
  pwf p → uniq p → synced p → chans p !! a = Some c → with_events ctl f a p = Ok (b, p') → synced p'.
Proof.
  intros Hwf Hu [Hs Hl] Ha E. pose proof (uniq_registered a c p Hwf Hu Ha) as Hreg.
  destruct (events_in_sync ctl f a c p Hwf Hs Ha Hreg) as (p1 & E1 & _ & H1 & _).
  assert (p1 = p') as -> by congruence. split; [done|].
  rewrite (with_events_works ctl f a c p Hwf Hs Ha Hreg) in E. cbv zeta in E. injection E as _ <-. simpl.
  intros x d [[<- <-]|[Hne Hx]]%lookup_insert_Some He; simpl in *.
  - rewrite lookup_insert_eq. split; [|done]. by destruct (Z.eqb_spec (f (events_ c)) none_event_).
  - destruct (Hl x d Hx He) as [Hix Hch]. split; [done|]. rewrite lookup_insert_ne; [done|].
    intros Hf. apply Hne. by eapply Hu.
Qed.

Lemma synced_remove a c p p' :
  pwf p → synced p → chans p !! a = Some c → Channel_remove ctl a p = Ok p' → synced p'.
Proof.
  intros Hwf [Hs Hl] Ha E. split; [by eapply (remove_sync a c p)|].
  destruct (pwf_Channel_remove ctl a c p Hwf Ha) as (p1 & E1 & Hwf' & (Ho & d & i & Hd & Hd') & _).
  assert (p1 = p') as -> by congruence. assert (d = c) as -> by congruence.
  destruct (decide (events_ c = none_event_)) as [He|He].
  - intros x y Hx Hy. destruct (decide (x = a)) as [->|Hne].
    { rewrite Hd' in Hx. injection Hx as <-. done. }
    rewrite Ho in Hx by done. destruct (Hl x y Hx Hy) as [Hix _]. split; [done|].
    destruct (pwf_index p' Hwf' x y) as [Hn|[_ ?]]; [by rewrite Ho | | done].
    rewrite Hix in Hn. done.
  - revert E. unfold Channel_remove. rewrite (deref_ok a c) by done. cbn [mbind outcome_bind].
    unfold is_event_none. destruct (Z.eqb_spec (events_ c) none_event_); [done|]. by intros [= <-].
Qed.

#[export] Instance working_kernel : KernelKeeps ctl synced.
Proof.
  split.
  - apply _.
  - split; [by intros fd | intros a c Ha; simpl in Ha; by rewrite lookup_empty in Ha].
  - apply synced_events.
  - apply synced_remove.
  - intros a c p Hwf [Hs Hl] Ha He. split.
    + intros fd. simpl. rewrite Hs. symmetry. apply wanted_ext; [done|].
      intros fd' b Hb. simpl. rewrite lookup_insert_ne; [done|]. intros ->.
      destruct (pwf_map p Hwf _ _ Hb) as (d & Hd & _). congruence.
    + simpl. intros x d [[<- <-]|[_ Hx]]%lookup_insert_Some; [done | by apply Hl].
  - intros a c p Hwf Hu [Hs Hl] Ha Hix.
    assert (Hn : ∀ fd' b, channels_ p !! fd' = Some b → b ≠ a).
    { intros fd' b Hb ->. destruct (pwf_map p Hwf _ _ Hb) as (d & Hd & _ & Hdx).
      assert (d = c) as -> by congruence. unfold new_, added_, deleted_ in *. lia. }
    split; [|simpl; intros x d [_ Hx]%lookup_delete_Some; by apply Hl].
    intros fd. simpl. transitivity (wanted p fd).
    + destruct (decide (fd = fd_ c)) as [->|Hne]; [|by rewrite lookup_delete_ne].
      rewrite lookup_delete_eq. unfold wanted. destruct (channels_ p !! fd_ c) as [b|] eqn:Hb; [|done].
      destruct (uniq_registered a c p Hwf Hu Ha) as [?|Ha']; [congruence|].
      exfalso. apply (Hn (fd_ c) a); congruence.
    + symmetry. apply wanted_ext; [done|]. intros fd' b Hb. simpl.
      by rewrite lookup_delete_ne by (by eapply not_eq_sym, Hn).
  - intros a c ev p Hwf [Hs Hl] Ha. split.
    + intros fd. simpl. rewrite Hs. symmetry. apply wanted_ext; [done|].
      intros fd' b Hb. simpl. destruct (decide (a = b)) as [->|];
        [by rewrite lookup_insert_eq, Ha | by rewrite lookup_insert_ne].
    + simpl. intros x d [[<- <-]|[_ Hx]]%lookup_insert_Some; [by apply (Hl a c) | by apply Hl].
  - by intros n p [Hs Hl].
Qed.
End working_kernel.

(** ** What users restrict themselves to

    When callbacks call operations in [U] only, a property [J] of connections and a property
    [T] of the functors they queue can be kept. *)
Definition permits (U : user_op → Prop) (o : conn_op) : Prop :=
  match o with
  | OSend _ m _ _ => U (USend m)
  | OShutdown _ => U UShutdown
  | OForceClose => U UForceClose
  | OSetWriteComplete b => U (USetWriteComplete b)
  | OSetHighWaterMark n => U (USetHighWaterMark n)
  | OConsume n => U (UConsume n)
  | _ => True
  end.

Class Policy (U : user_op → Prop) (J : TcpConnection unit → Prop) (T : task → Prop) : Prop := {
  policy_ctor : J (TcpConnection_ctor ());
  policy_exec {P} `{!ChannelOps P} `{!ChannelContract P} sent o (c c' : TcpConnection P) :
    conn_inv sent c → J (on () (set_tasks [] c)) → Forall T (tasks c) → permits U o →
    exec o c = Ok c' → J (on () (set_tasks [] c')) ∧ Forall T (tasks c');
}.

#[export] Instance any_policy : Policy (λ _, True) (λ _, True) (λ _, True).
Proof. split; [done|]. intros. split; [done|]. by apply Forall_true. Qed.

(** A functor that holds a bare [this] waits for a connection that was deleted. *)
Definition stranded (s : reactor) : Prop :=
  ∃ a w, (a, w) ∈ pending s ∧ owning w = false ∧ nodes s !! a = None.

(** The computation returns a value with [Q], or [std::length_error] leaves it, or it uses an
    object that was deleted, and the last only if [D]. *)
Definition memory_but {A} (D : Prop) (m : outcome A) (Q : A → Prop) : Prop :=
  (D ∧ m = Stop Dangling) ∨ memory True m Q.

(** ** The invariant *)
Section invariant.
Context (ctl : epoll_op → Z → Z * Z → interest → option interest) (good : EpollPoller cb → Prop)
  `{!KernelKeeps ctl good} (U : user_op → Prop) (J : TcpConnection unit → Prop) (T : task → Prop)
  `{!Policy U J T}.
Implicit Types (p : EpollPoller cb) (s : reactor) (l : list (Z * work)).

(** What a connection at [a] relies on and guarantees: the poller is in order, and of the
    channels [m0] only [a] has changed, in its events and its index. *)
Definition chan_ok (a : Z) (m0 : gmap Z (Channel cb)) p : Prop :=
  pwf p ∧ good p ∧ uniq p ∧ (∀ b, b ≠ a → chans p !! b = m0 !! b) ∧
  ∃ c0 c, m0 !! a = Some c0 ∧ chans p !! a = Some c ∧ shape c = shape c0.

Lemma uniq_frame a c c' p p' :
  uniq p → chans p !! a = Some c → chans p' !! a = Some c' → fd_ c' = fd_ c →
  (∀ b, b ≠ a → chans p' !! b = chans p !! b) → uniq p'.
Proof.
  intros Hu Ha Ha' Hf Ho x y d1 d2 H1 H2 E.
  assert (Hold : ∀ z d, chans p' !! z = Some d → ∃ d0, chans p !! z = Some d0 ∧ fd_ d0 = fd_ d).
  { intros z d Hz. destruct (decide (z = a)) as [->|Hne]; [|rewrite Ho in Hz by done; eauto].
    exists c. split; [done|]. congruence. }
  destruct (Hold x d1 H1) as (e1 & ? & ?), (Hold y d2 H2) as (e2 & ? & ?).
  apply (Hu x y e1 e2); congruence.
Qed.

Lemma chan_ok_refl a c p : pwf p → good p → uniq p → chans p !! a = Some c → chan_ok a (chans p) p.
Proof. intros Hw Hg Hu Ha. do 4 (split; [done|]). eauto. Qed.

Lemma chan_ok_events a m0 f p :
  chan_ok a m0 p → ∃ b p', with_events ctl f a p = Ok (b, p') ∧ chan_ok a m0 p' ∧
    @ch_events _ (epoll_channel_ops ctl a) p' = f (@ch_events _ (epoll_channel_ops ctl a) p).
Proof.
  intros (Hw & Hg & Hu & Ho & c0 & c & H0 & Ha & Hsh).
  destruct (pwf_with_events ctl f a c p Hw Ha) as (b & p' & E & Hw' & Ho' & i & Ha').
  exists b, p'. split; [done|]. split; [|simpl; by rewrite Ha, Ha'].
  split; [done|]. split; [by apply (keeps_events f a c p b p')|].
  split; [by eapply (uniq_frame a c _ p p')|]. split; [intros d Hd; rewrite Ho' by done; by apply Ho|].
  by exists c0, (set_index i (set_events (f (events_ c)) c)).
Qed.

Definition shared_contract (a : Z) (m0 : gmap Z (Channel cb)) :
  @ChannelContract (EpollPoller cb) (epoll_channel_ops ctl a).
Proof.
  refine (@Build_ChannelContract _ (epoll_channel_ops ctl a) (chan_ok a m0) _ _ _ _ _);
    try (intros p Hp; by apply chan_ok_events).
  intros p (Hw & Hg & Hu & Ho & c0 & c & H0 & Ha & Hsh).
  destruct (pwf_Channel_remove ctl a c p Hw Ha) as (p' & E & Hw' & (Ho' & d & i & Hd & Hd') & _).
  assert (d = c) as -> by congruence. exists p'. split; [done|]. split; [|simpl; by rewrite Ha, Hd'].
  split; [done|]. split; [by apply (keeps_remove a c p p')|].
  split; [by eapply (uniq_frame a c _ p p')|]. split; [intros b Hb; rewrite Ho' by done; by apply Ho|].
  by exists c0, (set_index i c).
Defined.

(** The invariant of [TcpConnection] for the connection [c] at [a], on the poller [p]. *)
Definition conn_on (a : Z) (m0 : gmap Z (Channel cb)) (sent : bytes) (c : TcpConnection (EpollPoller cb)) : Prop :=
  @conn_inv _ (epoll_channel_ops ctl a) (shared_contract a m0) sent c.

(** It depends on the poller through the events of the channel at [a] only. *)
Definition events_at (a : Z) p : Z := @ch_events _ (epoll_channel_ops ctl a) p.

Lemma conn_on_move a m0 m1 sent p' c :
  conn_on a m0 sent c → chan_ok a m1 p' → events_at a p' = events_at a (channel_ c) →
  conn_on a m1 sent (set_channel p' c).
Proof.
  intros [[_ Hwf Hst Hroom Hwr Hcl] Hin Hlife] Hp E. unfold events_at in E.
  split; [split; try done|done|done].
  - intros Hs. unfold writing. cbn [channel_ set_channel]. rewrite E. by apply Hwr.
  - intros Hs. cbn [channel_ set_channel]. rewrite E. by apply Hcl.
Qed.

Definition work_fits (w : work) : Prop := match w with WTask t => task_fits t ∧ T t | _ => True end.
Definition cbs (ch : Channel cb) : list cb :=
  omap id [read_callback_ ch; write_callback_ ch; close_callback_ ch; error_callback_ ch].

(** [l] are functors that left the queue in this turn. *)
Record node_ok l s (a : Z) (n : node) : Prop := {
  no_inv : ∃ sent, conn_on a (chans (poller_ s)) sent (on (poller_ s) (conn n));
  no_tasks : tasks (conn n) = [];
  no_policy : J (conn n);
  no_closed : (a, WDestroyed) ∈ l ++ pending s ∨ a ∈ closing s ∨ destroyed n = true →
    state_ (conn n) = kDisconnected;
  no_gone : destroyed n = true → ∃ ch, chans (poller_ s) !! a = Some ch ∧ index_ ch = new_;
  no_cbs : ∀ ch, chans (poller_ s) !! a = Some ch → cbs ch = [CbRead a; CbWrite a; CbClose a; CbError a];
}.

Record rinv l s : Prop := {
  ri_pwf : pwf (poller_ s);
  ri_good : good (poller_ s);
  ri_uniq : uniq (poller_ s);
  ri_nodes : ∀ a n, nodes s !! a = Some n → node_ok l s a n;
  ri_cbs : ∀ a ch k b, chans (poller_ s) !! a = Some ch → k ∈ cbs ch → cb_conn k = Some b →
    b = a ∧ is_Some (nodes s !! a);
  ri_queued : ∀ a w, (a, w) ∈ l ++ pending s → (is_Some (nodes s !! a) ∨ owning w = false) ∧ work_fits w;
  ri_closing : ∀ a, a ∈ closing s → is_Some (nodes s !! a);
}.

(** No connection and no channel appears or disappears, closed connections stay closed, and
    only connections that exist queue functors. *)
Definition later s s' : Prop :=
  dom (nodes s') = dom (nodes s) ∧ dom (chans (poller_ s')) = dom (chans (poller_ s)) ∧
  (∀ a n n', nodes s !! a = Some n → nodes s' !! a = Some n' →
     state_ (conn n) = kDisconnected → state_ (conn n') = kDisconnected) ∧
  (∀ f, f ∈ pending s' → f ∈ pending s ∨ is_Some (nodes s !! f.1)).

Lemma later_refl s : later s s.
Proof. split; [done|]. split; [done|]. split; [congruence | auto]. Qed.

Lemma later_trans s1 s2 s3 : later s1 s2 → later s2 s3 → later s1 s3.
Proof.
  intros (D1 & C1 & H1 & Q1) (D2 & C2 & H2 & Q2). split; [congruence|]. split; [congruence|]. split.
  - intros a n1 n3 Hn1 Hn3 Hs.
    assert (is_Some (nodes s2 !! a)) as [n2 Hn2] by (apply elem_of_dom; rewrite D1; apply elem_of_dom; eauto).
    eapply H2; [exact Hn2 | exact Hn3 |]. by eapply H1.
  - intros f Hf. destruct (Q2 f Hf) as [Hf2|Hf2]; [auto|]. right.
    apply elem_of_dom. rewrite <- D1. by apply elem_of_dom.
Qed.

Lemma later_some s s' a : later s s' → is_Some (nodes s !! a) → is_Some (nodes s' !! a).
Proof. intros [D _] H. apply elem_of_dom. rewrite D. by apply elem_of_dom. Qed.

Lemma stranded_later s s' : later s s' → stranded s' → stranded s.
Proof.
  intros (D & _ & _ & Q) (a & w & Hin & Hw & Hn). exists a, w.
  assert (Hn0 : nodes s !! a = None) by (apply not_elem_of_dom; rewrite <- D; by apply not_elem_of_dom).
  destruct (Q _ Hin) as [?|[? ?]]; [done | simpl in *; congruence].
Qed.

Lemma later_channel s s' a :
  later s s' → is_Some (chans (poller_ s) !! a) → is_Some (chans (poller_ s') !! a).
Proof. intros (_ & C & _) H. apply elem_of_dom. rewrite C. by apply elem_of_dom. Qed.

Lemma chan_ok_dom a p p' : chan_ok a (chans p) p' → dom (chans p') = dom (chans p).
Proof.
  intros (_ & _ & _ & Ho & c0 & c & H0 & H1 & _). apply set_eq. intros b. rewrite !elem_of_dom.
  destruct (decide (b = a)) as [->|Hne]; [rewrite H0, H1; split; eauto | by rewrite Ho].
Qed.

Lemma cbs_shape ch ch' : shape ch' = shape ch → cbs ch' = cbs ch.
Proof. intros E. unfold shape in E. injection E as _ _ _ E1 E2 E3 E4. unfold cbs. congruence. Qed.

(** ** One operation *)

(** A connection whose channel keeps its events, its index and its callbacks. *)
Lemma node_ok_keep l l' s s' b n :
  node_ok l s b n → pwf (poller_ s') → good (poller_ s') → uniq (poller_ s') →
  (∀ d, chans (poller_ s) !! b = Some d → ∃ d', chans (poller_ s') !! b = Some d' ∧
     events_ d' = events_ d ∧ index_ d' = index_ d ∧ cbs d' = cbs d) →
  ((b, WDestroyed) ∈ l' ++ pending s' → (b, WDestroyed) ∈ l ++ pending s) →
  (b ∈ closing s' → b ∈ closing s) → node_ok l' s' b n.
Proof.
  intros [[sent Hi] Ht Hj Hc Hgo Hcbs] Hw Hg Hu Hkeep Hp Hcl.
  pose proof (oi_chan _ _ (ci_out _ _ Hi)) as (_ & _ & _ & _ & _ & d & _ & Hd & _). simpl in Hd.
  destruct (Hkeep d Hd) as (d' & Hd' & Hev & Hix & Hcb).
  split; [|done|done| | |].
  - exists sent. apply (conn_on_move b _ (chans (poller_ s')) sent (poller_ s') _ Hi);
      [by eapply chan_ok_refl|]. unfold events_at. simpl. by rewrite Hd, Hd'.
  - intros [H|[H|H]]; apply Hc; auto.
  - intros Hgone. destruct (Hgo Hgone) as (x & Hx & Hxi). exists d'. split; [done|]. congruence.
  - intros x Hx. assert (x = d') as -> by congruence. rewrite Hcb. by apply Hcbs.
Qed.

Lemma conn_on_closed a m0 sent c k :
  conn_on a m0 sent c → k ∈ calls c → k = CallClose → state_ c = kDisconnected.
Proof.
  intros [_ _ Hl] Hk ->.
  assert (Hin : CallClose ∈ life (calls c)).
  { unfold life. apply list_elem_of_In, List.filter_In. split; [by apply list_elem_of_In | done]. }
  unfold life_ok in Hl. destruct (state_ c); [done|..]; rewrite Hl in Hin; set_solver.
Qed.

(** The channel of a connection that is destroyed after it was closed. *)
Lemma destroyed_channel a m0 sent c c' :
  conn_on a m0 sent c → state_ c = kDisconnected →
  @exec _ (epoll_channel_ops ctl a) ODestroyed c = Ok c' →
  ∃ ch, chans (channel_ c') !! a = Some ch ∧ index_ ch = new_.
Proof.
  intros Hinv Hs E. pose proof (oi_chan _ _ (ci_out _ _ Hinv)) as (Hw & _ & _ & _ & _ & ch & _ & Hch & _).
  pose proof (oi_closed _ _ (ci_out _ _ Hinv) Hs) as Hev. simpl in Hev. rewrite Hch in Hev.
  destruct (destroyed_leaves_poller ctl a c ch Hw Hch (λ _, Hev)) as (c2 & ch2 & E2 & _ & H2 & Hix & _).
  simpl in E, E2. rewrite E in E2. injection E2 as <-. exists ch2. split; [done|]. apply Hix. by right.
Qed.

Lemma write_back_inv l s a n c :
  rinv l s → nodes s !! a = Some n → chan_ok a (chans (poller_ s)) (channel_ c) →
  node_ok l (write_back a n c s) a (mkNode (on () (set_tasks [] c)) (destroyed n)) →
  (state_ (conn n) = kDisconnected → state_ c = kDisconnected) → Forall (λ t, task_fits t ∧ T t) (tasks c) →
  rinv l (write_back a n c s) ∧ later s (write_back a n c s).
Proof.
  intros Hs Hn Hchan Hself Hstay Hfits. set (s' := write_back a n c s) in *.
  assert (Hlater : later s s').
  { split; [simpl; apply dom_insert_lookup_L; eauto|]. split; [by apply (chan_ok_dom a)|].
    simpl. split.
    - intros b nb nb' Hb Hb' Hd.
      apply lookup_insert_Some in Hb' as [[<- <-]|[_ Hb']]; [|congruence].
      simpl. apply Hstay. congruence.
    - intros f [Hf|(t & -> & _)%list_elem_of_fmap]%elem_of_app; simpl; eauto. }
  split; [|done]. pose proof Hchan as (Hw & Hgd & Hu & Ho & ch0 & ch & Hch0 & Hch & Hsh).
  split; simpl; try done.
  - intros b nb [[<- <-]|[Hne Hb]]%lookup_insert_Some; [done|].
    apply (node_ok_keep l l s s'); [by apply (ri_nodes _ _ Hs) | done..| | |done].
    + intros d Hd. exists d. simpl. by rewrite Ho.
    + simpl. rewrite !elem_of_app, list_elem_of_fmap.
      intros [|[|(t & [=] & _)]]; tauto.
  - intros b chb k x Hb Hk Hx.
    assert (∃ d, chans (poller_ s) !! b = Some d ∧ cbs d = cbs chb) as (d & Hd & Ed).
    { destruct (decide (b = a)) as [->|Hne]; [|rewrite Ho in Hb by done; eauto].
      assert (chb = ch) as -> by congruence. exists ch0. by rewrite (cbs_shape ch0 ch Hsh). }
    rewrite <- Ed in Hk. destruct (ri_cbs _ _ Hs b d k x Hd Hk Hx) as [-> H].
    split; [done | by apply (later_some s s')].
  - intros b w Hb. rewrite app_assoc in Hb. apply elem_of_app in Hb as [Hb|Hb].
    + destruct (ri_queued _ _ Hs b w Hb) as [[?|?] ?]; (split; [|done]); [left; by apply (later_some s s') | by right].
    + apply list_elem_of_fmap in Hb as (t & [= -> ->] & Hin). split; [left; by rewrite lookup_insert_eq|].
      by eapply (proj1 (Forall_forall _ _)) in Hfits.
  - intros b Hb. apply (later_some s s' b Hlater). by apply (ri_closing _ _ Hs).
Qed.

Lemma stored_conn {Q} (p : Q) ts (c : TcpConnection unit) :
  tasks c = [] → on () (set_tasks [] (set_tasks ts (on p c))) = c.
Proof. destruct c as [? [] ? ? ? ? ? ? ? ? ?]. simpl. by intros ->. Qed.

Lemma operate_inv l s a n o ts :
  rinv l s → nodes s !! a = Some n →
  answers_any o (set_tasks ts (on (poller_ s) (conn n))) → op_fits o → permits U o →
  Forall (λ t, task_fits t ∧ T t) ts →
  (o = ODestroyed → state_ (conn n) = kDisconnected) →
  memory True (operate ctl a o ts s) (λ r, rinv l r.1 ∧ later s r.1 ∧
    (CallClose ∈ r.2 → ∀ n', nodes r.1 !! a = Some n' → state_ (conn n') = kDisconnected) ∧
    (o = ODestroyed → ∃ ch, chans (poller_ r.1) !! a = Some ch ∧ index_ ch = new_)).
Proof.
  intros Hs Hn Hans Hfit Hper [Hts HT]%Forall_and Hdes. unfold operate, get. rewrite Hn. cbn [mbind outcome_bind].
  destruct (ri_nodes _ _ Hs a n Hn) as [[sent Hinv] Ht Hj Hcl Hg Hcb].
  set (c0 := set_tasks ts (on (poller_ s) (conn n))) in *.
  assert (Hinv0 : conn_on a (chans (poller_ s)) sent c0) by (by apply conn_inv_tasks).
  eapply memory_bind; [exact (exec_memory sent o c0 Hinv0 Hans)|].
  intros c E [sent' Hc]. apply memory_ret. cbn [fst snd].
  pose proof (oi_chan _ _ (ci_out _ _ Hc)) as Hchan.
  assert (Hstay : state_ (conn n) = kDisconnected →
    state_ c = kDisconnected ∧ (o ≠ ODestroyed → channel_ c = poller_ s)).
  { intros Hd. pose proof (closed_not_writing _ _ (ci_out _ _ Hinv0) Hd) as Hnw.
    destruct (exec_closed o c0 c Hd Hnw E) as (? & _ & _ & ?). by split. }
  assert (Hnew : o = ODestroyed → ∃ ch, chans (channel_ c) !! a = Some ch ∧ index_ ch = new_).
  { intros ->. by apply (destroyed_channel a (chans (poller_ s)) sent c0 c Hinv0 (Hdes eq_refl)). }
  destruct (policy_exec sent o c0 c Hinv0) as [Hj' HT']; [unfold c0; by rewrite stored_conn | done..|].
  assert (Hself : node_ok l (write_back a n c s) a (mkNode (on () (set_tasks [] c)) (destroyed n))).
  { destruct Hchan as (Hw & Hgd & Hu & Ho & ch0 & ch & Hch0 & Hch & Hsh). split; simpl.
    - exists sent'. apply (conn_on_move a (chans (poller_ s)) (chans (channel_ c)) sent' (channel_ c) (set_tasks [] c));
        [by apply conn_inv_tasks | by eapply chan_ok_refl | done].
    - done.
    - done.
    - intros H. apply Hstay, Hcl. destruct H as [H|H]; [left | by right]. revert H.
      rewrite !elem_of_app, list_elem_of_fmap. intros [|[|(t & ? & _)]]; [tauto | tauto | done].
    - intros Hd. destruct (decide (o = ODestroyed)) as [Hod|Hod]; [auto|].
      destruct (Hstay (Hcl (or_intror (or_intror Hd)))) as [_ Hsame]. rewrite (Hsame Hod). by apply Hg.
    - intros x Hx. assert (x = ch) as -> by congruence. rewrite (cbs_shape ch0 ch Hsh). by apply Hcb. }
  destruct (write_back_inv l s a n c Hs Hn Hchan Hself) as [Hinv' Hlater];
    [by intros Hd; apply Hstay | apply Forall_and; split; [by eapply exec_tasks | done]|].
  split; [done|]. split; [done|]. split; [|done].
  intros Hk n1 Hn1. simpl in Hn1. rewrite lookup_insert_eq in Hn1. injection Hn1 as <-. simpl.
  apply (conn_on_closed a (chans (poller_ s)) sent' c CallClose Hc); [|done].
  apply list_elem_of_lookup in Hk as [i Hi]. rewrite lookup_drop in Hi. by eapply list_elem_of_lookup_2.
Qed.

(** ** A turn *)
Definition user_fits (u : user_op) : Prop :=
  match u with USend m => Zlen m ≤ max_size | _ => True end.

(** What the outside can do: [read] fills the array it is given, [write] writes at most what
    it is given, and the user has pointers to existing connections only. *)
Record sane (e : env) : Prop := {
  sane_rd : ∀ a c, Zlen (rd e a c).2 = 65536 ∧ (rd e a c).1.1 ≤ 65536;
  sane_wr : ∀ a c m, (wr e a c m).1 ≤ Zlen m;
  sane_react : ∀ a k s b u, (b, u) ∈ react e a k s → is_Some (nodes s !! b) ∧ user_fits u;
}.

(** The callbacks stay within [U]. *)
Definition obeys (e : env) : Prop := ∀ a k s b u, (b, u) ∈ react e a k s → U u.

Section turns.
Context (same_loop : bool) (e : env) (He : sane e) (Hobey : obeys e).

(** The computation keeps the invariant and loses no connection. *)
Definition safely l s (m : outcome reactor) : Prop := memory True m (λ s', rinv l s' ∧ later s s').

Lemma safely_ret l s : rinv l s → safely l s (Ok s).
Proof. intros Hs. apply memory_ret. eauto using later_refl. Qed.

Lemma safely_later l s s1 m : later s s1 → safely l s1 m → safely l s m.
Proof.
  intros Hl Hm. eapply memory_mono; [exact Hm | done|]. intros s2 _ [? ?]. eauto using later_trans.
Qed.

Lemma safely_bind l s (m : outcome reactor) k :
  safely l s m → (∀ s', rinv l s' → later s s' → safely l s' (k s')) → safely l s (m ≫= k).
Proof.
  intros Hm Hk. eapply memory_bind; [exact Hm|]. intros s' _ [Hs' Hl].
  apply (safely_later l s s'); auto.
Qed.

Lemma safely_each {A} l s (f : A → reactor → outcome reactor) xs :
  rinv l s → (∀ x s', x ∈ xs → rinv l s' → later s s' → safely l s' (f x s')) →
  safely l s (each f xs s).
Proof.
  intros Hs Hf. apply memory_each; [eauto using later_refl|]. intros x s' Hx [Hs' Hl].
  apply (safely_later l s s'); auto.
Qed.

Lemma user_call_safe l s b u :
  rinv l s → is_Some (nodes s !! b) → user_fits u → U u → safely l s (user_call_op ctl e (b, u) s).
Proof.
  intros Hs [n Hn] Hu HU. unfold user_call_op, get. cbn [fst snd]. rewrite Hn. cbn [mbind outcome_bind].
  assert (Hop : memory True (operate ctl b (user_conn_op e b u (conn n)) [] s) (λ r, rinv l r.1 ∧ later s r.1)).
  { eapply memory_mono; [apply (operate_inv l s b n); [done | done | | | | done |] | done | naive_solver];
      destruct u; try done. split; [apply (sane_wr e He) | done]. }
  destruct Hop as [[_ ->]|(r & -> & H)]; [by left | right; eauto].
Qed.

Lemma callback_safe l s a k :
  rinv l s → is_Some (nodes s !! a) →
  (k = CallClose → ∀ n, nodes s !! a = Some n → state_ (conn n) = kDisconnected) →
  safely l s (callback ctl same_loop e a k s).
Proof.
  intros Hs Ha Hk. destruct (decide (k = CallClose)) as [->|Hne].
  - specialize (Hk eq_refl). apply memory_ret. pose proof Hs as [Hw Hg Hu Hno Hcb Hq Hcl].
    assert (Hl : ∀ x y, (∀ f, f ∈ x → f ∈ pending s ∨ f.1 = a) → later s (mkReactor (poller_ s) (nodes s) x y)).
    { intros x y Hx. split; [done|]. split; [done|]. split; [simpl; congruence|]. simpl. intros f Hf.
      destruct (Hx f Hf) as [?| ->]; auto. }
    destruct same_loop; (split; [|apply Hl; set_solver]); split; try done.
    + intros b n Hn. destruct (Hno b n Hn) as [Hi Ht Hj Hc Hgo Hcbs]. split; try done. simpl.
      intros [H|H]; [|apply Hc; auto]. rewrite app_assoc in H.
      apply elem_of_app in H as [H|[= ->]%list_elem_of_singleton]; auto.
    + simpl. intros b w. rewrite app_assoc. intros [H|[= -> ->]%list_elem_of_singleton]%elem_of_app; [by apply Hq | split; [by left | done]].
    + intros b n Hn. destruct (Hno b n Hn) as [Hi Ht Hj Hc Hgo Hcbs]. split; try done. simpl.
      intros [H|[[H| ->%list_elem_of_singleton]%elem_of_app|H]]; auto.
    + simpl. intros b [H| ->%list_elem_of_singleton]%elem_of_app; auto.
  - assert (callback ctl same_loop e a k s = each (user_call_op ctl e) (react e a k s) s) as ->
      by (by destruct k).
    apply safely_each; [done|]. intros [b u] s' Hin Hs' Hl.
    destruct (sane_react e He a k s b u Hin). apply user_call_safe; eauto using later_some.
Qed.

Lemma run_op_safe l s a n o ts :
  rinv l s → nodes s !! a = Some n →
  answers_any o (set_tasks ts (on (poller_ s) (conn n))) → op_fits o → permits U o →
  Forall (λ t, task_fits t ∧ T t) ts →
  (o = ODestroyed → state_ (conn n) = kDisconnected) →
  safely l s (run_op ctl same_loop e a o ts s).
Proof.
  intros Hs Hn Hans Hfit Hper Hts Hdes. unfold run_op.
  eapply memory_bind; [by apply (operate_inv l s a n)|].
  intros [s1 ks] _ (Hs1 & Hl1 & Hclose & _). cbn [fst snd] in *.
  apply (safely_later l s s1); [done|]. apply safely_each; [done|]. intros k s' Hk Hs' Hl'.
  assert (Ha1 : is_Some (nodes s1 !! a)) by eauto using later_some.
  apply callback_safe; [done | by apply (later_some s1) |]. intros -> n' Hn'.
  destruct Ha1 as [n1 Hn1]. destruct Hl' as (_ & _ & Hd & _). eapply Hd; [exact Hn1 | exact Hn' | by eapply Hclose].
Qed.

Lemma call_safe l s k :
  rinv l s → (∀ a, cb_conn k = Some a → is_Some (nodes s !! a)) → safely l s (call ctl same_loop e k s).
Proof.
  intros Hs Hk. destruct k as [a|a|a|a|]; cbn [call];
    try (destruct (Hk a eq_refl) as [n Hn]); try (unfold get; rewrite Hn; cbn [mbind outcome_bind]).
  - destruct (rd e a (conn n)) as [[r err] x] eqn:E. pose proof (sane_rd e He a (conn n)) as [Hx Hr].
    rewrite E in Hx, Hr. by apply (run_op_safe l s a n).
  - apply (run_op_safe l s a n); try done. apply (sane_wr e He).
  - by apply (run_op_safe l s a n).
  - by apply (run_op_safe l s a n).
  - by apply safely_ret.
Qed.

Lemma call_if_safe l s a (f : Channel cb → option cb) guard :
  rinv l s → is_Some (chans (poller_ s) !! a) → (∀ ch k, f ch = Some k → k ∈ cbs ch) →
  safely l s (call_if (λ s, deref a (poller_ s)) (call ctl same_loop e) f guard s).
Proof.
  intros Hs [ch Hch] Hf. unfold call_if. rewrite (deref_ok a ch) by done. cbn [mbind outcome_bind].
  destruct (guard ch); [|by apply safely_ret]. destruct (f ch) as [k|] eqn:Ek; [|by apply safely_ret].
  apply call_safe; [done|]. intros b Hb. destruct (ri_cbs _ _ Hs a ch k b Hch (Hf ch k Ek) Hb) as [-> H]. exact H.
Qed.

Lemma handle_channel_safe l s a :
  rinv l s → is_Some (chans (poller_ s) !! a) → safely l s (handle_channel ctl same_loop e a s).
Proof.
  intros Hs Ha. unfold handle_channel, handle_event.
  assert (Hcb : ∀ (ch : Channel cb) k,
    (read_callback_ ch = Some k ∨ write_callback_ ch = Some k ∨
     close_callback_ ch = Some k ∨ error_callback_ ch = Some k) → k ∈ cbs ch).
  { intros ch k H. unfold cbs. apply list_elem_of_omap. exists (Some k). split; [|done].
    destruct H as [H|[H|[H|H]]]; rewrite H; set_solver. }
  repeat (apply safely_bind; [apply call_if_safe; eauto 6 using later_channel|]; intros ? ? ?).
  apply call_if_safe; eauto 6 using later_channel, later_trans.
Qed.

(** *** Functors *)
Lemma destroyed_safe l s a n :
  rinv l s → nodes s !! a = Some n → state_ (conn n) = kDisconnected →
  memory True (run_op ctl same_loop e a ODestroyed [] s)
    (λ s', rinv l s' ∧ later s s' ∧ ∃ ch, chans (poller_ s') !! a = Some ch ∧ index_ ch = new_).
Proof.
  intros Hs Hn Hd. unfold run_op.
  eapply memory_bind; [by apply (operate_inv l s a n)|].
  intros [s1 ks] E (Hs1 & Hl1 & _ & Hix). cbn [fst snd] in *.
  assert (ks = []) as ->; [|apply memory_ret; auto].
  unfold operate, get in E. rewrite Hn in E. cbn [mbind outcome_bind] in E.
  apply bind_Ok_inv in E as (c & E & [= _ <-]). cbn [exec] in E. unfold conn_destroyed in E.
  rewrite bool_decide_eq_false_2 in E by (simpl; congruence). cbn [mbind outcome_bind] in E.
  apply bind_Ok_inv in E as (p & _ & [= <-]). simpl. apply drop_all.
Qed.

Lemma mark_destroyed_inv l s a :
  rinv l s → (∀ n, nodes s !! a = Some n → state_ (conn n) = kDisconnected) →
  (∃ ch, chans (poller_ s) !! a = Some ch ∧ index_ ch = new_) →
  rinv l (mark_destroyed a s) ∧ later s (mark_destroyed a s).
Proof.
  intros [Hw Hg Hu Hno Hcb Hq Hcl] Hd Hix.
  assert (Hdom : dom (nodes (mark_destroyed a s)) = dom (nodes s)) by (simpl; apply dom_alter_L).
  assert (Hsome : ∀ b, is_Some (nodes s !! b) → is_Some (nodes (mark_destroyed a s) !! b)).
  { intros b Hb. apply elem_of_dom. rewrite Hdom. by apply elem_of_dom. }
  split.
  - split; try done.
    + simpl. intros b n. rewrite lookup_alter_Some. intros [(<- & n0 & Hn & ->)|[_ Hn]]; [|by destruct (Hno b n Hn)].
      destruct (Hno a n0 Hn) as [Hi Ht Hj Hc Hgo Hcbs]. split; simpl; auto.
    + intros b ch k x H1 H2 H3. destruct (Hcb b ch k x H1 H2 H3). auto.
    + intros b w Hb. destruct (Hq b w Hb) as [[?|?] ?]; auto.
    + intros b Hb. auto.
  - split; [done|]. split; [done|]. simpl. split; [|auto]. intros b n n' Hn Hn' Hs.
    rewrite lookup_alter_Some in Hn'. destruct Hn' as [(<- & n0 & Hn0 & ->)|[_ ?]]; simpl; congruence.
Qed.

Lemma run_functor_safe l s f :
  rinv l s → f ∈ l → is_Some (nodes s !! f.1) → safely l s (run_functor ctl same_loop e f s).
Proof.
  destruct f as [a w]. intros Hs Hf [n Hn]. unfold run_functor. cbn [fst snd] in *.
  assert (Hin : (a, w) ∈ l ++ pending s) by (by apply elem_of_app; left).
  destruct (ri_queued _ _ Hs a w Hin) as [_ Hw]. destruct w as [| |t].
  - by apply (run_op_safe l s a n).
  - assert (Hd : state_ (conn n) = kDisconnected) by (apply (ri_nodes _ _ Hs a n Hn); auto).
    destruct (destroyed_safe l s a n Hs Hn Hd) as [[_ ->]|(s' & -> & Hs' & Hl & Hix)]; [by left|].
    apply memory_ret. destruct (mark_destroyed_inv l s' a Hs') as [H1 H2]; [|done|].
    + intros n' Hn'. destruct Hl as (_ & _ & Hl & _). by eapply Hl.
    + split; [done|]. by eapply later_trans.
  - unfold get. rewrite Hn. cbn [mbind outcome_bind].
    assert (Hrun : ∀ nw err, (∀ m, t = QSend m → nw ≤ Zlen m) →
              safely l s (run_op ctl same_loop e a (OTask nw err) [t] s)).
    { intros nw err Hnw. apply (run_op_safe l s a n); try done; [|by constructor].
      intros m ts [= -> _]. destruct Hw. auto. }
    destruct t as [m| | | |k]; try (by apply Hrun).
    destruct (wr e a (conn n) m) as [nw err] eqn:Ew. apply Hrun. intros ? [= <-].
    pose proof (sane_wr e He a (conn n) m) as H. by rewrite Ew in H.
Qed.

Lemma rinv_queues l l' s x :
  rinv l s → (∀ f, f ∈ l' ++ x → f ∈ l ++ pending s) → rinv l' (set_pending x s).
Proof.
  intros [Hw Hg Hu Hno Hcb Hq Hcl] Hx. split; try done.
  - intros a n Hn. destruct (Hno a n Hn) as [Hi Ht Hj Hc Hgo Hcbs]. split; try done.
    simpl. intros [H|H]; apply Hc; auto.
  - simpl. intros a w Ha. auto.
Qed.

(** A functor of a connection that is gone. *)
Lemma run_functor_gone s f : nodes s !! f.1 = None → run_functor ctl same_loop e f s = Stop Dangling.
Proof.
  destruct f as [a w]. cbn [fst]. intros Ha. unfold run_functor, run_op, operate, get. cbn [fst snd].
  rewrite Ha. by destruct w.
Qed.

(** The functors of a turn: [s0] is the state they were queued in. *)
Lemma run_functors_safe s0 l s xs :
  (∀ f, f ∈ xs → f ∈ l ∧ (f ∈ pending s0 ∨ is_Some (nodes s0 !! f.1))) →
  rinv l s → dom (nodes s) = dom (nodes s0) →
  memory_but (stranded s0) (each (run_functor ctl same_loop e) xs s) (λ s', rinv l s' ∧ later s s').
Proof.
  revert s. induction xs as [|f xs IH]; intros s Hxs Hs Hdom; cbn [each].
  { right. by apply safely_ret. }
  destruct (Hxs f) as [Hl Hq]; [left|]. destruct (nodes s !! f.1) as [n|] eqn:Hn.
  - destruct (run_functor_safe l s f) as [[_ ->]|(s1 & -> & Hs1 & Hl1)]; [done | done | eauto | right; by left |].
    rewrite bind_Ok. destruct (IH s1) as [[? ->]|Hm].
    + intros g Hg. apply Hxs. by right.
    + done.
    + destruct Hl1 as [-> _]. done.
    + by left.
    + right. by apply (safely_later l s s1).
  - rewrite run_functor_gone by done. left. split; [|done].
    assert (Hn0 : nodes s0 !! f.1 = None) by (apply not_elem_of_dom; rewrite <- Hdom; by apply not_elem_of_dom).
    destruct Hq as [Hq|[? ?]]; [|congruence]. destruct f as [a w]. exists a, w. split; [done|].
    destruct (ri_queued _ _ Hs a w) as [[[? ?]|?] _]; [by apply elem_of_app; left | simpl in Hn; congruence | done].
Qed.

Lemma do_other_tasks_safe s0 s :
  rinv [] s → later s0 s →
  memory_but (stranded s0) (do_other_tasks ctl same_loop e s) (λ s', rinv [] s' ∧ later s s').
Proof.
  intros Hs Hl0. unfold do_other_tasks.
  assert (H0 : rinv (pending s) (set_pending [] s)).
  { apply (rinv_queues [] _ s); [done|]. intros f. by rewrite app_nil_r. }
  destruct (run_functors_safe s0 (pending s) (set_pending [] s) (pending s)) as [?|Hm].
  - intros f Hf. split; [done|]. by apply Hl0.
  - done.
  - apply Hl0.
  - by left.
  - right. eapply memory_mono; [exact Hm | done|]. intros s' _ [Hs' (D & C & H & Q)].
    split; [|split; [exact D|]; split; [exact C|]; split; [exact H|]; intros f Hf;
             destruct (Q f Hf) as [[]%elem_of_nil|?]; by right].
    assert (s' = set_pending (pending s') s') as -> by (by destruct s').
    apply (rinv_queues (pending s) []); [done|]. intros f Hf. by apply elem_of_app; right.
Qed.
End turns.

(** *** Polling *)
Lemma revents_inv l s a ch ev :
  rinv l s → chans (poller_ s) !! a = Some ch →
  let s' := set_poller (store a (set_revents ev ch) (poller_ s)) s in rinv l s' ∧ later s s'.
Proof.
  intros [Hw Hg Hu Hno Hcb Hq Hcl] Hch s'.
  assert (Hlook : ∀ b d', chans (poller_ s') !! b = Some d' →
    ∃ d, chans (poller_ s) !! b = Some d ∧ fd_ d' = fd_ d ∧ index_ d' = index_ d ∧ events_ d' = events_ d ∧
      cbs d' = cbs d).
  { simpl. intros b d' [[<- <-]|[_ Hb]]%lookup_insert_Some; eauto 6. }
  assert (Hw' : pwf (poller_ s')) by (by apply (pwf_store _ a ch)).
  assert (Hu' : uniq (poller_ s')).
  { intros x y d1 d2 H1 H2 E. destruct (Hlook x d1 H1) as (? & ? & ? & _), (Hlook y d2 H2) as (? & ? & ? & _).
    eapply Hu; [done | done | congruence]. }
  assert (Hg' : good (poller_ s')) by (by apply keeps_revents).
  assert (Hsome : ∀ b, is_Some (chans (poller_ s) !! b) → is_Some (chans (poller_ s') !! b)).
  { intros b Hb. simpl. destruct (decide (a = b)) as [->|]; [by rewrite lookup_insert_eq | by rewrite lookup_insert_ne]. }
  split.
  - split; try done.
    + intros b n Hn. apply (node_ok_keep l l s s'); auto. intros d Hd.
      destruct (Hsome b ltac:(eauto)) as [d' Hd']. destruct (Hlook b d' Hd') as (d0 & Hd0 & _ & Hix & Hev & Ecb).
      assert (d0 = d) as -> by congruence. eauto.
    + intros b d' k x Hb Hk Hx. destruct (Hlook b d' Hb) as (d & Hd & _ & _ & _ & Ecb).
      rewrite Ecb in Hk. by eapply Hcb.
  - split; [done|]. split; [|split; [simpl; congruence | auto]]. simpl. apply dom_insert_lookup_L. eauto.
Qed.

Lemma fill_active_inv evs l s :
  rinv l s → from_kernel (poller_ s) evs →
  ∃ p', fill_active_channels evs (poller_ s) = Ok (evs.*2, p') ∧
    rinv l (set_poller p' s) ∧ later s (set_poller p' s).
Proof.
  revert s. induction evs as [|[ev a] evs IH]; intros s Hs [Hd Hk].
  - exists (poller_ s). destruct s. eauto using later_refl.
  - destruct (Hk ev a) as (fd & ev0 & Hfd); [set_solver|].
    destruct (pwf_kernel _ (ri_pwf _ _ Hs) _ _ _ Hfd) as (Hch & c & Hc & _).
    destruct (pwf_map _ (ri_pwf _ _ Hs) _ _ Hch) as (c' & Hc' & Hf & _).
    assert (c' = c) as -> by congruence.
    cbn [fill_active_channels]. rewrite (deref_ok a c) by done. cbn [mbind outcome_bind].
    rewrite bool_decide_eq_true_2 by congruence.
    destruct (revents_inv l s a c ev Hs Hc) as [Hs1 Hl1].
    destruct (IH _ Hs1) as (p' & E & Hs2 & Hl2).
    + cbn [fmap list_fmap] in Hd. apply NoDup_cons in Hd as [_ Hd]. split; [done|].
      intros ev' a' Hin. apply (Hk ev'). set_solver.
    + cbn [poller_ set_poller] in E. rewrite E. exists p'. split; [done|]. split; [done|].
      by eapply later_trans.
Qed.

Lemma poll_inv evs l s :
  rinv l s → from_kernel (poller_ s) evs →
  ∃ p', poll (Zlen evs) evs (poller_ s) = Ok (evs.*2, p') ∧
    rinv l (set_poller p' s) ∧ later s (set_poller p' s).
Proof.
  intros Hs Hev. unfold poll. destruct (Z.ltb_spec 0 (Zlen evs)).
  - rewrite take_ge by (unfold Zlen; lia).
    destruct (fill_active_inv evs l s Hs Hev) as (p' & -> & Hs' & Hl). cbn [mbind outcome_bind].
    eexists. split; [done|]. case_match; [|done]. split; [|exact Hl].
    destruct Hs' as [Hw Hg Hu Hno Hcb Hq Hcl]. split; try done; [by apply pwf_set_size | by apply keeps_size |].
    intros a n Hn. eapply (node_ok_keep l l); [exact (Hno a n Hn) | | | exact Hu | | done | done];
      [by apply pwf_set_size | by apply keeps_size | eauto].
  - assert (evs = []) as -> by (destruct evs; [done | unfold Zlen in *; simpl in *; lia]).
    exists (poller_ s). destruct s. eauto using later_refl.
Qed.

Lemma print_active_ok active p :
  Forall (λ a, is_Some (chans p !! a)) active → ∃ ls, print_active_channels active p = Ok ls.
Proof.
  unfold print_active_channels. induction 1 as [|a active [c Hc] _ [ls IH]]; [by exists []|].
  cbn [mapM]. rewrite (deref_ok a c), !bind_Ok, IH, bind_Ok by done. eauto.
Qed.

Lemma turn_safe same_loop e evs s :
  sane e → obeys e → rinv [] s → from_kernel (poller_ s) evs →
  memory_but (stranded s) (turn ctl same_loop e evs s) (λ s', rinv [] s' ∧ later s s').
Proof.
  intros He Hob Hs Hev. unfold turn. destruct (poll_inv evs [] s Hs Hev) as (p' & -> & Hs1 & Hl1).
  assert (Hact : ∀ a, a ∈ evs.*2 → is_Some (chans p' !! a)).
  { intros a Ha. apply (later_channel s (set_poller p' s)); [done|].
    apply list_elem_of_fmap in Ha as ([ev b] & -> & Hin). destruct Hev as [_ Hk].
    destruct (Hk ev b Hin) as (fd & ev0 & Hfd).
    destruct (pwf_kernel _ (ri_pwf _ _ Hs) _ _ _ Hfd) as (_ & c & Hc & _). eauto. }
  destruct (print_active_ok evs.*2 p') as [ls El]; [by apply Forall_forall|].
  rewrite bind_Ok, El, bind_Ok.
  assert (Hm : safely [] (set_poller p' s) (each (handle_channel ctl same_loop e) evs.*2 (set_poller p' s))).
  { apply safely_each; [done|]. intros a s' Ha Hs' Hl'. apply handle_channel_safe; [done | done | done|].
    by apply (later_channel (set_poller p' s)), Hact. }
  destruct Hm as [[_ ->]|(s1 & -> & Hs2 & Hl2)]; [right; by left|]. rewrite bind_Ok.
  assert (Hl : later s s1) by (by eapply later_trans).
  destruct (do_other_tasks_safe same_loop e He Hob s s1 Hs2 Hl) as [?|Hm]; [by left | right].
  eapply memory_mono; [exact Hm | done|]. intros s' _ [? ?]. split; [done|]. by eapply later_trans.
Qed.

(** *** Between turns *)
Lemma new_node_inv this a fd s :
  rinv [] s → chans (poller_ s) !! a = None → nodes s !! a = None →
  (∀ b c, chans (poller_ s) !! b = Some c → fd_ c ≠ fd) → rinv [] (new_node this a fd s).
Proof.
  intros [Hw Hg Hu Hno Hcb Hq Hcl] Ha Hna Hfd. set (s' := new_node this a fd s).
  assert (Hne : ∀ b c, chans (poller_ s) !! b = Some c → b ≠ a) by (intros b c Hb ->; congruence).
  assert (Hw' : pwf (poller_ s')) by (by apply pwf_new_channel).
  assert (Hg' : good (poller_ s')) by (by apply keeps_new).
  assert (Hu' : uniq (poller_ s')).
  { intros x y d1 d2. simpl. rewrite !lookup_insert_Some.
    intros [[<- <-]|[_ H1]] [[<- <-]|[_ H2]] E; simpl in E; [done|..|by eapply Hu].
    - by destruct (Hfd y d2 H2).
    - by destruct (Hfd x d1 H1). }
  split; try done; simpl.
  - intros b n [[<- <-]|[Hne' Hn]]%lookup_insert_Some.
    + assert (Hself : chans (poller_ s') !! a = Some
        (set_callbacks (Some (CbRead a)) (Some (CbWrite a)) (Some (CbClose a)) (Some (CbError a)) (Channel_ctor this fd)))
        by (simpl; by rewrite lookup_insert_eq).
      split; try done; [|by apply policy_ctor|..].
      * exists []. apply (@conn_inv_ctor _ (epoll_channel_ops ctl a) (shared_contract a _) (poller_ s'));
          [by eapply chan_ok_refl|]. cbn [ch_events epoll_channel_ops]. by rewrite Hself.
      * simpl. intros [H|[H|H]]; [|destruct (Hcl a H); congruence|done].
        destruct (Hq a WDestroyed H) as [[[? ?]|?] _]; [congruence | done].
      * intros ch Hch. rewrite Hself in Hch. by injection Hch as <-.
    + apply (node_ok_keep [] [] s s'); auto. intros d Hd. exists d. simpl. by rewrite lookup_insert_ne.
  - intros b ch k x Hb Hk Hx. rewrite lookup_insert_is_Some'.
    apply lookup_insert_Some in Hb as [[<- <-]|[_ Hb]].
    + unfold cbs in Hk. simpl in Hk. split; [|auto]. set_unfold. destruct k; naive_solver.
    + destruct (Hcb b ch k x Hb Hk Hx). auto.
  - intros b w H. rewrite lookup_insert_is_Some'. destruct (Hq b w H) as [[?|?] ?]; auto.
  - intros b Hb. rewrite lookup_insert_is_Some'. auto.
Qed.

Lemma queue_established_inv a s :
  rinv [] s → is_Some (nodes s !! a) → rinv [] (set_pending (pending s ++ [(a, WEstablished)]) s).
Proof.
  intros [Hw Hg Hu Hno Hcb Hq Hcl] Ha. split; try done; simpl.
  - intros b n Hn. apply (node_ok_keep [] [] s); auto; [eauto|].
    simpl. by intros [H|[=]%list_elem_of_singleton]%elem_of_app.
  - intros b w [H|[= -> ->]%list_elem_of_singleton]%elem_of_app; [by apply Hq | split; [by left | done]].
Qed.

Lemma accept_inv_reactor this same_loop e a fd s s' :
  sane e → obeys e → rinv [] s → chans (poller_ s) !! a = None → nodes s !! a = None →
  (∀ b c, chans (poller_ s) !! b = Some c → fd_ c ≠ fd) →
  accept_conn ctl this same_loop e a fd s = Ok s' → rinv [] s'.
Proof.
  intros He Hob Hs Ha Hna Hfd. pose proof (new_node_inv this a fd s Hs Ha Hna Hfd) as H1.
  assert (Hn : nodes (new_node this a fd s) !! a = Some (mkNode (TcpConnection_ctor ()) false))
    by (simpl; by rewrite lookup_insert_eq).
  unfold accept_conn. destruct same_loop.
  - destruct (run_op_safe true e He Hob [] (new_node this a fd s) a _ OEstablished [] H1 Hn) as [[_ ->]|(x & -> & Hx & _)];
      try done. by intros [= <-].
  - intros [= <-]. apply (queue_established_inv a _ H1). eauto.
Qed.

Lemma foreign_call_inv a u s s' :
  rinv [] s → is_Some (nodes s !! a) → user_fits u → U u → foreign_call ctl a u s = Ok s' → rinv [] s'.
Proof.
  intros Hs [n Hn] Hu HU. unfold foreign_call. set (o := match u with USend m => _ | _ => _ end).
  assert (Hop : memory True (operate ctl a o [] s) (λ r, rinv [] r.1)).
  { eapply memory_mono; [apply (operate_inv [] s a n); [done | done | | | | done |] | done | naive_solver];
      subst o; destruct u; try done. split; [apply Zlen_nonneg | done]. }
  destruct Hop as [[_ ->]|(r & -> & H)]; [done|]. by intros [= <-].
Qed.

Lemma post_destroyed_inv s : rinv [] s → rinv [] (post_destroyed s).
Proof.
  intros Hs. unfold post_destroyed. destruct (closing s) as [|a l] eqn:El; [done|].
  destruct Hs as [Hw Hg Hu Hno Hcb Hq Hcl]. rewrite El in Hcl. split; try done; simpl.
  - intros b n Hn. destruct (Hno b n Hn) as [Hi Ht Hj Hc Hgo Hcbs]. split; try done. simpl. rewrite El in Hc.
    intros [[H|[= ->]%list_elem_of_singleton]%elem_of_app|[H|H]]; apply Hc;
      [by left | right; left; constructor | right; left; by constructor | auto].
  - intros b w [H|[= -> ->]%list_elem_of_singleton]%elem_of_app; [by apply Hq|]. split; [left | done].
    apply Hcl. set_solver.
  - intros b Hb. apply Hcl. set_solver.
Qed.

Lemma delete_conn_inv a n s :
  rinv [] s → nodes s !! a = Some n → destroyed n = true →
  (∀ w, (a, w) ∈ pending s → owning w = false) → a ∉ closing s →
  ∃ s', delete_conn a s = Ok s' ∧ rinv [] s'.
Proof.
  intros [Hw Hg Hu Hno Hcb Hq Hcl] Hn Hd Hp Hclo.
  destruct (no_gone _ _ _ _ (Hno a n Hn) Hd) as (ch & Hch & Hix).
  unfold delete_conn. rewrite (deref_ok a ch) by done. cbn [mbind outcome_bind].
  eexists. split; [done|]. set (s' := mkReactor _ _ _ _).
  assert (Hw' : pwf (poller_ s')).
  { exact (pwf_kernel_close (fd_ ch) _ (pwf_free_channel a ch (poller_ s) Hch Hix Hw)). }
  assert (Hg' : good (poller_ s')) by (by apply (keeps_free a ch)).
  assert (Hu' : uniq (poller_ s')).
  { intros x y d1 d2. simpl. rewrite !lookup_delete_Some. intros [_ H1] [_ H2]. by apply Hu. }
  split; try done; simpl.
  - intros b nb [Hne Hb]%lookup_delete_Some. apply (node_ok_keep [] [] s s'); auto.
    intros d Hdc. exists d. simpl. by rewrite lookup_delete_ne.
  - intros b d k x [Hne Hb]%lookup_delete_Some Hk Hx.
    destruct (Hcb b d k x Hb Hk Hx). by rewrite lookup_delete_ne.
  - intros b w Hb. split; [|by apply (Hq b w)]. destruct (decide (a = b)) as [<-|Hne]; [right; auto|].
    rewrite lookup_delete_ne by done. by apply (Hq b w).
  - intros b Hb. rewrite lookup_delete_ne; [by apply Hcl|]. by intros <-.
Qed.
End invariant.

(** ** Reachable states *)
Section reachable.
Context (ctl : epoll_op → Z → Z * Z → interest → option interest) (this : Z) (same_loop : bool)
  (E : env → Prop) (U : user_op → Prop).

(** Turns with whatever the kernel reports and the outside does; a new connection for a
    descriptor no channel has; calls from other threads on existing connections; the
    server's loop answers a close; the last owner of a destroyed connection goes, while
    functors that do not own it, with a bare [this], may still wait. [TcpServer::stop] is not
    among the steps: it destroys connections that are not closed, and one that is being shut
    down then stays registered ([TcpConnection.destroyed_leaves_poller]). The outside is one
    in [E], and users of other threads call what [U] allows; the input buffer is the loop's
    own. *)
Inductive rstep_by : reactor → reactor → Prop :=
| step_turn e evs s s' :
    sane e → E e → from_kernel (poller_ s) evs → turn ctl same_loop e evs s = Ok s' → rstep_by s s'
| step_accept e a fd s s' :
    sane e → E e → chans (poller_ s) !! a = None → nodes s !! a = None →
    (∀ b c, chans (poller_ s) !! b = Some c → fd_ c ≠ fd) →
    accept_conn ctl this same_loop e a fd s = Ok s' → rstep_by s s'
| step_call a u s s' :
    is_Some (nodes s !! a) → user_fits u → U u → (∀ k, u ≠ UConsume k) → foreign_call ctl a u s = Ok s' → rstep_by s s'
| step_post s : rstep_by s (post_destroyed s)
| step_delete a n s s' :
    nodes s !! a = Some n → destroyed n = true → (∀ w, (a, w) ∈ pending s → owning w = false) → a ∉ closing s →
    delete_conn a s = Ok s' → rstep_by s s'.

Inductive rreach_by : reactor → Prop :=
| rreach_start w wfd s : reactor_ctor ctl this w wfd = Ok s → rreach_by s
| rreach_step s s' : rreach_by s → rstep_by s s' → rreach_by s'.

Context (good : EpollPoller cb → Prop) `{!KernelKeeps ctl good} (J : TcpConnection unit → Prop) (T : task → Prop)
  `{!Policy U J T} (HE : ∀ e, E e → obeys U e).

Lemma reactor_ctor_inv w wfd : ∃ s, reactor_ctor ctl this w wfd = Ok s ∧ rinv ctl good J T [] s.
Proof.
  unfold reactor_ctor, enable_reading.
  set (ch := set_callbacks _ _ _ _ _). set (p := store w ch EpollPoller_ctor).
  assert (Hw : pwf p) by (apply pwf_new_channel; [done | done | apply pwf_ctor]).
  assert (Hg : good p) by (apply keeps_new; [apply pwf_ctor | apply keeps_ctor | done | done]).
  assert (Ha : chans p !! w = Some ch) by (simpl; by rewrite lookup_insert_eq).
  assert (Hu : uniq p).
  { intros x y d1 d2. simpl. rewrite !lookup_insert_Some, lookup_empty.
    by intros [[<- _]|[_ ?]] [[<- _]|[_ ?]]. }
  destruct (chan_ok_events ctl good w (chans p) (λ e, Z.lor e read_event_) p) as (b & p' & Ep & Hok & _).
  { by apply (chan_ok_refl good w ch). }
  rewrite Ep. cbn [mbind outcome_bind]. eexists. split; [done|].
  destruct Hok as (Hw' & Hg' & Hu' & Ho & c0 & c & H0 & Hc & Hsh).
  split; simpl; try done; [|by intros ? ? ?%elem_of_nil | by intros ? ?%elem_of_nil].
  intros a d k x Hd Hk Hx. destruct (decide (a = w)) as [->|Hne].
  - assert (d = c ∧ c0 = ch) as [-> ->] by (split; congruence). rewrite (cbs_shape ch c Hsh) in Hk.
    unfold cbs in Hk. simpl in Hk. apply list_elem_of_singleton in Hk as ->. done.
  - rewrite Ho in Hd by done. simpl in Hd. by rewrite lookup_insert_ne in Hd.
Qed.

Lemma rstep_inv s s' : rinv ctl good J T [] s → rstep_by s s' → rinv ctl good J T [] s'.
Proof.
  intros Hs Hst. destruct Hst as [e evs s s' He Hob Hev Et|e a fd s s' He Hob Ha Hna Hfd Et|a u s s' Ha Hu HU Hnc Et|s|a n s s' Hn Hd Hp Hc Et].
  - destruct (turn_safe ctl good U J T same_loop e evs s He (HE e Hob) Hs Hev) as [[_ E']|[[_ E']|(x & E' & Hx & _)]]; congruence.
  - by eapply (accept_inv_reactor ctl good U J T this same_loop e a fd s s' He (HE e Hob)).
  - by eapply (foreign_call_inv ctl good U J T).
  - by apply (post_destroyed_inv ctl good U J T).
  - destruct (delete_conn_inv ctl good J T a n s Hs Hn Hd Hp Hc) as (x & E' & Hx). congruence.
Qed.

Lemma rreach_inv s : rreach_by s → rinv ctl good J T [] s.
Proof.
  induction 1 as [w wfd s Es|s s' _ IH Hst].
  - destruct (reactor_ctor_inv w wfd) as (x & E' & Hx). congruence.
  - by eapply rstep_inv.
Qed.
End reachable.

(** Users that call what they like. *)
Abbreviation rreach ctl this same_loop := (rreach_by ctl this same_loop (λ _, True) (λ _, True)).
Abbreviation rstep ctl this same_loop := (rstep_by ctl this same_loop (λ _, True) (λ _, True)).
Lemma obeys_any e : True → obeys (λ _, True) e.
Proof. done. Qed.

(** C5. The reactor is safe until [TcpServer::stop] is called, for every epoll instance that
    keeps its documented contract. In every state that a loop reaches by turns, new
    connections, calls of other threads on existing connections, the server's answers to
    closes and the deletion of connections whose last owner is gone, whatever events the
    kernel reports next, whatever [read] and [write] answer (broken connections included) and
    whatever the user's callbacks call on existing connections of the loop, the turn ends,
    and every channel and connection that is used while events and functors are handled
    exists; but [std::length_error] can end it early, and a functor bound to a bare [this]
    ([send] or [shutdown] from another thread) that waits for a deleted connection makes it
    use that connection. Nothing else does. In every such state a connection has its channel,
    an open one asks for writability exactly while it has bytes to write, a closed one asks
    for nothing, and a destroyed one is not in the kernel's interest set. *)
Theorem reactor_safe (ctl : epoll_op → Z → Z * Z → interest → option interest) `{!EpollCtl ctl}
    (this : Z) (same_loop : bool) (e : env) (evs : list (Z * Z)) (s : reactor) :
  rreach ctl this same_loop s → sane e → from_kernel (poller_ s) evs →
  memory_but (stranded s) (turn ctl same_loop e evs s) (λ s', dom (nodes s') = dom (nodes s)) ∧
  ∀ a n, nodes s !! a = Some n → ∃ ch, chans (poller_ s) !! a = Some ch ∧
    (state_ (conn n) ≠ kDisconnected →
       is_writing ch = bool_decide (content (output_buffer_ (conn n)) ≠ [])) ∧
    (state_ (conn n) = kDisconnected → events_ ch = none_event_) ∧
    (destroyed n = true → ∀ fd ev, kernel (poller_ s) !! fd ≠ Some (ev, a)).
Proof.
  intros Hr He Hev. pose proof (rreach_inv ctl this same_loop (λ _, True) (λ _, True) (λ _, True) (λ _, True) (λ _, True) obeys_any s Hr) as Hs. split.
  - destruct (turn_safe ctl (λ _, True) (λ _, True) (λ _, True) (λ _, True) same_loop e evs s He (obeys_any e I) Hs Hev)
      as [?|Hm]; [by left | right]. eapply memory_mono; [exact Hm | done|]. by intros s' _ [_ [? _]].
  - intros a n Hn. destruct (ri_nodes _ _ _ _ _ _ Hs a n Hn) as [[sent Hi] Ht _ Hc Hgo _].
    destruct Hi as [[(Hw & _ & _ & _ & _ & ch & _ & Hch & _) Hwf Hst Hroom Hwr Hcl] _ _]. simpl in Hch.
    exists ch. split; [done|]. split; [|split].
    + intros Hd. specialize (Hwr Hd). unfold writing in Hwr. simpl in Hwr. rewrite Hch in Hwr.
      unfold is_writing. rewrite Hwr, readable_0 by done. symmetry. apply bool_decide_not.
    + intros Hd. specialize (Hcl Hd). simpl in Hcl. by rewrite Hch in Hcl.
    + intros Hd. destruct (Hgo Hd) as (x & Hx & Hix). assert (x = ch) as -> by congruence.
      by eapply unregistered_not_polled.
Qed.

(** ** A loop, for examples *)
Definition zeros : bytes := replicate (Z.to_nat 65536) x00.

(** A connection that was sent "hello", of which the kernel took two bytes, and shut down. *)
Definition slow_env : env :=
  mkEnv (λ a k s, match k, nodes s !! a with
                  | CallConn true, Some _ => [(a, USend (lit "hello")); (a, UShutdown)]
                  | _, _ => []
                  end)
    (λ _ _, (0, 0, zeros)) (λ _ _ m, (Z.min 2 (Zlen m), 0)).
Definition slow_wr : env := mkEnv (λ _ _ _, []) (rd slow_env) (wr slow_env).

Definition slow_start : reactor :=
  match reactor_ctor epoll_ideal 1 50 4 with Ok s => s | Stop _ => mkReactor EpollPoller_ctor ∅ [] [] end.
Definition slow_state : reactor :=
  match accept_conn epoll_ideal 1 true slow_env 100 7 slow_start with
  | Ok s => s
  | Stop _ => slow_start
  end.

Lemma slow_sane : sane slow_env ∧ sane slow_wr.
Proof.
  assert (Hrd : ∀ a c, Zlen (rd slow_env a c).2 = 65536 ∧ (rd slow_env a c).1.1 ≤ 65536).
  { intros a c. cbn [rd slow_env fst snd]. split; [unfold zeros; rewrite Zlen_replicate|]; lia. }
  assert (Hwr : ∀ a c m, (wr slow_env a c m).1 ≤ Zlen m) by (intros a c m; cbn [wr slow_env fst]; lia).
  split.
  - refine (Build_sane _ Hrd Hwr _). intros a k s b u. cbn [react slow_env].
    destruct k as [[]| | | |m], (nodes s !! a) as [nd|] eqn:En; intros Hin; try (by apply elem_of_nil in Hin).
    rewrite !elem_of_cons in Hin. destruct Hin as [[= -> ->]|[[= -> ->]|[]%elem_of_nil]];
      (split; [by rewrite En; eexists|]); cbn [user_fits]; [vm_compute; congruence | exact I].
  - refine (Build_sane slow_wr Hrd Hwr _). intros a k s b u. cbn [react slow_wr]. by intros ?%elem_of_nil.
Qed.

Lemma slow_reach : rreach epoll_ideal 1 true slow_state.
Proof.
  assert (H0 : rreach epoll_ideal 1 true slow_start)
    by (apply (rreach_start _ _ _ _ _ 50 4); vm_compute; reflexivity).
  apply (rreach_step _ _ _ _ _ slow_start); [exact H0|].
  apply (step_accept _ _ _ _ _ slow_env 100 7); [apply slow_sane | done | done | done | |].
  - intros b c Hb. vm_compute in Hb. destruct b as [|b|b]; try done.
    repeat (destruct b; try done). by injection Hb as <-.
  - vm_compute. reflexivity.
Qed.

Lemma reactor_safe_witness :
  ∃ n ch, nodes slow_state !! 100 = Some n ∧ chans (poller_ slow_state) !! 100 = Some ch ∧ is_writing ch = true ∧
    memory True (turn epoll_ideal true slow_env [(POLLOUT, 100); (POLLIN, 50)] slow_state)
      (λ s', dom (nodes s') = dom (nodes slow_state)).
Proof.
  destruct (nodes slow_state !! 100) as [n|] eqn:En; [|vm_compute in En; congruence].
  assert (Hp : pending slow_state = []) by (vm_compute; reflexivity).
  destruct (reactor_safe epoll_ideal 1 true slow_env [(POLLOUT, 100); (POLLIN, 50)] slow_state) as [Hm Hn].
  - exact slow_reach.
  - apply slow_sane.
  - split; [apply (bool_decide_unpack _); reflexivity|].
    intros ev a Hin. rewrite !elem_of_cons in Hin. destruct Hin as [[= -> ->]|[[= -> ->]|[]%elem_of_nil]];
      [exists 7, 7 | exists 4, 3]; vm_compute; reflexivity.
  - destruct (Hn 100 n En) as (ch & Hch & Hw & _). exists n, ch. split; [reflexivity|]. split; [exact Hch|].
    split; [|destruct Hm as [[(b & w & Hb & _) _]|Hm];
      [rewrite Hp in Hb; apply elem_of_nil in Hb; destruct Hb | exact Hm]]. rewrite Hw; vm_compute in En; injection En as <-; [vm_compute; reflexivity | discriminate].
Defined.
