(* ===== verification/DefaultCallbacks.v ===== *)
(** * The default callbacks of a connection: [network/tcp_connect.cpp]

    A [TcpServer] on which no callback is set gives its connections
    [default_conn_callback], which writes a line to the log, and [default_msg_callback], which
    empties the input buffer. Here they are the user of a [Reactor]: a policy that allows
    nothing but to consume input, under which no byte is ever sent, and what is received is
    gone when the operation that received it has ended. *)
From S2P Require Import Prelude ByteBuffer Poller TcpConnection Lifetime Reactor.

Definition default_conn_callback (connected : bool) : list user_op := [].
Definition default_msg_callback (buffer : ByteBuffer) : ByteBuffer := bb_retrieve_all buffer.

(** The callbacks of a server on which none is set, as calls on its connections. *)
Definition default_react (a : Z) (k : user_call) (s : reactor) : list (Z * user_op) :=
  match k, nodes s !! a with
  | CallConn up, Some _ => map (pair a) (default_conn_callback up)
  | CallMessage, Some n => [(a, UConsume (bb_bytes_readable (input_buffer_ (conn n))))]
  | _, _ => []
  end.

Definition consumes (u : user_op) : Prop := ∃ n, u = UConsume n.

(** Retrieving as many bytes as there are is [default_msg_callback]. *)
Lemma consume_all {P} (c : TcpConnection P) :
  consume (bb_bytes_readable (input_buffer_ c)) c = set_input (default_msg_callback (input_buffer_ c)) c.
Proof.
  assert (E : u64 (bb_bytes_readable (input_buffer_ c)) = bb_bytes_readable (input_buffer_ c))
    by (apply u64_small, (u_range 64); lia).
  unfold consume. rewrite E. unfold bb_retrieve. by rewrite Z.ltb_irrefl.
Qed.

Lemma content_retrieve_all b : content (bb_retrieve_all b) = [].
Proof. unfold content. simpl. by rewrite Z.sub_diag. Qed.

Lemma default_obeys e : react e = default_react → obeys consumes e.
Proof.
  intros He a k s b u. rewrite He. unfold default_react, default_conn_callback, consumes.
  intros Hin. repeat case_match; try (by apply elem_of_nil in Hin).
  apply list_elem_of_singleton in Hin as [= _ ->]. eauto.
Qed.

Lemma default_sane rd wr :
  (∀ a c, Zlen (rd a c).2 = 65536 ∧ (rd a c).1.1 ≤ 65536) → (∀ a c m, (wr a c m).1 ≤ Zlen m) →
  sane (mkEnv default_react rd wr).
Proof.
  intros Hrd Hwr. refine (Build_sane (mkEnv default_react rd wr) Hrd Hwr _). intros a k s b u. cbn [react].
  unfold default_react, default_conn_callback. destruct (nodes s !! a) as [n|] eqn:En; intros Hin;
    destruct k; try (by apply elem_of_nil in Hin).
  apply list_elem_of_singleton in Hin as [= -> ->]. by rewrite En.
Qed.

(** ** Nothing is sent *)
Definition silent {P} (c : TcpConnection P) : Prop :=
  wire c = [] ∧ content (output_buffer_ c) = [] ∧ state_ c ≠ kDisconnecting ∧ wr_shut c = false.

Section silence.
Context {P : Type} `{!ChannelOps P} `{!ChannelContract P}.
Implicit Types c : TcpConnection P.

Definition quiet c : Prop := silent c ∧ tasks c = [].

Lemma silent_close c c' : quiet c → _handle_close c = Ok c' → quiet c'.
Proof.
  intros [(Hw & Ho & Hs & Hsh) Ht]. unfold _handle_close. case_bool_decide; [by intros [= <-]|].
  intros E. apply bind_Ok_inv in E as ([b p] & _ & [= <-]). by repeat split.
Qed.

Lemma silent_not_writing sent c : conn_inv sent c → silent c → writing c = false.
Proof.
  intros [Ho _ _] (_ & Hc & _ & _). destruct (decide (state_ c = kDisconnected)) as [Hd|Hd].
  - by eapply closed_not_writing.
  - rewrite (oi_writing _ _ Ho Hd), readable_0 by apply (oi_wf _ _ Ho). by rewrite bool_decide_eq_true_2.
Qed.

Lemma silent_exec sent o c c' :
  conn_inv sent c → quiet c → permits consumes o → exec o c = Ok c' → quiet c'.
Proof.
  intros Hi Hq Hper. pose proof (silent_not_writing sent c Hi (proj1 Hq)) as Hnw.
  pose proof Hq as [(Hw & Ho & Hs & Hsh) Ht].
  destruct o as [|in_loop m nw err|nw err|n err x|nw| | |in_loop| | |b|n|k]; cbn [exec permits] in *;
    try (by destruct Hper).
  - unfold conn_established. case_bool_decide; cbn [negb]; [|by intros [= <-]].
    intros E. apply bind_Ok_inv in E as ([[] p] & _ & E); [injection E as <-; by repeat split|].
    eapply silent_close; [|exact E]. by repeat split.
  - unfold run_task. rewrite Ht. by intros [= <-].
  - unfold _handle_read. intros E. apply bind_Ok_inv in E as ([[n' e] b] & _ & E).
    repeat case_match; [injection E as <-; by repeat split | eapply silent_close; [|exact E]; by repeat split..].
  - unfold _handle_write. rewrite Hnw. by intros [= <-].
  - unfold _handle_error. by apply silent_close.
  - by apply silent_close.
  - unfold conn_destroyed. intros E. apply bind_Ok_inv in E as (c1 & E1 & E).
    apply bind_Ok_inv in E as (p & _ & [= <-]).
    assert (H1 : quiet c1); [|by destruct H1 as [(? & ? & ? & ?) ?]].
    case_bool_decide; [|by injection E1 as <-].
    apply bind_Ok_inv in E1 as ([b q] & _ & [= <-]). by repeat split.
  - intros [= <-]. by repeat split.
Qed.

(** ** What is received *)
Lemma handle_close_input c c' : _handle_close c = Ok c' → input_buffer_ c' = input_buffer_ c.
Proof.
  unfold _handle_close. case_bool_decide; [by intros [= <-]|].
  intros E. by apply bind_Ok_inv in E as ([b p] & _ & [= <-]).
Qed.

Lemma send_input m nw err c c' : _send_in_loop m nw err c = Ok c' → input_buffer_ c' = input_buffer_ c.
Proof.
  unfold _send_in_loop, direct_write, buffer_remaining. intros E.
  repeat first [case_match | apply bind_Ok_inv in E as (? & ? & E)]; by simplify_eq.
Qed.

(** An operation that puts bytes into the input buffer calls the message callback, and only
    that one. *)
Lemma exec_input o c c' :
  (∀ n, o ≠ OConsume n) → exec o c = Ok c' →
  input_buffer_ c' = input_buffer_ c ∨ calls c' = calls c ++ [CallMessage].
Proof.
  intros Hcons. destruct o as [|in_loop m nw err|nw err|n err x|nw| | |in_loop| | |b|n|k]; cbn [exec].
  - unfold conn_established. case_bool_decide; cbn [negb]; [|intros [= <-]; by left].
    intros E. apply bind_Ok_inv in E as ([[] p] & _ & E); [injection E as <-; by left|].
    left. by apply handle_close_input in E.
  - unfold send. intros E. left. repeat case_match; [by eapply send_input | by injection E as <-..].
  - unfold run_task. intros E. left. destruct (tasks c) as [|t ts]; [by injection E as <-|].
    destruct t; [by apply send_input in E | | | by injection E as <-..].
    + injection E as <-. unfold _shutdown_in_loop. by case_match.
    + unfold _force_close_in_loop in E. case_bool_decide; [by apply handle_close_input in E | by injection E as <-].
  - unfold _handle_read, bb_read_fd. destruct (Z.leb_spec n 0).
    + cbn [mbind outcome_bind]. destruct (Z.ltb_spec 0 n); [lia|]. unfold _handle_error. intros E. left.
      case_match; by apply handle_close_input in E.
    + intros E. apply bind_Ok_inv in E as ([[n' e] b] & Eb & E).
      assert (n' = n) as ->.
      { destruct (n <=? bb_bytes_writeable _); [by injection Eb | do 2 apply bind_Ok_inv in Eb as (? & _ & Eb); by injection Eb]. }
      destruct (Z.ltb_spec 0 n); [|lia]. injection E as <-. by right.
  - unfold _handle_write, _shutdown_in_loop. intros E. left.
    repeat first [case_match | apply bind_Ok_inv in E as (? & ? & E)]; simplify_eq; try done; by apply handle_close_input in E.
  - left. by apply handle_close_input.
  - left. by apply handle_close_input.
  - intros [= <-]. left. unfold shutdown, _shutdown_in_loop. by repeat case_match.
  - intros [= <-]. left. unfold force_close. by case_match.
  - unfold conn_destroyed. intros E. left. apply bind_Ok_inv in E as (c1 & E1 & E).
    apply bind_Ok_inv in E as (p & _ & [= <-]). simpl.
    case_bool_decide; [|by injection E1 as <-]. by apply bind_Ok_inv in E1 as ([b q] & _ & [= <-]).
  - intros [= <-]. by left.
  - intros [= <-]. by left.
  - by destruct (Hcons k).
Qed.
End silence.

#[export] Instance default_policy : Policy consumes silent (λ _, False).
Proof.
  split; [by repeat split|]. intros P H1 H2 sent o c c' Hi Hs Ht Hper E.
  assert (Hq : quiet c) by (split; [done|]; destruct (tasks c); [done | by inversion Ht]).
  destruct (silent_exec sent o c c' Hi Hq Hper E) as [Hs' ->]. done.
Qed.

(** ** The loop of a server with the default callbacks *)
Section loop.
Context (ctl : epoll_op → Z → Z * Z → interest → option interest) (this : Z) (same_loop : bool).
Implicit Types s : reactor.

(** No connection but those at [xs] has bytes in its input buffer. *)
Definition drained_but (xs : list Z) s : Prop :=
  ∀ b n, b ∉ xs → nodes s !! b = Some n → content (input_buffer_ (conn n)) = [].

Lemma operate_drained a o ts s s1 ks :
  (∀ n, o ≠ OConsume n) → drained_but [] s → operate ctl a o ts s = Ok (s1, ks) →
  drained_but [] s1 ∨ drained_but [a] s1 ∧ ks = [CallMessage].
Proof.
  intros Ho Hs. unfold operate, get. destruct (nodes s !! a) as [n|] eqn:En; [|done]. rewrite bind_Ok.
  intros E. apply bind_Ok_inv in E as (c & E & [= <- <-]).
  assert (Hoth : drained_but [a] (write_back a n c s)).
  { intros b nb Hb. simpl. rewrite lookup_insert_ne by set_solver. apply Hs, not_elem_of_nil. }
  destruct (exec_input o _ c Ho E) as [Hin|Hc]; [left | right; split; [done|]].
  - intros b nb _. destruct (decide (b = a)) as [->|Hne]; [|apply Hoth; set_solver].
    simpl. rewrite lookup_insert_eq. intros [= <-]. simpl in *. rewrite Hin.
    apply (Hs a n); [apply not_elem_of_nil | done].
  - rewrite Hc. apply drop_app_length.
Qed.

Lemma consume_drained a n e s s' :
  drained_but [a] s → nodes s !! a = Some n →
  user_call_op ctl e (a, UConsume (bb_bytes_readable (input_buffer_ (conn n)))) s = Ok s' → drained_but [] s'.
Proof.
  intros Hs En. unfold user_call_op, operate, get. cbn [fst snd user_conn_op]. rewrite En, !bind_Ok. cbn [exec].
  change (bb_bytes_readable (input_buffer_ (conn n))) with
    (bb_bytes_readable (input_buffer_ (set_tasks [] (on (poller_ s) (conn n))))).
  rewrite consume_all. intros [= <-] b nb _. simpl. destruct (decide (b = a)) as [->|Hne].
  - rewrite lookup_insert_eq. intros [= <-]. apply content_retrieve_all.
  - rewrite lookup_insert_ne by done. apply Hs. set_solver.
Qed.

Section defaults.
Context (e : env) (He : react e = default_react).

Lemma message_drained a s s' :
  drained_but [a] s → callback ctl same_loop e a CallMessage s = Ok s' → drained_but [] s'.
Proof.
  intros Hs. cbn [callback]. rewrite He. cbn [default_react]. destruct (nodes s !! a) as [n|] eqn:En; cbn [each].
  - intros E. apply bind_Ok_inv in E as (s1 & E & [= <-]). by eapply consume_drained.
  - intros [= <-] b nb _ Hb. apply (Hs b nb); [|done]. intros ->%list_elem_of_singleton. congruence.
Qed.

Lemma callback_drained a k s s' :
  drained_but [] s → callback ctl same_loop e a k s = Ok s' → drained_but [] s'.
Proof.
  intros Hs. destruct (decide (k = CallMessage)) as [->|Hne].
  - apply message_drained. intros b n _. apply Hs, not_elem_of_nil.
  - intros E. assert (nodes s' = nodes s) as Hn; [|unfold drained_but; by rewrite Hn].
    destruct k; try done; cbn [callback] in E; rewrite ?He in E; cbn [default_react default_conn_callback map] in E.
    + destruct (nodes s !! a); by injection E as <-.
    + injection E as <-. by destruct same_loop.
    + by injection E as <-.
    + by injection E as <-.
Qed.

Lemma run_op_drained a o ts s s' :
  (∀ n, o ≠ OConsume n) → drained_but [] s → run_op ctl same_loop e a o ts s = Ok s' → drained_but [] s'.
Proof.
  intros Ho Hs. unfold run_op. intros E. apply bind_Ok_inv in E as ([s1 ks] & E1 & E).
  destruct (operate_drained a o ts s s1 ks Ho Hs E1) as [H1|[H1 ->]].
  - eapply loop_keeps; [|exact H1 | exact E]. intros k t t' _. apply callback_drained.
  - cbn [each] in E. apply bind_Ok_inv in E as (s2 & E & [= <-]). by eapply message_drained.
Qed.

Lemma call_drained k s s' : drained_but [] s → call ctl same_loop e k s = Ok s' → drained_but [] s'.
Proof.
  intros Hs. destruct k as [a|a|a|a|]; cbn [call]; intros E; [| | | |by injection E as <-].
  - apply bind_Ok_inv in E as (n & _ & E). destruct (rd e a (conn n)) as [[r err] x].
    by eapply run_op_drained in E.
  - apply bind_Ok_inv in E as (n & _ & E). by eapply run_op_drained in E.
  - by eapply run_op_drained in E.
  - by eapply run_op_drained in E.
Qed.

Lemma handle_channel_drained a s s' :
  drained_but [] s → handle_channel ctl same_loop e a s = Ok s' → drained_but [] s'.
Proof.
  assert (Hif : ∀ f g t t', drained_but [] t →
    call_if (λ s, deref a (poller_ s)) (call ctl same_loop e) f g t = Ok t' → drained_but [] t').
  { intros f g t t' Ht E. apply bind_Ok_inv in E as (ch & _ & E).
    repeat case_match; [by eapply call_drained | by injection E as <-..]. }
  intros Hs. unfold handle_channel, handle_event. intros E.
  do 3 (apply bind_Ok_inv in E as (? & ? & E)). eauto 6.
Qed.

Lemma run_functor_drained f s s' :
  drained_but [] s → run_functor ctl same_loop e f s = Ok s' → drained_but [] s'.
Proof.
  intros Hs. destruct f as [a [| |t]]; unfold run_functor; cbn [fst snd]; intros E.
  - by eapply run_op_drained in E.
  - destruct (run_op _ _ _ _ _ _ _) as [s1|] eqn:E1; [|done]. injection E as <-.
    eapply run_op_drained in E1; [|done..]. intros b n Hb. simpl. rewrite lookup_alter_Some.
    intros [(<- & n0 & Hn0 & ->)|[_ Hn]]; [by apply (E1 a n0) | by apply (E1 b)].
  - apply bind_Ok_inv in E as (n & _ & E). destruct (match t with QSend _ => _ | _ => _ end).
    by eapply run_op_drained in E.
Qed.

(** What a turn receives it drops. *)
Lemma turn_drained evs s s' : drained_but [] s → turn ctl same_loop e evs s = Ok s' → drained_but [] s'.
Proof.
  intros Hs. unfold turn. intros E. apply bind_Ok_inv in E as ([act p] & _ & E).
  apply bind_Ok_inv in E as (ls & _ & E). apply bind_Ok_inv in E as (s1 & E1 & E).
  unfold do_other_tasks in E.
  eapply loop_keeps; [intros f t t' _; apply run_functor_drained | | exact E].
  change (drained_but [] s1).
  eapply loop_keeps; [intros f t t' _; apply handle_channel_drained | | exact E1]. exact Hs.
Qed.

Lemma accept_drained a fd s s' :
  drained_but [] s → accept_conn ctl this same_loop e a fd s = Ok s' → drained_but [] s'.
Proof.
  intros Hs. assert (H1 : drained_but [] (new_node this a fd s)).
  { intros b n Hb. simpl. intros [[<- <-]|[_ Hn]]%lookup_insert_Some; [done | by apply (Hs b)]. }
  unfold accept_conn. destruct same_loop eqn:Esl; [rewrite <- Esl; by apply run_op_drained | by intros [= <-]].
Qed.
End defaults.

(** ** Every reachable state *)
Definition default_env (e : env) : Prop := react e = default_react.

Lemma reach_drained s : rreach_by ctl this same_loop default_env consumes s → drained_but [] s.
Proof.
  induction 1 as [w wfd s Es|s s' _ IH Hst].
  - unfold reactor_ctor in Es. apply bind_Ok_inv in Es as ([b p] & _ & [= <-]). by intros a n _ ?.
  - destruct Hst as [e evs s s' _ He _ E|e a fd s s' _ He _ _ _ E|a u s s' _ _ [k ->] Hu E|s|a n s s' _ _ _ _ E].
    + by eapply turn_drained.
    + by eapply accept_drained.
    + by destruct (Hu k).
    + unfold post_destroyed. by destruct (closing s).
    + unfold delete_conn in E. apply bind_Ok_inv in E as (ch & _ & [= <-]).
      intros b nb Hb. simpl. rewrite lookup_delete_Some. intros [_ Hn]. by apply (IH b).
Qed.

Lemma reach_silent `{!EpollCtl ctl} s a n :
  rreach_by ctl this same_loop default_env consumes s → nodes s !! a = Some n →
  silent (conn n) ∧ content (input_buffer_ (conn n)) = [] ∧ ∀ t, (a, WTask t) ∉ pending s.
Proof.
  intros Hr Hn.
  pose proof (rreach_inv ctl this same_loop default_env consumes (λ _, True) silent (λ _, False) default_obeys s Hr) as Hs.
  split; [apply (no_policy _ _ _ _ _ _ _ (ri_nodes _ _ _ _ _ _ Hs a n Hn))|].
  split; [by apply (reach_drained s Hr a); [apply not_elem_of_nil|]|].
  intros t Ht. by destruct (ri_queued _ _ _ _ _ _ Hs a (WTask t) Ht) as [_ [_ []]].
Qed.
End loop.
