(* ===== verification/TimedLoop.v ===== *)
(** * The whole body of [EventLoop::loop]: timers, events and functors

    The world of the timer queue ([Timers]) is here the loop with its connections ([Reactor]):
    the callback of a timer calls operations of connections of the loop and of the queue
    itself. One iteration runs the timers that are due, polls, handles the active channels
    and runs the functors. *)
From S2P Require Import Prelude Poller TcpConnection Timers Reactor.

(** What a timer's callback does, call by call. *)
Inductive timer_act (TimerCallback : Type) :=
| TConn (bu : Z * user_op)
| TTimer (o : tq_op TimerCallback).
Arguments TConn {_}.
Arguments TTimer {_}.

Section timed.
Context {TimerCallback : Type}.
Abbreviation queue := (TimerQueue TimerCallback reactor).
Context (ctl : epoll_op → Z → Z * Z → interest → option interest) (this : Z) (same_loop : bool).

Section iteration.
Context (e : env) (body : TimerCallback → queue → list (timer_act TimerCallback)).

Definition timer_act_op (x : timer_act TimerCallback) (q : queue) : outcome queue :=
  match x with
  | TConn bu => s ← user_call_op ctl e bu (world q); Ok (set_world s q)
  | TTimer o => exec_op o q
  end.

Definition call_timer (k : TimerCallback) (q : queue) : outcome queue :=
  each timer_act_op (body k q) q.

(** [kern] is what [epoll_wait] reports for the state of the poller it finds. *)
Definition loop_turn (fuel : nat) (now : Timestamp) (kern : EpollPoller cb → list (Z * Z)) (q : queue)
    : option (outcome queue) :=
  match do_timer call_timer fuel now q with
  | Some (Ok q1) =>
      Some (s ← turn ctl same_loop e (kern (poller_ (world q1))) (world q1); Ok (set_world s q1))
  | r => r
  end.
End iteration.

(** ** What callbacks and clocks are expected to do *)

(** Times are below half of the range of [int64_t], and repeat counts are -1 or more: the
    next expiration can be computed. *)
Definition horizon : Z := 2 ^ 62.
Definition timer_fits (interval repeat_count : Z) : Prop :=
  0 ≤ interval ≤ horizon ∧ -1 ≤ repeat_count < 2 ^ 63.

Definition timely (t : Timer TimerCallback) : Prop :=
  0 ≤ expiration_ t ∧ timer_fits (interval_ t) (repeat_count_ t).

Definition op_timely (o : tq_op TimerCallback) : Prop :=
  match o with
  | OpAddLvalue _ when interval rc | OpAddRvalue _ when interval rc => 0 ≤ when ∧ timer_fits interval rc
  | _ => True
  end.

(** A callback [k] that is called at [now] has pointers to existing connections only, adds
    timers for later, and does not remove its own timer from the set. *)
Definition act_tame (now : Timestamp) (k : TimerCallback) (q : queue) (x : timer_act TimerCallback) : Prop :=
  match x with
  | TConn (b, u) => is_Some (nodes (world q) !! b) ∧ user_fits u
  | TTimer o =>
      op_timely o ∧
      match o with
      | OpAddLvalue _ when _ _ | OpAddRvalue _ when _ _ => now < when
      | OpRemove a => ∀ t, heap q !! a = Some t → callback_ t ≠ k
      | OpCancel _ _ => True
      end
  end.
Definition tame (now : Timestamp) (body : TimerCallback → queue → list (timer_act TimerCallback)) : Prop :=
  ∀ k q, Forall (act_tame now k q) (body k q).

(** ** The invariant and what a pass changes *)
Context (good : EpollPoller cb → Prop) `{!KernelKeeps ctl good}.
Implicit Types (q : queue) (x : Entry) (t : Timer TimerCallback).

Record tinv q : Prop := {
  ti_twf : twf q;
  ti_world : rinv ctl good (λ _, True) (λ _, True) [] (world q);
  ti_timely : ∀ a t, heap q !! a = Some t → timely t;
}.

(** The timer at [own] is running at [now]. *)
Record evolves (now : Timestamp) (own : Z) q q' : Prop := {
  ev_later : later (world q) (world q');
  ev_heap : ∀ a t, heap q !! a = Some t → ∃ t', heap q' !! a = Some t' ∧
    expiration_ t' = expiration_ t ∧ callback_ t' = callback_ t;
  ev_due : ∀ x t, x ∈ timers_ q' → heap q' !! x.2 = Some t → expiration_ t ≤ now → x ∈ timers_ q;
  ev_own : ∀ x, x ∈ timers_ q → x.2 = own → x ∈ timers_ q';
}.

Lemma evolves_refl now own q : evolves now own q q.
Proof. split; try done; [apply later_refl | eauto]. Qed.

Lemma evolves_trans now own q1 q2 q3 :
  twf q2 → evolves now own q1 q2 → evolves now own q2 q3 → evolves now own q1 q3.
Proof.
  intros Hwf [L1 H1 D1 O1] [L2 H2 D2 O2]. split.
  - by eapply later_trans.
  - intros a t Ha. destruct (H1 a t Ha) as (t2 & Ha2 & E1 & C1). destruct (H2 a t2 Ha2) as (t3 & Ha3 & E2 & C2).
    exists t3. split; [done|]. split; congruence.
  - intros x t Hx Ht Hle. assert (Hx2 : x ∈ timers_ q2) by (by eapply D2).
    destruct (twf_live _ Hwf x Hx2) as [t2 Ht2]. destruct (H2 _ _ Ht2) as (t' & Ht' & E & _).
    apply (D1 x t2 Hx2 Ht2). assert (t' = t) as -> by congruence. lia.
  - eauto.
Qed.
(** *** Operations of the queue *)
Lemma add_evolves now own a k when interval rc q :
  tinv q → heap q !! a = None → 0 ≤ when → timer_fits interval rc →
  ∃ q', add_timer_in_loop a (Timer_new a k when interval rc q) = Ok q' ∧ tinv q' ∧
    (now < when → evolves now own q q').
Proof.
  intros [Hwf Hw Ht] Ha H0 Hfit. destruct (twf_add a k when interval rc q Ha Hwf) as (q' & E & Hwf').
  exists q'. split; [done|]. unfold add_timer_in_loop, insert in E. simpl in E. rewrite lookup_insert_eq in E.
  injection E as <-. split.
  - split; [done | done |]. simpl. intros b u [[<- <-]|[_ Hb]]%lookup_insert_Some; [done | by eapply Ht].
  - intros Hlt. split; simpl.
    + apply later_refl.
    + intros b u Hb. exists u. split; [|done]. rewrite lookup_insert_ne; [done | congruence].
    + intros x u [->|Hx]%elem_of_set_insert; [|done]. simpl. rewrite lookup_insert_eq.
      intros [= <-]. simpl. lia.
    + intros x Hx _. apply elem_of_set_insert. by right.
Qed.

Lemma cancel_evolves now own id off q :
  tinv q → tinv (cancel_timer_in_loop id off q) ∧ evolves now own q (cancel_timer_in_loop id off q).
Proof.
  intros [Hwf Hw Ht]. pose proof (twf_cancel id off q Hwf) as Hwf'. revert Hwf'. unfold cancel_timer_in_loop.
  destruct (find_timer (timer_ id) (timers_ q)) as [x|]; [|eauto using tinv, evolves_refl]. intros Hwf'.
  assert (Hal : ∀ a t', alter (cancel_timer off) x.2 (heap q) !! a = Some t' →
    ∃ t, heap q !! a = Some t ∧ (t' = t ∨ t' = cancel_timer off t)).
  { intros a t'. rewrite lookup_alter_Some. intros [(<- & t & Ha & ->)|[_ Ha]]; eauto. }
  split.
  - split; [done | done |]. simpl. intros a t' (t & Ha & [-> | ->])%Hal; by apply Ht in Ha.
  - split; try done; [apply later_refl|]. simpl. intros a t Ha.
    destruct (decide (a = x.2)) as [->|Hne]; [rewrite lookup_alter_eq, Ha | rewrite lookup_alter_ne by done];
      eexists; (split; [done|]); done.
Qed.

Lemma remove_evolves now own id q :
  tinv q → tinv (remove_timer_in_loop id q) ∧
  (timer_ id ≠ own → evolves now own q (remove_timer_in_loop id q)).
Proof.
  intros [Hwf Hw Ht]. pose proof (twf_remove id q Hwf) as Hwf'. revert Hwf'. unfold remove_timer_in_loop.
  destruct (find_timer (timer_ id) (timers_ q)) as [x|] eqn:Ef; [|eauto using tinv, evolves_refl]. intros Hwf'.
  apply find_timer_Some in Ef as [_ Hx2]. split; [done|]. intros Hne. split; simpl.
  - apply later_refl.
  - eauto.
  - by intros y t Hy%elem_of_set_erase.
  - intros y Hy Ho. unfold set_erase. apply list_elem_of_filter. split; [|done]. congruence.
Qed.

Lemma exec_op_evolves now own o q :
  tinv q → op_timely o →
  ∃ q', exec_op o q = Ok q' ∧ tinv q' ∧
    (match o with
     | OpAddLvalue _ when _ _ | OpAddRvalue _ when _ _ => now < when
     | OpRemove a => a ≠ own
     | OpCancel _ _ => True
     end → evolves now own q q').
Proof.
  intros Hq Ho. assert (Hf : heap q !! fresh ({[0]} ∪ dom (heap q)) = None).
  { apply not_elem_of_dom. pose proof (is_fresh ({[0]} ∪ dom (heap q))). set_solver. }
  destruct o as [k when i rc|k when i rc|a|a off]; unfold exec_op; cbn [op_timely] in Ho.
  - unfold add_timer_lvalue. destruct Ho as [H0 [Hi _]].
    destruct (add_evolves now own _ k when i (-1) q Hq Hf) as (q' & -> & H); [done | by split|]. by exists q'.
  - unfold add_timer_rvalue. destruct Ho as [H0 Hi].
    destruct (add_evolves now own _ k when i rc q Hq Hf) as (q' & -> & H); [done | done |]. by exists q'.
  - eexists. split; [done|]. by apply remove_evolves.
  - eexists. split; [done|]. destruct (cancel_evolves now own (mkTimerId a 0) off q Hq). done.
Qed.
(** *** A pass over the timers *)
Section pass.
Context (e : env) (body : TimerCallback → queue → list (timer_act TimerCallback)) (now : Timestamp).
Context (He : sane e) (Hbody : tame now body) (Hnow : 0 ≤ now < horizon).

Lemma timer_act_safe own k q0 q a :
  tinv q → evolves now own q0 q → (∃ t, heap q0 !! own = Some t ∧ callback_ t = k) → act_tame now k q0 a →
  memory True (timer_act_op e a q) (λ q', tinv q' ∧ evolves now own q0 q').
Proof.
  intros Hq Hev (t & Ht & Hk) Ha. destruct a as [[b u]|o]; cbn [timer_act_op act_tame] in *.
  - destruct Ha as [Hb Hu].
    eapply memory_bind; [apply (user_call_safe ctl good (λ _, True) (λ _, True) (λ _, True) e He [] (world q) b u)|].
    + apply (ti_world _ Hq).
    + by eapply later_some; [apply (ev_later _ _ _ _ Hev)|].
    + done.
    + done.
    + intros s _ [Hs Hl]. apply memory_ret. destruct Hq as [Hwf _ Htm], Hev as [L H D O].
      split; [split; [by apply twf_set_world | done | done]|]. split; try done. by eapply later_trans.
  - destruct Ha as [Ho Hx]. destruct (exec_op_evolves now own o q Hq Ho) as (q' & -> & Hq' & He').
    apply memory_ret. split; [done|]. eapply evolves_trans; [apply Hq | exact Hev|]. apply He'.
    destruct o as [k' when i rc|k' when i rc|a|a off]; try done. intros ->. by apply (Hx t Ht).
Qed.

Lemma call_timer_safe own t q :
  tinv q → heap q !! own = Some t →
  memory True (call_timer e body (callback_ t) q) (λ q', tinv q' ∧ evolves now own q q').
Proof.
  intros Hq Ht. apply memory_each; [eauto using evolves_refl|]. intros a q' Ha [Hq' Hev].
  eapply timer_act_safe; [done | done | eauto |]. by eapply (proj1 (Forall_forall _ _) (Hbody _ _)).
Qed.

Lemma after_call_timely t :
  timely t → expiration_ t ≤ now → ∃ t', after_call t = Ok t' ∧ timely t'.
Proof.
  unfold timely, timer_fits, horizon in *. intros (H0 & Hi & Hr) Hle. unfold after_call, Timestamp_add_assign.
  rewrite !i64_ok by lia. cbn [mbind outcome_bind].
  destruct (Z.eqb_spec (repeat_count_ t) (-1)); [eexists; split; [done|]; simpl; lia|].
  destruct (Z.eqb_spec (repeat_count_ t - 1) 0); eexists; (split; [done|]); simpl; lia.
Qed.

(** What running the timer at [own] leaves of the others. *)
Record ran (own : Z) q q' : Prop := {
  ran_later : later (world q) (world q');
  ran_due : ∀ x t, x ∈ timers_ q' → x.2 ≠ own → heap q' !! x.2 = Some t → expiration_ t ≤ now →
    x ∈ timers_ q ∧ ∃ t0, heap q !! x.2 = Some t0 ∧ expiration_ t0 ≤ now;
  ran_own : ∀ x, x ∈ timers_ q → x.2 = own → x ∈ timers_ q' ∧ is_Some (heap q' !! own);
}.

Lemma Timer_run_safe own t q :
  tinv q → heap q !! own = Some t → expiration_ t ≤ now →
  memory True (Timer_run (call_timer e body) own q) (λ q', tinv q' ∧ ran own q q').
Proof.
  intros Hq Ht Hle. unfold Timer_run. rewrite Ht. destruct (canceled_ t).
  { apply memory_ret. split; [done|]. split; [apply later_refl | eauto | eauto]. }
  eapply memory_bind; [by apply (call_timer_safe own t q)|]. intros q1 _ [Hq1 [L H D O]].
  destruct (H own t Ht) as (t1 & Ht1 & E1 & _). rewrite Ht1. pose proof Hq1 as [Hwf1 Hw1 Htm1].
  destruct (after_call_timely t1) as (t2 & E2 & Htm2); [by eapply Htm1 | lia|].
  rewrite E2. cbn [mbind outcome_bind]. apply memory_ret. split; [split|split]; simpl; try done.
  - eapply twf_update; eauto using after_call_sequence.
  - intros a u [[<- <-]|[_ Ha]]%lookup_insert_Some; [done | by eapply Htm1].
  - intros x u Hx Hne Hu Hule. rewrite lookup_insert_ne in Hu by done.
    assert (Hx0 : x ∈ timers_ q) by (by eapply D). split; [done|].
    destruct (twf_live _ (ti_twf _ Hq) x Hx0) as [t0 Ht0]. exists t0. split; [done|].
    destruct (H _ _ Ht0) as (u' & Hu' & Eu & _). assert (u' = u) as -> by congruence. lia.
  - intros x Hx Hxo. split; [auto|]. rewrite lookup_insert_eq. eauto.
Qed.

Lemma next_after_Some x y l : next_after x l = Some y → y ∈ l ∧ entry_lt x y = true.
Proof.
  induction l as [|z l IH]; simpl; [done|]. destruct (entry_lt x z) eqn:E.
  - intros [= <-]. split; [left | done].
  - intros [? ?]%IH. split; [by right | done].
Qed.

(** Of the entries at the iterator or behind it those that are due are in [todo]. *)
Definition covers (todo : list Entry) (iter : option Entry) q : Prop :=
  match iter with
  | None => True
  | Some i => i ∈ timers_ q ∧ ∀ x t, x ∈ timers_ q → heap q !! x.2 = Some t → expiration_ t ≤ now →
      entry_lt x i = false → x ∈ todo
  end.

Lemma same_timer q x y : twf q → x ∈ timers_ q → y ∈ timers_ q → x.2 = y.2 → x = y.
Proof.
  intros Hwf [i Hi]%list_elem_of_lookup [j Hj]%list_elem_of_lookup E.
  assert (i = j) as ->; [|congruence].
  apply (NoDup_lookup (timers_ q).*2 i j x.2); [apply (twf_once _ Hwf)|..]; rewrite list_lookup_fmap.
  - by rewrite Hi.
  - by rewrite Hj, E.
Qed.

Lemma covers_next i todo q q1 :
  covers todo (Some i) q → twf q1 → ran i.2 q q1 → i ∈ timers_ q1 →
  covers (filter (λ x, x ≠ i) todo) (next_after i (timers_ q1)) q1.
Proof.
  intros [_ Hc] Hwf [_ D _] Hi. destruct (next_after i (timers_ q1)) as [j|] eqn:Ej; [|done].
  apply next_after_Some in Ej as [Hj Hij]. split; [done|]. intros x t Hx Ht Hle Hxj.
  assert (Hne : x ≠ i) by (intros ->; congruence).
  assert (Hne2 : x.2 ≠ i.2).
  { intros E. apply Hne. by apply (same_timer q1). }
  destruct (D x t Hx Hne2 Ht Hle) as (Hx0 & t0 & Ht0 & Hle0).
  apply list_elem_of_filter. split; [done|]. apply (Hc x t0); try done.
  destruct (entry_lt x i) eqn:Exi; [|done]. pose proof (entry_lt_trans _ _ _ Exi Hij). congruence.
Qed.

Lemma covers_erase i todo j q :
  covers todo j q → (∀ y, j = Some y → y ≠ i) → covers todo j (set_timers (set_erase i (timers_ q)) q).
Proof.
  destruct j as [y|]; [|done]. intros [Hy Hc] Hne. split.
  - apply list_elem_of_filter. auto.
  - simpl. intros x t Hx%elem_of_set_erase. by apply Hc.
Qed.

Lemma do_timer_loop_safe fuel todo iter q :
  tinv q → covers todo iter q → (length todo < fuel)%nat →
  ∃ r, do_timer_loop (call_timer e body) fuel now iter q = Some r ∧
    memory True r (λ q', tinv q' ∧ later (world q) (world q')).
Proof.
  revert todo iter q. induction fuel as [|fuel IH]; intros todo [i|] q Hq Hc Hf; try lia; cbn [do_timer_loop].
  2: { eexists. split; [done|]. apply memory_ret. eauto using later_refl. }
  pose proof Hc as [Hi Hin]. destruct (twf_live _ (ti_twf _ Hq) i Hi) as [t Ht]. rewrite Ht.
  destruct (ts_le (expiration_ t) now) eqn:Hdue.
  2: { eexists. split; [done|]. apply memory_ret. eauto using later_refl. }
  assert (Hle : expiration_ t ≤ now) by (unfold ts_le, ts_gt, ts_lt in Hdue; lia).
  destruct (Timer_run_safe i.2 t q Hq Ht Hle) as [[_ ->]|(q1 & -> & Hq1 & Hr)].
  { eexists. split; [done|]. by left. }
  destruct (ran_own _ _ _ Hr i Hi eq_refl) as [Hi1 [t1 Ht1]]. rewrite bool_decide_eq_true_2, Ht1 by done.
  pose proof (covers_next i todo q q1 Hc (ti_twf _ Hq1) Hr Hi1) as Hc1.
  assert (Hlen : (length (filter (λ x, x ≠ i) todo) < fuel)%nat).
  { assert (i ∈ todo) by (by eapply Hin; [| | | apply entry_lt_irrefl]).
    assert (length (filter (λ x, x ≠ i) todo) < length todo)%nat by (eapply length_filter_lt; [done | tauto]). lia. }
  assert (Hdone : ∀ q2, world q2 = world q1 → tinv q2 → covers (filter (λ x, x ≠ i) todo) (next_after i (timers_ q1)) q2 →
    ∃ r, do_timer_loop (call_timer e body) fuel now (next_after i (timers_ q1)) q2 = Some r ∧
      memory True r (λ q', tinv q' ∧ later (world q) (world q'))).
  { intros q2 Ew Hq2 Hc2. destruct (IH _ _ q2 Hq2 Hc2 Hlen) as (r & -> & Hm). exists r. split; [done|].
    eapply memory_mono; [exact Hm | done|]. intros q' _ [Hq' Hl]. split; [done|].
    eapply later_trans; [apply (ran_later _ _ _ Hr) | by rewrite <- Ew]. }
  destruct (repeat_count_ t1 =? 0); apply Hdone; try done.
  - destruct Hq1 as [Hwf Hw Htm]. split; [by apply twf_erase | done | done].
  - apply covers_erase; [done|]. intros y [_ Hy]%next_after_Some ->. by rewrite entry_lt_irrefl in Hy.
Qed.

Lemma do_timer_safe q :
  tinv q → ∃ r, do_timer (call_timer e body) (S (length (timers_ q))) now q = Some r ∧
    memory True r (λ q', tinv q' ∧ later (world q) (world q')).
Proof.
  intros Hq. apply (do_timer_loop_safe _ (timers_ q)); [done| |lia].
  destruct (timers_ q) as [|i l] eqn:E; [done|]. split; [rewrite E; left|]. intros x t Hx _ _ _. by rewrite <- E.
Qed.
End pass.
(** ** Reachable states *)

(** Whatever the loop does apart from its timers, passes over the timers with any tame
    callbacks, and operations on the queue from the functors and callbacks of the loop. *)
Inductive treach : queue → Prop :=
| treach_start w wfd created s : reactor_ctor ctl this w wfd = Ok s → treach (TimerQueue_ctor created s)
| treach_world q s : treach q → rstep ctl this same_loop (world q) s → treach (set_world s q)
| treach_op o q q' : treach q → op_timely o → exec_op o q = Ok q' → treach q'
| treach_pass (e : env) body now q q' :
    treach q → sane e → tame now body → 0 ≤ now < horizon →
    do_timer (call_timer e body) (S (length (timers_ q))) now q = Some (Ok q') → treach q'.

Lemma treach_inv q : treach q → tinv q.
Proof.
  induction 1 as [w wfd created s E|q s _ [Hwf Hw Ht] Hst|o q q' _ IH Ho E|e body now q q' _ IH He Hb Hn E].
  - destruct (reactor_ctor_inv ctl this good (λ _, True) (λ _, True) w wfd) as (x & E' & Hx). assert (x = s) as -> by congruence.
    split; [apply twf_ctor | done |]. simpl. intros a t Ha. by rewrite lookup_empty in Ha.
  - split; [by apply twf_set_world | by apply (rstep_inv ctl this same_loop (λ _, True) (λ _, True) good (λ _, True) (λ _, True) obeys_any (world q)) | done].
  - destruct (exec_op_evolves 0 0 o q IH Ho) as (x & E' & Hx & _). congruence.
  - destruct (do_timer_safe e body now He Hb Hn q IH) as (r & E' & [[_ ->]|(x & -> & Hx & _)]); congruence.
Qed.

Lemma loop_turn_safe (e : env) body now kern q :
  tinv q → sane e → tame now body → 0 ≤ now < horizon → (∀ p, from_kernel p (kern p)) →
  ∃ r, loop_turn e body (S (length (timers_ q))) now kern q = Some r ∧
    memory_but (stranded (world q)) r (λ q', tinv q' ∧ later (world q) (world q')).
Proof.
  intros Hq He Hb Hn Hk. unfold loop_turn.
  destruct (do_timer_safe e body now He Hb Hn q Hq) as (r & -> & [[_ ->]|(q1 & -> & Hq1 & Hl1)]).
  { eexists. split; [done|]. right. by left. }
  eexists. split; [done|]. destruct Hq1 as [Hwf Hw Ht].
  destruct (turn_safe ctl good (λ _, True) (λ _, True) (λ _, True) same_loop e (kern (poller_ (world q1))) (world q1)
    He (obeys_any e I) Hw (Hk _)) as [[Hst ->]|[[_ ->]|(s & -> & Hs & Hl)]].
  - left. split; [by eapply stranded_later | done].
  - right. by left.
  - right. apply memory_ret. split; [split; [by apply twf_set_world | done | done]|].
    by eapply later_trans.
Qed.
End timed.

(** C6. An iteration of the loop with its timers is safe and ends, until [TcpServer::stop] is
    called and for timer callbacks that are tame: a callback of a timer adds timers for later
    than now only, does not remove its own timer, which would be used after its deletion
    ([Timers.remove_self_dangles]), nor one with the same callback, and times and intervals
    stay below a horizon that rules out overflow; callbacks of connections do not touch the
    timers while they are called. In every state reached by
    iterations, new and deleted connections, calls from other threads on existing connections
    and operations on timers, whatever the kernel reports, whatever [read] and [write] answer,
    and whatever the callbacks of connections and the tame callbacks of timers call: the pass
    over the timers ends after at most one step per entry of the set, no timer, entry, channel
    or connection is used that does not exist, no expiration overflows. Only
    [std::length_error] can end the iteration early, or a functor bound to a bare [this] that
    waits for a deleted connection. Afterwards the set of timers is ordered and every entry
    refers to a timer. *)
Theorem loop_iteration_safe {TimerCallback} (ctl : epoll_op → Z → Z * Z → interest → option interest)
    `{!EpollCtl ctl} (this : Z) (same_loop : bool) (e : env)
    (body : TimerCallback → TimerQueue TimerCallback reactor → list (timer_act TimerCallback))
    (now : Timestamp) (kern : EpollPoller cb → list (Z * Z)) (q : TimerQueue TimerCallback reactor) :
  treach ctl this same_loop q →
  sane e → tame now body → 0 ≤ now < horizon → (∀ p, from_kernel p (kern p)) →
  ∃ r, loop_turn ctl same_loop e body (S (length (timers_ q))) now kern q = Some r ∧
    memory_but (stranded (world q)) r (λ q', sorted (timers_ q') ∧ (∀ x, x ∈ timers_ q' → is_Some (heap q' !! x.2)) ∧
      dom (nodes (world q')) = dom (nodes (world q))).
Proof.
  intros Hr He Hb Hn Hk. pose proof (treach_inv ctl this same_loop (λ _, True) q Hr) as Hq.
  destruct (loop_turn_safe ctl same_loop (λ _, True) e body now kern q Hq He Hb Hn Hk) as (r & -> & Hm).
  exists r. split; [done|]. destruct Hm as [?|Hm]; [by left | right]. eapply memory_mono; [exact Hm | done|].
  intros q' _ [[Hwf _ _] [? _]]. split; [apply (twf_sorted _ Hwf)|]. split; [apply (twf_live _ Hwf) | done].
Qed.

(** ** An example: two timers that act on the connection of [slow_state]

    The first closes it, the second asks for its shutdown and adds a timer for later. *)
Definition idle_body (k : nat) (q : TimerQueue nat reactor) : list (timer_act nat) :=
  match nodes (world q) !! 100, k with
  | Some _, 1%nat => [TConn (100, UForceClose)]
  | Some _, _ => [TConn (100, UShutdown); TTimer (OpAddRvalue 1%nat 50 0 1)]
  | None, _ => []
  end.

Definition idle_ops : list (tq_op nat) := [OpAddRvalue 1%nat 20 10 1; OpAddLvalue 2%nat 10 5 0].
Definition idle_state : TimerQueue nat reactor :=
  match each exec_op idle_ops (TimerQueue_ctor 0 slow_state) with
  | Ok q => q
  | Stop _ => TimerQueue_ctor 0 slow_state
  end.

Lemma idle_tame : tame 30 idle_body.
Proof.
  intros k q. unfold idle_body. destruct (nodes (world q) !! 100) as [n|] eqn:E; [|constructor].
  assert (is_Some (nodes (world q) !! 100)) by eauto.
  destruct k as [|[|k]]; repeat constructor; unfold horizon; cbn [user_fits]; try done; lia.
Qed.

Lemma idle_reach : treach epoll_ideal 1 true idle_state.
Proof.
  assert (H0 : treach (TimerCallback := nat) epoll_ideal 1 true (TimerQueue_ctor 0 slow_state)).
  { assert (Hgen : ∀ s, rreach epoll_ideal 1 true s → treach (TimerCallback := nat) epoll_ideal 1 true (TimerQueue_ctor 0 s)).
    { induction 1 as [w wfd s E|s s' _ IH Hst]; [by eapply treach_start|].
      exact (treach_world _ _ _ (TimerQueue_ctor 0 s) s' IH Hst). }
    apply Hgen, slow_reach. }
  assert (Hops : ∀ os q q', Forall op_timely os → treach epoll_ideal 1 true q →
    each exec_op os q = Ok q' → treach (TimerCallback := nat) epoll_ideal 1 true q').
  { induction os as [|o os IH]; intros q q' Hos Hq E; cbn [each] in E; [by injection E as <-|].
    apply bind_Ok_inv in E as (q1 & E1 & E). apply Forall_cons in Hos as [Ho Hos].
    apply (IH q1 q' Hos); [by eapply treach_op | done]. }
  apply (Hops idle_ops (TimerQueue_ctor 0 slow_state)); [|done|vm_compute; reflexivity].
  unfold idle_ops. repeat constructor; unfold horizon; lia.
Qed.

Definition idle_next : TimerQueue nat reactor :=
  match loop_turn epoll_ideal true slow_wr idle_body 3 30 (λ _, []) idle_state with
  | Some (Ok q) => q
  | _ => idle_state
  end.

Lemma no_events (p : EpollPoller cb) : from_kernel p [].
Proof. split; [constructor | by intros ev a ?%elem_of_nil]. Qed.

Lemma loop_iteration_safe_witness :
  loop_turn epoll_ideal true slow_wr idle_body 3 30 (λ _, []) idle_state = Some (Ok idle_next) ∧
  sorted (timers_ idle_next) ∧ (timers_ idle_next).*1 = [10; 50] ∧
  (λ n, state_ (conn n)) <$> nodes (world idle_next) !! 100 = Some kDisconnected.
Proof.
  assert (E : loop_turn epoll_ideal true slow_wr idle_body 3 30 (λ _, []) idle_state = Some (Ok idle_next))
    by (vm_compute; reflexivity).
  split; [exact E|].
  destruct (loop_iteration_safe epoll_ideal 1 true slow_wr idle_body 30 (λ _, []) idle_state) as (r & E' & Hm).
  - exact idle_reach.
  - apply slow_sane.
  - exact idle_tame.
  - unfold horizon. lia.
  - exact no_events.
  - replace (S (length (timers_ idle_state))) with 3%nat in E' by (vm_compute; reflexivity).
    assert (Er : r = Ok idle_next) by congruence.
    split; [|split; vm_compute; reflexivity].
    destruct Hm as [[_ Hr]|[[_ Hr]|(x & Hx & Hs & _)]]; [congruence..|]. assert (x = idle_next) as <- by congruence. exact Hs.
Defined.
