(* ===== verification/UserManager.v ===== *)
(** * The user manager: [service/user_manager.h], [service/user_manager.cpp]

    Users, groups and friend lists cached in memory, with the SQL statements the operations
    send to the database. The database client ([CDatabaseMysql], [QueryResult], [Field]) is
    not part of the sources and is the parameter [Database]. A result row is read with the
    client's accessors; [query] gives the rows in the order in which they are fetched, [None]
    for a null result.

    Every operation takes the lock for its work on the cache, so operations are functions on
    the state. [User u;] leaves the integers of [u] indeterminate: they are given by [junk]. *)
From S2P Require Import Prelude Timers.

Definition GROUPID_BOUBDARY : Z := 268435455.       (* 0x0FFFFFFF *)
Definition DEFAULT_TEAMNAME : bytes := lit "My Friends".

Inductive FRIEND_OPERATION := FRIEND_OPERATION_ADD | FRIEND_OPERATION_DELETE.

Record FriendInfo := mkFriend { friendid : Z; markname : bytes; teamname : bytes }.

Record User := mkUser {
  userid : Z;
  username : bytes;
  password : bytes;
  nickname : bytes;
  facetype : Z;
  customface : bytes;
  customfacefmt : bytes;
  gender : Z;
  birthday : Z;
  signature : bytes;
  address : bytes;
  phonenumber : bytes;
  mail : bytes;
  teaminfo : bytes;
  ownerid : Z;
  friends : list FriendInfo;
}.

Definition set_friends (l : list FriendInfo) (u : User) : User :=
  mkUser (userid u) (username u) (password u) (nickname u) (facetype u) (customface u)
    (customfacefmt u) (gender u) (birthday u) (signature u) (address u) (phonenumber u) (mail u)
    (teaminfo u) (ownerid u) l.
Definition set_password (s : bytes) (u : User) : User :=
  mkUser (userid u) (username u) s (nickname u) (facetype u) (customface u)
    (customfacefmt u) (gender u) (birthday u) (signature u) (address u) (phonenumber u) (mail u)
    (teaminfo u) (ownerid u) (friends u).
Definition set_teaminfo (s : bytes) (u : User) : User :=
  mkUser (userid u) (username u) (password u) (nickname u) (facetype u) (customface u)
    (customfacefmt u) (gender u) (birthday u) (signature u) (address u) (phonenumber u) (mail u)
    s (ownerid u) (friends u).
(** The fields [updateUserInfoInDb] copies. *)
Definition set_info (n u : User) : User :=
  mkUser (userid u) (username u) (password u) (nickname n) (facetype n) (customface n)
    (customfacefmt u) (gender n) (birthday n) (signature n) (address n) (phonenumber n) (mail n)
    (teaminfo u) (ownerid u) (friends u).

Definition User_uninit (junk : nat → Z) : User :=
  mkUser (junk 0%nat) [] [] [] (junk 1%nat) [] [] (junk 2%nat) (junk 3%nat) [] [] [] [] []
    (junk 4%nat) [].

(** ** The database client *)
Class Database := {
  DB : Type;
  Row : Type;
  initialize : bytes → bytes → bytes → bytes → DB → bool;
  execute : bytes → DB → bool * DB;
  query : bytes → DB → option (list Row);
  getInt32 : Row → nat → Z;
  getString : Row → nat → bytes;
  getCppString : Row → nat → bytes;
}.

(** ** Loops over the cached users *)

(** [for (auto& iter : ...) if (P) { ...; return true; }]: the first match is changed. *)
Fixpoint update_first {A} (P : A → bool) (f : A → A) (l : list A) : option (list A) :=
  match l with
  | [] => None
  | x :: l' => if P x then Some (f x :: l') else cons x <$> update_first P f l'
  end.

(** [friends.erase] of the first entry with the id. *)
Fixpoint erase_friend (id : Z) (l : list FriendInfo) : option (list FriendInfo) :=
  match l with
  | [] => None
  | x :: l' => if friendid x =? id then Some l' else cons x <$> erase_friend id l'
  end.

Definition new_friend (id : Z) : FriendInfo := mkFriend id [] DEFAULT_TEAMNAME.
Definition add_friend (id : Z) (u : User) : User := set_friends (friends u ++ [new_friend id]) u.

(** The loop of the ADD branch. *)
Fixpoint add_loop (uid target : Z) (l : list User) : bool * bool * list User :=
  match l with
  | [] => (false, false, [])
  | u :: l' =>
      let '(f1, f2, r) := add_loop uid target l' in
      if userid u =? uid then (true, f2, add_friend target u :: r)
      else if userid u =? target then (f1, true, add_friend uid u :: r)
      else (f1, f2, u :: r)
  end.

(** One half of a deletion step: erase [fid] from [u] if it is the user [id]; the flag is
    set when something was erased. *)
Definition erase_step (id fid : Z) (found : bool) (u : User) : bool * User :=
  if userid u =? id then
    match erase_friend fid (friends u) with
    | Some l => (true, set_friends l u)
    | None => (found, u)
    end
  else (found, u).

(** The loop of the DELETE branch: [continue] behind the first half when its flag is set,
    which it may be from an earlier user. *)
Fixpoint delete_loop (uid target : Z) (found1 found2 : bool) (l : list User)
    : bool * bool * list User :=
  match l with
  | [] => (found1, found2, [])
  | u :: l' =>
      let '(f1, u1) := erase_step uid target found1 u in
      if (userid u =? uid) && f1 then
        let '(g1, g2, r) := delete_loop uid target f1 found2 l' in (g1, g2, u1 :: r)
      else
        let '(f2, u2) := erase_step target uid found2 u1 in
        let '(g1, g2, r) := delete_loop uid target f1 f2 l' in (g1, g2, u2 :: r)
  end.

(** The loop of [addFriendToUser]: both tests on every user, and an early return. *)
Fixpoint add_both_loop (uid fid : Z) (found1 found2 : bool) (l : list User) : bool * list User :=
  match l with
  | [] => (false, [])
  | u :: l' =>
      let u1 := if userid u =? uid then add_friend fid u else u in
      let u2 := if userid u =? fid then add_friend uid u1 else u1 in
      let f1 := found1 || (userid u =? uid) in
      let f2 := found2 || (userid u =? fid) in
      if f1 && f2 then (true, u2 :: l')
      else let '(r, l2) := add_both_loop uid fid f1 f2 l' in (r, u2 :: l2)
  end.

Section user_manager.
Context {D : Database}.

Record UserManager := mkUM {
  base_user_id_ : Z;
  base_group_id_ : Z;
  all_cached_users_ : list User;
  db_server_ : bytes;
  db_user_name_ : bytes;
  db_password_ : bytes;
  db_name_ : bytes;
  db : DB;
}.

Definition UserManager_ctor (d : DB) : UserManager := mkUM 0 268435455 [] [] [] [] [] d.

Definition set_users (l : list User) (m : UserManager) : UserManager :=
  mkUM (base_user_id_ m) (base_group_id_ m) l (db_server_ m) (db_user_name_ m) (db_password_ m)
    (db_name_ m) (db m).
Definition set_db (d : DB) (m : UserManager) : UserManager :=
  mkUM (base_user_id_ m) (base_group_id_ m) (all_cached_users_ m) (db_server_ m)
    (db_user_name_ m) (db_password_ m) (db_name_ m) d.
Definition set_bases (u g : Z) (m : UserManager) : UserManager :=
  mkUM u g (all_cached_users_ m) (db_server_ m) (db_user_name_ m) (db_password_ m) (db_name_ m) (db m).

(** The opening of a connection every operation starts with. *)
Definition connect (m : UserManager) : bool :=
  initialize (db_server_ m) (db_user_name_ m) (db_password_ m) (db_name_ m) (db m).

(** [execute] with the result and the new database. *)
Definition run_sql (sql : bytes) (m : UserManager) : bool * UserManager :=
  let '(ok, d) := execute (c_str sql) (db m) in (ok, set_db d m).

(** ** Loading *)
Definition user_of_row (junk : nat → Z) (r : Row) : User :=
  mkUser (getInt32 r 0) (getString r 1) (getString r 3) (getString r 2) (getInt32 r 4)
    (getString r 5) [] (getInt32 r 6) (getInt32 r 7) (getString r 8) (getString r 9)
    (getString r 10) (getString r 11) (getString r 12) (ownerid (User_uninit junk)) [].

Definition load_row (junk : nat → Z) (m : UserManager) (r : Row) : UserManager :=
  let u := user_of_row junk r in
  let m1 := set_users (all_cached_users_ m ++ [u]) m in
  let bu := if (userid u <? GROUPID_BOUBDARY) && (base_user_id_ m1 <? userid u)
            then userid u else base_user_id_ m1 in
  let bg := if (GROUPID_BOUBDARY <? userid u) && (base_group_id_ m1 <? userid u)
            then userid u else base_group_id_ m1 in
  set_bases bu bg m1.

Definition select_users : bytes := lit "SELECT f_user_id, f_username, f_nickname, f_password,  f_facetype, f_customface, f_gender, f_birthday, f_signature, f_address, f_phonenumber, f_mail, f_teaminfo FROM t_user ORDER BY  f_user_id DESC".

Definition loadUsersFromDb (junk : nat → Z) (m : UserManager) : bool * UserManager :=
  if negb (connect m) then (false, m)
  else match query select_users (db m) with
       | None => (false, m)
       | Some rows => (true, fold_left (load_row junk) rows m)
       end.

Definition or_default (s : bytes) : bytes :=
  if bool_decide (s = []) then DEFAULT_TEAMNAME else s.

Definition friend_of_row (uid : Z) (r : Row) : FriendInfo :=
  let friendid1 := getInt32 r 0 in
  let friendid2 := getInt32 r 1 in
  if friendid1 =? uid
  then mkFriend friendid2 (getCppString r 2) (or_default (getCppString r 4))
  else mkFriend friendid1 (getCppString r 3) (or_default (getCppString r 5)).

Definition select_relationship (uid : Z) : bytes :=
  snprintf 256 (lit "SELECT f_user_id1, f_user_id2, f_user1_markname, f_user2_markname, f_user1_teamname, f_user2_teamname FROM t_user_relationship WHERE f_user_id1 = " ++
    dec uid ++ lit " OR f_user_id2 = " ++ dec uid ++ lit " ").

(** The list [r] with the friends loaded behind it. *)
Definition loadRelationshipFromDb (uid : Z) (r : list FriendInfo) (m : UserManager)
    : bool * list FriendInfo :=
  if negb (connect m) then (false, r)
  else match query (c_str (select_relationship uid)) (db m) with
       | None => (false, r)
       | Some rows => (true, r ++ map (friend_of_row uid) rows)
       end.

(** A null [dbPassword] keeps the old one. *)
Definition init (junk : nat → Z) (dbServer dbUserName : bytes) (dbPassword : option bytes)
    (dbName : bytes) (m : UserManager) : bool * UserManager :=
  let m1 := mkUM (base_user_id_ m) (base_group_id_ m) (all_cached_users_ m) dbServer dbUserName
              (default (db_password_ m) dbPassword) dbName (db m) in
  let '(ok, m2) := loadUsersFromDb junk m1 in
  if negb ok then (false, m2)
  else (true, set_users
          (map (λ u, set_friends (loadRelationshipFromDb (userid u) (friends u) m2).2 u)
             (all_cached_users_ m2)) m2).
End user_manager.
Arguments UserManager : clear implicits.
Arguments UserManager {D}.

(** ** Operations *)
Section operations.
Context {D : Database}.
Implicit Types m : UserManager.

(** The statement of [addUser], and the user behind it with its defaults. *)
Definition insert_user_sql (id : Z) (u : User) : bytes :=
  snprintf 256 (lit "INSERT INTO t_user(f_user_id, f_username, f_nickname, f_password, f_register_time) VALUES(" ++
    dec id ++ lit ", '" ++ c_str (username u) ++ lit "', '" ++
    c_str (nickname u) ++ lit "', '" ++ c_str (password u) ++ lit "', NOW())").
Definition registered (id : Z) (u : User) : User :=
  mkUser id (username u) (password u) (nickname u) 0 (customface u)
    (customfacefmt u) 0 19900101 (signature u) (address u) (phonenumber u) (mail u)
    (teaminfo u) 0 (friends u).

(** [u] is in and out parameter; [base_user_id_] is an atomic [int], which wraps. *)
Definition addUser (u : User) m : bool * User * UserManager :=
  if negb (connect m) then (false, u, m)
  else
    let m1 := set_bases (s32 (base_user_id_ m + 1)) (base_group_id_ m) m in
    let '(ok, m2) := run_sql (insert_user_sql (base_user_id_ m1) u) m1 in
    if negb ok then (false, u, m2)
    else
      let u1 := registered (base_user_id_ m2) u in
      (true, u1, set_users (all_cached_users_ m2 ++ [u1]) m2).

(** Both arguments in ascending order. *)
Definition ordered (a b : Z) : Z * Z := if b <? a then (b, a) else (a, b).

(** When [execute] fails the message is formatted with [%s] for two [int] arguments, which
    reads a string at the address that is the user id. *)
Definition makeFriendRelationshipInDB (smallUserid greaterUserid : Z) m
    : outcome (bool * UserManager) :=
  if smallUserid =? greaterUserid then Ok (false, m)
  else
    let '(small, greater) := ordered smallUserid greaterUserid in
    if negb (connect m) then Ok (false, m)
    else
      let sql := snprintf 512 (lit "INSERT INTO t_user_relationship(f_user_id1, f_user_id2, f_user1_teamname, f_user2_teamname) VALUES(" ++
                   dec small ++ lit ", " ++ dec greater ++ lit ", '" ++ DEFAULT_TEAMNAME ++
                   lit "', '" ++ DEFAULT_TEAMNAME ++ lit "')") in
      let '(ok, m1) := run_sql sql m in
      if negb ok then Stop OutOfBounds else Ok (true, m1).

(** [for (auto iter : ...)] works on a copy of each user: only the flags remain. *)
Definition deleteFriendToUser (uid fid : Z) m : bool * UserManager :=
  let '(f1, f2, _) := delete_loop uid fid false false (all_cached_users_ m) in (f1 && f2, m).

Definition releaseFriendRelationshipInDBAndMemory (smallUserid greaterUserid : Z) m
    : bool * UserManager :=
  if smallUserid =? greaterUserid then (false, m)
  else
    let '(small, greater) := ordered smallUserid greaterUserid in
    if negb (connect m) then (false, m)
    else
      let sql := snprintf 256 (lit "DELETE FROM t_user_relationship WHERE f_user_id1 = " ++
                   dec small ++ lit " AND f_user_id2 = " ++ dec greater) in
      let '(ok, m1) := run_sql sql m in
      if negb ok then (false, m1) else deleteFriendToUser small greater m1.

Definition updateUserRelationshipInMemory (uid target : Z) (operation : FRIEND_OPERATION) m
    : bool * UserManager :=
  let '(f1, f2, l) :=
    match operation with
    | FRIEND_OPERATION_ADD => add_loop uid target (all_cached_users_ m)
    | FRIEND_OPERATION_DELETE => delete_loop uid target false false (all_cached_users_ m)
    end in
  (f1 && f2, set_users l m).

Definition addFriendToUser (uid fid : Z) m : bool * UserManager :=
  let '(r, l) := add_both_loop uid fid false false (all_cached_users_ m) in (r, set_users l m).

Definition has_friend (fid : Z) (u : User) : bool := existsb (λ f, friendid f =? fid) (friends u).

Definition isFriend (uid fid : Z) m : bool :=
  existsb (λ u, (userid u =? uid) && has_friend fid u) (all_cached_users_ m).

(** An UPDATE of [t_user], then the change of the first cached user with the id. *)
Definition update_user (sql : bytes) (uid : Z) (f : User → User) m : bool * UserManager :=
  if negb (connect m) then (false, m)
  else
    let '(ok, m1) := run_sql sql m in
    if negb ok then (false, m1)
    else match update_first (λ u, userid u =? uid) f (all_cached_users_ m1) with
         | Some l => (true, set_users l m1)
         | None => (false, m1)
         end.

Definition updateUserInfoInDb (uid : Z) (newuserinfo : User) m : bool * UserManager :=
  update_user (lit "UPDATE t_user SET f_nickname='" ++ nickname newuserinfo ++
      lit "', f_facetype=" ++ dec (facetype newuserinfo) ++
      lit ", f_customface='" ++ customface newuserinfo ++
      lit "', f_gender=" ++ dec (gender newuserinfo) ++
      lit ", f_birthday=" ++ dec (birthday newuserinfo) ++
      lit ", f_signature='" ++ signature newuserinfo ++
      lit "', f_address='" ++ address newuserinfo ++
      lit "', f_phonenumber='" ++ phonenumber newuserinfo ++
      lit "', f_mail='" ++ mail newuserinfo ++
      lit "' WHERE f_user_id=" ++ dec uid) uid (set_info newuserinfo) m.

Definition modifyUserPassword (uid : Z) (newpassword : bytes) m : bool * UserManager :=
  update_user (lit "UPDATE t_user SET f_password='" ++ newpassword ++
      lit "' WHERE f_user_id=" ++ dec uid) uid (set_password newpassword) m.

Definition updateUserTeamInfoInDbAndMemory (uid : Z) (newteaminfo : bytes) m : bool * UserManager :=
  update_user (lit "UPDATE t_user SET f_teaminfo='" ++ newteaminfo ++
      lit "' WHERE f_user_id=" ++ dec uid) uid (set_teaminfo newteaminfo) m.

(** The two UPDATEs of [t_user_relationship] and the renaming of the team in the friends of
    the first cached user with the id; [absent] is the result when there is no such user. *)
Definition rename_team (new old : bytes) (u : User) : User :=
  set_friends (map (λ f, if bool_decide (teamname f = old)
                         then mkFriend (friendid f) (markname f) new else f) (friends u)) u.

Definition team_sql (side : string) (new old : bytes) (uid : Z) : bytes :=
  lit "UPDATE t_user_relationship SET f_user" ++ lit side ++ lit "_teamname='" ++ new ++
  lit "' WHERE f_user_id" ++ lit side ++ lit "=" ++ dec uid ++
  lit " AND f_user" ++ lit side ++ lit "_teamname='" ++ old ++ lit "'".

Definition change_team (absent : bool) (new old : bytes) (uid : Z) m : bool * UserManager :=
  if negb (connect m) then (false, m)
  else
    let '(ok1, m1) := run_sql (team_sql "1" new old uid) m in
    if negb ok1 then (false, m1)
    else
      let '(ok2, m2) := run_sql (team_sql "2" new old uid) m1 in
      if negb ok2 then (false, m2)
      else match update_first (λ u, userid u =? uid) (rename_team new old) (all_cached_users_ m2) with
           | Some l => (true, set_users l m2)
           | None => (absent, m2)
           end.

Definition deleteTeam (uid : Z) (deletedteamname : bytes) m : bool * UserManager :=
  change_team false DEFAULT_TEAMNAME deletedteamname uid m.

Definition modifyTeamName (uid : Z) (newteamname oldteamname : bytes) m : bool * UserManager :=
  change_team true newteamname oldteamname uid m.

Definition set_markname (s : bytes) (f : FriendInfo) : FriendInfo :=
  mkFriend (friendid f) s (teamname f).
Definition set_teamname (s : bytes) (f : FriendInfo) : FriendInfo :=
  mkFriend (friendid f) (markname f) s.

(** The first user with the id that has the friend is changed, the others are passed over. *)
Fixpoint update_friend_loop (uid fid : Z) (f : FriendInfo → FriendInfo) (l : list User)
    : option (list User) :=
  match l with
  | [] => None
  | u :: l' =>
      match (if userid u =? uid then update_first (λ x, friendid x =? fid) f (friends u) else None) with
      | Some fs => Some (set_friends fs u :: l')
      | None => cons u <$> update_friend_loop uid fid f l'
      end
  end.

Definition updateMarknameInDb (uid fid : Z) (newmarkname : bytes) m : bool * UserManager :=
  if negb (connect m) then (false, m)
  else
    let sql :=
      if uid <? fid
      then lit "UPDATE t_user_relationship SET f_user1_markname='" ++ newmarkname ++
           lit "' WHERE f_user_id1=" ++ dec uid ++ lit " AND f_user_id2=" ++ dec fid
      else lit "UPDATE t_user_relationship SET f_user2_markname='" ++ newmarkname ++
           lit "' WHERE f_user_id2=" ++ dec uid ++ lit " AND f_user_id1=" ++ dec fid in
    let '(ok, m1) := run_sql sql m in
    if negb ok then (false, m1)
    else match update_friend_loop uid fid (set_markname newmarkname) (all_cached_users_ m1) with
         | Some l => (true, set_users l m1)
         | None => (false, m1)
         end.

(** Through the pointer to the first user with the id; no other user is looked at. *)
Definition moveFriendToOtherTeam (uid fid : Z) (newteamname : bytes) m : bool * UserManager :=
  if negb (connect m) then (false, m)
  else
    let sql :=
      if uid <? fid
      then lit "UPDATE t_user_relationship SET f_user1_teamname='" ++ newteamname ++
           lit "' WHERE f_user_id1=" ++ dec uid ++ lit " AND f_user_id2=" ++ dec fid
      else lit "UPDATE t_user_relationship SET f_user2_teamname='" ++ newteamname ++
           lit "' WHERE f_user_id1=" ++ dec fid ++ lit " AND f_user_id2=" ++ dec uid in
    let '(ok, m1) := run_sql sql m in
    if negb ok then (false, m1)
    else match list_find (λ u, userid u = uid) (all_cached_users_ m1) with
         | None => (false, m1)
         | Some (i, u) =>
             match update_first (λ x, friendid x =? fid) (set_teamname newteamname) (friends u) with
             | None => (false, m1)
             | Some fs => (true, set_users (<[i := set_friends fs u]> (all_cached_users_ m1)) m1)
             end
         end.

(** [groupid] is in and out parameter. *)
Definition addGroup (junk : nat → Z) (groupname : bytes) (owner groupid : Z) m
    : bool * Z * UserManager :=
  if negb (connect m) then (false, groupid, m)
  else
    let m1 := set_bases (base_user_id_ m) (s32 (base_group_id_ m + 1)) m in
    let g := base_group_id_ m1 in
    let sql := snprintf 256 (lit "INSERT INTO t_user(f_user_id, f_username, f_nickname, f_password, f_owner_id, f_register_time) VALUES(" ++
                 dec g ++ lit ", '" ++ dec g ++ lit "', '" ++ groupname ++ lit "', '', " ++
                 dec owner ++ lit ",  NOW())") in
    let '(ok, m2) := run_sql sql m1 in
    if negb ok then (false, groupid, m2)
    else
      let d := User_uninit junk in
      let u := mkUser g (snprintf 12 (dec g)) [] groupname (facetype d) [] [] (gender d)
                 (birthday d) [] [] [] [] [] owner [] in
      (true, g, set_users (all_cached_users_ m2 ++ [u]) m2).

Definition saveChatMsgToDb (senderid targetid : Z) (chatmsg : bytes) m : bool * UserManager :=
  if negb (connect m) then (false, m)
  else run_sql (lit "INSERT INTO t_chatmsg(f_senderid, f_targetid, f_msgcontent) VALUES(" ++
         dec senderid ++ lit ", " ++ dec targetid ++ lit ", '" ++ chatmsg ++ lit "')") m.

(** ** Queries of the cache *)
Definition getUserInfoByUsername (name : bytes) m : option User :=
  find (λ u, bool_decide (username u = name)) (all_cached_users_ m).

Definition getUserInfoByUserId (uid : Z) m : option User :=
  find (λ u, userid u =? uid) (all_cached_users_ m).

(** The friends found are put behind the list given. *)
Definition getFriendInfoByUserId (uid : Z) (out : list User) m : bool * list User :=
  let friendInfo := match getUserInfoByUserId uid m with Some u => friends u | None => [] end in
  (true, out ++ omap (λ f, getUserInfoByUserId (friendid f) m) friendInfo).

Definition getFriendMarknameByUserId (userid1 fid : Z) m : option bytes :=
  match find (λ u, (userid u =? userid1) && has_friend fid u) (all_cached_users_ m) with
  | None => None
  | Some u => markname <$> find (λ f, friendid f =? fid) (friends u)
  end.

Definition getTeamInfoByUserId (uid : Z) m : option bytes :=
  teaminfo <$> find (λ u, userid u =? uid) (all_cached_users_ m).
End operations.

(** ** Friendship in the cache *)
Section friendship.
Context {D : Database}.
Implicit Types m : UserManager.

Definition cached (uid : Z) (l : list User) : bool := existsb (λ u, userid u =? uid) l.

(** What adding the pair does to one user. *)
Definition add_pair (uid target : Z) (u : User) : User :=
  if userid u =? uid then add_friend target u
  else if userid u =? target then add_friend uid u else u.

Lemma add_loop_spec uid target l :
  uid ≠ target →
  add_loop uid target l = (cached uid l, cached target l, map (add_pair uid target) l).
Proof.
  intros Hne. induction l as [|u l IH]; [done|]. cbn [add_loop]. rewrite IH.
  unfold add_pair, cached. cbn [existsb map].
  destruct (Z.eqb_spec (userid u) uid), (Z.eqb_spec (userid u) target); try done. congruence.
Qed.

Lemma erase_friend_none fid l : existsb (λ f, friendid f =? fid) l = false → erase_friend fid l = None.
Proof.
  induction l as [|f l IH]; [done|]. cbn [existsb erase_friend].
  intros [-> Hl]%orb_false_iff. by rewrite IH.
Qed.

Lemma erase_friend_new fid l :
  existsb (λ f, friendid f =? fid) l = false → erase_friend fid (l ++ [new_friend fid]) = Some l.
Proof.
  induction l as [|f l IH]; cbn [existsb app erase_friend].
  - intros _. simpl. by rewrite Z.eqb_refl.
  - intros [-> Hl]%orb_false_iff. by rewrite IH.
Qed.

Lemma set_friends_add f u : set_friends (friends u) (add_friend f u) = u.
Proof. by destruct u. Qed.

(** Deleting a pair that was just added gives every user back. *)
Lemma delete_add_loop uid target found1 found2 l :
  uid ≠ target →
  (∀ u, u ∈ l → userid u = uid → has_friend target u = false) →
  (∀ u, u ∈ l → userid u = target → has_friend uid u = false) →
  delete_loop uid target found1 found2 (map (add_pair uid target) l) =
    (found1 || cached uid l, found2 || cached target l, l).
Proof.
  intros Hne. revert found1 found2. induction l as [|u l IH]; intros f1 f2 H1 H2.
  - cbn. by rewrite !orb_false_r.
  - specialize (IH (f1 || (userid u =? uid)) (f2 || (userid u =? target))).
    rewrite <- !orb_assoc in IH.
    assert (IH' := IH ltac:(intros; apply H1; [set_solver | done])
                      ltac:(intros; apply H2; [set_solver | done])). clear IH.
    cbn [map delete_loop]. unfold add_pair at 1 2. unfold cached in *. cbn [existsb].
    destruct (Z.eqb_spec (userid u) uid) as [Eu|Eu].
    + unfold erase_step at 1. change (userid (add_friend target u)) with (userid u).
      destruct (Z.eqb_spec (userid u) uid); [|done].
      change (friends (add_friend target u)) with (friends u ++ [new_friend target]).
      rewrite erase_friend_new by (apply H1; [set_solver | done]).
      rewrite set_friends_add. cbn [andb].
      destruct (Z.eqb_spec (userid u) target); [congruence|].
      rewrite orb_true_r in IH'. rewrite orb_false_r in IH'. rewrite IH'. by rewrite !orb_true_r.
    + destruct (Z.eqb_spec (userid u) target) as [Et|Et].
      * unfold erase_step. change (userid (add_friend uid u)) with (userid u).
        destruct (Z.eqb_spec (userid u) uid); [done|]. cbn [andb].
        change (userid (add_friend uid u)) with (userid u).
        destruct (Z.eqb_spec (userid u) target); [|done].
        change (friends (add_friend uid u)) with (friends u ++ [new_friend uid]).
        rewrite erase_friend_new by (apply H2; [set_solver | done]).
        rewrite set_friends_add. rewrite orb_false_r, orb_true_r in IH'. rewrite IH'.
        by rewrite !orb_true_r.
      * unfold erase_step. destruct (Z.eqb_spec (userid u) uid); [done|]. cbn [andb].
        destruct (Z.eqb_spec (userid u) target); [done|].
        rewrite !orb_false_r in IH'. rewrite IH'. done.
Qed.

Lemma has_friend_add fid x u : has_friend x (add_friend fid u) = has_friend x u || (fid =? x).
Proof.
  unfold has_friend, add_friend. simpl. rewrite existsb_app. simpl. by rewrite orb_false_r.
Qed.

(** The friendship relation behind an addition. *)
Lemma isFriend_add uid target m x y :
  uid ≠ target →
  isFriend x y (set_users (map (add_pair uid target) (all_cached_users_ m)) m) =
    isFriend x y m ||
    (cached x (all_cached_users_ m) && (((x =? uid) && (y =? target)) || ((x =? target) && (y =? uid)))).
Proof.
  intros Hne. unfold isFriend, cached. cbn [all_cached_users_ set_users].
  induction (all_cached_users_ m) as [|u l IH]; [done|]. cbn [map existsb]. rewrite IH. clear IH.
  assert (userid (add_pair uid target u) = userid u) as ->
    by (unfold add_pair; by repeat destruct (_ =? _)).
  destruct (Z.eqb_spec (userid u) x) as [Ex|Ex]; cbn [andb orb]; [|done].
  subst x. unfold add_pair.
  destruct (Z.eqb_spec (userid u) uid) as [E1|E1], (Z.eqb_spec (userid u) target) as [E2|E2];
    rewrite ?has_friend_add; cbn [andb orb]; [congruence | | |].
  - rewrite (Z.eqb_sym target y), orb_false_r.
    by destruct (has_friend y u), (y =? target); repeat destruct (existsb _ l).
  - rewrite (Z.eqb_sym uid y).
    by destruct (has_friend y u), (y =? uid); repeat destruct (existsb _ l).
  - by rewrite andb_false_r, !orb_false_r.
Qed.

(** Making two cached users friends in memory: both lists are extended, so that each is
    the other's friend and no other pair is affected; and deleting the pair again restores
    the cache exactly (for users who were not friends before). *)
Theorem friendship_add_delete (uid target : Z) m :
  uid ≠ target →
  cached uid (all_cached_users_ m) = true → cached target (all_cached_users_ m) = true →
  ∃ m1, updateUserRelationshipInMemory uid target FRIEND_OPERATION_ADD m = (true, m1) ∧
    isFriend uid target m1 = true ∧ isFriend target uid m1 = true ∧
    (∀ x y, (x, y) ≠ (uid, target) → (x, y) ≠ (target, uid) → isFriend x y m1 = isFriend x y m) ∧
    (isFriend uid target m = false → isFriend target uid m = false →
       updateUserRelationshipInMemory uid target FRIEND_OPERATION_DELETE m1 = (true, m)).
Proof.
  intros Hne Hu Ht. unfold updateUserRelationshipInMemory at 1.
  rewrite add_loop_spec, Hu, Ht by done. cbn [andb]. eexists. split; [done|].
  rewrite !isFriend_add, Hu, Ht, !Z.eqb_refl by done. cbn [andb orb].
  rewrite ?orb_true_r. do 2 (split; [done|]). split.
  - intros x y H1 H2. rewrite isFriend_add by done.
    destruct (Z.eqb_spec x uid), (Z.eqb_spec y target), (Z.eqb_spec x target), (Z.eqb_spec y uid);
      subst; try congruence; cbn [andb orb]; by rewrite andb_false_r, orb_false_r.
  - intros Hn1 Hn2. unfold updateUserRelationshipInMemory. cbn [all_cached_users_ set_users].
    assert (Hno : ∀ a b, isFriend a b m = false →
      ∀ u, u ∈ all_cached_users_ m → userid u = a → has_friend b u = false).
    { intros a b Hab u Hin Ha. unfold isFriend in Hab. rewrite <- not_true_iff_false in Hab |- *.
      intros Hb. apply Hab, existsb_exists. exists u. split; [by apply list_elem_of_In|].
      by rewrite Ha, Z.eqb_refl, Hb. }
    rewrite delete_add_loop by eauto. rewrite Hu, Ht. cbn [orb andb].
    unfold set_users. simpl. by destruct m.
Qed.
End friendship.

(** ** A database to evaluate the operations on

    Tables of rows, a log of the statements executed, and whether statements succeed. A
    SELECT for a user's relationships gives the rows in which the user occurs. *)
Module Demo.
Definition row : Type := list Z * list bytes.
Record tables := mkTables { t_user : list row; t_rel : list row; healthy : bool; log : list bytes }.

#[export] Instance database : Database := {
  DB := tables;
  Row := row;
  initialize _ _ _ _ d := true;
  execute sql d := (healthy d, mkTables (t_user d) (t_rel d) (healthy d) (log d ++ [sql]));
  query sql d :=
    if bool_decide (sql = select_users) then Some (t_user d)
    else Some (filter (λ r : row,
           bool_decide (sql = c_str (select_relationship (nth 0 r.1 0))) ||
           bool_decide (sql = c_str (select_relationship (nth 1 r.1 0))) = true) (t_rel d));
  getInt32 r i := nth i r.1 0;
  getString r i := nth i r.2 [];
  getCppString r i := nth i r.2 [];
}.

(** A database that refuses every statement. *)
Definition no_db : Database := {|
  DB := unit; Row := unit; initialize _ _ _ _ _ := true; execute _ d := (false, d);
  query _ _ := None; getInt32 _ _ := 0; getString _ _ := []; getCppString _ _ := [] |}.

Definition user (id : Z) (fs : list FriendInfo) : User :=
  set_friends fs (mkUser id (dec id) [] [] 0 [] [] 0 0 [] [] [] [] [] 0 []).

Definition manager (l : list User) : UserManager :=
  mkUM 2 268435455 l [] [] [] [] (mkTables [] [] true []).

(** A manager with an empty cache. *)
Definition empty (base : Z) (d : tables) : UserManager := mkUM base 268435455 [] [] [] [] [] d.
End Demo.

Lemma friendship_add_delete_witness :
  let m := Demo.manager [Demo.user 1 []; Demo.user 2 [mkFriend 9 [] []]] in
  ∃ m1, updateUserRelationshipInMemory 2 1 FRIEND_OPERATION_ADD m = (true, m1) ∧
    isFriend 2 1 m1 = true ∧ isFriend 1 2 m1 = true ∧
    (∀ x y, (x, y) ≠ (2, 1) → (x, y) ≠ (1, 2) → isFriend x y m1 = isFriend x y m) ∧
    (isFriend 2 1 m = false → isFriend 1 2 m = false →
       updateUserRelationshipInMemory 2 1 FRIEND_OPERATION_DELETE m1 = (true, m)).
Proof. apply friendship_add_delete; done. Defined.

Section more_friendship.
Context {D : Database}.
Implicit Types m : UserManager.

(** The users an early return leaves alone have neither id. *)
Lemma map_add_pair_id uid target l :
  cached uid l = false → cached target l = false → map (add_pair uid target) l = l.
Proof.
  unfold cached. induction l as [|u l IH]; [done|]. cbn [existsb map].
  intros [Hu H1]%orb_false_iff [Ht H2]%orb_false_iff. rewrite IH by done.
  unfold add_pair. by rewrite Hu, Ht.
Qed.

Lemma cached_elem uid l : cached uid l = true ↔ uid ∈ userid <$> l.
Proof.
  unfold cached. rewrite existsb_exists, list_elem_of_fmap. split.
  - intros (u & Hin & E). exists u. rewrite <- list_elem_of_In in Hin. split; [lia | done].
  - intros (u & -> & Hin). exists u. rewrite <- list_elem_of_In. split; [done | lia].
Qed.

Lemma add_both_loop_spec uid fid f1 f2 l :
  uid ≠ fid → NoDup (userid <$> l) → f1 && f2 = false →
  (f1 = true → cached uid l = false) → (f2 = true → cached fid l = false) →
  add_both_loop uid fid f1 f2 l =
    ((f1 || cached uid l) && (f2 || cached fid l), map (add_pair uid fid) l).
Proof.
  intros Hne. revert f1 f2. induction l as [|u l IH]; intros f1 f2 Hd Hf H1 H2.
  - cbn. by rewrite !orb_false_r, Hf.
  - cbn [fmap list_fmap] in Hd. apply NoDup_cons in Hd as [Hu Hd].
    assert (Hcu : ∀ x, userid u = x → cached x l = false).
    { intros x <-. apply not_true_iff_false. by rewrite cached_elem. }
    cbn [add_both_loop map]. unfold add_pair at 1. unfold cached in H1, H2 |- *.
    cbn [existsb] in *. fold (cached uid l) (cached fid l) in *.
    destruct (Z.eqb_spec (userid u) uid) as [E1|E1], (Z.eqb_spec (userid u) fid) as [E2|E2];
      [congruence | | |]; cbn [orb] in *; rewrite ?orb_true_r, ?orb_false_r.
    + destruct f1; [naive_solver|]. cbn [andb orb]. destruct f2.
      * rewrite map_add_pair_id by auto. done.
      * rewrite IH by (done || auto). done.
    + destruct f2; [naive_solver|]. rewrite andb_true_r. destruct f1; cbn [andb orb].
      * rewrite map_add_pair_id by auto. done.
      * rewrite IH by (done || auto). done.
    + rewrite Hf, IH by done. done.
Qed.

(** The two ways to add a friendship to the cache agree: for distinct ids, each of them
    cached at most once, [addFriendToUser] with its early return and the ADD branch of
    [updateUserRelationshipInMemory] give the same answer and the same cache, found or not. *)
Theorem add_friend_variants_agree (uid fid : Z) m :
  uid ≠ fid → NoDup (userid <$> all_cached_users_ m) →
  addFriendToUser uid fid m = updateUserRelationshipInMemory uid fid FRIEND_OPERATION_ADD m.
Proof.
  intros Hne Hd. unfold addFriendToUser, updateUserRelationshipInMemory.
  by rewrite add_both_loop_spec, add_loop_spec by done.
Qed.

(** The flags of the deletion loop: set when there was something to erase. *)
Lemma erase_friend_some fid l :
  existsb (λ f, friendid f =? fid) l = true → is_Some (erase_friend fid l).
Proof.
  induction l as [|f l IH]; [done|]. cbn [existsb erase_friend].
  destruct (friendid f =? fid); [by eexists|]. cbn [orb]. intros H. by apply fmap_is_Some, IH.
Qed.

Lemma erase_step_flag id fid found u :
  found = true ∨ userid u = id ∧ has_friend fid u = true → (erase_step id fid found u).1 = true.
Proof.
  unfold erase_step. intros H. destruct (Z.eqb_spec (userid u) id).
  - destruct (erase_friend fid (friends u)) eqn:E; [done|]. destruct H as [|[_ H]]; [done|].
    apply erase_friend_some in H as [? ?]. congruence.
  - by destruct H as [|[? _]].
Qed.

Lemma delete_loop_flags a b l f1 f2 g1 g2 l' :
  a ≠ b →
  (f1 = true ∨ ∃ u, u ∈ l ∧ userid u = a ∧ has_friend b u = true) →
  (f2 = true ∨ ∃ v, v ∈ l ∧ userid v = b ∧ has_friend a v = true) →
  delete_loop a b f1 f2 l = (g1, g2, l') → g1 = true ∧ g2 = true.
Proof.
  intros Hne. revert f1 f2 g1 g2 l'. induction l as [|u l IH]; intros f1 f2 g1 g2 l' H1 H2;
    cbn [delete_loop].
  - intros [= <- <- _]. destruct H1 as [|(? & ?%elem_of_nil & _)]; [|done].
    by destruct H2 as [|(? & ?%elem_of_nil & _)].
  - pose proof (erase_step_flag a b f1 u) as Hf1.
    assert (Hid : userid (erase_step a b f1 u).2 = userid u)
      by (unfold erase_step; by repeat case_match).
    assert (Hsame : userid u ≠ a → (erase_step a b f1 u).2 = u).
    { intros Hu. unfold erase_step. by destruct (Z.eqb_spec (userid u) a). }
    destruct (erase_step a b f1 u) as [e1 u1]. simpl in *.
    assert (N1 : e1 = true ∨ ∃ u, u ∈ l ∧ userid u = a ∧ has_friend b u = true).
    { destruct H1 as [|(w & [->|Hw]%elem_of_cons & ? & ?)]; eauto. }
    destruct ((userid u =? a) && e1) eqn:Ec.
    + destruct (delete_loop a b e1 f2 l) as [[h1 h2] r] eqn:E. intros [= <- <- _].
      eapply IH; [exact N1 | | exact E].
      destruct H2 as [|(w & [->|Hw]%elem_of_cons & ? & ?)]; eauto. lia.
    + pose proof (erase_step_flag b a f2 u1) as Hf2.
      destruct (erase_step b a f2 u1) as [e2 u2]. simpl in *.
      destruct (delete_loop a b e1 e2 l) as [[h1 h2] r] eqn:E. intros [= <- <- _].
      eapply IH; [exact N1 | | exact E].
      destruct H2 as [|(w & [->|Hw]%elem_of_cons & Hb & Hf)]; eauto.
      left. apply Hf2. right. rewrite Hid. split; [done|]. by rewrite Hsame by lia.
Qed.

(** [releaseFriendRelationshipInDBAndMemory] does not release anything in memory: the
    loop of [deleteFriendToUser] runs over copies of the users. Whatever it answers, the
    cache is what it was; and for two cached friends whose row could be deleted it answers
    true while they are still friends. *)
Theorem release_keeps_memory (a b : Z) m :
  let r := releaseFriendRelationshipInDBAndMemory a b m in
  all_cached_users_ r.2 = all_cached_users_ m ∧
  (a < b → connect m = true → (∀ sql, (execute sql (db m)).1 = true) →
   (∃ u v, u ∈ all_cached_users_ m ∧ userid u = a ∧ has_friend b u = true ∧
           v ∈ all_cached_users_ m ∧ userid v = b ∧ has_friend a v = true) →
   r.1 = true ∧ isFriend a b r.2 = true ∧ isFriend b a r.2 = true).
Proof.
  assert (Hd : ∀ x y m0, (deleteFriendToUser x y m0).2 = m0).
  { intros x y m0. unfold deleteFriendToUser. by destruct (delete_loop _ _ _ _ _) as [[? ?] ?]. }
  assert (Hc : all_cached_users_ (releaseFriendRelationshipInDBAndMemory a b m).2
               = all_cached_users_ m).
  { unfold releaseFriendRelationshipInDBAndMemory, run_sql. destruct (a =? b); [done|].
    destruct (ordered a b) as [s g]. destruct (connect m); [|done]. cbn [negb].
    destruct (execute _ (db m)) as [[] d]; cbn [negb]; [by rewrite Hd | done]. }
  split; [done|]. intros Hlt Hcon Hex (u & v & Hu & Eu & Fu & Hv & Ev & Fv).
  assert (Hfr : ∀ x y w, w ∈ all_cached_users_ m → userid w = x → has_friend y w = true →
            isFriend x y (releaseFriendRelationshipInDBAndMemory a b m).2 = true).
  { intros x y w Hw Ew Fw. unfold isFriend. rewrite Hc. apply existsb_exists. exists w.
    split; [by apply list_elem_of_In|]. by rewrite Ew, Z.eqb_refl, Fw. }
  split; [|split; eauto].
  unfold releaseFriendRelationshipInDBAndMemory, run_sql, ordered.
  destruct (Z.eqb_spec a b); [lia|]. destruct (Z.ltb_spec b a); [lia|]. rewrite Hcon. cbn [negb].
  match goal with |- context [execute ?sql (db m)] =>
    specialize (Hex sql); destruct (execute sql (db m)) as [ok d] end.
  simpl in Hex. subst ok. cbn [negb]. unfold deleteFriendToUser. cbn [all_cached_users_ set_db].
  destruct (delete_loop a b false false (all_cached_users_ m)) as [[g1 g2] l'] eqn:E.
  simpl. apply andb_true_iff.
  revert E. apply (delete_loop_flags a b (all_cached_users_ m)); [lia | right; eauto | right; eauto].
Qed.
End more_friendship.

Lemma add_friend_variants_agree_witness :
  let m := Demo.manager [Demo.user 1 []; Demo.user 2 []; Demo.user 3 []] in
  addFriendToUser 1 2 m = updateUserRelationshipInMemory 1 2 FRIEND_OPERATION_ADD m.
Proof.
  apply add_friend_variants_agree; [done|]. apply (bool_decide_unpack _). by vm_compute.
Defined.

Lemma release_keeps_memory_witness :
  let m := Demo.manager [Demo.user 1 [new_friend 2]; Demo.user 2 [new_friend 1]] in
  let r := releaseFriendRelationshipInDBAndMemory 1 2 m in
  r.1 = true ∧ isFriend 1 2 r.2 = true ∧ isFriend 2 1 r.2 = true.
Proof.
  intros m. apply (release_keeps_memory 1 2 m); [lia | reflexivity | reflexivity |].
  exists (Demo.user 1 [new_friend 2]), (Demo.user 2 [new_friend 1]).
  split; [set_solver|]. do 2 (split; [reflexivity|]). split; [set_solver|]. split; reflexivity.
Defined.

(** ** The operations as data *)
Section ops.
Context {D : Database}.
Implicit Types m : UserManager.

(** The operations that change the database. *)
Inductive mutation :=
| MAddUser (u : User)
| MAddGroup (junk : nat → Z) (groupname : bytes) (owner groupid : Z)
| MMakeFriend (a b : Z)
| MRelease (a b : Z)
| MUpdateInfo (uid : Z) (n : User)
| MPassword (uid : Z) (p : bytes)
| MTeamInfo (uid : Z) (t : bytes)
| MDeleteTeam (uid : Z) (t : bytes)
| MModifyTeam (uid : Z) (new old : bytes)
| MMarkname (uid fid : Z) (s : bytes)
| MMoveFriend (uid fid : Z) (t : bytes)
| MSaveChat (sender target : Z) (msg : bytes).

Definition run_mutation (o : mutation) m : outcome (bool * UserManager) :=
  match o with
  | MAddUser u => let '(r, _, m') := addUser u m in Ok (r, m')
  | MAddGroup junk nm owner g => let '(r, _, m') := addGroup junk nm owner g m in Ok (r, m')
  | MMakeFriend a b => makeFriendRelationshipInDB a b m
  | MRelease a b => Ok (releaseFriendRelationshipInDBAndMemory a b m)
  | MUpdateInfo uid n => Ok (updateUserInfoInDb uid n m)
  | MPassword uid p => Ok (modifyUserPassword uid p m)
  | MTeamInfo uid t => Ok (updateUserTeamInfoInDbAndMemory uid t m)
  | MDeleteTeam uid t => Ok (deleteTeam uid t m)
  | MModifyTeam uid new old => Ok (modifyTeamName uid new old m)
  | MMarkname uid fid s => Ok (updateMarknameInDb uid fid s m)
  | MMoveFriend uid fid t => Ok (moveFriendToOtherTeam uid fid t m)
  | MSaveChat s t msg => Ok (saveChatMsgToDb s t msg m)
  end.

(** With the operations on the cache alone. *)
Inductive um_op :=
| UDb (o : mutation)
| URelationship (uid target : Z) (operation : FRIEND_OPERATION)
| UAddFriend (uid fid : Z)
| UDeleteFriend (uid fid : Z).

Definition run_um_op (o : um_op) m : outcome (bool * UserManager) :=
  match o with
  | UDb o => run_mutation o m
  | URelationship uid target operation => Ok (updateUserRelationshipInMemory uid target operation m)
  | UAddFriend uid fid => Ok (addFriendToUser uid fid m)
  | UDeleteFriend uid fid => Ok (deleteFriendToUser uid fid m)
  end.

(** *** Failures of the database *)

(** C28. The cache never runs ahead of the database. An operation that writes to the database and
    answers false has left the cached users as they were. If the connection cannot be opened,
    every such operation answers false and changes nothing at all. If the connection opens and
    the statements are refused, every one answers false, except [makeFriendRelationshipInDB]
    for two different ids, whose message for the log then reads memory at the address that is
    the user id. *)
Theorem failed_statement_keeps_cache (o : mutation) m :
  (∀ m', run_mutation o m = Ok (false, m') → all_cached_users_ m' = all_cached_users_ m) ∧
  (connect m = false → run_mutation o m = Ok (false, m)) ∧
  (connect m = true → (∀ sql d, (execute sql d).1 = false) →
     match o with
     | MMakeFriend a b => if a =? b then run_mutation o m = Ok (false, m) else run_mutation o m = Stop OutOfBounds
     | _ => ∃ m', run_mutation o m = Ok (false, m') ∧ all_cached_users_ m' = all_cached_users_ m
     end).
Proof.
  assert (Hsql : ∀ sql m0, all_cached_users_ (run_sql sql m0).2 = all_cached_users_ m0).
  { intros sql m0. unfold run_sql. by destruct (execute _ _). }
  assert (Href : ∀ sql m0, (∀ sql d, (execute sql d).1 = false) → (run_sql sql m0).1 = false).
  { intros sql m0 H. unfold run_sql. specialize (H (c_str sql) (db m0)). by destruct (execute _ _). }
  destruct o; cbn [run_mutation];
    unfold addUser, addGroup, makeFriendRelationshipInDB, releaseFriendRelationshipInDBAndMemory, deleteFriendToUser,
      updateUserInfoInDb, modifyUserPassword, updateUserTeamInfoInDbAndMemory, update_user, deleteTeam, modifyTeamName,
      change_team, updateMarknameInDb, moveFriendToOtherTeam, saveChatMsgToDb, ordered;
    repeat match goal with
    | |- context [if ?a =? ?b then _ else _] => destruct (a =? b)
    | |- context [if ?a <? ?b then _ else _] => destruct (a <? b)
    end; (destruct (connect m) eqn:Hc; cbn [negb]; [|split; [by intros m' [= <-] | done]]);
    try match goal with |- context [run_sql ?s ?x] =>
      pose proof (Hsql s x) as H1; pose proof (Href s x) as H2; destruct (run_sql s x) as [[] m1]; cbn [fst snd negb] in *
    end;
    try match goal with |- context [run_sql ?s ?x] =>
      pose proof (Hsql s x) as H3; destruct (run_sql s x) as [[] m2]; cbn [fst snd negb] in *
    end;
    repeat match goal with |- context [delete_loop ?a ?b ?c ?d ?l] => destruct (delete_loop a b c d l) as [[? ?] ?] end;
    (split; [intros m'; repeat case_match; intros [=]; subst; cbn [all_cached_users_ set_bases] in *; congruence|]);
    (split; [done|]); intros _ Hno; try (by specialize (H2 Hno)); eauto.
Qed.
End ops.

Lemma failed_statement_keeps_cache_witness :
  let m := @mkUM Demo.no_db 5 268435455 [Demo.user 3 []] [] [] [] [] tt in
  ∃ m', run_mutation (MPassword 3 (lit "x")) m = Ok (false, m') ∧ all_cached_users_ m' = all_cached_users_ m.
Proof.
  intros m. apply (proj2 (proj2 (failed_statement_keeps_cache (MPassword 3 (lit "x")) m))).
  - vm_compute. reflexivity.
  - intros sql d. reflexivity.
Defined.

(** ** Ids *)
Section ids.
Context {D : Database}.
Implicit Types m : UserManager.

Definition ids m : list Z := userid <$> all_cached_users_ m.

(** Users below the boundary are at most [base_user_id_], groups above it at most
    [base_group_id_], and no id occurs twice. *)
Record ids_ok m : Prop := {
  io_nodup : NoDup (ids m);
  io_user : ∀ i, i ∈ ids m → i < GROUPID_BOUBDARY → i ≤ base_user_id_ m;
  io_group : ∀ i, i ∈ ids m → GROUPID_BOUBDARY < i → i ≤ base_group_id_ m;
  io_bases : 0 ≤ base_user_id_ m < GROUPID_BOUBDARY ∧
             GROUPID_BOUBDARY ≤ base_group_id_ m < 2147483648;
}.

(** The counter an operation would draw from has an id left. *)
Definition counters_ok (o : um_op) m : Prop :=
  match o with
  | UDb (MAddUser _) => base_user_id_ m + 1 < GROUPID_BOUBDARY
  | UDb (MAddGroup _ _ _ _) => base_group_id_ m + 1 < 2147483648
  | _ => True
  end.

(** Managers initialised once, from a table with distinct ids if it can be read, and then used
    through any sequence of operations, one at a time. *)
Inductive directory : UserManager → Prop :=
| dir_init junk server user password name d :
    (∀ rows, query select_users d = Some rows →
       NoDup ((λ r, getInt32 r 0) <$> rows) ∧ Forall (λ r, getInt32 r 0 < 2147483648) rows) →
    directory (init junk server user password name (UserManager_ctor d)).2
| dir_op o m r m' :
    directory m → counters_ok o m → run_um_op o m = Ok (r, m') → directory m'.

Lemma ids_ok_load junk rows m :
  ids_ok m → NoDup (ids m ++ ((λ r, getInt32 r 0) <$> rows)) →
  Forall (λ r, getInt32 r 0 < 2147483648) rows → ids_ok (fold_left (load_row junk) rows m).
Proof.
  revert m. induction rows as [|r rows IH]; intros m Hok Hd Hr; [done|]. cbn [fold_left].
  apply Forall_cons in Hr as [Hr0 Hr]. destruct Hok as [Hn Hu Hg [Hb1 Hb2]].
  assert (E : ids (load_row junk m r) = ids m ++ [getInt32 r 0]).
  { unfold ids, load_row. simpl. by rewrite fmap_app. }
  cbn [fmap list_fmap] in Hd. apply IH; [|by rewrite E, <- app_assoc | done].
  split; rewrite ?E.
  - rewrite cons_middle, app_assoc in Hd. by apply NoDup_app in Hd as (? & _ & _).
  - intros i [Hi|Hi%list_elem_of_singleton]%elem_of_app Hlt; unfold load_row; simpl.
    + specialize (Hu i Hi Hlt). destruct (Z.ltb_spec (getInt32 r 0) GROUPID_BOUBDARY),
        (Z.ltb_spec (base_user_id_ m) (getInt32 r 0)); simpl; lia.
    + destruct (Z.ltb_spec (getInt32 r 0) GROUPID_BOUBDARY),
        (Z.ltb_spec (base_user_id_ m) (getInt32 r 0)); simpl; lia.
  - intros i [Hi|Hi%list_elem_of_singleton]%elem_of_app Hlt; unfold load_row; simpl.
    + specialize (Hg i Hi Hlt). destruct (Z.ltb_spec GROUPID_BOUBDARY (getInt32 r 0)),
        (Z.ltb_spec (base_group_id_ m) (getInt32 r 0)); simpl; lia.
    + destruct (Z.ltb_spec GROUPID_BOUBDARY (getInt32 r 0)),
        (Z.ltb_spec (base_group_id_ m) (getInt32 r 0)); simpl; lia.
  - unfold load_row. simpl. split.
    + destruct (Z.ltb_spec (getInt32 r 0) GROUPID_BOUBDARY),
        (Z.ltb_spec (base_user_id_ m) (getInt32 r 0)); simpl; lia.
    + destruct (Z.ltb_spec GROUPID_BOUBDARY (getInt32 r 0)),
        (Z.ltb_spec (base_group_id_ m) (getInt32 r 0)); simpl; lia.
Qed.

(** A new entry with an id above the ones of its kind. *)
Lemma ids_ok_extend m m' bu bg new :
  ids_ok m → ids m' = ids m ++ new → base_user_id_ m' = bu → base_group_id_ m' = bg →
  base_user_id_ m ≤ bu < GROUPID_BOUBDARY → base_group_id_ m ≤ bg < 2147483648 →
  (new = [] ∨ (new = [bu] ∧ base_user_id_ m < bu) ∨ (new = [bg] ∧ base_group_id_ m < bg)) →
  ids_ok m'.
Proof.
  intros [Hn Hu Hg [Hb1 Hb2]] Eids <- <- Hbu Hbg Hnew. split; rewrite ?Eids; [| | | lia].
  - destruct Hnew as [->|[[-> Hlt]|[-> Hlt]]]; [by rewrite app_nil_r | |];
      apply NoDup_app; (split; [done|]; split; [|apply NoDup_singleton]);
      intros i Hi Hx%list_elem_of_singleton; subst i.
    + specialize (Hu _ Hi). lia.
    + specialize (Hg _ Hi). lia.
  - intros i [Hi|Hi]%elem_of_app Hlt; [specialize (Hu i Hi Hlt); lia|].
    destruct Hnew as [->|[[-> ?]|[-> ?]]]; [by apply elem_of_nil in Hi | |];
      apply list_elem_of_singleton in Hi as ->; lia.
  - intros i [Hi|Hi]%elem_of_app Hlt; [specialize (Hg i Hi Hlt); lia|].
    destruct Hnew as [->|[[-> ?]|[-> ?]]]; [by apply elem_of_nil in Hi | |];
      apply list_elem_of_singleton in Hi as ->; lia.
Qed.

Lemma addUser_ids u m r u' m' :
  0 ≤ base_user_id_ m → base_user_id_ m + 1 < GROUPID_BOUBDARY → addUser u m = (r, u', m') →
  base_user_id_ m ≤ base_user_id_ m' ≤ base_user_id_ m + 1 ∧ base_group_id_ m' = base_group_id_ m ∧
  if r then ids m' = ids m ++ [base_user_id_ m + 1] ∧ base_user_id_ m' = base_user_id_ m + 1 ∧
            userid u' = base_user_id_ m + 1
  else ids m' = ids m.
Proof.
  intros H0 Hb. unfold addUser, GROUPID_BOUBDARY in *.
  rewrite (s32_small (base_user_id_ m + 1)) by lia. destruct (connect m); cbn [negb].
  - unfold run_sql. destruct (execute _ _) as [[] d]; cbn [negb]; intros [= <- <- <-];
      cbn [base_user_id_ base_group_id_ set_bases set_db set_users]; (split; [lia|]).
    + split; [done|]. unfold ids. cbn [all_cached_users_ set_users set_db set_bases].
      by rewrite fmap_app.
    + done.
  - intros [= <- <- <-]. split; [lia | done].
Qed.

Lemma addGroup_ids junk nm owner g m r g' m' :
  0 ≤ base_group_id_ m → base_group_id_ m + 1 < 2147483648 → addGroup junk nm owner g m = (r, g', m') →
  base_group_id_ m ≤ base_group_id_ m' ≤ base_group_id_ m + 1 ∧ base_user_id_ m' = base_user_id_ m ∧
  if r then ids m' = ids m ++ [base_group_id_ m + 1] ∧ base_group_id_ m' = base_group_id_ m + 1 ∧
            g' = base_group_id_ m + 1
  else ids m' = ids m ∧ g' = g.
Proof.
  intros H0 Hb. unfold addGroup. rewrite (s32_small (base_group_id_ m + 1)) by lia.
  destruct (connect m); cbn [negb].
  - unfold run_sql. destruct (execute _ _) as [[] d]; cbn [negb]; intros [= <- <- <-];
      cbn [base_user_id_ base_group_id_ set_bases set_db set_users]; (split; [lia|]).
    + split; [done|]. unfold ids. cbn [all_cached_users_ set_users set_db set_bases].
      by rewrite fmap_app.
    + done.
  - intros [= <- <- <-]. split; [lia | done].
Qed.

(** *** Operations that give no ids *)
Lemma update_first_ids P (f : User → User) l l' :
  (∀ u, userid (f u) = userid u) → update_first P f l = Some l' → userid <$> l' = userid <$> l.
Proof.
  intros Hf. revert l'. induction l as [|u l IH]; intros l'; [done|]. cbn [update_first].
  destruct (P u); [intros [= <-]; cbn; by rewrite Hf|].
  destruct (update_first P f l) as [l1|]; [|done]. intros [= <-]. cbn. by rewrite (IH l1).
Qed.

Lemma update_friend_loop_ids uid fid f l l' :
  update_friend_loop uid fid f l = Some l' → userid <$> l' = userid <$> l.
Proof.
  revert l'. induction l as [|u l IH]; intros l'; [done|]. cbn [update_friend_loop].
  destruct (if userid u =? uid then _ else _); [by intros [= <-]|].
  destruct (update_friend_loop uid fid f l) as [l1|]; [|done]. intros [= <-]. cbn. by rewrite (IH l1).
Qed.

Lemma add_loop_ids uid target l : userid <$> (add_loop uid target l).2 = userid <$> l.
Proof.
  induction l as [|u l IH]; [done|]. cbn [add_loop]. destruct (add_loop uid target l) as [[f1 f2] r].
  repeat case_match; cbn in *; by rewrite IH.
Qed.

Lemma erase_step_id id fid found u : userid (erase_step id fid found u).2 = userid u.
Proof. unfold erase_step. by repeat case_match. Qed.

Lemma delete_loop_ids uid target f1 f2 l : userid <$> (delete_loop uid target f1 f2 l).2 = userid <$> l.
Proof.
  revert f1 f2. induction l as [|u l IH]; intros f1 f2; [done|]. cbn [delete_loop].
  pose proof (erase_step_id uid target f1 u) as H1. destruct (erase_step uid target f1 u) as [g1 u1]. cbn [snd] in H1.
  case_match.
  - specialize (IH g1 f2). destruct (delete_loop uid target g1 f2 l) as [[? ?] ?]. cbn in *. by rewrite IH, H1.
  - pose proof (erase_step_id target uid f2 u1) as H2. destruct (erase_step target uid f2 u1) as [g2 u2]. cbn [snd] in H2.
    specialize (IH g1 g2). destruct (delete_loop uid target g1 g2 l) as [[? ?] ?]. cbn in *. by rewrite IH, H2, H1.
Qed.

Lemma add_both_loop_ids uid fid f1 f2 l : userid <$> (add_both_loop uid fid f1 f2 l).2 = userid <$> l.
Proof.
  revert f1 f2. induction l as [|u l IH]; intros f1 f2; [done|]. cbn [add_both_loop].
  set (u2 := if userid u =? fid then _ else _).
  assert (Hu : userid u2 = userid u) by (unfold u2; by repeat case_match).
  case_match; [cbn; by rewrite Hu|].
  specialize (IH (f1 || (userid u =? uid)) (f2 || (userid u =? fid))).
  destruct (add_both_loop uid fid _ _ l) as [r l2]. cbn in *. by rewrite IH, Hu.
Qed.

(** Ids and counters. *)
Definition id_state m := (ids m, base_user_id_ m, base_group_id_ m).

Lemma run_sql_ids sql m : id_state (run_sql sql m).2 = id_state m.
Proof. unfold run_sql. by destruct (execute _ _). Qed.

Lemma set_users_ids l m : userid <$> l = userid <$> all_cached_users_ m → id_state (set_users l m) = id_state m.
Proof. intros E. unfold id_state, ids. simpl. by rewrite E. Qed.

Lemma update_user_ids sql uid f m : (∀ u, userid (f u) = userid u) → id_state (update_user sql uid f m).2 = id_state m.
Proof.
  intros Hf. unfold update_user. destruct (connect m); [|done]. cbn [negb].
  pose proof (run_sql_ids sql m) as Hs. destruct (run_sql sql m) as [[] m1]; cbn [fst snd negb] in *; [|done].
  destruct (update_first _ f _) as [l|] eqn:E; [|done]. cbn [snd]. rewrite <- Hs.
  by eapply set_users_ids, update_first_ids.
Qed.

Lemma change_team_ids absent new old uid m : id_state (change_team absent new old uid m).2 = id_state m.
Proof.
  unfold change_team. destruct (connect m); [|done]. cbn [negb].
  pose proof (run_sql_ids (team_sql "1" new old uid) m) as Hs.
  destruct (run_sql _ m) as [[] m1]; cbn [fst snd negb] in *; [|done].
  pose proof (run_sql_ids (team_sql "2" new old uid) m1) as Hs2.
  destruct (run_sql _ m1) as [[] m2]; cbn [fst snd negb] in *; [|congruence].
  destruct (update_first _ _ _) as [l|] eqn:E; cbn [snd]; [|congruence]. rewrite <- Hs, <- Hs2.
  by eapply set_users_ids, update_first_ids; [|exact E].
Qed.

Lemma updateMarkname_ids uid fid s m : id_state (updateMarknameInDb uid fid s m).2 = id_state m.
Proof.
  unfold updateMarknameInDb. destruct (connect m); [|done]. cbn [negb].
  match goal with |- context [run_sql ?q m] => pose proof (run_sql_ids q m) as Hs; destruct (run_sql q m) as [[] m1] end;
    cbn [fst snd negb] in *; [|done].
  destruct (update_friend_loop _ _ _ _) as [l|] eqn:E; [|done]. cbn [snd]. rewrite <- Hs.
  by eapply set_users_ids, update_friend_loop_ids.
Qed.

Lemma moveFriend_ids uid fid s m : id_state (moveFriendToOtherTeam uid fid s m).2 = id_state m.
Proof.
  unfold moveFriendToOtherTeam. destruct (connect m); [|done]. cbn [negb].
  match goal with |- context [run_sql ?q m] => pose proof (run_sql_ids q m) as Hs; destruct (run_sql q m) as [[] m1] end;
    cbn [fst snd negb] in *; [|done].
  destruct (list_find _ _) as [[i u]|] eqn:E; [|done]. apply list_find_Some in E as (Hi & _).
  destruct (update_first _ _ _) as [fs|]; [|done]. cbn [snd]. rewrite <- Hs. apply set_users_ids.
  rewrite list_fmap_insert. apply list_insert_id. rewrite list_lookup_fmap, Hi. done.
Qed.

Lemma deleteFriend_ids uid fid m : id_state (deleteFriendToUser uid fid m).2 = id_state m.
Proof. unfold deleteFriendToUser. by destruct (delete_loop _ _ _ _ _) as [[? ?] ?]. Qed.

Lemma release_ids a b m : id_state (releaseFriendRelationshipInDBAndMemory a b m).2 = id_state m.
Proof.
  unfold releaseFriendRelationshipInDBAndMemory. case_match; [done|]. destruct (ordered a b) as [x y].
  destruct (connect m); [|done]. cbn [negb].
  match goal with |- context [run_sql ?q m] => pose proof (run_sql_ids q m) as Hs; destruct (run_sql q m) as [[] m1] end;
    cbn [fst snd negb] in *; [|done]. by rewrite deleteFriend_ids.
Qed.

Lemma makeFriend_ids a b m r m' : makeFriendRelationshipInDB a b m = Ok (r, m') → id_state m' = id_state m.
Proof.
  unfold makeFriendRelationshipInDB. case_match; [by intros [= _ <-]|]. destruct (ordered a b) as [x y].
  destruct (connect m); [|by intros [= _ <-]]. cbn [negb].
  match goal with |- context [run_sql ?q m] => pose proof (run_sql_ids q m) as Hs; destruct (run_sql q m) as [[] m1] end;
    cbn [fst snd negb] in *; [|done]. by intros [= _ <-].
Qed.

Lemma relationship_ids uid target op m : id_state (updateUserRelationshipInMemory uid target op m).2 = id_state m.
Proof.
  unfold updateUserRelationshipInMemory. destruct op.
  - pose proof (add_loop_ids uid target (all_cached_users_ m)) as H.
    destruct (add_loop _ _ _) as [[f1 f2] l]. by apply set_users_ids.
  - pose proof (delete_loop_ids uid target false false (all_cached_users_ m)) as H.
    destruct (delete_loop _ _ _ _ _) as [[f1 f2] l]. by apply set_users_ids.
Qed.

Lemma addFriend_ids uid fid m : id_state (addFriendToUser uid fid m).2 = id_state m.
Proof.
  unfold addFriendToUser. pose proof (add_both_loop_ids uid fid false false (all_cached_users_ m)) as H.
  destruct (add_both_loop _ _ _ _ _) as [r l]. by apply set_users_ids.
Qed.

Lemma op_ids o m r m' :
  run_um_op o m = Ok (r, m') →
  match o with UDb (MAddUser _) | UDb (MAddGroup _ _ _ _) => True | _ => id_state m' = id_state m end.
Proof.
  destruct o as [o|uid target op|uid fid|uid fid]; cbn [run_um_op].
  - destruct o; cbn [run_mutation]; try done.
    + apply makeFriend_ids.
    + intros [= E]. pose proof (release_ids a b m) as H. by rewrite E in H.
    + unfold updateUserInfoInDb. intros [= E].
      match type of E with update_user ?q _ _ _ = _ => pose proof (update_user_ids q uid (set_info n) m) as H end.
      rewrite E in H. by apply H.
    + unfold modifyUserPassword. intros [= E].
      match type of E with update_user ?q _ _ _ = _ => pose proof (update_user_ids q uid (set_password p) m) as H end.
      rewrite E in H. by apply H.
    + unfold updateUserTeamInfoInDbAndMemory. intros [= E].
      match type of E with update_user ?q _ _ _ = _ => pose proof (update_user_ids q uid (set_teaminfo t) m) as H end.
      rewrite E in H. by apply H.
    + intros [= E]. pose proof (change_team_ids false DEFAULT_TEAMNAME t uid m) as H. unfold deleteTeam in E. by rewrite E in H.
    + intros [= E]. pose proof (change_team_ids true new old uid m) as H. unfold modifyTeamName in E. by rewrite E in H.
    + intros [= E]. pose proof (updateMarkname_ids uid fid s m) as H. by rewrite E in H.
    + intros [= E]. pose proof (moveFriend_ids uid fid t m) as H. by rewrite E in H.
    + unfold saveChatMsgToDb. destruct (connect m); [|by intros [= _ <-]]. cbn [negb]. intros [= E].
      match type of E with run_sql ?q _ = _ => pose proof (run_sql_ids q m) as H end. by rewrite E in H.
  - intros [= E]. pose proof (relationship_ids uid target op m) as H. by rewrite E in H.
  - intros [= E]. pose proof (addFriend_ids uid fid m) as H. by rewrite E in H.
  - intros [= E]. pose proof (deleteFriend_ids uid fid m) as H. by rewrite E in H.
Qed.

Lemma ids_ok_same m m' : ids_ok m → id_state m' = id_state m → ids_ok m'.
Proof. intros [Hn Hu Hg Hb] [= E1 E2 E3]. split; rewrite ?E1, ?E2, ?E3; done. Qed.

Lemma init_ids junk server user password name d :
  (∀ rows, query select_users d = Some rows →
     NoDup ((λ r, getInt32 r 0) <$> rows) ∧ Forall (λ r, getInt32 r 0 < 2147483648) rows) →
  ids_ok (init junk server user password name (UserManager_ctor d)).2.
Proof.
  intros Hrows. unfold init. set (m1 := mkUM _ _ _ _ _ _ _ _).
  assert (H1 : ids_ok m1).
  { split; [constructor | by intros i ?%elem_of_nil | by intros i ?%elem_of_nil |].
    unfold GROUPID_BOUBDARY. simpl. lia. }
  unfold loadUsersFromDb. destruct (connect m1); [|done]. cbn [negb]. change (db m1) with d.
  destruct (query select_users d) as [rows|]; [|done]. destruct (Hrows rows eq_refl) as [Hd Hr]. cbn [negb snd].
  eapply ids_ok_same; [exact (ids_ok_load junk rows m1 H1 Hd Hr)|]. apply set_users_ids.
  induction (all_cached_users_ (fold_left (load_row junk) rows m1)) as [|u l IH]; [done|].
  cbn [map fmap list_fmap]. by rewrite <- IH.
Qed.

Lemma directory_ok m : directory m → ids_ok m.
Proof.
  induction 1 as [junk server user password name d Hrows|o m r m' _ IH Hb E]; [by apply init_ids|].
  pose proof IH as [_ _ _ [Hb1 Hb2]]. pose proof (op_ids o m r m' E) as Hsame.
  destruct o as [[u|junk nm owner g| | | | | | | | | |]| | |]; try (by eapply ids_ok_same); cbn [run_um_op run_mutation counters_ok] in *.
  - destruct (addUser u m) as [[r0 u'] m0] eqn:Ea. injection E as <- <-.
    destruct (addUser_ids u m r0 u' m0) as (H1 & H2 & H3); [lia | done | done |].
    destruct r0; [destruct H3 as (H3 & H4 & _)|].
    + apply (ids_ok_extend m m0 (base_user_id_ m0) (base_group_id_ m0) [base_user_id_ m + 1]);
        try done; try lia. right. left. split; [by rewrite H4 | lia].
    + apply (ids_ok_extend m m0 (base_user_id_ m0) (base_group_id_ m0) []);
        try done; try lia; [by rewrite app_nil_r | by left].
  - destruct (addGroup junk nm owner g m) as [[r0 g'] m0] eqn:Ea. injection E as <- <-.
    destruct (addGroup_ids junk nm owner g m r0 g' m0) as (H1 & H2 & H3);
      [unfold GROUPID_BOUBDARY in *; lia | done | done |].
    destruct r0; [destruct H3 as (H3 & H4 & _) | destruct H3 as [H3 _]].
    + apply (ids_ok_extend m m0 (base_user_id_ m0) (base_group_id_ m0) [base_group_id_ m + 1]);
        try done; try lia. right. right. split; [by rewrite H4 | lia].
    + apply (ids_ok_extend m m0 (base_user_id_ m0) (base_group_id_ m0) []);
        try done; try lia; [by rewrite app_nil_r | by left].
Qed.

(** C25. Ids are never given twice by one thread: in a manager initialised once, from a table
    with distinct ids (or without a table that can be read), and then used through any sequence
    of its operations, failed ones included, one at a time and while the counters have ids left,
    ids are distinct, users and groups stay on their sides of the boundary, and the next
    registration or group creation that succeeds gives an id not in use. *)
Theorem ids_unique m u junk nm owner g :
  directory m →
  NoDup (ids m) ∧
  (base_user_id_ m + 1 < GROUPID_BOUBDARY →
   ∀ u' m', addUser u m = (true, u', m') →
     userid u' ∉ ids m ∧ userid u' < GROUPID_BOUBDARY ∧ ids m' = ids m ++ [userid u']) ∧
  (base_group_id_ m + 1 < 2147483648 →
   ∀ g' m', addGroup junk nm owner g m = (true, g', m') →
     g' ∉ ids m ∧ GROUPID_BOUBDARY < g' ∧ ids m' = ids m ++ [g']).
Proof.
  intros Hdir. pose proof (directory_ok m Hdir) as [Hn Hu Hg [Hb1 Hb2]]. split; [done|]. split.
  - intros Hb u' m' E. destruct (addUser_ids u m true u' m') as (_ & _ & H1 & H2 & ->);
      [lia | done | done |]. split; [|split; [done | done]].
    intros Hin. specialize (Hu _ Hin). lia.
  - intros Hb g' m' E.
    destruct (addGroup_ids junk nm owner g m true g' m') as (_ & _ & H1 & H2 & ->);
      [unfold GROUPID_BOUBDARY in *; lia | done | done |].
    split; [|split; [unfold GROUPID_BOUBDARY in *; lia | done]].
    intros Hin. specialize (Hg _ Hin). lia.
Qed.
End ids.

Lemma ids_unique_witness :
  let rows := [([7], []); ([268435460], []); ([3], [])] : list Demo.row in
  let m := Demo.empty 0 (Demo.mkTables rows [] true []) in
  let m0 := (init (λ _, 0) [] [] None [] m).2 in
  ∃ m1, run_um_op (URelationship 7 3 FRIEND_OPERATION_ADD) m0 = Ok (true, m1) ∧ base_user_id_ m1 = 7 ∧
    base_group_id_ m1 = 268435460 ∧ NoDup (ids m1) ∧
    (base_user_id_ m1 + 1 < GROUPID_BOUBDARY →
     ∀ u' m', addUser (Demo.user 0 []) m1 = (true, u', m') →
       userid u' ∉ ids m1 ∧ userid u' < GROUPID_BOUBDARY ∧ ids m' = ids m1 ++ [userid u']).
Proof.
  intros rows m m0.
  assert (H0 : directory m0).
  { apply dir_init. intros rs [= <-]. split; [apply (bool_decide_unpack _); by vm_compute | repeat constructor]. }
  assert (Eb : (updateUserRelationshipInMemory 7 3 FRIEND_OPERATION_ADD m0).1 = true) by (vm_compute; reflexivity).
  exists (updateUserRelationshipInMemory 7 3 FRIEND_OPERATION_ADD m0).2. split.
  { cbn [run_um_op]. rewrite <- Eb. by rewrite <- surjective_pairing. }
  split; [vm_compute; reflexivity|]. split; [vm_compute; reflexivity|].
  destruct (ids_unique (updateUserRelationshipInMemory 7 3 FRIEND_OPERATION_ADD m0).2
              (Demo.user 0 []) (λ _, 0) [] 0 0) as (H1 & H2 & _).
  - eapply (dir_op (URelationship 7 3 FRIEND_OPERATION_ADD)); [exact H0 | exact I|].
    cbn [run_um_op]. by rewrite <- surjective_pairing.
  - split; [exact H1 | exact H2].
Defined.

(** At the boundary the next user gets the id of the first group. *)
Example user_id_collides_with_group :
  let m := Demo.empty 268435455 (Demo.mkTables [] [] true []) in
  let '(_, u, m1) := addUser (Demo.user 0 []) m in
  let '(_, g, _) := addGroup (λ _, 0) (lit "g") 1 0 m1 in userid u = g.
Proof. by vm_compute. Qed.

(** ** Relationships loaded at start *)
Section loading.
Context {D : Database}.
Implicit Types m : UserManager.

(** A row of [t_user_relationship] relates the two ids. *)
Definition relates (a b : Z) (r : Row) : bool :=
  ((getInt32 r 0 =? a) && (getInt32 r 1 =? b)) || ((getInt32 r 0 =? b) && (getInt32 r 1 =? a)).

Lemma loaded_users junk rows m :
  all_cached_users_ (fold_left (load_row junk) rows m) =
    all_cached_users_ m ++ map (user_of_row junk) rows ∧
  db (fold_left (load_row junk) rows m) = db m ∧
  connect (fold_left (load_row junk) rows m) = connect m.
Proof.
  revert m. induction rows as [|r rows IH]; intros m; cbn [fold_left map].
  - by rewrite app_nil_r.
  - destruct (IH (load_row junk m r)) as (-> & -> & ->). simpl. by rewrite <- app_assoc.
Qed.

Lemma has_friend_loaded uid fid rows :
  uid ≠ fid →
  (∀ r, r ∈ rows → getInt32 r 0 = uid ∨ getInt32 r 1 = uid) →
  existsb (λ f, friendid f =? fid) (map (friend_of_row uid) rows) = existsb (relates uid fid) rows.
Proof.
  intros Hne H. induction rows as [|r rows IH]; [done|]. cbn [map existsb].
  rewrite IH by (intros; apply H; set_solver). f_equal.
  destruct (H r) as [E|E]; [set_solver | |]; unfold friend_of_row, relates.
  - rewrite E, Z.eqb_refl. cbn [friendid andb]. destruct (Z.eqb_spec uid fid); [done|].
    cbn [andb]. by rewrite orb_false_r.
  - destruct (Z.eqb_spec (getInt32 r 0) uid) as [E0|E0]; cbn [friendid andb].
    + rewrite E. destruct (Z.eqb_spec uid fid); [done|]. rewrite E0.
      destruct (Z.eqb_spec uid fid); done.
    + rewrite E, Z.eqb_refl, andb_true_r. cbn [orb]. done.
Qed.

(** Users of one id who all answer alike. *)
Lemma isFriend_const x y (v : bool) m :
  (∀ u, u ∈ all_cached_users_ m → userid u = x → has_friend y u = v) →
  cached x (all_cached_users_ m) = true → isFriend x y m = v.
Proof.
  unfold isFriend, cached. induction (all_cached_users_ m) as [|u l IH]; [done|].
  intros Hv. cbn [existsb]. destruct (Z.eqb_spec (userid u) x) as [E|E]; cbn [andb orb].
  - intros _. rewrite Hv by (done || set_solver). destruct v; [done|]. cbn [orb].
    rewrite <- not_true_iff_false, existsb_exists. intros (w & Hw & Hf).
    apply andb_true_iff in Hf as [Hid Hf]. rewrite Hv in Hf; [done | | lia].
    apply list_elem_of_In in Hw. set_solver.
  - intros Hx. apply IH; [|done]. intros w Hw. apply Hv. set_solver.
Qed.

Lemma relates_filter x y (table : list Row) :
  existsb (relates x y)
    (filter (λ r, (getInt32 r 0 =? x) || (getInt32 r 1 =? x) = true) table) =
  existsb (relates x y) table.
Proof.
  induction table as [|r table IH]; [done|]. rewrite filter_cons. destruct (decide _) as [|Hn].
  - cbn [existsb]. by rewrite IH.
  - cbn [existsb]. rewrite IH. replace (relates x y r) with false; [done|].
    unfold relates. destruct (getInt32 r 0 =? x), (getInt32 r 1 =? x); try done.
    cbn [andb orb]. by rewrite andb_false_r.
Qed.

(** The cache [init] leaves. *)
Lemma init_users junk server user password name (table : list Row) m m' :
  all_cached_users_ m = [] →
  initialize server user (default (db_password_ m) password) name (db m) = true →
  init junk server user password name m = (true, m') →
  ∀ u, u ∈ all_cached_users_ m' →
    query (c_str (select_relationship (userid u))) (db m) =
      Some (filter (λ r, (getInt32 r 0 =? userid u) || (getInt32 r 1 =? userid u) = true) table) →
    friends u = map (friend_of_row (userid u))
      (filter (λ r, (getInt32 r 0 =? userid u) || (getInt32 r 1 =? userid u) = true) table).
Proof.
  intros Hempty Hcon Hinit. unfold init in Hinit.
  set (m1 := mkUM _ _ _ _ _ _ _ _) in Hinit. assert (Hc1 : connect m1 = true) by exact Hcon.
  unfold loadUsersFromDb in Hinit. rewrite Hc1 in Hinit. cbn [negb] in Hinit.
  destruct (query select_users (db m1)) as [rows|]; [|done]. cbn [negb] in Hinit.
  destruct (loaded_users junk rows m1) as (Eu & Ed & Ec).
  set (m2 := fold_left (load_row junk) rows m1) in *. injection Hinit as <-.
  cbn [all_cached_users_ set_users]. rewrite Eu. change (all_cached_users_ m1) with (all_cached_users_ m).
  rewrite Hempty. cbn [app]. rewrite map_map. intros u (r & <- & Hr)%list_elem_of_In%in_map_iff Hq.
  cbn [friends set_friends userid user_of_row]. unfold loadRelationshipFromDb.
  rewrite Ec, Hc1, Ed. cbn [negb]. change (db m1) with (db m).
  cbn [userid set_friends user_of_row] in Hq. by rewrite Hq.
Qed.

(** C27. [init] builds a symmetric friendship relation: when the database answers the
    SELECT for each loaded user with exactly the rows of its table in which the user occurs,
    two loaded users are friends, seen from either of them, exactly if the table has a row
    with both. *)
Theorem init_friendship_symmetric junk server user password name (table : list Row) m m' a b :
  all_cached_users_ m = [] →
  initialize server user (default (db_password_ m) password) name (db m) = true →
  init junk server user password name m = (true, m') →
  (∀ uid, cached uid (all_cached_users_ m') = true →
     query (c_str (select_relationship uid)) (db m) =
     Some (filter (λ r, (getInt32 r 0 =? uid) || (getInt32 r 1 =? uid) = true) table)) →
  a ≠ b → cached a (all_cached_users_ m') = true → cached b (all_cached_users_ m') = true →
  isFriend a b m' = existsb (relates a b) table ∧ isFriend b a m' = existsb (relates a b) table.
Proof.
  intros Hempty Hcon Hinit Hq Hne Ha Hb.
  pose proof (init_users junk server user password name table m m' Hempty Hcon Hinit) as Hfr.
  assert (Hall : ∀ x y, x ≠ y → cached x (all_cached_users_ m') = true →
            isFriend x y m' = existsb (relates x y) table).
  { intros x y Hxy Hx. apply isFriend_const; [|done]. intros u Hu <-.
    unfold has_friend. rewrite (Hfr u Hu) by (apply Hq; exact Hx).
    rewrite has_friend_loaded; [apply relates_filter | done |].
    intros r [Hr _]%list_elem_of_filter. lia. }
  split; [by apply Hall|]. rewrite Hall by done.
  clear. induction table as [|r l IH]; [done|]. cbn [existsb]. rewrite IH. f_equal.
  unfold relates. apply orb_comm.
Qed.
End loading.

Lemma init_friendship_symmetric_witness :
  let users := [([1], []); ([2], []); ([3], [])] : list Demo.row in
  let rels := [([1; 3], [])] : list Demo.row in
  let m := Demo.empty 0 (Demo.mkTables users rels true []) in
  let m' := (init (λ _, 0) [] [] None [] m).2 in
  isFriend 1 3 m' = true ∧ isFriend 3 1 m' = true.
Proof.
  intros users rels m m'.
  assert (Hb : (init (λ _, 0) [] [] None [] m).1 = true) by (vm_compute; reflexivity).
  assert (Hids : userid <$> all_cached_users_ m' = [1; 2; 3]) by (vm_compute; reflexivity).
  assert (Hm : init (λ _, 0) [] [] None [] m = (true, m')).
  { subst m'. rewrite (surjective_pairing (init _ _ _ _ _ m)), Hb. done. }
  clearbody m'.
  assert (Hc : ∀ uid, cached uid (all_cached_users_ m') = true ↔ uid = 1 ∨ uid = 2 ∨ uid = 3).
  { intros uid. rewrite cached_elem, Hids. clear. set_solver. }
  apply (init_friendship_symmetric (D := Demo.database) (λ _, 0) [] [] None [] rels m m' 1 3);
    [reflexivity | reflexivity | exact Hm | | discriminate | apply Hc; auto..].
  intros uid [->|[->| ->]]%Hc; vm_compute; reflexivity.
Defined.
