(* ===== verification/StringUtil.v ===== *)
(** * String utilities: [common/stringutil.h], [common/stringutil.cpp]

    Splitting, cutting, replacing and trimming of [std::string]s. A [const char*] delimiter
    is [None] when null; its bytes do not include the terminating NUL. The loops of [split]
    and [replace] run on fuel, and [None] is a loop that has not ended yet. *)
From S2P Require Import Prelude.

(** [split]: one step of fuel per iteration of [while (true)]. *)
Fixpoint split_loop (fuel : nat) (delimiter buf : bytes) (v : list bytes) : option (list bytes) :=
  match fuel with
  | O => None
  | S fuel' =>
      match search delimiter buf with
      | Some pos =>
          let substr := take pos buf in
          split_loop fuel' delimiter (drop (pos + length delimiter) buf)
            (if bool_decide (substr = []) then v else v ++ [substr])
      | None => Some (if bool_decide (buf = []) then v else v ++ [buf])
      end
  end.

Definition split (fuel : nat) (str : bytes) (v : list bytes) (delimiter : option bytes)
    : option (list bytes) :=
  match delimiter with
  | None => Some v
  | Some d => if bool_decide (str = []) then Some v else split_loop fuel d str v
  end.

Definition push_nonempty (s : bytes) (v : list bytes) : list bytes :=
  if bool_decide (s = []) then v else v ++ [s].

Definition cut (str : bytes) (v : list bytes) (delimiter : option bytes) : list bytes :=
  match delimiter with
  | None => v
  | Some d =>
      if bool_decide (str = []) then v
      else match search d str with
           | None => v
           | Some pos =>
               push_nonempty (drop (pos + length d) str) (push_nonempty (take pos str) v)
           end
  end.

(** [replace]: [pos] is the loop variable; [str.find(toReplaced, pos)] searches behind it. *)
Fixpoint replace_loop (fuel : nat) (toReplaced newStr : bytes) (pos : nat) (str : bytes)
    : option bytes :=
  match fuel with
  | O => None
  | S fuel' =>
      match search toReplaced (drop pos str) with
      | Some k =>
          let at_ := (pos + k)%nat in
          replace_loop fuel' toReplaced newStr (at_ + length newStr)
            (take at_ str ++ newStr ++ drop (at_ + length toReplaced) str)
      | None => Some str
      end
  end.

Definition replace (fuel : nat) (str toReplaced newStr : bytes) : option bytes :=
  if bool_decide (toReplaced = []) || bool_decide (newStr = []) then Some str
  else replace_loop fuel toReplaced newStr 0 str.

(** [trimLeft] leaves a string of trimmed characters only as it is. *)
Fixpoint drop_trimmed (trimmed : byte) (l : bytes) : option bytes :=
  match l with
  | [] => None
  | c :: l' => if bool_decide (c = trimmed) then drop_trimmed trimmed l' else Some l
  end.

Definition trimLeft (trimmed : byte) (str : bytes) : bytes :=
  default str (drop_trimmed trimmed str).

(** [trimRight]: [n] is the index plus one. The index is unsigned, so behind index 0 comes
    the largest [size_t], and reading there is out of bounds. *)
Fixpoint trimRight_loop (trimmed : byte) (tmp : bytes) (n : nat) : outcome bytes :=
  match n with
  | O => Stop OutOfBounds
  | S i =>
      match tmp !! i with
      | None => Stop OutOfBounds
      | Some c => if bool_decide (c = trimmed) then trimRight_loop trimmed tmp i
                  else Ok (take (S i) tmp)
      end
  end.

Definition trimRight (trimmed : byte) (str : bytes) : outcome bytes :=
  trimRight_loop trimmed str (length str).

Definition trim (trimmed : byte) (str : bytes) : outcome bytes :=
  trimRight trimmed (trimLeft trimmed str).

(** ** What splitting and replacing compute *)

(** The pieces between the occurrences of [d], from left to right, empty ones included. *)
Fixpoint pieces_fuel (fuel : nat) (d s : bytes) : list bytes :=
  match fuel with
  | O => [s]
  | S fuel' =>
      match search d s with
      | None => [s]
      | Some pos => take pos s :: pieces_fuel fuel' d (drop (pos + length d) s)
      end
  end.
Definition pieces (d s : bytes) : list bytes := pieces_fuel (length s) d s.

Fixpoint join (d : bytes) (ps : list bytes) : bytes :=
  match ps with
  | [] => []
  | [p] => p
  | p :: ps' => p ++ d ++ join d ps'
  end.

Definition nonempty (s : bytes) : bool := negb (bool_decide (s = [])).

Section splitting.
Implicit Types d s : bytes.

Lemma push_nonempty_filter s v : push_nonempty s v = v ++ List.filter nonempty [s].
Proof.
  unfold push_nonempty. cbn [List.filter]. unfold nonempty.
  case_bool_decide; simpl; by rewrite ?app_nil_r.
Qed.

Lemma join_cons d p ps : ps ≠ [] → join d (p :: ps) = p ++ d ++ join d ps.
Proof. by destruct ps. Qed.

Lemma pieces_fuel_nonnil fuel d s : pieces_fuel fuel d s ≠ [].
Proof. destruct fuel; simpl; [done|]. by destruct (search d s). Qed.

Lemma search_split d s pos :
  search d s = Some pos →
  s = take pos s ++ d ++ drop (pos + length d) s ∧ (pos + length d ≤ length s)%nat.
Proof.
  intros H. destruct (search_Some d s pos H) as ([k E] & Hlen & _). split; [|done].
  assert (drop (pos + length d) s = k) as ->; [|done].
  rewrite E, app_assoc at 1. rewrite drop_app_ge; rewrite length_app, length_take; [|lia].
  replace (pos + length d - _)%nat with 0%nat by lia. done.
Qed.

Lemma search_nil d : d ≠ [] → search d [] = None.
Proof. by destruct d. Qed.

Lemma join_pieces_fuel fuel d s : join d (pieces_fuel fuel d s) = s.
Proof.
  revert s. induction fuel as [|fuel IH]; intros s; simpl; [done|].
  destruct (search d s) as [pos|] eqn:E; [|done].
  rewrite join_cons by apply pieces_fuel_nonnil. rewrite IH. symmetry. by apply search_split.
Qed.

(** More fuel than bytes changes nothing. *)
Lemma pieces_fuel_enough n fuel d s :
  d ≠ [] → (length s ≤ n)%nat → (length s ≤ fuel)%nat → pieces_fuel fuel d s = pieces d s.
Proof.
  intros Hd. unfold pieces. revert s fuel. induction n as [|n IH]; intros s fuel Hn Hf.
  - destruct s; [|simpl in Hn; lia]. destruct fuel; [done|]. cbn [pieces_fuel length]. by rewrite search_nil.
  - destruct fuel as [|fuel], s as [|c s]; simpl length in *; try lia; [done | |].
    + cbn [pieces_fuel length]. by rewrite search_nil.
    + cbn [pieces_fuel]. destruct (search d (c :: s)) as [pos|] eqn:E; [|done]. f_equal.
      apply search_split in E as [_ Hlen]. simpl length in Hlen.
      assert (0 < length d)%nat by (destruct d; simpl; [done | lia]).
      set (r := drop (pos + length d) (c :: s)).
      assert (length r ≤ length s)%nat by (subst r; rewrite length_drop; simpl; lia).
      rewrite (IH r fuel), (IH r (length s)) by lia. done.
Qed.

Lemma pieces_unfold d s :
  d ≠ [] →
  pieces d s = match search d s with
               | None => [s]
               | Some pos => take pos s :: pieces d (drop (pos + length d) s)
               end.
Proof.
  intros Hd. rewrite <- (pieces_fuel_enough (length s) (S (length s))) by (done || lia).
  cbn [pieces_fuel]. destruct (search d s) as [pos|] eqn:E; [|done].
  f_equal. apply (pieces_fuel_enough (length s)); [done | rewrite length_drop; lia..].
Qed.

(** No piece contains the delimiter, and none is cut later than it could be. *)
Lemma pieces_minimal n d s :
  d ≠ [] → (length s ≤ n)%nat → Forall (λ p, search d p = None) (pieces d s).
Proof.
  intros Hd. revert s. induction n as [|n IH]; intros s Hn.
  - destruct s; [|simpl in Hn; lia]. rewrite pieces_unfold, search_nil by done.
    repeat constructor. by apply search_nil.
  - rewrite pieces_unfold by done. destruct (search d s) as [pos|] eqn:E; [|by repeat constructor].
    assert (0 < length d)%nat by (destruct d; simpl; [done | lia]).
    pose proof (search_split d s pos E) as [Es Hlen]. constructor.
    + destruct (search d (take pos s)) as [k|] eqn:Ek; [|done]. exfalso.
      apply search_Some in Ek as ([r Er] & Hk & _). rewrite length_take in Hk.
      apply search_Some in E as (_ & _ & Hmin). specialize (Hmin k ltac:(lia)).
      assert (starts_with d (drop k s) = true); [|congruence].
      apply starts_with_spec. exists (r ++ drop pos s).
      rewrite <- (take_drop pos s) at 1. rewrite drop_app_le by (rewrite length_take; lia).
      assert (drop k (take pos s) = d ++ r) as ->; [|by rewrite app_assoc].
      rewrite Er at 1. rewrite drop_app_ge by (rewrite length_take, length_take; lia).
      rewrite !length_take. replace (k - _)%nat with 0%nat by lia. done.
    + apply IH. rewrite length_drop. lia.
Qed.

(** [split] pushes the pieces that are not empty; it ends after as many rounds as there are
    pieces, at most one more than bytes. *)
Lemma split_loop_pieces fuel d s v :
  d ≠ [] → (length s < fuel)%nat →
  split_loop fuel d s v = Some (v ++ List.filter nonempty (pieces d s)).
Proof.
  intros Hd. revert s v. induction fuel as [|fuel IH]; intros s v Hf; [lia|].
  rewrite pieces_unfold by done. cbn [split_loop].
  destruct (search d s) as [pos|] eqn:E.
  - assert (0 < length d)%nat by (destruct d; simpl; [done | lia]).
    pose proof (search_split d s pos E) as [_ Hlen].
    rewrite IH by (rewrite length_drop; lia).
    change (if bool_decide (take pos s = []) then v else v ++ [take pos s])
      with (push_nonempty (take pos s) v).
    rewrite push_nonempty_filter, <- app_assoc. f_equal. f_equal. cbn [List.filter].
    by destruct (nonempty (take pos s)).
  - f_equal. change (if bool_decide (s = []) then v else v ++ [s]) with (push_nonempty s v).
    apply push_nonempty_filter.
Qed.

(** With an empty delimiter the loop makes no progress. *)
Lemma split_loop_empty fuel s v : split_loop fuel [] s v = None.
Proof.
  revert v. induction fuel as [|fuel IH]; intros v; [done|]. cbn [split_loop].
  assert (search [] s = Some 0%nat) as -> by by destruct s. simpl. by rewrite drop_0, IH.
Qed.

(** [replace] joins the pieces with the new text. [pre] has been dealt with. *)
Lemma replace_loop_pieces fuel old new pre s :
  old ≠ [] → (length s < fuel)%nat →
  replace_loop fuel old new (length pre) (pre ++ s) = Some (pre ++ join new (pieces old s)).
Proof.
  intros Hd. revert pre s. induction fuel as [|fuel IH]; intros pre s Hf; [lia|].
  cbn [replace_loop]. rewrite drop_app_length, pieces_unfold by done.
  destruct (search old s) as [pos|] eqn:E; [|done].
  assert (0 < length old)%nat by (destruct old; simpl; [done | lia]).
  pose proof (search_split old s pos E) as [_ Hlen].
  rewrite join_cons by apply pieces_fuel_nonnil.
  rewrite take_app_ge by lia. replace (length pre + pos - length pre)%nat with pos by lia.
  rewrite drop_app_ge by lia.
  replace (length pre + pos + length old - length pre)%nat with (pos + length old)%nat by lia.
  specialize (IH (pre ++ take pos s ++ new) (drop (pos + length old) s)).
  rewrite !length_app, length_take in IH. rewrite Nat.min_l in IH by lia.
  rewrite <- !app_assoc in IH. rewrite <- !app_assoc.
  replace (length pre + pos + length new)%nat with (length pre + (pos + length new))%nat by lia.
  rewrite IH by (rewrite length_drop; lia). done.
Qed.

(** A delimiter whose first byte does not occur before it is found at once. *)
Lemma search_first c d (a r : bytes) :
  c ∉ a → search (c :: d) (a ++ (c :: d) ++ r) = Some (length a).
Proof.
  induction a as [|x a IH]; intros Hc.
  - assert (Hs : starts_with (c :: d) ((c :: d) ++ r) = true) by (apply starts_with_spec; eauto).
    cbn [app search] in *. by rewrite Hs.
  - apply not_elem_of_cons in Hc as [Hx Ha]. cbn [app search starts_with].
    cbn [app] in IH. rewrite bool_decide_eq_false_2 by done. cbn [andb]. by rewrite IH.
Qed.

Lemma pieces_first c d (a r : bytes) :
  c ∉ a → pieces (c :: d) (a ++ (c :: d) ++ r) = a :: pieces (c :: d) r.
Proof.
  intros Hc. rewrite pieces_unfold, search_first by done. rewrite take_app_length. f_equal.
  rewrite app_assoc, drop_app_ge by (rewrite length_app; simpl; lia).
  rewrite length_app. by rewrite Nat.sub_diag.
Qed.

(** A list of separated fields comes back. *)
Lemma search_single c (s : bytes) : c ∉ s → search [c] s = None.
Proof.
  induction s as [|x s IH]; intros Hc; [done|]. cbn [search starts_with].
  apply not_elem_of_cons in Hc as [Hx Hs]. rewrite bool_decide_eq_false_2 by done. simpl.
  by rewrite IH.
Qed.

Lemma pieces_single c (s : bytes) : c ∉ s → pieces [c] s = [s].
Proof. intros. by rewrite pieces_unfold, search_single. Qed.

Lemma pieces_join c (ts : list bytes) :
  ts ≠ [] → Forall (λ t, c ∉ t) ts → pieces [c] (join [c] ts) = ts.
Proof.
  intros Hne H. induction H as [|t ts Ht Hts IH]; [done|].
  destruct ts as [|t' ts].
  - by apply pieces_single.
  - rewrite join_cons, pieces_first by done. f_equal. by apply IH.
Qed.

(** C40. [split] and [replace] terminate for a delimiter that is not empty, with one round
    per byte and one more as fuel, and cut at the same places: there is one decomposition of
    the text into pieces that contain no delimiter and whose concatenation with the
    delimiter between them is the text; [split] pushes its pieces that are not empty, in
    order, and [replace] puts them together again with the new text. Fields that are not
    empty and do not contain the (one-byte) separator are recovered exactly from their
    concatenation. With an empty delimiter [split] never ends. *)
Theorem split_replace_pieces (str d : bytes) (v : list bytes) :
  str ≠ [] →
  (d ≠ [] → ∃ ps, join d ps = str ∧ Forall (λ p, search d p = None) ps ∧
     split (S (length str)) str v (Some d) = Some (v ++ List.filter nonempty ps) ∧
     ∀ new, new ≠ [] → replace (S (length str)) str d new = Some (join new ps)) ∧
  (∀ c ts, ts ≠ [] → Forall (λ t, t ≠ [] ∧ c ∉ t) ts →
     split (S (length (join [c] ts))) (join [c] ts) v (Some [c]) = Some (v ++ ts)) ∧
  (∀ fuel, split fuel str v (Some []) = None).
Proof.
  intros Hs. split; [|split].
  - intros Hd. exists (pieces d str). split; [apply join_pieces_fuel|].
    split; [by apply (pieces_minimal (length str))|]. unfold split, replace. split.
    + rewrite bool_decide_eq_false_2 by done. apply split_loop_pieces; [done | lia].
    + intros new Hnew. rewrite !bool_decide_eq_false_2 by done.
      apply (replace_loop_pieces _ _ _ []); [done | lia].
  - intros c ts Hne Hts. unfold split.
    assert (Hf : List.filter nonempty ts = ts).
    { clear Hne. induction Hts as [|t ts [Ht _] _ IH]; [done|]. cbn [List.filter].
      unfold nonempty at 1. by rewrite bool_decide_eq_false_2, IH. }
    rewrite bool_decide_eq_false_2.
    + rewrite split_loop_pieces by (done || lia). rewrite pieces_join, Hf; [done | done |].
      eapply Forall_impl; [exact Hts | naive_solver].
    + destruct Hts as [|t ts [Ht _] _]; [done|]. destruct t; [done|]. by destruct ts.
  - intros fuel. unfold split. rewrite bool_decide_eq_false_2 by done. apply split_loop_empty.
Qed.
End splitting.

Lemma split_replace_pieces_witness :
  let str := lit "GET /x HTTP" in
  (∃ ps, join (lit " ") ps = str ∧ Forall (λ p, search (lit " ") p = None) ps ∧
     split (S (length str)) str [] (Some (lit " ")) = Some ([] ++ List.filter nonempty ps) ∧
     ∀ new, new ≠ [] → replace (S (length str)) str (lit " ") new = Some (join new ps)) ∧
  split 40 str [] (Some (lit " ")) = Some [lit "GET"; lit "/x"; lit "HTTP"].
Proof.
  intros str. split; [|by vm_compute].
  apply (split_replace_pieces str (lit " ") []); [done | done].
Defined.

(** ** Trimming *)
Section trimming.
Implicit Types (c : byte) (s : bytes).

(** [trimRight] is right on strings with a character to keep, and out of bounds on all others. *)
Lemma trimRight_spec c s :
  (∀ a x n, s = a ++ [x] ++ replicate n c → x ≠ c → trimRight c s = Ok (a ++ [x])) ∧
  (Forall (λ x, x = c) s → trimRight c s = Stop OutOfBounds).
Proof.
  assert (Hloop : ∀ n t, (∀ i, (i < n)%nat → (t ++ replicate n c) !! (length t + i)%nat = Some c) →
            trimRight_loop c (t ++ replicate n c) (length t + n) =
            trimRight_loop c (t ++ replicate n c) (length t)).
  { intros n t H. assert (Hk : ∀ k, (k ≤ n)%nat →
      trimRight_loop c (t ++ replicate n c) (length t + k) =
      trimRight_loop c (t ++ replicate n c) (length t)); [|by apply Hk].
    induction k as [|k IH]; intros Hk; [by rewrite Nat.add_0_r|].
    rewrite Nat.add_succ_r. cbn [trimRight_loop]. rewrite H by lia.
    rewrite bool_decide_eq_true_2 by done. apply IH. lia. }
  assert (Hc : ∀ n t i, (i < n)%nat → (t ++ replicate n c) !! (length t + i)%nat = Some c).
  { intros n t i Hi. rewrite lookup_app_r by lia.
    replace (length t + i - length t)%nat with i by lia. by apply lookup_replicate. }
  split.
  - intros a x n -> Hx. unfold trimRight. rewrite app_assoc.
    rewrite length_app, length_replicate, Hloop by auto.
    rewrite length_app. simpl length. rewrite Nat.add_1_r. cbn [trimRight_loop].
    rewrite <- app_assoc, lookup_app_r, Nat.sub_diag by lia. simpl.
    rewrite bool_decide_eq_false_2 by done. f_equal.
    replace (S (length a)) with (length (a ++ [x])) by (rewrite length_app; simpl; lia).
    change (a ++ x :: replicate n c) with (a ++ [x] ++ replicate n c). rewrite app_assoc.
    by rewrite take_app_length.
  - intros H. assert (s = replicate (length s) c) as ->.
    { induction H as [|x s -> _ IH]; [done|]. simpl. by f_equal. }
    unfold trimRight. rewrite length_replicate.
    change (length s) with (length (@nil byte) + length s)%nat at 2.
    change (replicate (length s) c) with ([] ++ replicate (length s) c). by rewrite (Hloop _ []) by auto.
Qed.
End trimming.
