(* ===== verification/InetAddress.v ===== *)
(** * Internet addresses: [network/inet_address.h/.cpp] and the conversions of
    [network/w_sockets.cpp]

    A [sockaddr_in] is kept as its object representation: the port and the address are the
    integers whose bytes in memory are in network order. [inet_ntop], [inet_pton] and
    [snprintf] are those of the C library for [AF_INET]. A local array starts with arbitrary
    contents, which are an argument. *)
From S2P Require Import Prelude Endian StringUtil.

Definition AF_INET : Z := 2.
Record sockaddr_in := mkAddr { sin_family : Z; sin_port : Z; s_addr : Z }.

Definition zero_addr : sockaddr_in := mkAddr 0 0 0.

(** ** The C library: dotted decimal *)
Definition dot : bytes := lit ".".
Definition octet_text (b : byte) : bytes := dec_pos (Z_of_byte b).
Definition ip_text (a : Z) : bytes := join dot (map octet_text (le_bytes 4 a)).

(** [inet_ntop] leaves the array as it is when the text does not fit. *)
Definition inet_ntop (a : Z) (size : Z) (buf : bytes) : bytes :=
  if Zlen (ip_text a) <? size then splice 0 (ip_text a ++ [x00]) buf else buf.

(** One to three digits, no leading zero, at most 255. *)
Definition octet (p : bytes) : option byte :=
  if forallb is_digit p && (1 <=? Zlen p) && (Zlen p <=? 3) &&
     ((Zlen p =? 1) || negb (bool_decide (head p = Some "0"%byte))) && (dec_value 0 p <=? 255)
  then Some (byte_of_Z (dec_value 0 p)) else None.

Definition inet_pton (text : bytes) : option Z :=
  match map octet (pieces dot text) with
  | [Some a; Some b; Some c; Some d] => Some (le_Z [a; b; c; d])
  | _ => None
  end.

(** [snprintf(buf + off, n, text)]. *)
Definition snprintf_at (off n : Z) (text : bytes) (buf : bytes) : bytes :=
  if 0 <? n then splice off (take (Z.to_nat (n - 1)) text ++ [x00]) buf else buf.

(** ** The conversions of [w_sockets] *)
Definition socks_2_ipport (buf : bytes) (size : Z) (addr : sockaddr_in) : outcome bytes :=
  let buf1 := inet_ntop (s_addr addr) size buf in
  text ← c_array buf1;
  let endv := Zlen text in
  let port := network_2_host16 (sin_port addr) in
  Ok (snprintf_at endv (u64 (size - endv)) (lit ":" ++ dec_pos port) buf1).

(** [sizeof(struct sockaddr_in)] is 16. *)
Definition socks_2_ip (buf : bytes) (size : Z) (addr : sockaddr_in) : bytes :=
  if 16 <=? size then buf else inet_ntop (s_addr addr) size buf.

(** The second component: whether an error was logged. *)
Definition socks_from_ipport (ip : bytes) (port : Z) (addr : sockaddr_in) : sockaddr_in * bool :=
  let addr1 := mkAddr AF_INET (host_2_network16 port) (s_addr addr) in
  match inet_pton (c_str ip) with
  | Some a => (mkAddr (sin_family addr1) (sin_port addr1) a, false)
  | None => (addr1, true)
  end.

(** ** [InetAddress] *)
Definition INADDR_ANY : Z := 0.
Definition INADDR_LOOPBACK : Z := 2130706433.

Definition InetAddress_port (port : Z) (loopbackOnly : bool) : sockaddr_in :=
  mkAddr AF_INET (host_2_network16 port)
    (host_2_network32 (if loopbackOnly then INADDR_LOOPBACK else INADDR_ANY)).
Definition InetAddress_ip (ip : bytes) (port : Z) : sockaddr_in :=
  (socks_from_ipport ip port zero_addr).1.

Definition inet_2_ipport (buf : bytes) (addr : sockaddr_in) : outcome bytes :=
  b ← socks_2_ipport buf 32 addr; c_array b.
Definition inet_2_ip (buf : bytes) (addr : sockaddr_in) : outcome bytes :=
  c_array (socks_2_ip buf 32 addr).
Definition inet_2_port (addr : sockaddr_in) : Z := network_2_host16 (sin_port addr).
Definition inet_ip_netendian (addr : sockaddr_in) : Z := s_addr addr.
Definition inet_port_netendian (addr : sockaddr_in) : Z := sin_port addr.

(** [ret] and the first address of [he] are the answers of [gethostbyname_r]. *)
Definition inet_resolve (ret : Z) (he : option Z) (out : sockaddr_in) : bool * sockaddr_in :=
  match he with
  | Some a => if ret =? 0 then (true, mkAddr (sin_family out) (sin_port out) a) else (false, out)
  | None => (false, out)
  end.

Definition valid (a : sockaddr_in) : Prop := 0 ≤ sin_port a < 2 ^ 16 ∧ 0 ≤ s_addr a < 2 ^ 32.

(** ** Dotted decimal *)
Section dotted.

Lemma octet_range b : 0 ≤ Z_of_byte b < 256.
Proof. apply Z_of_byte_range. Qed.

Definition octet_reads_back (z : Z) : bool := bool_decide (octet (dec_pos z) = Some (byte_of_Z z)).

Lemma octet_text_octet b : octet (octet_text b) = Some b.
Proof.
  pose proof (forall_range octet_reads_back 256
    ltac:(vm_compute; reflexivity) (Z_of_byte b) (octet_range b)) as H.
  apply bool_decide_eq_true in H. by rewrite byte_of_Z_of_byte in H.
Qed.

Lemma octet_text_length b : (1 ≤ length (octet_text b) ≤ 3)%nat.
Proof.
  pose proof (forall_range (λ z, (1 <=? length (dec_pos z))%nat && (length (dec_pos z) <=? 3)%nat) 256
    ltac:(vm_compute; reflexivity) (Z_of_byte b) (octet_range b)) as H. cbv beta in H.
  apply andb_true_iff in H as [H1%Nat.leb_le H2%Nat.leb_le]. by split.
Qed.

Lemma digits_free (c : byte) p : Forall (λ c, is_digit c = true) p → is_digit c = false → c ∉ p.
Proof. intros H Hc Hin. rewrite Forall_forall in H. specialize (H c Hin). congruence. Qed.

Lemma octet_text_digits b : Forall (λ c, is_digit c = true) (octet_text b).
Proof. apply dec_pos_digits, octet_range. Qed.

Lemma digit_cases c : is_digit c = true → ∃ d, 0 ≤ d < 10 ∧ c = digit_byte d.
Proof.
  unfold is_digit. intros H. exists (Z_of_byte c - 48). split; [lia|].
  unfold digit_byte. replace (48 + (Z_of_byte c - 48)) with (Z_of_byte c) by lia.
  by rewrite byte_of_Z_of_byte.
Qed.

(** Whatever is accepted as an octet is printed the same. *)
Definition reprints (p : bytes) : bool :=
  match octet p with Some b => bool_decide (octet_text b = p) | None => true end.

Lemma octet_canonical p b : octet p = Some b → p = octet_text b.
Proof.
  intros E. assert (Hd : Forall (λ c, is_digit c = true) p ∧ 1 ≤ Zlen p ≤ 3).
  { unfold octet in E. case_match eqn:Hc; [|done].
    rewrite !andb_true_iff, forallb_forall in Hc. destruct Hc as ((((H & ?) & ?) & _) & _).
    split; [|lia]. apply Forall_forall. intros x Hx. by apply H, list_elem_of_In. }
  destruct Hd as [Hd Hlen]. assert (H : reprints p = true).
  { destruct p as [|c1 [|c2 [|c3 [|? ?]]]]; unfold Zlen in Hlen; simpl in Hlen; try lia.
    - apply Forall_cons in Hd as [(d1 & ? & ->)%digit_cases _].
      apply (forall_range (λ d, reprints [digit_byte d]) 10); [vm_compute; reflexivity | lia].
    - apply Forall_cons in Hd as [(d1 & ? & ->)%digit_cases Hd].
      apply Forall_cons in Hd as [(d2 & ? & ->)%digit_cases _].
      pose proof (forall_range (λ z, reprints [digit_byte (z / 10); digit_byte (z mod 10)]) 100
        ltac:(vm_compute; reflexivity) (10 * d1 + d2) ltac:(lia)) as H1. cbv beta in H1.
      replace ((10 * d1 + d2) / 10) with d1 in H1 by (Z.to_euclidean_division_equations; lia).
      by replace ((10 * d1 + d2) mod 10) with d2 in H1 by (Z.to_euclidean_division_equations; lia).
    - apply Forall_cons in Hd as [(d1 & ? & ->)%digit_cases Hd].
      apply Forall_cons in Hd as [(d2 & ? & ->)%digit_cases Hd].
      apply Forall_cons in Hd as [(d3 & ? & ->)%digit_cases _].
      pose proof (forall_range
        (λ z, reprints [digit_byte (z / 100); digit_byte (z / 10 mod 10); digit_byte (z mod 10)]) 1000
        ltac:(vm_compute; reflexivity) (100 * d1 + 10 * d2 + d3) ltac:(lia)) as H3. cbv beta in H3.
      replace ((100 * d1 + 10 * d2 + d3) / 100) with d1 in H3 by (Z.to_euclidean_division_equations; lia).
      replace ((100 * d1 + 10 * d2 + d3) / 10 mod 10) with d2 in H3 by (Z.to_euclidean_division_equations; lia).
      by replace ((100 * d1 + 10 * d2 + d3) mod 10) with d3 in H3 by (Z.to_euclidean_division_equations; lia). }
  unfold reprints in H. rewrite E in H. by apply bool_decide_eq_true in H.
Qed.

Lemma le_bytes_4 a : ∃ b1 b2 b3 b4, le_bytes 4 a = [b1; b2; b3; b4].
Proof. by do 4 eexists. Qed.

Lemma ip_text_pieces a : pieces dot (ip_text a) = map octet_text (le_bytes 4 a).
Proof.
  unfold ip_text, dot. apply pieces_join; [done|]. apply Forall_forall.
  intros p (b & -> & _)%list_elem_of_fmap. apply digits_free; [apply octet_text_digits | done].
Qed.

(** [inet_pton] accepts exactly the texts [inet_ntop] prints. *)
Lemma inet_pton_spec text a :
  inet_pton text = Some a ↔ 0 ≤ a < 2 ^ 32 ∧ text = ip_text a.
Proof.
  unfold inet_pton. split.
  - destruct (pieces dot text) as [|p1 [|p2 [|p3 [|p4 [|? ?]]]]] eqn:Ep; cbn [map]; try done.
    1-3: repeat case_match; done.
    2: { repeat case_match; done. }
    destruct (octet p1) as [b1|] eqn:E1; [|done]. destruct (octet p2) as [b2|] eqn:E2; [|done].
    destruct (octet p3) as [b3|] eqn:E3; [|done]. destruct (octet p4) as [b4|] eqn:E4; [|done].
    intros E. assert (a = le_Z [b1; b2; b3; b4]) as -> by congruence.
    split; [exact (le_Z_range [b1; b2; b3; b4])|].
    unfold ip_text. pose proof (le_bytes_le_Z [b1; b2; b3; b4]) as Hb. cbn [length] in Hb. rewrite Hb.
    unfold pieces in Ep. rewrite <- (join_pieces_fuel (length text) dot text), Ep. cbn [map].
    by rewrite <- (octet_canonical p1 b1), <- (octet_canonical p2 b2), <- (octet_canonical p3 b3),
      <- (octet_canonical p4 b4).
  - intros [Ha ->]. rewrite ip_text_pieces, map_map. destruct (le_bytes_4 a) as (b1 & b2 & b3 & b4 & E).
    rewrite (map_ext _ Some) by apply octet_text_octet. rewrite E. cbn [map]. rewrite <- E.
    by rewrite le_Z_le_bytes, Z.mod_small.
Qed.

Lemma ip_text_length a : (7 ≤ length (ip_text a) ≤ 15)%nat.
Proof.
  unfold ip_text. destruct (le_bytes_4 a) as (b1 & b2 & b3 & b4 & ->). cbn [map join].
  pose proof (octet_text_length b1). pose proof (octet_text_length b2).
  pose proof (octet_text_length b3). pose proof (octet_text_length b4).
  rewrite !length_app. simpl length. lia.
Qed.

Lemma ip_text_no_nul a : x00 ∉ ip_text a.
Proof.
  unfold ip_text. destruct (le_bytes_4 a) as (b1 & b2 & b3 & b4 & ->). cbn [map join].
  assert (H : ∀ b, x00 ∉ octet_text b) by (intros b; apply digits_free; [apply octet_text_digits | done]).
  assert (x00 ∉ dot) by (vm_compute; set_solver).
  rewrite !not_elem_of_app. auto 10.
Qed.
End dotted.

(** ** Writing into the array *)
Section writing.
Implicit Types (buf text : bytes) (addr : sockaddr_in).

Lemma splice_end text bs (r : bytes) : splice (Zlen text) bs (text ++ r) = text ++ bs ++ drop (length bs) r.
Proof.
  unfold splice, Zlen. rewrite Nat2Z.id, take_app_length. f_equal. f_equal.
  rewrite drop_app_ge by lia. f_equal. lia.
Qed.

Lemma ntop_writes a size buf :
  Zlen buf = size → 16 ≤ size →
  inet_ntop a size buf = ip_text a ++ x00 :: drop (S (length (ip_text a))) buf.
Proof.
  intros Hb Hs. pose proof (ip_text_length a). unfold inet_ntop.
  destruct (Z.ltb_spec (Zlen (ip_text a)) size) as [_|H1]; [|unfold Zlen in *; lia].
  pose proof (splice_end [] (ip_text a ++ [x00]) buf) as E. cbn [app] in E. change (Zlen (@nil byte)) with 0 in E.
  rewrite E, <- app_assoc, length_app. cbn [app length]. by rewrite Nat.add_1_r.
Qed.

Lemma dec_no_nul n : 0 ≤ n → x00 ∉ dec_pos n.
Proof. intros. apply digits_free; [by apply dec_pos_digits | done]. Qed.

Lemma port_range p : 0 ≤ network_2_host16 p < 65536.
Proof. apply (bswap_range 2). Qed.

Definition ipport_of addr : bytes := ip_text (s_addr addr) ++ lit ":" ++ dec_pos (inet_2_port addr).

Lemma ipport_of_length addr : (9 ≤ length (ipport_of addr) ≤ 21)%nat.
Proof.
  pose proof (ip_text_length (s_addr addr)). pose proof (port_range (sin_port addr)) as Hp.
  assert (Hd : (1 ≤ length (dec_pos (inet_2_port addr)) ≤ 5)%nat).
  { split.
    - pose proof (dec_pos_nonempty (inet_2_port addr)). destruct (dec_pos _); simpl; [done | lia].
    - rewrite <- (Nat.add_0_r 5). unfold dec_pos. apply (dec_digits_length _ _ [] 5); [|lia].
      unfold inet_2_port. lia. }
  unfold ipport_of. rewrite !length_app. simpl (length (lit ":")). lia.
Qed.

Lemma ipport_of_no_nul addr : x00 ∉ ipport_of addr.
Proof.
  unfold ipport_of. rewrite !not_elem_of_app. split; [apply ip_text_no_nul|].
  split; [vm_compute; set_solver|]. apply dec_no_nul, port_range.
Qed.

(** Whatever the array held, and for every size an address fits in: the text, cut to the
    array. *)
Lemma ipport_written buf size addr :
  Zlen buf = size → 16 ≤ size < 2 ^ 63 →
  ∃ b, socks_2_ipport buf size addr = Ok b ∧ Zlen b = size ∧
    c_array b = Ok (take (Z.to_nat (size - 1)) (ipport_of addr)).
Proof.
  intros Hb Hs. unfold socks_2_ipport. rewrite ntop_writes by lia.
  set (t1 := ip_text (s_addr addr)). pose proof (ip_text_length (s_addr addr)) as Hl.
  assert (Hn : x00 ∉ t1) by apply ip_text_no_nul.
  rewrite c_array_end, bind_Ok by done.
  assert (Hz : 7 ≤ Zlen t1 ≤ 15) by (unfold Zlen, t1; lia).
  rewrite u64_small by lia. unfold snprintf_at.
  destruct (Z.ltb_spec 0 (size - Zlen t1)) as [_|?]; [|lia].
  eexists. split; [done|]. rewrite splice_end. set (t2 := lit ":" ++ _).
  set (cut := take (Z.to_nat (size - Zlen t1 - 1)) t2).
  assert (Hcut : Zlen cut ≤ size - Zlen t1 - 1) by (unfold cut; rewrite Zlen_take; lia).
  split.
  - rewrite !Zlen_app. unfold Zlen in *. rewrite length_drop, length_app. cbn [length].
    rewrite length_drop. lia.
  - rewrite <- (app_assoc cut). cbn [app]. rewrite app_assoc, c_array_end.
    + f_equal. unfold ipport_of. fold t1. change (lit ":" ++ dec_pos (inet_2_port addr)) with t2.
      rewrite take_app_ge by (unfold Zlen in *; lia). f_equal. unfold cut. f_equal. unfold Zlen. lia.
    + pose proof (ipport_of_no_nul addr) as H. unfold ipport_of in H. fold t1 in H.
      change (lit ":" ++ dec_pos (inet_2_port addr)) with t2 in H.
      apply not_elem_of_app in H as [_ H]. apply not_elem_of_app. split; [done|].
      intros Hin. apply H. rewrite <- (take_drop (Z.to_nat (size - Zlen t1 - 1)) t2). apply elem_of_app. by left.
Qed.

Lemma inet_2_ipport_text buf addr :
  length buf = 32%nat → inet_2_ipport buf addr = Ok (ipport_of addr).
Proof.
  intros Hb. unfold inet_2_ipport.
  destruct (ipport_written buf 32 addr) as (b & -> & _ & E); [unfold Zlen; lia | lia |].
  rewrite bind_Ok, E, take_ge; [done|]. pose proof (ipport_of_length addr). lia.
Qed.
End writing.

(** C39. The text of an address never overruns an array of 16 bytes or more, whatever the
    array held: [socks_2_ipport] writes the dotted address, a colon and the port, cut to the
    array and terminated. The whole text has at most 21 bytes, so in the 32 bytes of
    [inet_2_ipport] nothing is cut, and the bound that the names of connections rely on
    holds for every address. [inet_2_ip] writes nothing at all: with 32 bytes its test of
    the size turns back, and the caller gets what the array held. *)
Theorem ipport_text_bounds (buf : bytes) (size : Z) (addr : sockaddr_in) :
  Zlen buf = size → 16 ≤ size < 2 ^ 63 →
  (∃ b, socks_2_ipport buf size addr = Ok b ∧ Zlen b = size ∧
     c_array b = Ok (take (Z.to_nat (size - 1)) (ipport_of addr))) ∧
  (length (ipport_of addr) ≤ 21)%nat ∧
  (size = 32 → inet_2_ipport buf addr = Ok (ipport_of addr) ∧ inet_2_ip buf addr = c_array buf).
Proof.
  intros Hb Hs. split; [by apply ipport_written|]. split; [apply ipport_of_length|].
  intros ->. split; [|done]. apply inet_2_ipport_text. unfold Zlen in Hb. lia.
Qed.

Lemma ipport_text_bounds_witness :
  let buf := replicate 32 "x"%byte in let addr := InetAddress_port 20000 true in
  inet_2_ipport buf addr = Ok (lit "127.0.0.1:20000") ∧ inet_2_ip buf addr = Stop OutOfBounds.
Proof.
  intros buf addr.
  destruct (ipport_text_bounds buf 32 addr) as (_ & _ & H); [reflexivity | lia |].
  destruct (H eq_refl) as [-> ->]. by vm_compute.
Defined.

Lemma inet_2_port_ip ip port : 0 ≤ port < 65536 → inet_2_port (InetAddress_ip ip port) = port.
Proof.
  intros Hp. assert (network_2_host16 (host_2_network16 port) = port).
  { unfold network_2_host16, host_2_network16. rewrite bswap_involutive. by apply Z.mod_small. }
  unfold InetAddress_ip, socks_from_ipport, inet_2_port. by case_match.
Qed.

(** Addresses and their texts determine each other: the constructor from text accepts
    exactly the texts [inet_2_ipport] prints, an address built from an accepted text prints
    as that text and port, and every address is rebuilt from what it prints; a text that is
    not accepted is only logged and leaves the address 0.0.0.0. *)
Theorem inet_address_roundtrip (buf ip : bytes) (port : Z) :
  length buf = 32%nat → 0 ≤ port < 65536 →
  (∀ addr, valid addr → sin_family addr = AF_INET →
     InetAddress_ip (ip_text (s_addr addr)) (inet_2_port addr) = addr) ∧
  inet_2_port (InetAddress_ip ip port) = port ∧
  (inet_2_ipport buf (InetAddress_ip ip port) = Ok (c_str ip ++ lit ":" ++ dec_pos port) ↔
     is_Some (inet_pton (c_str ip))) ∧
  (inet_pton (c_str ip) = None →
     inet_2_ipport buf (InetAddress_ip ip port) = Ok (lit "0.0.0.0:" ++ dec_pos port)) ∧
  ∀ loopback, inet_2_ipport buf (InetAddress_port port loopback) =
    Ok (lit (if loopback then "127.0.0.1:" else "0.0.0.0:") ++ dec_pos port).
Proof.
  intros Hb Hp.
  assert (Hport : network_2_host16 (host_2_network16 port) = port).
  { unfold network_2_host16, host_2_network16. rewrite bswap_involutive. by apply Z.mod_small. }
  pose proof (inet_2_port_ip ip port Hp) as H2.
  assert (Hnone : inet_pton (c_str ip) = None →
    ipport_of (InetAddress_ip ip port) = lit "0.0.0.0:" ++ dec_pos port).
  { intros E. unfold ipport_of. rewrite H2. unfold InetAddress_ip, socks_from_ipport. by rewrite E. }
  split; [|split; [done|split; [|split]]].
  - intros [f p a] [Hv1 Hv2] Hf. simpl in *. subst f. unfold InetAddress_ip, socks_from_ipport.
    rewrite c_str_id by apply ip_text_no_nul.
    rewrite (proj2 (inet_pton_spec (ip_text a) a)) by done. simpl. f_equal.
    unfold inet_2_port, network_2_host16, host_2_network16. rewrite bswap_involutive. by apply Z.mod_small.
  - rewrite inet_2_ipport_text by done. destruct (inet_pton (c_str ip)) as [a|] eqn:E.
    + split; [done|]. intros _. unfold ipport_of. rewrite H2. unfold InetAddress_ip, socks_from_ipport.
      rewrite E. simpl. by apply inet_pton_spec in E as [_ ->].
    + rewrite Hnone by done. split; [|by intros [? ?]]. intros [= H].
      exfalso. apply (app_inv_tail (lit ":" ++ dec_pos port) (lit "0.0.0.0")) in H. rewrite <- H in E. vm_compute in E. done.
  - intros E. rewrite inet_2_ipport_text by done. by rewrite Hnone.
  - intros lb. rewrite inet_2_ipport_text by done. unfold ipport_of, InetAddress_port, inet_2_port.
    simpl sin_port. rewrite Hport. by destruct lb.
Qed.

Lemma inet_address_roundtrip_witness :
  let buf := replicate 32 "x"%byte in
  inet_2_ipport buf (InetAddress_ip (lit "192.168.0.12") 8888) = Ok (lit "192.168.0.12:8888") ∧
  inet_2_ipport buf (InetAddress_ip (lit "localhost") 8888) = Ok (lit "0.0.0.0:8888").
Proof.
  intros buf. split.
  - destruct (inet_address_roundtrip buf (lit "192.168.0.12") 8888) as (_ & _ & [_ H] & _); [done | lia |].
    rewrite H; [reflexivity|]. eexists. vm_compute. reflexivity.
  - destruct (inet_address_roundtrip buf (lit "localhost") 8888) as (_ & _ & _ & H & _); [done | lia |].
    rewrite H; reflexivity.
Defined.
