(* ===== verification/HttpSession.v ===== *)
(** * The HTTP front end: [service/chat/http_session.h/.cpp], [service/bussiness_logic.h/.cpp]

    One request per connection: [on_read] parses the request line with [StringUtil],
    registration goes to the [UserManager], the answer to the [TcpConnection]. JSON parsing
    (jsoncpp) and URL coding ([URLEncodeUtil], of which the sources have the declarations
    only) are parameters. [on_read] is called in the loop thread; [nw] and [err] answer the
    write of the response. *)
From S2P Require Import Prelude ByteBuffer Poller TcpConnection StringUtil Timers UserManager.

(** A parsed document: an object, by its members that are strings, or any other value but
    null. [operator[]] of the latter throws [Json::LogicError]. *)
Inductive json := JObject (string_member : bytes → option bytes) | JOther.

Class HttpCodecs := {
  json_parse : bytes → option json;      (* [None]: not [ok], or [errs] not empty *)
  url_decode : bytes → bytes;
}.

Definition MAX_URL_LENGTH : Z := 2048.
Definition CRLF : bytes := [x0d; x0a].

(** [{"code": n, "msg": "text"}] *)
Definition quoted (s : string) : bytes := x22 :: lit s ++ [x22].
Definition answer (code : Z) (msg : string) : bytes :=
  lit "{" ++ quoted "code" ++ lit ": " ++ dec code ++ lit ", " ++ quoted "msg" ++ lit ": " ++
  quoted msg ++ lit "}".

Section http.
Context {C : HttpCodecs} {D : Database} {P : Type} `{!ChannelOps P}.
Implicit Types (m : UserManager) (c : TcpConnection P).

(** The user of a registration: fields the request does not give stay uninitialised. *)
Definition requested_user (junk : nat → Z) (name nick pass : bytes) : User :=
  let u0 := User_uninit junk in
  mkUser (userid u0) name pass nick (facetype u0) [] [] (gender u0) (birthday u0)
    [] [] [] [] [] (ownerid u0) [].

(** ** [BussinessLogic::register_user]

    [junk] is what the uninitialised fields of [u] hold. The result is [retData], empty when
    the request is malformed. *)
Definition register_user (junk : nat → Z) (data : bytes) m : outcome (bytes * UserManager) :=
  match json_parse data with
  | None => Ok ([], m)
  | Some JOther => Stop RuntimeError
  | Some (JObject member) =>
      match member (lit "username"), member (lit "nickname"), member (lit "password") with
      | Some name, Some nick, Some pass =>
          let u := requested_user junk name nick pass in
          let cached_id := match getUserInfoByUsername name m with
                           | Some cachedUser => userid cachedUser | None => 0 end in
          if negb (cached_id =? 0) then Ok (answer 101 "registered already", m)
          else let '(ok, _, m') := addUser u m in
               Ok (if negb ok then answer 100 "register failed" else answer 0 "ok", m')
      | _, _, _ => Ok ([], m)
      end
  end.

(** ** [HttpSession] *)
Definition _makeup_response (input : bytes) : bytes :=
  lit "HTTP/1.1 200 OK" ++ CRLF ++ lit "Content-Type: text/html" ++ CRLF ++
  lit "Content-Length:" ++ dec (Zlen input) ++ CRLF ++ CRLF ++ input.

Definition _on_register_response (junk : nat → Z) (nw err : Z) (data : bytes) c m
    : outcome (TcpConnection P * UserManager) :=
  '(retData, m1) ← register_user junk (url_decode data) m;
  if bool_decide (retData = []) then Ok (c, m1)
  else c1 ← send true (_makeup_response retData) nw err c; Ok (c1, m1).

Definition _on_login_response (data : bytes) c m : outcome (TcpConnection P * UserManager) :=
  Ok (c, m).

Definition _process (junk : nat → Z) (nw err : Z) (url param : bytes) c m
    : outcome (bool * TcpConnection P * UserManager) :=
  if bool_decide (url = []) then Ok (false, c, m)
  else if bool_decide (url = lit "/register.do") then
    '(c1, m1) ← _on_register_response junk nw err param c m; Ok (true, c1, m1)
  else if bool_decide (url = lit "/login.do") then
    '(c1, m1) ← _on_login_response param c m; Ok (true, c1, m1)
  else if bool_decide (url = lit "/getfriendlist.do") then Ok (true, c, m)
  else if bool_decide (url = lit "/getgroupmembers.do") then Ok (true, c, m)
  else Ok (false, c, m).

(** [send(data, length)]; [conn] is [None] when the connection is gone. *)
Definition HttpSession_send (in_loop : bool) (nw err : Z) (data : bytes) (conn : option (TcpConnection P))
    : outcome (option (TcpConnection P)) :=
  match conn with
  | None => Ok None
  | Some c => c1 ← send in_loop data nw err c; Ok (Some c1)
  end.

(** [split] with a delimiter that is not empty; this fuel is enough. *)
Definition split_all (s d : bytes) : list bytes :=
  default [] (split (S (length s)) s [] (Some d)).

(** [pBuffer] is the connection's input buffer. *)
Definition on_read (junk : nat → Z) (nw err : Z) c m : outcome (TcpConnection P * UserManager) :=
  let pBuffer := input_buffer_ c in
  inbuf ← read_range (bb_peek pBuffer) (bb_bytes_readable pBuffer) (buffer_ pBuffer);
  if Zlen inbuf <=? 4 then Ok (c, m)
  else if negb (bool_decide (drop (length inbuf - 4) inbuf = CRLF ++ CRLF)) then Ok (c, m)
  else if MAX_URL_LENGTH <=? Zlen inbuf then Ok (force_close c, m)
  else
    match split_all inbuf CRLF with
    | [] => Ok (force_close c, m)
    | line0 :: _ =>
        if bool_decide (line0 = []) then Ok (force_close c, m)
        else
          match split_all line0 (lit " ") with
          | _ :: target :: _ :: _ =>
              match split_all target (lit "?") with
              | url :: part1 :: _ =>
                  if Zlen part1 <? 2 then Stop OutOfRange
                  else
                    '(ok, c1, m1) ← _process junk nw err url (drop 2 part1) c m;
                    c2 ← (if negb ok then
                            '(_, b) ← bb_retrieve_all_as_string (input_buffer_ c1);
                            Ok (set_input b c1)
                          else Ok c1);
                    Ok (force_close c2, m1)
              | _ => Ok (force_close c, m)
              end
          | _ => Ok (force_close c, m)
          end
    end.
End http.

(** ** Registration *)
Section registration.
Context {C : HttpCodecs} {D : Database}.
Implicit Types m : UserManager.

(** A request for [name]. *)
Definition asks_for (data name : bytes) : Prop :=
  ∃ f nick pass, json_parse data = Some (JObject f) ∧ f (lit "username") = Some name ∧
    f (lit "nickname") = Some nick ∧ f (lit "password") = Some pass.

Lemma find_app_None {A} (p : A → bool) (l : list A) (x : A) :
  find p l = None → p x = true → find p (l ++ [x]) = Some x.
Proof.
  intros Hl Hx. induction l as [|y l IH]; simpl in *; [by rewrite Hx|].
  destruct (p y); [done | by apply IH].
Qed.

Lemma addUser_ok u m u1 m1 :
  addUser u m = (true, u1, m1) →
  all_cached_users_ m1 = all_cached_users_ m ++ [u1] ∧ username u1 = username u ∧
  password u1 = password u ∧ userid u1 = s32 (base_user_id_ m + 1).
Proof.
  unfold addUser, run_sql. destruct (connect m); [|done]. cbn [negb].
  destruct (execute _ _) as [[] d]; [|done]. cbn [negb]. intros [= <- <-]. done.
Qed.

Lemma addUser_failed u m u1 m1 :
  addUser u m = (false, u1, m1) → all_cached_users_ m1 = all_cached_users_ m.
Proof.
  unfold addUser, run_sql. destruct (connect m); [|by intros [= _ <-]]. cbn [negb].
  destruct (execute _ _) as [[] d]; [done|]. cbn [negb]. by intros [= _ <-].
Qed.

(** Registration, request by request: a name that is cached already is refused with
    code 101 and nothing changes; a new name is answered with code 100 and an unchanged
    cache if the database refuses it, and otherwise with code 0 and one more cached user,
    who has that name and the next id, is found under the name, and whose name is refused
    from then on. So requests handled one after the other never give a name twice. *)
Theorem registration_once (junk : nat → Z) (data name : bytes) m :
  asks_for data name → 0 ≤ base_user_id_ m < 2147483647 →
  (∀ u, u ∈ all_cached_users_ m → userid u ≠ 0) →
  (is_Some (getUserInfoByUsername name m) →
     register_user junk data m = Ok (answer 101 "registered already", m)) ∧
  (getUserInfoByUsername name m = None →
     ∃ ret m', register_user junk data m = Ok (ret, m') ∧
       ((ret = answer 100 "register failed" ∧ all_cached_users_ m' = all_cached_users_ m) ∨
        (ret = answer 0 "ok" ∧ ∃ u, all_cached_users_ m' = all_cached_users_ m ++ [u] ∧
           username u = name ∧ userid u = base_user_id_ m + 1 ∧
           getUserInfoByUsername name m' = Some u ∧
           ∀ junk' data', asks_for data' name →
             register_user junk' data' m' = Ok (answer 101 "registered already", m')))).
Proof.
  intros Hask Hb Hids.
  assert (Hdup : ∀ j d0 m0 u, asks_for d0 name → getUserInfoByUsername name m0 = Some u →
            userid u ≠ 0 → register_user j d0 m0 = Ok (answer 101 "registered already", m0)).
  { intros j d0 m0 u (f & nick & pass & Hp & Hn & Hni & Hpa) Hu Hu0. unfold register_user.
    rewrite Hp, Hn, Hni, Hpa, Hu. destruct (Z.eqb_spec (userid u) 0); done. }
  split.
  - intros [u Hu]. eapply Hdup; [done | exact Hu|]. apply Hids.
    apply find_some in Hu as [Hin _]. by apply list_elem_of_In.
  - intros Hnone. destruct Hask as (f & nick & pass & Hp & Hn & Hni & Hpa).
    unfold register_user at 1. rewrite Hp, Hn, Hni, Hpa, Hnone. cbn [negb Z.eqb].
    set (u := requested_user _ _ _ _).
    destruct (addUser u m) as [[ok u1] m1] eqn:E. eexists _, m1. split; [done|].
    destruct ok; cbn [negb].
    + right. apply addUser_ok in E as (El & En & _ & Eid). split; [done|]. exists u1.
      assert (Hid : userid u1 = base_user_id_ m + 1).
      { rewrite Eid. unfold sintw. change (2 ^ (32 - 1)) with 2147483648.
        change (2 ^ 32) with 4294967296. rewrite Z.mod_small; lia. }
      assert (Hfound : getUserInfoByUsername name m1 = Some u1).
      { unfold getUserInfoByUsername. rewrite El. apply find_app_None; [done|].
        by rewrite bool_decide_eq_true_2. }
      split; [done|]. split; [done|]. split; [done|]. split; [done|].
      intros j' d' Hask'. eapply Hdup; [done | exact Hfound | lia].
    + left. split; [done|]. by eapply addUser_failed.
Qed.

(** Two workers that both look for the name before either registers it both succeed: the
    lookup and the registration are two critical sections. *)
Lemma registration_race u1 u2 m m1 m2 v1 v2 :
  username u1 = username u2 → getUserInfoByUsername (username u1) m = None →
  addUser u1 m = (true, v1, m1) → addUser u2 m1 = (true, v2, m2) →
  all_cached_users_ m2 = all_cached_users_ m ++ [v1; v2] ∧ username v1 = username v2.
Proof.
  intros Hn _ (E1 & N1 & _)%addUser_ok (E2 & N2 & _)%addUser_ok.
  rewrite E2, E1, <- app_assoc. split; [done | congruence].
Qed.
End registration.

(** ** Requests *)
Section requests.
Context {C : HttpCodecs} {D : Database} {P : Type} `{!ChannelOps P}.
Implicit Types (m : UserManager) (c : TcpConnection P).

Lemma split_all_pieces s d :
  s ≠ [] → d ≠ [] → split_all s d = List.filter nonempty (pieces d s).
Proof.
  intros Hs Hd. unfold split_all, split. rewrite bool_decide_eq_false_2 by done.
  by rewrite split_loop_pieces by (done || lia).
Qed.

Lemma filter_nonempty_cons s l :
  s ≠ [] → List.filter nonempty (s :: l) = s :: List.filter nonempty l.
Proof. intros Hs. cbn [List.filter]. unfold nonempty at 1. by rewrite bool_decide_eq_false_2. Qed.

(** The request line and a whole request. *)
Definition request_line (meth url query version : bytes) : bytes :=
  meth ++ [x20] ++ (url ++ [x3f] ++ query) ++ [x20] ++ version.
Definition request (line headers : bytes) : bytes := line ++ CRLF ++ headers ++ CRLF ++ CRLF.

Record line_ok (meth url query version : bytes) : Prop := {
  lo_nonempty : meth ≠ [] ∧ url ≠ [] ∧ query ≠ [] ∧ version ≠ [];
  lo_blank : x20 ∉ meth ∧ x20 ∉ url ∧ x20 ∉ query ∧ x20 ∉ version;
  lo_mark : x3f ∉ url ∧ x3f ∉ query;
  lo_return : x0d ∉ request_line meth url query version;
}.

Lemma app_nonnil_l {A} (l k : list A) : l ≠ [] → l ++ k ≠ [].
Proof. by destruct l. Qed.

Lemma split_request line headers :
  line ≠ [] → x0d ∉ line → ∃ ls, split_all (request line headers) CRLF = line :: ls.
Proof.
  intros Hl Hr. unfold request.
  rewrite split_all_pieces by (done || by apply app_nonnil_l). unfold CRLF at 1 2.
  rewrite pieces_first, filter_nonempty_cons by done. by eexists.
Qed.

Lemma split_line meth url query version :
  line_ok meth url query version →
  split_all (request_line meth url query version) (lit " ") =
    [meth; url ++ [x3f] ++ query; version] ∧
  split_all (url ++ [x3f] ++ query) (lit "?") = [url; query].
Proof.
  intros [(Hm & Hu & Hq & Hv) (Bm & Bu & Bq & Bv) (Mu & Mq) _]. split.
  - unfold request_line. rewrite split_all_pieces by (done || by apply app_nonnil_l).
    change (lit " ") with [x20].
    assert (Ht : url ++ [x3f] ++ query ≠ []) by by apply app_nonnil_l.
    assert (Bt : x20 ∉ url ++ [x3f] ++ query).
    { rewrite !elem_of_app, list_elem_of_singleton. intros [?|[[=]|?]]; done. }
    rewrite !pieces_first, pieces_single, !filter_nonempty_cons by done. done.
  - rewrite split_all_pieces by (done || by apply app_nonnil_l). change (lit "?") with [x3f].
    by rewrite pieces_first, pieces_single, !filter_nonempty_cons by done.
Qed.

Lemma request_ends line headers :
  drop (length (request line headers) - 4) (request line headers) = CRLF ++ CRLF.
Proof.
  unfold request. rewrite !app_assoc. rewrite <- (app_assoc _ CRLF CRLF).
  rewrite length_app, drop_app_ge by (simpl; lia). simpl length.
  by replace (_ + 4 - 4 - _)%nat with 0%nat by lia.
Qed.

Lemma read_content b :
  wf b → read_range (bb_peek b) (bb_bytes_readable b) (buffer_ b) = Ok (content b).
Proof.
  intros Hwf. rewrite readable_wf by done. destruct Hwf. unfold bb_peek, max_size in *.
  by rewrite read_range_ok by (unfold max_size; lia).
Qed.

(** [on_read] of a whole request is [_process] of its url and parameter. *)
Lemma on_read_request junk nw err meth url query version headers c m :
  wf (input_buffer_ c) → line_ok meth url query version →
  content (input_buffer_ c) = request (request_line meth url query version) headers →
  Zlen (content (input_buffer_ c)) < 2048 →
  on_read junk nw err c m =
    if Zlen query <? 2 then Stop OutOfRange
    else '(ok, c1, m1) ← _process junk nw err url (drop 2 query) c m;
         c2 ← (if negb ok then
                 '(_, b) ← bb_retrieve_all_as_string (input_buffer_ c1); Ok (set_input b c1)
               else Ok c1);
         Ok (force_close c2, m1).
Proof.
  intros Hwf Hline Hreq Hlen. unfold on_read. rewrite read_content by done.
  cbn [mbind outcome_bind]. rewrite Hreq in Hlen |- *.
  set (line := request_line meth url query version) in *.
  assert (Hl : line ≠ []) by (apply app_nonnil_l, Hline).
  assert (5 ≤ Zlen (request line headers)).
  { unfold request, Zlen. rewrite !length_app. destruct line; [done|]. simpl length. lia. }
  destruct (Z.leb_spec (Zlen (request line headers)) 4); [lia|].
  rewrite request_ends, bool_decide_eq_true_2 by done. cbn [negb].
  destruct (Z.leb_spec MAX_URL_LENGTH (Zlen (request line headers)));
    [unfold MAX_URL_LENGTH in *; lia|].
  destruct (split_request line headers Hl (lo_return _ _ _ _ Hline)) as [ls ->].
  rewrite bool_decide_eq_false_2 by done.
  destruct (split_line _ _ _ _ Hline) as [El Et]. fold line in El. by rewrite El, Et.
Qed.

(** Data without an empty line at its end is left alone. *)
Lemma on_read_incomplete junk nw err c m :
  wf (input_buffer_ c) → (∀ pre, content (input_buffer_ c) ≠ pre ++ CRLF ++ CRLF) →
  on_read junk nw err c m = Ok (c, m).
Proof.
  intros Hwf Hend. unfold on_read. rewrite read_content by done. cbn [mbind outcome_bind].
  destruct (Z.leb_spec (Zlen (content (input_buffer_ c))) 4); [done|].
  rewrite bool_decide_eq_false_2; [done|]. intros Hd.
  apply (Hend (take (length (content (input_buffer_ c)) - 4) (content (input_buffer_ c)))).
  by rewrite <- Hd, take_drop.
Qed.

(** A complete request that is too long closes the connection. *)
Lemma on_read_too_long junk nw err pre c m :
  wf (input_buffer_ c) → content (input_buffer_ c) = pre ++ CRLF ++ CRLF →
  2048 ≤ Zlen (content (input_buffer_ c)) → on_read junk nw err c m = Ok (force_close c, m).
Proof.
  intros Hwf Hc Hlen. unfold on_read. rewrite read_content by done. cbn [mbind outcome_bind].
  destruct (Z.leb_spec (Zlen (content (input_buffer_ c))) 4); [lia|].
  rewrite bool_decide_eq_true_2.
  - cbn [negb]. by destruct (Z.leb_spec MAX_URL_LENGTH (Zlen (content (input_buffer_ c))));
      [|unfold MAX_URL_LENGTH in *; lia].
  - rewrite Hc, length_app. simpl length.
    replace (length pre + 4 - 4)%nat with (length pre + 0)%nat by lia. by rewrite drop_app_add.
Qed.

Lemma retrieve_all_as_string_wf b :
  wf b → ∃ b', bb_retrieve_all_as_string b = Ok (content b, b') ∧ wf b' ∧ content b' = [].
Proof.
  intros Hwf. destruct (retrieve_all_spec b Hwf) as [Hwf' Hc'].
  pose proof (read_content b Hwf) as Hr.
  exists (bb_retrieve_all b). split; [|done].
  unfold bb_retrieve_all_as_string, bb_retrieve_as_string, bb_retrieve.
  by rewrite Z.ltb_irrefl, Hr.
Qed.

(** The text of a response that carries the document [json]. *)
Definition response (json : bytes) : bytes :=
  lit "HTTP/1.1 200 OK" ++ [x0d; x0a] ++ lit "Content-Type: text/html" ++ [x0d; x0a] ++
  lit "Content-Length:" ++ dec (Z.of_nat (length json)) ++ [x0d; x0a; x0d; x0a] ++ json.

(** C31. Serving a request, on every route. A complete request below 2048 bytes whose line
    is "METHOD url?xx<data> VERSION" is handled by its url, whatever the header lines are:
    [/register.do] registers the decoded <data>, and what that answers is sent as one
    response, status line, type, the length of the document, empty line and the document;
    nothing is sent if the registration answers nothing (malformed data), and if it throws
    (data that is no JSON object) nothing is sent and the connection is not closed.
    [/login.do], [/getfriendlist.do] and [/getgroupmembers.do] are not implemented: nothing
    is sent and the users stay as they are. Any other url throws the input away. In each
    case but the throw the connection is closed, behind the response. A parameter of one
    character, which cannot hold "p=", makes [substr] throw. A complete request of 2048
    bytes or more closes the connection; data without an empty line at its end is left. *)
Theorem http_request_served junk nw err meth url query version headers c m :
  wf (input_buffer_ c) →
  (line_ok meth url query version →
   content (input_buffer_ c) = request (request_line meth url query version) headers →
   Zlen (content (input_buffer_ c)) < 2048 →
   (2 ≤ Zlen query →
      (url = lit "/register.do" →
         (∀ ret m', register_user junk (url_decode (drop 2 query)) m = Ok (ret, m') → ret ≠ [] →
            on_read junk nw err c m = c' ← send true (response ret) nw err c; Ok (force_close c', m')) ∧
         (∀ m', register_user junk (url_decode (drop 2 query)) m = Ok ([], m') →
            on_read junk nw err c m = Ok (force_close c, m')) ∧
         (∀ e, register_user junk (url_decode (drop 2 query)) m = Stop e →
            on_read junk nw err c m = Stop e)) ∧
      (url ∈ [lit "/login.do"; lit "/getfriendlist.do"; lit "/getgroupmembers.do"] →
         on_read junk nw err c m = Ok (force_close c, m)) ∧
      (url ∉ [lit "/register.do"; lit "/login.do"; lit "/getfriendlist.do"; lit "/getgroupmembers.do"] →
         ∃ b, content b = [] ∧ on_read junk nw err c m = Ok (force_close (set_input b c), m))) ∧
   (Zlen query = 1 → on_read junk nw err c m = Stop OutOfRange)) ∧
  (∀ pre, content (input_buffer_ c) = pre ++ CRLF ++ CRLF → 2048 ≤ Zlen (content (input_buffer_ c)) →
     on_read junk nw err c m = Ok (force_close c, m)) ∧
  ((∀ pre, content (input_buffer_ c) ≠ pre ++ CRLF ++ CRLF) → on_read junk nw err c m = Ok (c, m)).
Proof.
  intros Hwf. split; [|split].
  - intros Hline Hreq Hlen. rewrite (on_read_request junk nw err _ _ _ _ _ c m Hwf Hline Hreq Hlen).
    split; [|by intros Hq; destruct (Z.ltb_spec (Zlen query) 2); [|lia]].
    intros Hq. destruct (Z.ltb_spec (Zlen query) 2); [lia|]. unfold _process.
    rewrite (bool_decide_eq_false_2 (url = [])) by apply Hline. split; [|split].
    + intros ->. rewrite bool_decide_eq_true_2 by done. unfold _on_register_response.
      split; [|split]; [intros ret m' -> Hret | intros m' -> | intros e ->]; cbn [mbind outcome_bind]; [|done..].
      rewrite bool_decide_eq_false_2 by done.
      change (_makeup_response ret) with (response ret). by destruct (send true (response ret) nw err c).
    + rewrite !elem_of_cons, elem_of_nil. by intros [->|[->|[->|[]]]].
    + rewrite !not_elem_of_cons. intros (H1 & H2 & H3 & H4 & _).
      rewrite !bool_decide_eq_false_2 by done. cbn [mbind outcome_bind negb].
      destruct (retrieve_all_as_string_wf _ Hwf) as (b & -> & _ & Hb). by exists b.
  - intros pre Hc Hlen. by apply (on_read_too_long junk nw err pre).
  - by apply on_read_incomplete.
Qed.

(** ** Requests as they arrive

    The loop reports the descriptor as readable, [_handle_read] reads, and the session is
    called if something was read. *)
Definition receive (junk : nat → Z) (nw err : Z) (rd : Z * Z * bytes) (cm : TcpConnection P * UserManager)
    : outcome (TcpConnection P * UserManager) :=
  let '(n, e, extrabuf) := rd in
  c1 ← _handle_read n e extrabuf cm.1;
  if 0 <? n then on_read junk nw err c1 cm.2 else Ok (c1, cm.2).

Definition total_read (reads : list (Z * Z * bytes)) : Z := foldr (λ rd k, rd.1.1 + k) 0 reads.

Lemma total_read_nonneg reads : Forall (λ rd, 0 < rd.1.1) reads → 0 ≤ total_read reads.
Proof.
  induction 1 as [|rd reads Hrd _ IH]; [done|]. cbn [total_read foldr]. fold (total_read reads). lia.
Qed.

(** The buffer of a new connection behind reads of [k] bytes. *)
Definition unread (k : Z) : ByteBuffer := set_write (8 + k) (ByteBuffer_ctor initial_size).

Lemma unread_wf k : 0 ≤ k ≤ 1024 → wf (unread k) ∧ content (unread k) = replicate (Z.to_nat k) x00.
Proof.
  intros Hk. split.
  - split; cbn [read_idx_ write_idx_ buffer_ unread set_write ByteBuffer_ctor]; rewrite ?Zlen_replicate;
      unfold cheap_prepend, initial_size, max_size; lia.
  - unfold content, slice. cbn [read_idx_ write_idx_ buffer_ unread set_write ByteBuffer_ctor].
    replace (8 + k - cheap_prepend) with k by (unfold cheap_prepend; lia).
    rewrite drop_replicate, take_replicate. f_equal. unfold cheap_prepend, initial_size. lia.
Qed.

Lemma receive_unread junk nw err n e extrabuf k c m :
  input_buffer_ c = unread k → 0 ≤ k → 0 < n → k + n ≤ 1024 →
  receive junk nw err (n, e, extrabuf) (c, m) = Ok (user CallMessage (set_input (unread (k + n)) c), m).
Proof.
  intros Hb Hk Hn Hle. unfold receive, _handle_read. cbn [fst snd]. rewrite Hb.
  destruct (unread_wf k ltac:(lia)) as [Hwf _]. destruct (unread_wf (k + n) ltac:(lia)) as [Hwf' Hc'].
  assert (Hrd : bb_read_fd n e extrabuf (unread k) = Ok (n, None, unread (k + n))).
  { unfold bb_read_fd. rewrite writeable_wf by done. destruct (Z.leb_spec n 0); [lia|].
    cbn [buffer_ write_idx_ unread set_write ByteBuffer_ctor]. rewrite Zlen_replicate.
    destruct (Z.leb_spec n (Z.of_nat (Z.to_nat (cheap_prepend + initial_size)) - (8 + k)));
      [|unfold cheap_prepend, initial_size in *; lia].
    rewrite u64_small by lia. unfold unread, set_write. by rewrite <- Z.add_assoc. }
  rewrite Hrd. cbn [mbind outcome_bind]. destruct (Z.ltb_spec 0 n); [|lia]. cbn [mbind outcome_bind].
  apply on_read_incomplete; [done|]. cbn [input_buffer_ user set_input]. rewrite Hc'. intros pre E.
  assert (Hin : x0d ∈ replicate (Z.to_nat (k + n)) x00) by (rewrite E; unfold CRLF; set_solver).
  apply elem_of_replicate in Hin as [? _]. done.
Qed.

(** C32. Requests that fit the buffer are lost. Whatever a client sends on a new connection,
    in whatever pieces it arrives, as long as the pieces together have at most 1024 bytes
    the session never sees a byte of it: it is called once for each piece and finds as many
    zero bytes as were received, answers nothing, closes nothing and leaves the users as
    they were. (On Linux [bb_read_fd] reads into a local array and advances the write index
    without copying.) *)
Theorem small_requests_lost (junk : nat → Z) (nw err : Z) (reads : list (Z * Z * bytes)) c m :
  input_buffer_ c = ByteBuffer_ctor initial_size →
  Forall (λ rd, 0 < rd.1.1) reads → total_read reads ≤ 1024 →
  ∃ c', each (receive junk nw err) reads (c, m) = Ok (c', m) ∧
    content (input_buffer_ c') = replicate (Z.to_nat (total_read reads)) x00 ∧
    calls c' = calls c ++ replicate (length reads) CallMessage ∧
    state_ c' = state_ c ∧ wire c' = wire c ∧ output_buffer_ c' = output_buffer_ c ∧ tasks c' = tasks c.
Proof.
  intros Hb Hpos Hle.
  assert (Hgen : ∀ reads k c, Forall (λ rd : Z * Z * bytes, 0 < rd.1.1) reads → input_buffer_ c = unread k →
    0 ≤ k → k + total_read reads ≤ 1024 →
    ∃ c', each (receive junk nw err) reads (c, m) = Ok (c', m) ∧
      input_buffer_ c' = unread (k + total_read reads) ∧
      calls c' = calls c ++ replicate (length reads) CallMessage ∧
      state_ c' = state_ c ∧ wire c' = wire c ∧ output_buffer_ c' = output_buffer_ c ∧ tasks c' = tasks c).
  { clear. intros reads. induction reads as [|[[n e] x] reads IH]; intros k c Hpos Hb Hk Hle.
    - exists c. cbn. rewrite Z.add_0_r, app_nil_r. done.
    - apply Forall_cons in Hpos as [Hn Hpos]. cbn [fst total_read foldr] in *.
      fold (total_read reads) in *.
      pose proof (total_read_nonneg reads Hpos).
      cbn [each]. rewrite (receive_unread junk nw err n e x k c m) by (done || lia).
      cbn [mbind outcome_bind].
      destruct (IH (k + n) (user CallMessage (set_input (unread (k + n)) c)))
        as (c' & E & H1 & H2 & H3 & H4 & H5 & H6); [done | done | lia | lia |].
      exists c'. split; [done|]. rewrite H1, H2. split; [f_equal; lia|].
      cbn [length replicate calls user set_input]. by rewrite <- app_assoc. }
  destruct (Hgen reads 0 c Hpos) as (c' & E & H1 & H2); [by rewrite Hb | lia | lia |].
  exists c'. split; [done|]. rewrite H1, Z.add_0_l. split; [|done].
  apply unread_wf. split; [by apply total_read_nonneg | done].
Qed.
End requests.

(** ** Examples *)
Module Sample.
(** Documents are texts "name,nick,pass"; the URL coding is the identity. *)
#[export] Instance codecs : HttpCodecs := {
  json_parse d :=
    match split_all d (lit ",") with
    | [n; k; w] => Some (JObject (λ f, if bool_decide (f = lit "username") then Some n
                                       else if bool_decide (f = lit "nickname") then Some k
                                       else if bool_decide (f = lit "password") then Some w else None))
    | _ => if bool_decide (d = lit "1") then Some JOther else None
    end;
  url_decode d := d;
}.

Definition buffer (data : bytes) : ByteBuffer :=
  mkByteBuffer (splice 8 data (replicate 1032 x00)) 8 (8 + Zlen data).
Definition conn (data : bytes) : TcpConnection Z :=
  set_input (buffer data) (_set_state kConnected (TcpConnection_ctor 3)).
Definition line : bytes := request_line (lit "GET") (lit "/register.do") (lit "p=ann,a,x") (lit "HTTP/1.1").
Definition req : bytes := request line (lit "Host: h").
Definition manager : UserManager := Demo.manager [Demo.user 1 []].
Definition served : outcome (TcpConnection Z * UserManager) := on_read (λ _, 0) 200 0 (conn req) manager.
End Sample.
Import Sample.

Lemma registration_once_witness :
  ∃ ret m', register_user (λ _, 0) (lit "ann,a,x") Sample.manager = Ok (ret, m') ∧
    ((ret = answer 100 "register failed" ∧ all_cached_users_ m' = all_cached_users_ Sample.manager) ∨
     (ret = answer 0 "ok" ∧ ∃ u, all_cached_users_ m' = all_cached_users_ Sample.manager ++ [u] ∧
        username u = lit "ann" ∧ userid u = base_user_id_ Sample.manager + 1 ∧
        getUserInfoByUsername (lit "ann") m' = Some u ∧
        ∀ junk' data', asks_for data' (lit "ann") →
          register_user junk' data' m' = Ok (answer 101 "registered already", m'))).
Proof.
  apply (registration_once (λ _, 0) (lit "ann,a,x") (lit "ann") Sample.manager).
  - eexists _, (lit "a"), (lit "x"). split; [reflexivity|]. by vm_compute.
  - by vm_compute.
  - intros u. cbn. rewrite list_elem_of_singleton. by intros ->.
  - by vm_compute.
Defined.

Lemma http_request_served_witness :
  ∃ c' m', Sample.served = Ok (force_close c', m') ∧ wire c' = response (answer 0 "ok").
Proof.
  assert (Hreg : ∃ m', register_user (λ _, 0) (url_decode (drop 2 (lit "p=ann,a,x"))) Sample.manager =
                       Ok (answer 0 "ok", m')) by (eexists; reflexivity).
  assert (Hsend : ∃ c', send true (response (answer 0 "ok")) 200 0 (Sample.conn Sample.req) = Ok c' ∧
                        wire c' = response (answer 0 "ok")).
  { eexists. split; [reflexivity | by vm_compute]. }
  destruct Hreg as [m' Hreg], Hsend as (c' & Hsend & Hwire).
  destruct (http_request_served (λ _, 0) 200 0 (lit "GET") (lit "/register.do") (lit "p=ann,a,x")
             (lit "HTTP/1.1") (lit "Host: h") (Sample.conn Sample.req) Sample.manager) as [Hreq _].
  { split; vm_compute; congruence. }
  destruct Hreq as [Hserve _]; [| by vm_compute | by vm_compute |].
  { split; [repeat split; discriminate | ..]; repeat split;
      apply (bool_decide_eq_false_1 (_ ∈ _)); by vm_compute. }
  destruct Hserve as [[Hserve _] _]; [vm_compute; discriminate | done |].
  exists c', m'. split; [|done]. unfold Sample.served.
  rewrite (Hserve _ _ Hreg) by discriminate. rewrite Hsend. reflexivity.
Defined.

(** The same request, complete in one read on a new connection. *)
Lemma small_requests_lost_witness :
  ∃ c', each (receive (λ _, 0) 0 0) [(Zlen Sample.req, 0, Sample.req)]
          (_set_state kConnected (TcpConnection_ctor 3), Sample.manager) = Ok (c', Sample.manager) ∧
    wire c' = [] ∧ tasks c' = [].
Proof.
  destruct (small_requests_lost (λ _, 0) 0 0 [(Zlen Sample.req, 0, Sample.req)]
              (_set_state kConnected (TcpConnection_ctor 3)) Sample.manager) as (c' & E & _ & _ & _ & Hw & _ & Ht).
  - reflexivity.
  - repeat constructor.
  - vm_compute. congruence.
  - exists c'. split; [exact E|]. split; [exact Hw | exact Ht].
Defined.

(** A document that is not an object makes the registration throw. *)
Example register_not_an_object :
  register_user (λ _, 0) (lit "1") Sample.manager = Stop RuntimeError.
Proof. reflexivity. Qed.
