(* ===== verification/Registration.v ===== *)
(** * Registrations by several threads: [BussinessLogic::register_user] and
    [UserManager::addUser], step by step

    The loops of the HTTP server run in different threads and share one [UserManager]. A step
    of a worker is one critical section of its mutex, one access to the atomic
    [base_user_id_], or one call of the database; [reg_step] cuts [register_user] into these
    steps, in its order. [worker_alone] shows that a worker that is not interrupted does what
    [register_user] of [HttpSession] does. Accesses are sequentially consistent. *)
From S2P Require Import Prelude UserManager HttpSession.

(** Where a worker is: before the lookup of the name, the connection to the database, the
    increment of the counter, the load of the counter for the statement, its execution, the
    second load, the insertion into the cache; or it has its answer. *)
Inductive wpos :=
| WLookup
| WConnect
| WIncrement
| WLoad
| WExecute (id : Z)
| WRead
| WPush (id : Z)
| WAnswer (ret : bytes).

#[export] Instance wpos_eq_dec : EqDecision wpos.
Proof. solve_decision. Defined.

Definition already : bytes := answer 101 "registered already".
Definition refused : bytes := answer 100 "register failed".
Definition ok_answer : bytes := answer 0 "ok".

Section steps.
Context {D : Database}.
Implicit Types (m : UserManager) (u : User) (p : wpos).

Definition reg_step u p m : option (wpos * UserManager) :=
  match p with
  | WLookup =>
      let cached_id := match getUserInfoByUsername (username u) m with
                       | Some cachedUser => userid cachedUser | None => 0 end in
      Some (if negb (cached_id =? 0) then WAnswer already else WConnect, m)
  | WConnect => Some (if connect m then WIncrement else WAnswer refused, m)
  | WIncrement => Some (WLoad, set_bases (s32 (base_user_id_ m + 1)) (base_group_id_ m) m)
  | WLoad => Some (WExecute (base_user_id_ m), m)
  | WExecute id =>
      let '(ok, m') := run_sql (insert_user_sql id u) m in Some (if ok then WRead else WAnswer refused, m')
  | WRead => Some (WPush (base_user_id_ m), m)
  | WPush id => Some (WAnswer ok_answer, set_users (all_cached_users_ m ++ [registered id u]) m)
  | WAnswer _ => None
  end.

(** A worker on its own, for at most [n] steps. *)
Fixpoint run_worker (n : nat) u p m : wpos * UserManager :=
  match n with
  | O => (p, m)
  | S n' => match reg_step u p m with Some (p', m') => run_worker n' u p' m' | None => (p, m) end
  end.

Lemma worker_alone {C : HttpCodecs} junk data f name nick pass m ret m' :
  json_parse data = Some (JObject f) → f (lit "username") = Some name →
  f (lit "nickname") = Some nick → f (lit "password") = Some pass →
  register_user junk data m = Ok (ret, m') ↔
  run_worker 7 (requested_user junk name nick pass) WLookup m = (WAnswer ret, m').
Proof.
  intros Hj Hn Hk Hp. unfold register_user. rewrite Hj, Hn, Hk, Hp.
  set (u := requested_user junk name nick pass). cbn [run_worker reg_step].
  change (username u) with name. set (id := match getUserInfoByUsername name m with Some c => userid c | None => 0 end).
  destruct (negb (id =? 0)); cbn [run_worker reg_step]; [split; by intros [= <- <-]|].
  unfold addUser. destruct (connect m); cbn [negb run_worker reg_step]; [|split; by intros [= <- <-]].
  unfold run_sql.
  destruct (execute _ _) as [[] d]; cbn [negb run_worker reg_step]; split; by intros [= <- <-].
Qed.

(** ** Several workers *)
Record rsys := mkR { mgr : UserManager; workers : gmap nat (User * wpos) }.

Inductive rstep : rsys → rsys → Prop :=
| r_arrive t u s : workers s !! t = None → rstep s (mkR (mgr s) (<[t := (u, WLookup)]> (workers s)))
| r_step t u p p' m' s :
    workers s !! t = Some (u, p) → reg_step u p (mgr s) = Some (p', m') →
    rstep s (mkR m' (<[t := (u, p')]> (workers s))).

(** Runs all of whose states satisfy [Q]. *)
Inductive runs (Q : rsys → Prop) (m0 : UserManager) : rsys → Prop :=
| runs_start : runs Q m0 (mkR m0 ∅)
| runs_next s s' : runs Q m0 s → rstep s s' → Q s' → runs Q m0 s'.

(** ** Tallies over the workers *)
Definition tally {A} (f : User * wpos → list A) (w : gmap nat (User * wpos)) : list A :=
  map_to_list w ≫= λ x, f x.2.

Lemma tally_insert {A} (f : User * wpos → list A) w t y :
  tally f (<[t := y]> w) ≡ₚ f y ++ tally f (delete t w).
Proof.
  unfold tally. rewrite <- (insert_delete_eq w). by rewrite map_to_list_insert by apply lookup_delete_eq.
Qed.

Lemma tally_lookup {A} (f : User * wpos → list A) w t x :
  w !! t = Some x → tally f w ≡ₚ f x ++ tally f (delete t w).
Proof. intros Hx. unfold tally. by rewrite <- (map_to_list_delete w t x Hx). Qed.

Lemma tally_length_le {A} (f : User * wpos → list A) w :
  (∀ x, length (f x) ≤ 1)%nat → (length (tally f w) ≤ size w)%nat.
Proof.
  intros Hf. unfold tally. rewrite <- (length_map_to_list w). induction (map_to_list w) as [|x l IH]; [done|].
  rewrite bind_cons, length_app, length_cons. specialize (Hf x.2). lia.
Qed.

(** The names of those who were told that they are registered, and the workers that have
    drawn an id. *)
Definition granted : gmap nat (User * wpos) → list bytes :=
  tally (λ x, if decide (x.2 = WAnswer ok_answer) then [username x.1] else []).
Definition drawn (p : wpos) : bool :=
  match p with WLookup | WConnect | WIncrement => false | _ => true end.
Definition draws : gmap nat (User * wpos) → list unit := tally (λ x, if drawn x.2 then [()] else []).

Lemma draws_le w : Zlen (draws w) ≤ Z.of_nat (size w).
Proof.
  unfold Zlen. pose proof (tally_length_le (λ x, if drawn x.2 then [()] else []) w) as H.
  assert (Hl : (length (draws w) ≤ size w)%nat) by (apply H; intros [u []]; simpl; lia). lia.
Qed.

(** A worker's move in the tallies. *)
Lemma draws_move w t u p p' :
  w !! t = Some (u, p) →
  Zlen (draws (<[t := (u, p')]> w)) = Zlen (draws w) - Z.b2z (drawn p) + Z.b2z (drawn p').
Proof.
  intros Hx. unfold draws, Zlen. rewrite (tally_insert _ w t), (tally_lookup _ w t _ Hx), !length_app.
  cbn [snd]. destruct (drawn p), (drawn p'); simpl; lia.
Qed.

Lemma granted_move w t u p p' :
  w !! t = Some (u, p) → p ≠ WAnswer ok_answer →
  granted (<[t := (u, p')]> w) ≡ₚ granted w ++ (if decide (p' = WAnswer ok_answer) then [username u] else []).
Proof.
  intros Hx Hp. unfold granted. rewrite (tally_insert _ w t), (tally_lookup _ w t _ Hx). cbn [fst snd].
  rewrite (decide_False (P := p = WAnswer ok_answer)) by done. by rewrite app_nil_l, Permutation_app_comm.
Qed.

Lemma tally_arrive {A} (f : User * wpos → list A) w t y :
  w !! t = None → f y = [] → tally f (<[t := y]> w) ≡ₚ tally f w.
Proof. intros Hw Hf. by rewrite tally_insert, Hf, delete_id. Qed.

(** ** What every interleaving keeps *)
Definition late (p : wpos) : bool :=
  match p with WLoad | WExecute _ | WRead | WPush _ => true | _ => false end.

Record reg_inv m0 (s : rsys) : Prop := {
  rv_users : ∃ new, all_cached_users_ (mgr s) = all_cached_users_ m0 ++ new ∧
    username <$> new ≡ₚ granted (workers s) ∧
    Forall (λ u, base_user_id_ m0 < userid u ≤ base_user_id_ (mgr s)) new;
  rv_base : base_user_id_ m0 ≤ base_user_id_ (mgr s) ≤ base_user_id_ m0 + Zlen (draws (workers s));
  rv_late : ∀ t u p, workers s !! t = Some (u, p) → late p = true → base_user_id_ m0 < base_user_id_ (mgr s);
  rv_push : ∀ t u id, workers s !! t = Some (u, WPush id) → base_user_id_ m0 < id ≤ base_user_id_ (mgr s);
}.

Lemma reg_inv_start m0 : reg_inv m0 (mkR m0 ∅).
Proof.
  split; simpl.
  - exists []. by rewrite app_nil_r.
  - split; [lia|]. change (Zlen (draws ∅)) with 0. lia.
  - intros t u p H. by rewrite lookup_empty in H.
  - intros t u id H. by rewrite lookup_empty in H.
Qed.

Lemma reg_inv_arrive m0 s t u :
  reg_inv m0 s → workers s !! t = None → reg_inv m0 (mkR (mgr s) (<[t := (u, WLookup)]> (workers s))).
Proof.
  intros [(new & E & Hg & Hn) Hb Hl Hp] Ht. split; simpl.
  - exists new. split; [done|]. split; [|done]. rewrite Hg. unfold granted. by rewrite (tally_arrive _ (workers s) t).
  - unfold Zlen, draws in *. rewrite (tally_arrive _ (workers s) t); done.
  - intros t' u' p' [[<- [= <- <-]]|[_ H]]%lookup_insert_Some; [done | by eapply Hl].
  - intros t' u' id [[<- [=]]|[_ H]]%lookup_insert_Some. by eapply Hp.
Qed.

(** A step that does not register anybody. *)
Lemma reg_inv_move m0 s t u p p' m' :
  reg_inv m0 s → workers s !! t = Some (u, p) →
  p ≠ WAnswer ok_answer → p' ≠ WAnswer ok_answer →
  all_cached_users_ m' = all_cached_users_ (mgr s) →
  base_user_id_ (mgr s) ≤ base_user_id_ m' ≤ base_user_id_ (mgr s) - Z.b2z (drawn p) + Z.b2z (drawn p') →
  (late p' = true → base_user_id_ m0 < base_user_id_ m') →
  (∀ id, p' = WPush id → base_user_id_ m0 < id ≤ base_user_id_ m') →
  reg_inv m0 (mkR m' (<[t := (u, p')]> (workers s))).
Proof.
  intros [(new & E & Hg & Hn) Hb Hl Hp] Ht Hne Hne' Hu Hbase Hlate Hpush. split; simpl.
  - exists new. split; [congruence|]. split.
    + rewrite Hg, (granted_move _ t u p p' Ht Hne), decide_False by done. by rewrite app_nil_r.
    + eapply Forall_impl; [exact Hn|]. intros x Hx. simpl in Hx. lia.
  - rewrite (draws_move _ t u p p' Ht). lia.
  - intros t' u' q [[<- [= <- <-]]|[_ H]]%lookup_insert_Some Hq; [auto|]. specialize (Hl t' u' q H Hq). lia.
  - intros t' u' id [[<- [= <- ->]]|[_ H]]%lookup_insert_Some; [auto|]. specialize (Hp t' u' id H). lia.
Qed.

Lemma reg_inv_push m0 s t u id :
  reg_inv m0 s → workers s !! t = Some (u, WPush id) →
  reg_inv m0 (mkR (set_users (all_cached_users_ (mgr s) ++ [registered id u]) (mgr s))
                (<[t := (u, WAnswer ok_answer)]> (workers s))).
Proof.
  intros [(new & E & Hg & Hn) Hb Hl Hp] Ht. pose proof (Hp t u id Ht) as Hid. split; simpl.
  - exists (new ++ [registered id u]). rewrite E, app_assoc. split; [done|]. split.
    + rewrite fmap_app, Hg, (granted_move _ t u (WPush id) _ Ht), decide_True by done. done.
    + apply Forall_app. split; [done|]. by apply Forall_singleton.
  - rewrite (draws_move _ t u _ _ Ht). simpl. lia.
  - intros t' u' q [[<- [= <- <-]]|[_ H]]%lookup_insert_Some Hq; [done | by eapply Hl].
  - intros t' u' i [[<- [=]]|[_ H]]%lookup_insert_Some. by eapply Hp.
Qed.

Lemma reg_inv_step m0 s s' :
  0 ≤ base_user_id_ m0 → base_user_id_ m0 + Z.of_nat (size (workers s')) < GROUPID_BOUBDARY →
  reg_inv m0 s → rstep s s' → reg_inv m0 s'.
Proof.
  intros H0 Hsize Hinv Hst. destruct Hst as [t u s Ht|t u p p' m' s Ht E]; [by apply reg_inv_arrive|].
  simpl in Hsize. rewrite map_size_insert_Some in Hsize by eauto.
  pose proof (draws_le (workers s)) as Hd. pose proof (rv_base _ _ Hinv) as Hb.
  assert (Hlate : late p = true → base_user_id_ m0 < base_user_id_ (mgr s)) by (by apply (rv_late _ _ Hinv t u p)).
  destruct p as [| | | |id| |id|ret]; cbn [reg_step] in E.
  - case_match; injection E as <- <-; apply (reg_inv_move m0 s t u _ _ _ Hinv Ht); simpl; try done; lia.
  - destruct (connect (mgr s)); injection E as <- <-; apply (reg_inv_move m0 s t u _ _ _ Hinv Ht); simpl; try done; lia.
  - injection E as <- <-. unfold GROUPID_BOUBDARY in *. rewrite s32_small by lia.
    apply (reg_inv_move m0 s t u _ _ _ Hinv Ht); simpl; try done; lia.
  - injection E as <- <-. apply (reg_inv_move m0 s t u _ _ _ Hinv Ht); simpl; try done; try lia; auto.
  - unfold run_sql in E. destruct (execute _ _) as [[] d]; injection E as <- <-;
      apply (reg_inv_move m0 s t u _ _ _ Hinv Ht); simpl; try done; try lia; auto.
  - injection E as <- <-. specialize (Hlate eq_refl).
    apply (reg_inv_move m0 s t u _ _ _ Hinv Ht); simpl; try done; try lia. intros id [= <-]. lia.
  - injection E as <- <-. by apply reg_inv_push.
  - done.
Qed.

Lemma rstep_size s s' : rstep s s' → (size (workers s) ≤ size (workers s'))%nat.
Proof. intros Hst. destruct Hst as [t u s Ht|t u p p' m' s Ht E]; simpl; rewrite map_size_insert, Ht; simpl; lia. Qed.

Lemma runs_inv Q m0 s :
  runs Q m0 s → 0 ≤ base_user_id_ m0 → base_user_id_ m0 + Z.of_nat (size (workers s)) < GROUPID_BOUBDARY →
  reg_inv m0 s.
Proof.
  induction 1 as [|s s' _ IH Hst _]; intros H0 Hsize; [apply reg_inv_start|].
  apply (reg_inv_step m0 s s'); try done. apply IH; [done|]. pose proof (rstep_size s s' Hst). lia.
Qed.

(** ** Registrations one at a time *)

(** Between the lookup and the answer. *)
Definition inside (p : wpos) : bool := match p with WLookup | WAnswer _ => false | _ => true end.
Definition one_inside (s : rsys) : Prop :=
  ∀ t1 t2 x1 x2, workers s !! t1 = Some x1 → workers s !! t2 = Some x2 →
    inside x1.2 = true → inside x2.2 = true → t1 = t2.

Definition names m : list bytes := username <$> all_cached_users_ m.

Record in_order m : Prop := {
  do_ids : ids_ok m;
  do_names : NoDup (names m);
  do_nonzero : ∀ u, u ∈ all_cached_users_ m → userid u ≠ 0;
}.

Record ex_inv (s : rsys) : Prop := {
  ex_ids : NoDup (ids (mgr s));
  ex_names : NoDup (names (mgr s));
  ex_name : ∀ t u p, workers s !! t = Some (u, p) → inside p = true → username u ∉ names (mgr s);
  ex_fresh : ∀ t u p, workers s !! t = Some (u, p) → late p = true → base_user_id_ (mgr s) ∉ ids (mgr s);
  ex_push : ∀ t u id, workers s !! t = Some (u, WPush id) → id = base_user_id_ (mgr s);
}.

Lemma late_inside p : late p = true → inside p = true.
Proof. by destruct p. Qed.

(** The cached users of a run: none has the id 0, and no id of a user is above the counter. *)
Lemma cached_ids m0 s u :
  in_order m0 → reg_inv m0 s → u ∈ all_cached_users_ (mgr s) →
  userid u ≠ 0 ∧ (userid u < GROUPID_BOUBDARY → userid u ≤ base_user_id_ (mgr s)).
Proof.
  intros [[_ Hu _ [Hb _]] _ Hz] [(new & E & _ & Hn) Hbase _ _]. rewrite E.
  intros [Hin|Hin]%elem_of_app.
  - split; [by apply Hz|]. intros Hlt. assert (userid u ≤ base_user_id_ m0); [|lia].
    apply Hu; [|done]. by apply list_elem_of_fmap_2.
  - rewrite Forall_forall in Hn. specialize (Hn u Hin). lia.
Qed.

Lemma lookup_free m0 s name :
  in_order m0 → reg_inv m0 s →
  match getUserInfoByUsername name (mgr s) with Some c => userid c | None => 0 end = 0 → name ∉ names (mgr s).
Proof.
  intros H0 Hinv. unfold getUserInfoByUsername. destruct (find _ _) as [c|] eqn:Ef.
  - apply find_some in Ef as [Hc _]. apply list_elem_of_In in Hc.
    destruct (cached_ids m0 s c H0 Hinv Hc). done.
  - intros _ (u & -> & Hu)%list_elem_of_fmap. apply list_elem_of_In in Hu.
    by apply (find_none _ _ Ef), bool_decide_eq_false_1 in Hu.
Qed.

(** A step of the worker [t] that leaves the cached users alone. *)
Lemma ex_inv_move m0 s t u p p' m' :
  ex_inv s → workers s !! t = Some (u, p) → all_cached_users_ m' = all_cached_users_ (mgr s) →
  one_inside (mkR m' (<[t := (u, p')]> (workers s))) →
  base_user_id_ m' = base_user_id_ (mgr s) ∨ inside p' = true →
  (inside p' = true → username u ∉ names (mgr s)) →
  (late p' = true → base_user_id_ m' ∉ ids (mgr s)) →
  (∀ id, p' = WPush id → id = base_user_id_ m') →
  ex_inv (mkR m' (<[t := (u, p')]> (workers s))).
Proof.
  intros [Hi Hn Hname Hfresh Hpush] Ht Hu Hone Hbase Hname' Hfresh' Hpush'.
  assert (Eids : ids m' = ids (mgr s)) by (unfold ids; congruence).
  assert (Enames : names m' = names (mgr s)) by (unfold names; congruence).
  assert (Hothers : ∀ t' x, t' ≠ t → workers s !! t' = Some x → inside x.2 = true →
    base_user_id_ m' = base_user_id_ (mgr s)).
  { intros t' x Hne Hx Hin. destruct Hbase as [?|Hp']; [done|]. exfalso. apply Hne.
    apply (Hone t' t x (u, p')); simpl; [by rewrite lookup_insert_ne | by rewrite lookup_insert_eq | done | done]. }
  split; simpl; rewrite ?Eids, ?Enames; try done.
  - intros t' u' q [[<- [= <- <-]]|[Hne H]]%lookup_insert_Some; [auto | by eapply Hname].
  - intros t' u' q [[<- [= <- <-]]|[Hne H]]%lookup_insert_Some Hq; [auto|].
    rewrite (Hothers t' (u', q)) by (done || by apply late_inside). by eapply Hfresh.
  - intros t' u' id [[<- [= <- ->]]|[Hne H]]%lookup_insert_Some; [auto|].
    rewrite (Hothers t' (u', WPush id)) by done. by eapply Hpush.
Qed.

Lemma ex_inv_push s t u id :
  ex_inv s → one_inside s → workers s !! t = Some (u, WPush id) →
  ex_inv (mkR (set_users (all_cached_users_ (mgr s) ++ [registered id u]) (mgr s))
            (<[t := (u, WAnswer ok_answer)]> (workers s))).
Proof.
  intros [Hi Hn Hname Hfresh Hpush] Hone Ht.
  assert (Hno : ∀ t' x, t' ≠ t → workers s !! t' = Some x → inside x.2 = true → False).
  { intros t' x Hne Hx Hin. by apply Hne, (Hone t' t x (u, WPush id)). }
  assert (Hid : id ∉ ids (mgr s)) by (rewrite (Hpush t u id Ht); by apply (Hfresh t u (WPush id))).
  assert (Hnm : username u ∉ names (mgr s)) by (by apply (Hname t u (WPush id))).
  assert (Hadd : ∀ {A} (l : list A) x, NoDup l → x ∉ l → NoDup (l ++ [x])).
  { intros A l x Hl Hx. apply NoDup_app. split; [done|]. split; [|apply NoDup_singleton].
    by intros y Hy ->%list_elem_of_singleton. }
  split; unfold ids, names in *; simpl; rewrite ?fmap_app; simpl; [by apply Hadd.. | | |];
    intros t' u' q [[<- [=]]|[Hne H]]%lookup_insert_Some; subst; try done.
  - intros Hq. by destruct (Hno t' (u', q) (not_eq_sym Hne) H).
  - intros Hq. by destruct (Hno t' (u', q) (not_eq_sym Hne) H (late_inside q Hq)).
  - by destruct (Hno t' (u', WPush q) (not_eq_sym Hne) H).
Qed.

Lemma ex_inv_arrive s t u :
  ex_inv s → workers s !! t = None → ex_inv (mkR (mgr s) (<[t := (u, WLookup)]> (workers s))).
Proof.
  intros [Hi Hn Hname Hfresh Hpush] Ht. split; simpl; try done; intros t' u' q;
    intros [[<- [=]]|[Hne H]]%lookup_insert_Some; subst; try done; by eauto.
Qed.

Lemma ex_inv_step m0 s s' :
  in_order m0 → base_user_id_ m0 + Z.of_nat (size (workers s')) < GROUPID_BOUBDARY →
  reg_inv m0 s → reg_inv m0 s' → one_inside s → one_inside s' → ex_inv s → rstep s s' → ex_inv s'.
Proof.
  intros H0 Hsize Hinv Hinv' Hone Hone' Hex Hst.
  destruct Hst as [t u s Ht|t u p p' m' s Ht E]; [by apply ex_inv_arrive|].
  pose proof (ex_name _ Hex t u p Ht) as Hname. pose proof (ex_fresh _ Hex t u p Ht) as Hfresh.
  destruct p as [| | | |id| |id|ret]; cbn [reg_step] in E.
  - destruct (Z.eqb_spec (match getUserInfoByUsername (username u) (mgr s) with Some c => userid c | None => 0 end) 0)
      as [Hfree|]; injection E as <- <-; apply (ex_inv_move m0 s t u _ _ _ Hex Ht); auto; try done.
    intros _. by eapply lookup_free.
  - destruct (connect (mgr s)); injection E as <- <-; apply (ex_inv_move m0 s t u _ _ _ Hex Ht); auto; done.
  - injection E as <- <-. apply (ex_inv_move m0 s t u _ _ _ Hex Ht); auto; [|done].
    intros _ (x & Ex & Hx)%list_elem_of_fmap. destruct (cached_ids m0 s x H0 Hinv Hx) as [_ Hle].
    pose proof (rv_base _ _ Hinv) as Hb. pose proof (draws_le (workers s)). pose proof (io_bases _ (do_ids _ H0)) as [Hb0 _].
    simpl in Hsize. rewrite map_size_insert_Some in Hsize by eauto.
    pose proof (rv_base _ _ Hinv') as Hb'. pose proof (draws_le (<[t := (u, WLoad)]> (workers s))) as Hd'.
    rewrite map_size_insert_Some in Hd' by eauto. simpl in Hb', Ex.
    unfold GROUPID_BOUBDARY in *. destruct (decide (base_user_id_ (mgr s) + 1 < 2147483648)) as [Hs|]; [|lia].
    rewrite s32_small in Hb', Ex by lia. lia.
  - injection E as <- <-. apply (ex_inv_move m0 s t u _ _ _ Hex Ht); auto; done.
  - unfold run_sql in E. destruct (execute _ _) as [[] d]; injection E as <- <-;
      apply (ex_inv_move m0 s t u _ _ _ Hex Ht); auto; done.
  - injection E as <- <-. apply (ex_inv_move m0 s t u _ _ _ Hex Ht); auto. by intros id [= <-].
  - injection E as <- <-. by apply ex_inv_push.
  - done.
Qed.

Lemma runs_ex m0 s :
  runs one_inside m0 s → in_order m0 →
  base_user_id_ m0 + Z.of_nat (size (workers s)) < GROUPID_BOUBDARY → ex_inv s ∧ one_inside s.
Proof.
  intros Hr H0. pose proof (io_bases _ (do_ids _ H0)) as [[Hb _] _].
  induction Hr as [|s s' Hr IH Hst Hone]; intros Hsize.
  - split; [|intros t1 t2 x1 x2 H; simpl in H; by rewrite lookup_empty in H].
    split; simpl; [apply H0 | apply H0 |..]; intros t u p H; by rewrite lookup_empty in H.
  - pose proof (rstep_size s s' Hst). destruct IH as [Hex Hone0]; [lia|]. split; [|done].
    apply (ex_inv_step m0 s s'); try done; [by apply (runs_inv one_inside); [| |lia]|].
    apply (runs_inv one_inside); [by eapply runs_next | done | done].
Qed.

(** A schedule: the workers that make the next steps. *)
Definition advance (t : nat) (s : rsys) : option rsys :=
  '(u, p) ← workers s !! t;
  '(p', m') ← reg_step u p (mgr s);
  Some (mkR m' (<[t := (u, p')]> (workers s))).
Fixpoint schedule (ts : list nat) (s : rsys) : option rsys :=
  match ts with [] => Some s | t :: ts' => s1 ← advance t s; schedule ts' s1 end.

Lemma schedule_runs (Q K : rsys → Prop) ts m0 s s' :
  (∀ t s1 s2, t ∈ ts → K s1 → advance t s1 = Some s2 → K s2) → (∀ s, K s → Q s) → K s →
  runs Q m0 s → schedule ts s = Some s' → runs Q m0 s'.
Proof.
  revert s. induction ts as [|t ts IH]; intros s HK HQ Hs Hr E; cbn [schedule] in E; [by injection E as <-|].
  apply bind_Some in E as (s1 & E1 & E).
  assert (Hs1 : K s1) by (by apply (HK t s); [left|..]).
  apply (IH s1); [intros t' s2 s3 Ht'; apply HK; by right | done | done | | done].
  unfold advance in E1. apply bind_Some in E1 as ([u p] & Hw & E1).
  apply bind_Some in E1 as ([p' m'] & Hst & [= <-]).
  eapply runs_next; [exact Hr | by eapply r_step | by apply HQ].
Qed.

(** The others are not inside. *)
Definition alone (t : nat) (s : rsys) : Prop :=
  ∀ t' x, t' ≠ t → workers s !! t' = Some x → inside x.2 = false.

Lemma alone_one t s : alone t s → one_inside s.
Proof.
  intros Ha t1 t2 x1 x2 H1 H2 I1 I2.
  destruct (decide (t1 = t)) as [->|N1]; [|by rewrite (Ha t1 x1) in I1].
  destruct (decide (t2 = t)) as [->|N2]; [done | by rewrite (Ha t2 x2) in I2].
Qed.

Lemma advance_alone t s s' : alone t s → advance t s = Some s' → alone t s'.
Proof.
  intros Ha E. unfold advance in E. apply bind_Some in E as ([u p] & Hw & E).
  apply bind_Some in E as ([p' m'] & _ & [= <-]). intros t' x Hne. simpl.
  rewrite lookup_insert_ne by done. by apply Ha.
Qed.

Lemma runs_any Q m0 s : runs Q m0 s → runs (λ _, True) m0 s.
Proof. induction 1; [constructor | by eapply runs_next]. Qed.

Lemma serial_runs n t m0 s s' :
  alone t s → runs one_inside m0 s → schedule (replicate n t) s = Some s' → runs one_inside m0 s'.
Proof.
  apply (schedule_runs one_inside (alone t)); [|apply alone_one].
  intros t' s1 s2 [-> _]%elem_of_replicate. apply advance_alone.
Qed.
End steps.

(** C26. Registrations in any interleaving. From a manager in order (distinct ids and names)
    any number of workers register users, their critical sections, accesses to the counter
    and statements interleaved in any way, the database answering as it likes. The users
    cached before stay as they are; behind them is exactly one user for every request that
    was answered with success, under the name it asked for; no new id is that of a user or a
    group that was there before. If moreover no worker passes its lookup while another one
    is between its lookup and its answer, ids and names stay distinct. *)
Theorem registrations_interleaved {D : Database} (m0 : UserManager) (s : rsys) :
  in_order m0 → base_user_id_ m0 + Z.of_nat (size (workers s)) < GROUPID_BOUBDARY →
  runs (λ _, True) m0 s →
  (∃ new, all_cached_users_ (mgr s) = all_cached_users_ m0 ++ new ∧
     username <$> new ≡ₚ granted (workers s) ∧
     ∀ u, u ∈ new → userid u ∉ ids m0 ∧
       base_user_id_ m0 < userid u ≤ base_user_id_ m0 + Z.of_nat (size (workers s))) ∧
  (runs one_inside m0 s → NoDup (ids (mgr s)) ∧ NoDup (names (mgr s))).
Proof.
  intros H0 Hsize Hr. pose proof (do_ids _ H0) as [_ Hu _ [Hb _]].
  destruct (runs_inv _ m0 s Hr (proj1 Hb) Hsize) as [(new & E & Hg & Hn) Hbase _ _].
  pose proof (draws_le (workers s)). split.
  - exists new. split; [done|]. split; [done|]. intros u Hin. rewrite Forall_forall in Hn.
    specialize (Hn u Hin). split; [|lia]. intros Hold. specialize (Hu _ Hold). lia.
  - intros Hex. destruct (runs_ex m0 s Hex H0 Hsize) as [[? ? _ _ _] _]. done.
Qed.

(** ** Two workers *)
Module Race.
Definition ann : User := requested_user (λ _, 0) (lit "ann") (lit "a") (lit "x").
Definition start : UserManager := Demo.manager [Demo.user 1 []; Demo.user 2 []].
Definition both : rsys := mkR start {[ 0%nat := (ann, WLookup); 1%nat := (ann, WLookup) ]}.
(** Worker 0 goes up to its second load of the counter, which follows the increment of 1. *)
Definition order : list nat := [0; 1; 0; 0; 0; 0; 1; 1; 0; 0; 1; 1; 1; 1]%nat.
Definition after : rsys := match schedule order both with Some s => s | None => both end.

Lemma both_runs Q : (∀ s, mgr s = start → (∀ t x, workers s !! t = Some x → x.2 = WLookup) → Q s) → runs Q start both.
Proof.
  intros HQ. set (s1 := mkR start {[ 1%nat := (ann, WLookup) ]}).
  assert (H1 : runs Q start s1).
  { apply (runs_next Q start (mkR start ∅)); [apply runs_start | exact (r_arrive 1 ann (mkR start ∅) eq_refl) |].
    apply HQ; [done|]. intros t x Hx. change (({[ 1%nat := (ann, WLookup) ]} : gmap nat _) !! t = Some x) in Hx.
    apply lookup_singleton_Some in Hx as [_ <-]. done. }
  apply (runs_next Q start s1 _ H1); [exact (r_arrive 0 ann s1 eq_refl)|].
  apply HQ; [done|]. intros t x Hx.
  change (({[ 0%nat := (ann, WLookup); 1%nat := (ann, WLookup) ]} : gmap nat _) !! t = Some x) in Hx.
  apply lookup_insert_Some in Hx as [[_ <-]|[_ [_ <-]%lookup_singleton_Some]]; done.
Qed.

Lemma start_ok : in_order start.
Proof.
  split.
  - split; [apply (bool_decide_unpack _); by vm_compute | | | by vm_compute];
      intros i Hi; repeat (apply elem_of_cons in Hi as [->|Hi]; [by vm_compute|]); by apply elem_of_nil in Hi.
  - apply (bool_decide_unpack _). by vm_compute.
  - intros u Hu. repeat (apply elem_of_cons in Hu as [->|Hu]; [done|]). by apply elem_of_nil in Hu.
Qed.

Lemma after_scheduled : schedule order both = Some after.
Proof.
  assert (H : (if schedule order both then true else false) = true) by (vm_compute; reflexivity).
  unfold after. destruct (schedule order both); [reflexivity | discriminate].
Qed.

Lemma after_runs : runs (λ _, True) start after.
Proof.
  apply (schedule_runs _ (λ _, True) order start both after);
    [done | done | done | by apply both_runs | exact after_scheduled].
Qed.

(** Worker 1 waits until 0 has its answer. *)
Definition mid : rsys := match schedule (replicate 7 0%nat) both with Some s => s | None => both end.
Definition serial : rsys := match schedule (replicate 1 1%nat) mid with Some s => s | None => mid end.

Lemma serial_scheduled :
  schedule (replicate 7 0%nat) both = Some mid ∧ schedule (replicate 1 1%nat) mid = Some serial.
Proof.
  assert (H : (if schedule (replicate 7 0%nat) both then true else false) = true) by (vm_compute; reflexivity).
  assert (H' : (if schedule (replicate 1 1%nat) mid then true else false) = true) by (vm_compute; reflexivity).
  split.
  - unfold mid. destruct (schedule _ both); [reflexivity | discriminate].
  - unfold serial. destruct (schedule _ mid); [reflexivity | discriminate].
Qed.

Lemma serial_one_inside : runs one_inside start serial.
Proof.
  destruct serial_scheduled as [E1 E2].
  assert (Hall : ∀ t (s : rsys (D := Demo.database)), (∀ t' x, workers s !! t' = Some x → x.2 = WLookup) → alone t s).
  { intros t s Hs t' x _ Hx. by rewrite (Hs t' x Hx). }
  assert (Hb : ∀ t' x, workers both !! t' = Some x → x.2 = WLookup).
  { intros t' x Hx. change (({[ 0%nat := (ann, WLookup); 1%nat := (ann, WLookup) ]} : gmap nat _) !! t' = Some x) in Hx.
    by apply lookup_insert_Some in Hx as [[_ <-]|[_ [_ <-]%lookup_singleton_Some]]. }
  apply (serial_runs 1 1 start mid serial); [| |exact E2].
  - assert (H : map_Forall (λ t' (x : User * wpos), t' = 1%nat ∨ inside x.2 = false) (workers mid))
      by (apply (bool_decide_unpack _); vm_compute; reflexivity).
    intros t' x Hne Hx. by destruct (H t' x Hx).
  - apply (serial_runs 7 0 start both mid); [by apply Hall | | exact E1].
    apply both_runs. intros s _ Hs. apply (alone_one 0), Hall, Hs.
Qed.
End Race.

Lemma registrations_interleaved_witness :
  (workers Race.serial !! 1%nat = Some (Race.ann, WAnswer already) ∧ NoDup (names (mgr Race.serial))) ∧
  workers Race.after !! 0%nat = Some (Race.ann, WAnswer ok_answer) ∧
  ∃ new, all_cached_users_ (mgr Race.after) = all_cached_users_ Race.start ++ new ∧
    username <$> new ≡ₚ granted (workers Race.after).
Proof.
  split.
  { split; [vm_compute; reflexivity|].
    apply (registrations_interleaved Race.start Race.serial).
    - exact Race.start_ok.
    - vm_compute. reflexivity.
    - apply (runs_any one_inside). exact Race.serial_one_inside.
    - exact Race.serial_one_inside. }
  split; [vm_compute; reflexivity|].
  destruct (registrations_interleaved Race.start Race.after) as [(new & E & Hg & _) _].
  - exact Race.start_ok.
  - vm_compute. reflexivity.
  - exact Race.after_runs.
  - exists new. split; [exact E | exact Hg].
Defined.

(** C34. Two registrations at once. There is an interleaving of two requests for the same free
    name, with a database that executes every statement, in which both are answered with
    success: the name is cached twice, because the lookup and the insertion are two critical
    sections; and both cached users have the same id, because [addUser] reads its counter
    again after the statement, so the cached id of the first is not the one in its row. *)
Theorem registrations_race :
  ∃ s, runs (λ _, True) Race.start s ∧
    workers s !! 0%nat = Some (Race.ann, WAnswer ok_answer) ∧
    workers s !! 1%nat = Some (Race.ann, WAnswer ok_answer) ∧
    ids (mgr s) = [1; 2; 4; 4] ∧ drop 2 (names (mgr s)) = [lit "ann"; lit "ann"] ∧
    Demo.log (db (mgr s)) = c_str <$> [insert_user_sql 3 Race.ann; insert_user_sql 4 Race.ann].
Proof.
  exists Race.after. split.
  - exact Race.after_runs.
  - repeat split; vm_compute; reflexivity.
Qed.
