(* ===== verification/Logger.v ===== *)
(** * The logger: [log/whisp_log.h], [log/whisp_log.cpp]

    Any thread appends lines to a waiting list; a writer thread takes them one by one, prints
    them and writes them to the current file, opening a new file when the current one has
    reached [roll_size_]. A step of the writer is one pass of a part of its loop; other
    threads' calls come between. The text [vsnprintf] produces, the time and the thread id
    are arguments, and so are the answers of [fopen] and [fwrite].

    The disk is a map from file names to contents. [segments] records which lines the writer
    put into which file, in the order of the [fopen] calls. *)
From S2P Require Import Prelude Timers.

Inductive LOG_LEVEL :=
| LOG_LEVEL_TRACE | LOG_LEVEL_DEBUG | LOG_LEVEL_INFO | LOG_LEVEL_WARNING | LOG_LEVEL_ERROR
| LOG_LEVEL_SYSERROR | LOG_LEVEL_FATAL | LOG_LEVEL_CRITICAL.

#[export] Instance LOG_LEVEL_eq_dec : EqDecision LOG_LEVEL.
Proof. solve_decision. Defined.

(** The enumerators' values. *)
Definition level_num (l : LOG_LEVEL) : Z :=
  match l with
  | LOG_LEVEL_TRACE => 0 | LOG_LEVEL_DEBUG => 1 | LOG_LEVEL_INFO => 2 | LOG_LEVEL_WARNING => 3
  | LOG_LEVEL_ERROR => 4 | LOG_LEVEL_SYSERROR => 5 | LOG_LEVEL_FATAL => 6 | LOG_LEVEL_CRITICAL => 7
  end.

Definition MAX_LOG_LINE_LENGTH : nat := 256.

(** Where the writer thread is: at the top of its loop, at the waiting list, behind its end. *)
Inductive writer_pos := WTop | WWait | WDone.

Record WhispLog := mkLog {
  log_file_ : option bytes;                  (* the name of the open file *)
  log_name_ : bytes;
  log_id_ : bytes;
  truncate_flag_ : bool;
  cur_level_ : LOG_LEVEL;
  roll_size_ : Z;
  writen_size_ : Z;
  write_wating_lists_ : list bytes;
  exit_flag_ : bool;
  writer : writer_pos;
  disk : gmap bytes bytes;
  console : list bytes;
  segments : list (bytes * list bytes);
  accepted : list bytes;                     (* history: every line put into the list *)
}.

(** [log_init]; [pid] is the text of the process id. The writer is started. *)
Definition log_init (log_file_name : option bytes) (truncate_flag : bool) (roll_size : Z)
    (pid : bytes) (d : gmap bytes bytes) : WhispLog :=
  mkLog None (default [] log_file_name) pid truncate_flag LOG_LEVEL_INFO (u64 roll_size) 0 []
    false WTop d [] [] [].

Definition log_set_level (levelv : LOG_LEVEL) (l : WhispLog) : WhispLog :=
  if level_num LOG_LEVEL_FATAL <? level_num levelv then l
  else mkLog (log_file_ l) (log_name_ l) (log_id_ l) (truncate_flag_ l) levelv (roll_size_ l)
         (writen_size_ l) (write_wating_lists_ l) (exit_flag_ l) (writer l) (disk l) (console l)
         (segments l) (accepted l).

(** ** Lines *)
Definition level_tag (levelv : LOG_LEVEL) : bytes :=
  match levelv with
  | LOG_LEVEL_TRACE => lit "[TRACE]"
  | LOG_LEVEL_DEBUG => lit "[DEBUG]"
  | LOG_LEVEL_INFO => lit "[INFO]"
  | LOG_LEVEL_WARNING => lit "[WARN]"
  | LOG_LEVEL_ERROR => lit "[ERROR]"
  | LOG_LEVEL_SYSERROR => lit "[SYSE]"
  | LOG_LEVEL_FATAL => lit "[FATAL]"
  | LOG_LEVEL_CRITICAL => lit "[CRITICAL]"
  end.

Definition get_time (time : tm) (usec : Z) : bytes :=
  snprintf 64 (lit "[" ++ pad_zero 4 (tm_year time + 1900) ++ lit "-" ++ pad_zero 2 (tm_mon time + 1) ++
    lit "-" ++ pad_zero 2 (tm_mday time) ++ lit " " ++ pad_zero 2 (tm_hour time) ++ lit ":" ++
    pad_zero 2 (tm_min time) ++ lit ":" ++ pad_zero 2 (tm_sec time) ++ lit ":" ++
    pad_zero 3 (Z.quot usec 1000) ++ lit "]").

Definition set_line_perfix (levelv : LOG_LEVEL) (time : tm) (usec : Z) (tid : bytes) : bytes :=
  level_tag levelv ++ lit "[" ++ get_time time usec ++ lit "]" ++
  snprintf 32 (lit "[" ++ tid ++ lit "]").

Definition end_line (l : WhispLog) (s : bytes) : bytes :=
  if bool_decide (log_name_ l = []) then s else s ++ [x0a].

(** The formatted message is stored with the terminating NUL [vsnprintf] writes, which is
    part of the string. *)
Definition make_line (prefix msg : bytes) (l : WhispLog) : bytes :=
  let output_line := prefix ++ msg ++ [x00] in
  end_line l (if truncate_flag_ l then take MAX_LOG_LINE_LENGTH output_line else output_line).

Definition make_line_at (prefix file_name : bytes) (line_num : Z) (msg : bytes) (l : WhispLog) : bytes :=
  let file_info := snprintf 512 (lit "[" ++ file_name ++ lit ":" ++ dec line_num ++ lit "]") in
  let log_msg := msg ++ [x00] in
  end_line l (prefix ++ file_info ++
    (if truncate_flag_ l then take MAX_LOG_LINE_LENGTH log_msg else log_msg)).

(** ** Files *)
Definition new_file_name (timef : bytes) (l : WhispLog) : bytes :=
  log_name_ l ++ lit "." ++ timef ++ lit "." ++ log_id_ l ++ lit ".log".

(** [fopen(name, "w+")] creates or empties the file; [ok] is its answer. *)
Definition create_file (ok : bool) (name : bytes) (l : WhispLog) : bool * WhispLog :=
  if ok then
    (true, mkLog (Some name) (log_name_ l) (log_id_ l) (truncate_flag_ l) (cur_level_ l)
             (roll_size_ l) (writen_size_ l) (write_wating_lists_ l) (exit_flag_ l) (writer l)
             (<[name := []]> (disk l)) (console l) (segments l ++ [(name, [])]) (accepted l))
  else
    (false, mkLog None (log_name_ l) (log_id_ l) (truncate_flag_ l) (cur_level_ l) (roll_size_ l)
              (writen_size_ l) (write_wating_lists_ l) (exit_flag_ l) (writer l) (disk l)
              (console l) (segments l) (accepted l)).

(** The loop of [write2file]: [rets] are the results of [fwrite], which writes the first
    [ret] bytes. [None]: the loop has not ended with these calls. *)
Fixpoint write_loop (rets : list Z) (tmp written : bytes) : option (bool * bytes) :=
  match rets with
  | [] => None
  | ret :: rets' =>
      if ret <? 0 then Some (false, written)
      else
        let written' := written ++ take (Z.to_nat ret) tmp in
        let tmp' := if ret <=? Zlen tmp then drop (Z.to_nat ret) tmp else tmp in
        if bool_decide (tmp' = []) then Some (true, written') else write_loop rets' tmp' written'
  end.

Definition append_file (name data : bytes) (d : gmap bytes bytes) : gmap bytes bytes :=
  <[name := default [] (d !! name) ++ data]> d.

Definition write2file (rets : list Z) (data : bytes) (l : WhispLog) : option (bool * WhispLog) :=
  match log_file_ l with
  | None => None
  | Some name =>
      '(ok, written) ← write_loop rets data [];
      Some (ok, mkLog (log_file_ l) (log_name_ l) (log_id_ l) (truncate_flag_ l) (cur_level_ l)
                  (roll_size_ l) (writen_size_ l) (write_wating_lists_ l) (exit_flag_ l) (writer l)
                  (append_file name written (disk l)) (console l) (segments l) (accepted l))
  end.

(** ** Logging *)
Definition enqueue (line : bytes) (l : WhispLog) : WhispLog :=
  mkLog (log_file_ l) (log_name_ l) (log_id_ l) (truncate_flag_ l) (cur_level_ l) (roll_size_ l)
    (writen_size_ l) (write_wating_lists_ l ++ [line]) (exit_flag_ l) (writer l) (disk l)
    (console l) (segments l) (accepted l ++ [line]).

Definition print_line (line : bytes) (l : WhispLog) : WhispLog :=
  mkLog (log_file_ l) (log_name_ l) (log_id_ l) (truncate_flag_ l) (cur_level_ l) (roll_size_ l)
    (writen_size_ l) (write_wating_lists_ l) (exit_flag_ l) (writer l) (disk l)
    (console l ++ [line]) (segments l) (accepted l).

(** What both overloads do with their line. A FATAL line is written at once. *)
Definition output_line (levelv : LOG_LEVEL) (line timef : bytes) (opened : bool) (rets : list Z)
    (l : WhispLog) : option (bool * WhispLog) :=
  if negb (bool_decide (levelv = LOG_LEVEL_FATAL)) then Some (true, enqueue line l)
  else
    let l1 := print_line line l in
    if bool_decide (log_name_ l = []) then Some (true, l1)
    else
      let '(ok, l2) := if bool_decide (log_file_ l1 = None)
                       then create_file opened (new_file_name timef l1) l1 else (true, l1) in
      if negb ok then Some (false, l2)
      else '(_, l3) ← write2file rets line l2; Some (true, l3).

Definition below_level (levelv : LOG_LEVEL) (l : WhispLog) : bool :=
  (level_num levelv <? level_num (cur_level_ l)) && negb (bool_decide (levelv = LOG_LEVEL_CRITICAL)).

(** [msg] is what [vsnprintf] produces, [None] when it fails. *)
Definition log_output (levelv : LOG_LEVEL) (prefix : bytes) (msg : option bytes) (timef : bytes)
    (opened : bool) (rets : list Z) (l : WhispLog) : option (bool * WhispLog) :=
  if below_level levelv l then Some (false, l)
  else match msg with
       | None => Some (false, l)
       | Some text => output_line levelv (make_line prefix text l) timef opened rets l
       end.

Definition log_output_at (levelv : LOG_LEVEL) (prefix file_name : bytes) (line_num : Z)
    (msg : option bytes) (timef : bytes) (opened : bool) (rets : list Z) (l : WhispLog)
    : option (bool * WhispLog) :=
  if below_level levelv l then Some (false, l)
  else match msg with
       | None => Some (false, l)
       | Some text =>
           output_line levelv (make_line_at prefix file_name line_num text l) timef opened rets l
       end.

(** ** Hexadecimal dumps: [log_output_binary], [form_log] *)
Definition hex_digit (n : Z) : byte := nth (Z.to_nat n) (lit "0123456789abcdef") x00.
Definition hex2 (b : byte) : bytes :=
  [hex_digit (Z.land (Z.shiftr (Z_of_byte b) 4) 15); hex_digit (Z.land (Z_of_byte b) 15)].
Definition ull2str (n : Z) : bytes := pad_zero 6 (u32 n).
Definition PRINT_SIZE : nat := 512.

(** [form_log]: [out] is what has been written to [buf] (whose rest is zero, so [strcat]
    appends behind it), [lsize] the number of bytes printed. [index] counts the rows. *)
Fixpoint form_log_loop (data : bytes) (lsize : nat) (head_len : nat) (buf_size index : Z) (out : bytes)
    : Z * bytes :=
  match data with
  | [] => (index, out)
  | b :: data' =>
      if Zlen out + 10 <? buf_size then
        let row := bool_decide (lsize mod 32 = 0)%nat in
        let head := ull2str index ++ [x20] in
        let out1 := if row then out ++ (if bool_decide (head_len = 0%nat) then [] else [x0a]) ++ head
                    else out in
        let head_len1 := if row then length head else head_len in
        let index1 := if row then index + 1 else index in
        let out2 := if bool_decide (lsize mod 16 = 0)%nat && negb (bool_decide (head_len1 = 0%nat))
                    then out1 ++ [x20] else out1 in
        form_log_loop data' (S lsize) head_len1 buf_size index1 (out2 ++ hex2 b)
      else (index, out)
  end.

(** The index behind, and the text; more text than [buf_size] is out of bounds. *)
Definition form_log (index buf_size : Z) (data : bytes) : outcome (Z * bytes) :=
  let '(index', out) := form_log_loop data 0 0 buf_size index [] in
  if Zlen out + 2 <=? buf_size then Ok (index', out ++ [x0a]) else Stop OutOfBounds.

(** The chunks of [PRINT_SIZE] bytes; fuel: one per byte and one more. *)
Fixpoint dump_chunks (fuel : nat) (index : Z) (data : bytes) : outcome bytes :=
  match fuel, data with
  | S fuel', _ :: _ =>
      '(index', text) ← form_log index (Z.of_nat (PRINT_SIZE * 3 + 8)) (take PRINT_SIZE data);
      rest ← dump_chunks fuel' index' (drop PRINT_SIZE data);
      Ok (text ++ rest)
  | _, _ => Ok []
  end.

Definition log_output_binary (address : Z) (data : bytes) (l : WhispLog) : outcome (bool * WhispLog) :=
  text ← dump_chunks (S (length data)) 0 data;
  Ok (true, enqueue (lit "address[" ++ dec address ++ lit "] size[" ++ dec (Zlen data) ++ lit "] " ++
                     [x0a] ++ text) l).

(** ** The writer thread *)
Definition at_pos (p : writer_pos) (l : WhispLog) : WhispLog :=
  mkLog (log_file_ l) (log_name_ l) (log_id_ l) (truncate_flag_ l) (cur_level_ l) (roll_size_ l)
    (writen_size_ l) (write_wating_lists_ l) (exit_flag_ l) p (disk l) (console l) (segments l)
    (accepted l).
Definition set_writen (n : Z) (l : WhispLog) : WhispLog :=
  mkLog (log_file_ l) (log_name_ l) (log_id_ l) (truncate_flag_ l) (cur_level_ l) (roll_size_ l)
    n (write_wating_lists_ l) (exit_flag_ l) (writer l) (disk l) (console l) (segments l)
    (accepted l).
Definition set_exit (l : WhispLog) : WhispLog :=
  mkLog (log_file_ l) (log_name_ l) (log_id_ l) (truncate_flag_ l) (cur_level_ l) (roll_size_ l)
    (writen_size_ l) (write_wating_lists_ l) true (writer l) (disk l) (console l) (segments l)
    (accepted l).
Definition pop (ws : list bytes) (l : WhispLog) : WhispLog :=
  mkLog (log_file_ l) (log_name_ l) (log_id_ l) (truncate_flag_ l) (cur_level_ l) (roll_size_ l)
    (writen_size_ l) ws (exit_flag_ l) (writer l) (disk l) (console l) (segments l) (accepted l).

(** The line is recorded with the file it went to. *)
Fixpoint add_to_last (line : bytes) (segs : list (bytes * list bytes)) : list (bytes * list bytes) :=
  match segs with
  | [] => []
  | [(n, ls)] => [(n, ls ++ [line])]
  | s :: segs' => s :: add_to_last line segs'
  end.
Definition record_line (line : bytes) (l : WhispLog) : WhispLog :=
  mkLog (log_file_ l) (log_name_ l) (log_id_ l) (truncate_flag_ l) (cur_level_ l) (roll_size_ l)
    (writen_size_ l) (write_wating_lists_ l) (exit_flag_ l) (writer l) (disk l) (console l)
    (add_to_last line (segments l)) (accepted l).

(** The first part of the loop body: open a file if there is none or it is full. *)
Definition writer_top (timef : bytes) (opened : bool) (l : WhispLog) : WhispLog :=
  if bool_decide (log_name_ l = []) then at_pos WWait l
  else if bool_decide (log_file_ l = None) || (roll_size_ l <=? writen_size_ l) then
    let '(ok, l1) := create_file opened (new_file_name timef l) (set_writen 0 l) in
    at_pos (if ok : bool then WWait else WDone) l1
  else at_pos WWait l.

(** The second part: wait for a line, or end; [None] while the thread waits, and while
    [fwrite] has not written everything. *)
Definition writer_wait (rets : list Z) (l : WhispLog) : option WhispLog :=
  match write_wating_lists_ l with
  | [] => if exit_flag_ l then Some (at_pos WDone l) else None
  | out_line :: ws =>
      let l1 := print_line out_line (pop ws l) in
      if bool_decide (log_name_ l = []) then Some (at_pos WTop l1)
      else
        '(ok, l2) ← write2file rets out_line l1;
        if negb ok then Some (at_pos WDone l2)
        else Some (at_pos WTop
               (set_writen (u64 (writen_size_ l2 + Zlen out_line)) (record_line out_line l2)))
  end.

(** [log_uninit]: [set_exit] and the notification, then, when the writer has ended, the file
    is closed. *)
Definition log_uninit_close (l : WhispLog) : option WhispLog :=
  match writer l with
  | WDone =>
      Some (mkLog None (log_name_ l) (log_id_ l) (truncate_flag_ l) (cur_level_ l) (roll_size_ l)
              (writen_size_ l) (write_wating_lists_ l) (exit_flag_ l) WDone (disk l) (console l)
              (segments l) (accepted l))
  | _ => None
  end.

(** ** Runs

    The writer's steps, and other threads' calls between them. Lines of level FATAL, which
    the calling thread writes to the file itself, beside the writer, are left out. [fwrite]
    answers at most what it was given, and lines are shorter than 2^31 bytes, so that its
    answer fits the [int] it is stored in. *)
Fixpoint writes_ok (rets : list Z) (tmp : bytes) : Prop :=
  match rets with
  | [] => True
  | ret :: rets' => 0 ≤ ret ≤ Zlen tmp ∧ writes_ok rets' (drop (Z.to_nat ret) tmp)
  end.

Definition short_lines (l : WhispLog) : Prop := Forall (λ x, Zlen x < 2 ^ 31) (accepted l).

Inductive writer_step : WhispLog → WhispLog → Prop :=
| w_top timef opened l : writer l = WTop → writer_step l (writer_top timef opened l)
| w_wait rets l l' :
    writer l = WWait →
    match write_wating_lists_ l with [] => True | line :: _ => writes_ok rets line end →
    writer_wait rets l = Some l' → writer_step l l'.

Inductive log_step : WhispLog → WhispLog → Prop :=
| s_writer l l' : writer_step l l' → log_step l l'
| s_output levelv prefix msg timef opened rets l b l' :
    levelv ≠ LOG_LEVEL_FATAL → short_lines l' →
    log_output levelv prefix msg timef opened rets l = Some (b, l') → log_step l l'
| s_output_at levelv prefix file_name line_num msg timef opened rets l b l' :
    levelv ≠ LOG_LEVEL_FATAL → short_lines l' →
    log_output_at levelv prefix file_name line_num msg timef opened rets l = Some (b, l') →
    log_step l l'
| s_binary address data l b l' :
    short_lines l' → log_output_binary address data l = Ok (b, l') → log_step l l'
| s_level levelv l : log_step l (log_set_level levelv l)
| s_exit l : log_step l (set_exit l).

Section writing.
Implicit Types l : WhispLog.

Definition total (ls : list bytes) : Z := Zlen (concat ls).

(** The lines of a file: only the last one may pass the rolling size. *)
Definition rolled_ok (roll : Z) (ls : list bytes) : Prop :=
  ∀ ls0 x, ls = ls0 ++ [x] → total ls0 < roll.

(** Files in the order of their creation: all but the last are full. *)
Definition files_ok (roll : Z) (segs : list (bytes * list bytes)) : Prop :=
  ∀ segs0 n ls, segs = segs0 ++ [(n, ls)] →
    rolled_ok roll ls ∧ Forall (λ s, rolled_ok roll s.2 ∧ roll ≤ total s.2) segs0.

(** The state of the open file. *)
Definition open_ok l : Prop :=
  (log_file_ l = None ∧ segments l = []) ∨
  ∃ n segs ls, log_file_ l = Some n ∧ segments l = segs ++ [(n, ls)] ∧ writen_size_ l = total ls.

Record log_inv l : Prop := {
  li_name : log_name_ l ≠ [];
  li_roll : 0 < roll_size_ l < 2 ^ 63;
  li_short : short_lines l;
  li_lines : concat (segments l).*2 ++ write_wating_lists_ l = accepted l;
  li_disk : ∀ s1 n ls s2, segments l = s1 ++ (n, ls) :: s2 → n ∉ s2.*1 → disk l !! n = Some (concat ls);
  li_files : files_ok (roll_size_ l) (segments l);
  li_open : writer l ≠ WDone → open_ok l;
  li_wait : writer l = WWait → log_file_ l ≠ None ∧ writen_size_ l < roll_size_ l;
}.

Lemma write_loop_spec rets tmp written ok w :
  writes_ok rets tmp → write_loop rets tmp written = Some (ok, w) → ok = true ∧ w = written ++ tmp.
Proof.
  revert tmp written. induction rets as [|ret rets IH]; intros tmp written Hr; simpl; [done|].
  destruct Hr as [Hret Hr]. destruct (Z.ltb_spec ret 0); [lia|].
  destruct (Z.leb_spec ret (Zlen tmp)); [|lia]. case_bool_decide as Hd.
  - intros [= <- <-]. split; [done|]. f_equal. rewrite <- (take_drop (Z.to_nat ret) tmp) at 2.
    by rewrite Hd, app_nil_r.
  - intros E. destruct (IH _ _ Hr E) as [-> ->]. split; [done|].
    by rewrite <- app_assoc, take_drop.
Qed.

Lemma add_to_last_app line segs n ls :
  add_to_last line (segs ++ [(n, ls)]) = segs ++ [(n, ls ++ [line])].
Proof.
  induction segs as [|s segs IH]; [done|]. cbn [app add_to_last].
  rewrite IH. destruct s. by destruct segs.
Qed.

Lemma split_snoc {A} (l s1 s2 : list A) x y :
  l ++ [x] = s1 ++ y :: s2 →
  (s2 = [] ∧ s1 = l ∧ y = x) ∨ ∃ s3, s2 = s3 ++ [x] ∧ l = s1 ++ y :: s3.
Proof.
  destruct s2 as [|z s3 _] using rev_ind.
  - intros [<- <-]%app_inj_tail. by left.
  - rewrite app_comm_cons, app_assoc. intros [-> ->]%app_inj_tail. right. by exists s3.
Qed.

Lemma total_app ls x : total (ls ++ [x]) = total ls + Zlen x.
Proof. unfold total. rewrite concat_app. simpl. rewrite app_nil_r. apply Zlen_app. Qed.

Lemma log_inv_init name tr roll pid d :
  name ≠ [] → 0 < roll < 2 ^ 63 → log_inv (log_init (Some name) tr roll pid d).
Proof.
  intros Hn Hr. split; simpl; try done.
  - unfold uintw. change (2 ^ 64) with (2 * 2 ^ 63). rewrite Z.mod_small; lia.
  - constructor.
  - intros s1 n ls s2 E. by destruct s1.
  - intros segs n ls E. by destruct segs.
  - intros _. by left.
Qed.

(** A new file, empty: the one before it, if any, is full. *)
Lemma log_inv_top timef opened l : log_inv l → writer l = WTop → log_inv (writer_top timef opened l).
Proof.
  intros [Hn Hr Hs Hl Hd Hf Ho _] Hw. unfold writer_top. rewrite bool_decide_eq_false_2 by done.
  specialize (Ho ltac:(congruence)).
  destruct (bool_decide (log_file_ l = None) || (roll_size_ l <=? writen_size_ l)) eqn:Hroll.
  - unfold create_file. destruct opened; (split; simpl; try done).
    + rewrite fmap_app. simpl. rewrite concat_app. simpl. by rewrite !app_nil_r.
    + intros s1 n ls s2 [(-> & _ & [= -> ->])|(s3 & -> & E)]%split_snoc Hn2; [by rewrite lookup_insert_eq|].
      rewrite fmap_app, not_elem_of_app in Hn2. destruct Hn2 as [Hn3 Hn2].
      rewrite lookup_insert_ne; [by eapply Hd|]. intros <-. apply Hn2. simpl. set_solver.
    + intros segs n ls [E [= <- <-]]%app_inj_tail. subst segs. split.
      { intros ls0 x E. by destruct ls0. }
      destruct Ho as [[_ ->]|(n0 & segs & ls & Hfile & E & Hsz)]; [constructor|].
      rewrite Hfile in Hroll. simpl in Hroll. apply Z.leb_le in Hroll. rewrite E.
      destruct (Hf segs n0 ls E) as [Hro Hall]. apply Forall_app. split; [done|].
      repeat constructor; simpl; [done | lia].
    + intros _. right. eexists _, (segments l), []. done.
    + intros _. split; [done | lia].
  - apply orb_false_iff in Hroll as [Hfile%bool_decide_eq_false Hsz%Z.leb_gt].
    by split.
Qed.

(** One line to the open file. *)
Lemma log_inv_wait rets l l' :
  log_inv l → writer l = WWait →
  match write_wating_lists_ l with [] => True | line :: _ => writes_ok rets line end →
  writer_wait rets l = Some l' → log_inv l'.
Proof.
  intros [Hn Hr Hs Hl Hd Hf Ho Hwt] Hw Hrets. unfold writer_wait.
  destruct (Hwt Hw) as [Hfile Hsize]. specialize (Ho ltac:(congruence)).
  destruct Ho as [[? _]|(n & segs & ls & Hopen & Hseg & Hsz)]; [done|].
  destruct (write_wating_lists_ l) as [|line ws] eqn:Ew.
  - destruct (exit_flag_ l); [|done]. intros [= <-]. split; simpl; try done. by rewrite Ew.
  - rewrite bool_decide_eq_false_2 by done. unfold write2file. cbn [log_file_ print_line pop].
    rewrite Hopen. destruct (write_loop rets line []) as [[ok w]|] eqn:Ewl; [|done].
    apply write_loop_spec in Ewl as [-> ->]; [|done]. cbn [mbind option_bind app negb].
    intros [= <-]. rewrite Hseg in *. cbn [log_file_ record_line].
    assert (Hlen : 0 ≤ Zlen line < 2 ^ 31).
    { split; [apply Zlen_nonneg|]. unfold short_lines in Hs. rewrite <- Hl in Hs.
      apply Forall_app in Hs as [_ Hs]. by apply Forall_cons in Hs as [? _]. }
    assert (0 ≤ total ls) by apply Zlen_nonneg.
    destruct (Hf segs n ls eq_refl) as [Hro Hall].
    split; simpl; rewrite ?Hseg, ?add_to_last_app; try done.
    + rewrite <- Hl, !fmap_app. simpl. rewrite !concat_app. simpl. rewrite !app_nil_r, <- !app_assoc.
      done.
    + unfold append_file. intros s1 m ks s2 [(-> & _ & [= -> ->])|(s3 & -> & E)]%split_snoc Hm.
      * rewrite lookup_insert_eq, (Hd segs n ls [] eq_refl) by apply not_elem_of_nil. simpl.
        rewrite concat_app. simpl. by rewrite app_nil_r.
      * rewrite fmap_app, not_elem_of_app in Hm. destruct Hm as [Hm3 Hm].
        rewrite lookup_insert_ne by (intros <-; apply Hm; simpl; set_solver).
        apply (Hd s1 m ks (s3 ++ [(n, ls)])); [by rewrite E, <- app_assoc|].
        rewrite fmap_app, not_elem_of_app. done.
    + intros segs' m ks [-> [= -> <-]]%app_inj_tail. split; [|done].
      intros ls0 x [-> _]%app_inj_tail. lia.
    + intros _. right. exists n, segs, (ls ++ [line]). split; [done|].
      split; [simpl; by rewrite ?Hseg, ?add_to_last_app|]. cbn [writen_size_ at_pos set_writen].
      rewrite total_app, Hsz. unfold uintw. change (2 ^ 64) with (2 * 2 ^ 63).
      rewrite Z.mod_small; lia.
Qed.

Lemma log_inv_enqueue line l : log_inv l → short_lines (enqueue line l) → log_inv (enqueue line l).
Proof.
  intros [Hn Hr Hs Hl Hd Hf Ho Hwt] Hsh. split; simpl; try done.
  by rewrite app_assoc, Hl.
Qed.

Lemma log_inv_step l l' : log_inv l → log_step l l' → log_inv l'.
Proof.
  intros Hl. assert (Hout : ∀ levelv line timef opened rets b l1,
    levelv ≠ LOG_LEVEL_FATAL → short_lines l1 →
    output_line levelv line timef opened rets l = Some (b, l1) → log_inv l1).
  { intros * Hlev Hs. unfold output_line. rewrite bool_decide_eq_false_2 by done.
    intros [= <- <-]. by apply log_inv_enqueue. }
  destruct 1 as [l l' [timef opened l0 Hw|rets l0 l1 Hw Hrets E]
    |levelv prefix msg timef opened rets l b l' Hlev Hs E
    |levelv prefix fn ln msg timef opened rets l b l' Hlev Hs E|address data l b l' Hs E|levelv l|l].
  - by apply log_inv_top.
  - by eapply log_inv_wait.
  - unfold log_output in E. destruct (below_level levelv l); [by simplify_eq|].
    destruct msg; [|by simplify_eq]. by eapply Hout.
  - unfold log_output_at in E. destruct (below_level levelv l); [by simplify_eq|].
    destruct msg; [|by simplify_eq]. by eapply Hout.
  - unfold log_output_binary in E. destruct (dump_chunks _ _ _); [|done].
    cbn [mbind outcome_bind] in E. injection E as <- <-. by apply log_inv_enqueue.
  - unfold log_set_level. destruct (_ <? _); [done|]. destruct Hl. by split.
  - destruct Hl. by split.
Qed.

(** [fwrite] answers that add up to the line write it. *)
Lemma write_loop_sum rets tmp written :
  rets ≠ [] → writes_ok rets tmp → foldr Z.add 0 rets = Zlen tmp →
  write_loop rets tmp written = Some (true, written ++ tmp).
Proof.
  revert tmp written. induction rets as [|ret rets IH]; intros tmp written Hne; [done|].
  cbn [writes_ok foldr write_loop]. intros [Hret Hr] Hsum. destruct (Z.ltb_spec ret 0); [lia|].
  destruct (Z.leb_spec ret (Zlen tmp)); [|lia].
  assert (Hd : Zlen (drop (Z.to_nat ret) tmp) = foldr Z.add 0 rets).
  { unfold Zlen in *. rewrite length_drop. lia. }
  case_bool_decide as He.
  - do 2 f_equal. rewrite <- (take_drop (Z.to_nat ret) tmp) at 2. by rewrite He, app_nil_r.
  - rewrite IH; [by rewrite <- app_assoc, take_drop | | done | done].
    intros ->. apply He, nil_length_inv. unfold Zlen in Hd. simpl in Hd. lia.
Qed.

(** [fwrite] that writes nothing, as on a full disk: the loop does not end. *)
Lemma write_loop_stuck k tmp written : tmp ≠ [] → write_loop (replicate k 0) tmp written = None.
Proof.
  intros Hd. induction k as [|k IH]; [done|]. cbn [replicate write_loop Z.ltb Z.compare].
  pose proof (Zlen_nonneg tmp). destruct (Z.leb_spec 0 (Zlen tmp)); [|lia].
  rewrite drop_0, bool_decide_eq_false_2 by done. by rewrite take_0, app_nil_r.
Qed.

(** What the writer does with the first line. *)
Lemma writer_wait_line rets line ws l :
  log_inv l → writer l = WWait → write_wating_lists_ l = line :: ws →
  (rets ≠ [] → writes_ok rets line → foldr Z.add 0 rets = Zlen line →
     ∃ l', writer_wait rets l = Some l' ∧ writer l' = WTop ∧ write_wating_lists_ l' = ws) ∧
  (line ≠ [] → ∀ k, writer_wait (replicate k 0) l = None).
Proof.
  intros Hinv Hw El. destruct (li_wait l Hinv Hw) as [Hfile _].
  destruct (log_file_ l) as [n|] eqn:Efile; [|done].
  unfold writer_wait. rewrite El, bool_decide_eq_false_2 by apply Hinv.
  unfold write2file. cbn [log_file_ print_line pop]. rewrite Efile. split.
  - intros Hne Hr Hs. rewrite write_loop_sum by done. by eexists.
  - intros Hl k. by rewrite write_loop_stuck.
Qed.

(** The writer ends without a file, or when it is told to and nothing is waiting. *)
Lemma writer_ends l l' :
  log_name_ l ≠ [] → writer_step l l' → writer l' = WDone →
  log_file_ l' = None ∨ (exit_flag_ l = true ∧ write_wating_lists_ l = []).
Proof.
  intros Hname Hstep Hdone. destruct Hstep as [timef opened l Hw|rets l l' Hw Hrets E].
  - left. unfold writer_top in *. rewrite bool_decide_eq_false_2 in * by done.
    destruct (_ || _); [|done]. unfold create_file in *. by destruct opened.
  - unfold writer_wait in E. destruct (write_wating_lists_ l) as [|line ws].
    + right. by destruct (exit_flag_ l).
    + rewrite bool_decide_eq_false_2 in E by done. unfold write2file in E.
      cbn [log_file_ print_line pop] in E. destruct (log_file_ l); [|done].
      destruct (write_loop rets line []) as [[ok w]|] eqn:Ew; [|done].
      apply write_loop_spec in Ew as [-> ->]; [|done]. simpl in E. by injection E as <-.
Qed.

(** C21. What becomes of the log lines, in every run without a line of level FATAL of a logger
    with a file name: no line is dropped, repeated or reordered on its way to a file. The
    lines written to the files, in the order in which the files were opened, followed by the
    waiting ones, are the lines accepted, in order, dumps included. On the disk a name holds
    exactly the lines written since it was opened last: all its lines if the name was used
    once, while a name used again, as happens when the file rolls twice in a second, has
    lost the lines before. In a file only the last line passes the rolling size, and every
    file but the last has reached it. A waiting line is written and leaves the queue once
    [fwrite]'s answers add up to it; while [fwrite] answers 0, as on a full disk, the writer
    does not get on. It ends only when a file cannot be opened, or when it was told to and no
    line is waiting. *)
Theorem log_lines_written name tr roll pid d l :
  name ≠ [] → 0 < roll < 2 ^ 63 → rtc log_step (log_init (Some name) tr roll pid d) l →
  concat (segments l).*2 ++ write_wating_lists_ l = accepted l ∧
  (∀ s1 n ls s2, segments l = s1 ++ (n, ls) :: s2 → n ∉ s2.*1 → disk l !! n = Some (concat ls)) ∧
  files_ok (roll_size_ l) (segments l) ∧
  (∀ line ws rets, writer l = WWait → write_wating_lists_ l = line :: ws →
     (rets ≠ [] → writes_ok rets line → foldr Z.add 0 rets = Zlen line →
        ∃ l', writer_wait rets l = Some l' ∧ writer l' = WTop ∧ write_wating_lists_ l' = ws) ∧
     (line ≠ [] → ∀ k, writer_wait (replicate k 0) l = None)) ∧
  (∀ l', writer_step l l' → writer l' = WDone →
     log_file_ l' = None ∨ (exit_flag_ l = true ∧ write_wating_lists_ l = [])).
Proof.
  intros Hn Hr Hrun.
  assert (Hinv : log_inv l).
  { apply rtc_nsteps in Hrun as [k Hrun]. remember (log_init _ _ _ _ _) as l0 eqn:E.
    assert (H0 : log_inv l0) by (subst; by apply log_inv_init). clear E Hn Hr.
    induction Hrun as [|k x y z Hxy _ IH]; [done|]. by eauto using log_inv_step. }
  split; [apply Hinv|]. split; [apply Hinv|]. split; [apply Hinv|]. split.
  - intros line ws rets. by apply writer_wait_line.
  - intros l'. apply writer_ends, Hinv.
Qed.
End writing.

(** ** A run, and a run in which two files get the same name *)
Module Run.
Definition start (roll : Z) : WhispLog := log_init (Some (lit "a")) false roll (lit "00007") ∅.
Definition say (text : string) (l : WhispLog) : WhispLog :=
  match log_output LOG_LEVEL_INFO (lit "[INFO]") (Some (lit text)) [] true [] l with
  | Some (_, l') => l' | None => l end.
(** The writer takes one line. *)
Definition turn (timef : bytes) (l : WhispLog) : WhispLog :=
  let l1 := writer_top timef true l in
  match write_wating_lists_ l1 with
  | line :: _ => default l1 (writer_wait [Zlen line] l1) | [] => l1 end.
End Run.

Lemma log_lines_written_witness :
  let l := Run.turn (lit "t1") (Run.say "hello" (Run.start 100)) in
  let line := lit "[INFO]hello" ++ [x00; x0a] in
  accepted l = [line] ∧ disk l !! lit "a.t1.00007.log" = Some line ∧
  concat (segments l).*2 ++ write_wating_lists_ l = accepted l ∧
  files_ok (roll_size_ l) (segments l).
Proof.
  intros l line. split; [reflexivity|]. split; [by vm_compute|].
  destruct (log_lines_written (lit "a") false 100 (lit "00007") ∅ l) as (H1 & _ & H3 & _);
    [done | lia | | split; [exact H1 | exact H3]].
  apply (rtc_l _ _ (Run.say "hello" (Run.start 100))).
  { eapply (s_output LOG_LEVEL_INFO (lit "[INFO]") (Some (lit "hello")) [] true []); [done | |].
    - apply Forall_singleton. by vm_compute.
    - reflexivity. }
  apply (rtc_l _ _ (writer_top (lit "t1") true (Run.say "hello" (Run.start 100)))).
  { apply s_writer, w_top. reflexivity. }
  apply rtc_once, s_writer, (w_wait [Zlen line]);
    [vm_compute; reflexivity | vm_compute; split; [split; discriminate | exact I] | vm_compute; reflexivity].
Defined.

(** Rolling twice in the same second opens the same file again and empties it. *)
Example rolled_in_one_second :
  let l := Run.turn (lit "t1") (Run.turn (lit "t1") (Run.say "two" (Run.say "one" (Run.start 5)))) in
  (segments l).*1 = [lit "a.t1.00007.log"; lit "a.t1.00007.log"] ∧
  disk l !! lit "a.t1.00007.log" = Some (lit "[INFO]two" ++ [x00; x0a]) ∧
  length (accepted l) = 2%nat.
Proof. by vm_compute. Qed.

(** ** The buffer of the dumps *)
Section dumps.
Lemma ull2str_length n : 6 ≤ Zlen (ull2str n) ≤ 10.
Proof.
  unfold ull2str, pad_zero, Zlen. set (x := u32 n).
  assert (Hx : 0 ≤ x < 4294967296).
  { subst x. unfold uintw. change (2 ^ 32) with 4294967296. apply Z.mod_pos_bound. lia. }
  destruct (Z.ltb_spec x 0); [lia|]. rewrite Z.abs_eq by lia. rewrite length_app, length_replicate.
  pose proof (dec_digits_length (S (Z.to_nat (Z.log2 x))) x [] 10 ltac:(simpl; lia) ltac:(lia)) as H10.
  cbn [length] in H10. unfold dec_pos. lia.
Qed.

(** What the loop may have written behind [n] bytes of data. *)
Definition dump_bound (n : nat) : Z :=
  2 * Z.of_nat n + 12 * Z.of_nat ((n + 31) / 32) + Z.of_nat ((n + 15) / 16).

Lemma dump_bound_step (n : nat) (row half : Z) :
  (row = if bool_decide (n mod 32 = 0)%nat then 12 else 0) →
  (half = if bool_decide (n mod 16 = 0)%nat then 1 else 0) →
  dump_bound n + row + half + 2 ≤ dump_bound (S n).
Proof.
  intros -> ->. unfold dump_bound.
  pose proof (Nat.div_mod_eq (n + 31) 32). pose proof (Nat.div_mod_eq (S n + 31) 32).
  pose proof (Nat.div_mod_eq (n + 15) 16). pose proof (Nat.div_mod_eq (S n + 15) 16).
  pose proof (Nat.div_mod_eq n 32). pose proof (Nat.div_mod_eq n 16).
  pose proof (Nat.mod_upper_bound (n + 31) 32 ltac:(lia)). pose proof (Nat.mod_upper_bound (S n + 31) 32 ltac:(lia)).
  pose proof (Nat.mod_upper_bound (n + 15) 16 ltac:(lia)). pose proof (Nat.mod_upper_bound (S n + 15) 16 ltac:(lia)).
  pose proof (Nat.mod_upper_bound n 32 ltac:(lia)). pose proof (Nat.mod_upper_bound n 16 ltac:(lia)).
  repeat case_bool_decide; lia.
Qed.

Lemma dump_bound_mono n k : (n ≤ k)%nat → dump_bound n ≤ dump_bound k.
Proof.
  intros H. unfold dump_bound.
  pose proof (Nat.Div0.div_le_mono (n + 31) (k + 31) 32 ltac:(lia)).
  pose proof (Nat.Div0.div_le_mono (n + 15) (k + 15) 16 ltac:(lia)). lia.
Qed.

(** A dump of at most [PRINT_SIZE] bytes fits the buffer. *)
Lemma form_log_fits index data :
  (length data ≤ PRINT_SIZE)%nat → ∃ r, form_log index 1544 data = Ok r.
Proof.
  intros Hlen. unfold form_log.
  assert (H : ∀ data lsize hl i out, (lsize + length data ≤ PRINT_SIZE)%nat →
            Zlen out ≤ dump_bound lsize →
            Zlen (form_log_loop data lsize hl 1544 i out).2 ≤ dump_bound PRINT_SIZE).
  { clear. intros data. induction data as [|b data IH]; intros lsize hl i out Hl Hout;
      cbn [form_log_loop length] in Hl |- *.
    - cbn [snd]. pose proof (dump_bound_mono lsize PRINT_SIZE ltac:(lia)). lia.
    - pose proof (dump_bound_mono lsize PRINT_SIZE ltac:(lia)).
      destruct (_ <? 1544); [|simpl; lia]. apply IH; [lia|].
      pose proof (ull2str_length i). generalize (dump_bound_step lsize _ _ eq_refl eq_refl).
      rewrite (Zlen_app _ (hex2 b)). change (Zlen (hex2 b)) with 2.
      destruct (bool_decide (lsize mod 32 = 0)%nat), (bool_decide (lsize mod 16 = 0)%nat);
        cbn [andb]; intros Hstep; repeat case_bool_decide; cbn [negb app];
        unfold Zlen in *; repeat (rewrite ?length_app in *; cbn [length] in *); lia. }
  specialize (H data 0%nat 0%nat index [] ltac:(lia) ltac:(vm_compute; discriminate)).
  change (dump_bound PRINT_SIZE) with 1248 in H.
  destruct (form_log_loop data 0 0 1544 index []) as [i' out]. simpl in H.
  destruct (Z.leb_spec (Zlen out + 2) 1544); [by eexists | lia].
Qed.
End dumps.
