(* ===== verification/Posix.v ===== *)
(** * System calls

    The operating system is a parameter: its answer to a call is an arbitrary function of
    everything the process has done before ([os]). Code that makes calls is a computation in
    the monad [io], which extends the history. The descriptor table is computed from the
    history; what is assumed of the system where a property needs it is [FreshFds]: a new
    descriptor was not open. *)
From S2P Require Import Prelude InetAddress Logger.

Inductive syscall :=
| Socket (type : Z)
| Fcntl (fd cmd arg : Z)
| SetSockOpt (fd level name val : Z)
| GetSockOpt (fd level name : Z)
| Bind (fd : Z) (addr : sockaddr_in)
| Listen (fd backlog : Z)
| Accept (fd : Z)
| Accept4 (fd flags : Z)
| Connect (fd : Z) (addr : sockaddr_in)
| GetSockName (fd : Z)
| GetPeerName (fd : Z)
| Read (fd count : Z)
| Readv (fd : Z) (iov : list Z)
| Write (fd : Z) (buf : bytes)
| Shutdown (fd how : Z)
| Close (fd : Z)
| Open (path : bytes) (flags : Z)
| Dup2 (oldfd newfd : Z)
| EpollCreate1 (flags : Z)
| Eventfd (flags : Z)
| EpollAdd (epfd fd events : Z)
| EpollWait (epfd maxevents : Z)
| Fork
| Setsid
| Signal (signo : Z) (handler : bytes)
| Opendir (path : bytes)
| Mkdir (path : bytes) (mode : Z)
| Closedir (dp : Z).

(** The result, [errno], and what the call stores through its pointers. *)
Record answer := mkAns {
  ret : Z; err : Z; addr_out : sockaddr_in; int_out : Z; data_out : bytes; ready : list Z;
}.
Definition answers (r : Z) : answer := mkAns r 0 zero_addr 0 [] [].

Inductive event := ECall (c : syscall) (a : answer) | ELog (l : LOG_LEVEL).

Definition io (A : Type) : Type := list event → A * list event.
#[export] Instance io_ret : MRet io := λ A a tr, (a, tr).
#[export] Instance io_bind : MBind io := λ A B k m tr, let '(a, tr1) := m tr in k a tr1.

Definition call (os : list event → syscall → answer) (c : syscall) : io answer :=
  λ tr, (os tr c, tr ++ [ECall c (os tr c)]).
Definition log (l : LOG_LEVEL) : io unit := λ tr, ((), tr ++ [ELog l]).

(** A loop over a fixed sequence. *)
Fixpoint each {A} (body : A → io unit) (l : list A) : io unit :=
  match l with [] => mret () | x :: l' => _ ← body x; each body l' end.

Lemma io_bind_eq {A B} (m : io A) (k : A → io B) tr : (m ≫= k) tr = k (m tr).1 (m tr).2.
Proof. unfold mbind, io_bind. by destruct (m tr). Qed.

(** [m], started after [tr], returns [x] and does [d]. *)
Definition does {A} (m : io A) (tr : list event) (x : A) (d : list event) : Prop := m tr = (x, tr ++ d).

Lemma does_ret {A} (x : A) tr : does (mret x) tr x [].
Proof. unfold does. by rewrite app_nil_r. Qed.

Lemma does_bind {A B} (m : io A) (k : A → io B) tr x y d1 d2 :
  does m tr x d1 → does (k x) (tr ++ d1) y d2 → does (m ≫= k) tr y (d1 ++ d2).
Proof. unfold does. rewrite io_bind_eq. intros -> E. simpl. by rewrite E, app_assoc. Qed.

Lemma does_call os c tr a : os tr c = a → does (call os c) tr a [ECall c a].
Proof. by intros <-. Qed.

Lemma does_log l tr : does (log l) tr () [ELog l].
Proof. done. Qed.

Lemma does_log_if (b : bool) l tr :
  does (if b then log l else mret ()) tr () (if b then [ELog l] else []).
Proof. destruct b; [apply does_log | apply does_ret]. Qed.

Lemma does_eq {A} (m : io A) tr x d d' : does m tr x d → d = d' → does m tr x d'.
Proof. by intros ? <-. Qed.

(** Runs a computation without loops, call by call; what is left are the answers' equations. *)
Ltac run_io :=
  repeat lazymatch goal with
  | |- does (_ ≫= _) _ _ _ => eapply does_bind
  | |- does (mret _) _ _ _ => eapply does_ret
  | |- does (call _ _) _ _ _ => eapply does_call
  | |- does (log _) _ _ _ => eapply does_log
  | |- does (if _ then log _ else mret _) _ _ _ => eapply does_log_if
  end.

(** The calls of a history, without the log. *)
Definition calls_of (tr : list event) : list syscall :=
  omap (λ e, match e with ECall c _ => Some c | ELog _ => None end) tr.

Lemma calls_of_app tr1 tr2 : calls_of (tr1 ++ tr2) = calls_of tr1 ++ calls_of tr2.
Proof. apply omap_app. Qed.

(** ** The descriptor table *)
Inductive file := FSocket | FPath (path : bytes) | FEpoll | FEvent.

Definition creates (c : syscall) : option file :=
  match c with
  | Socket _ | Accept _ | Accept4 _ _ => Some FSocket
  | Open p _ => Some (FPath p)
  | EpollCreate1 _ => Some FEpoll
  | Eventfd _ => Some FEvent
  | _ => None
  end.

Definition fd_step (t : gmap Z file) (e : event) : gmap Z file :=
  match e with
  | ELog _ => t
  | ECall (Close fd) _ => delete fd t
  | ECall (Dup2 o n) a =>
      if 0 <=? ret a then match t !! o with Some f => <[n := f]> t | None => t end else t
  | ECall c a =>
      match creates c with Some f => if 0 <=? ret a then <[ret a := f]> t else t | None => t end
  end.
Definition table (t : gmap Z file) (tr : list event) : gmap Z file := foldl fd_step t tr.

(** Closing a descriptor that is not open: in a process with threads it may be another's. *)
Definition wrong_close (t : gmap Z file) (e : event) : bool :=
  match e with ECall (Close fd) _ => bool_decide (t !! fd = None) | _ => false end.
Fixpoint closes_wrongly (t : gmap Z file) (tr : list event) : bool :=
  match tr with [] => false | e :: tr' => wrong_close t e || closes_wrongly (fd_step t e) tr' end.

Class FreshFds (os : list event → syscall → answer) (t0 : gmap Z file) :=
  fresh_fd tr c f : creates c = Some f → 0 ≤ ret (os tr c) → table t0 tr !! ret (os tr c) = None.

Lemma table_app t tr1 tr2 : table t (tr1 ++ tr2) = table (table t tr1) tr2.
Proof. apply foldl_app. Qed.

Lemma closes_wrongly_app t tr1 tr2 :
  closes_wrongly t (tr1 ++ tr2) = closes_wrongly t tr1 || closes_wrongly (table t tr1) tr2.
Proof.
  revert t. induction tr1 as [|e tr1 IH]; intros t; [done|]. cbn [app closes_wrongly].
  by rewrite IH, orb_assoc.
Qed.

(** ** A system for examples: descriptors above all open ones, everything else succeeds *)
Definition above (t : gmap Z file) : Z := map_fold (λ k _ m, Z.max (k + 1) m) 3 t.

Lemma above_fresh t k : above t ≤ k → t !! k = None.
Proof.
  unfold above. revert k.
  apply (map_fold_weak_ind (λ r (t : gmap Z file), ∀ k, r ≤ k → t !! k = None)); [done|].
  intros i f t' r Hi IH k Hk. rewrite lookup_insert_ne by lia. apply IH. lia.
Qed.

Lemma above_nonneg t : 0 ≤ above t.
Proof. unfold above. apply (map_fold_weak_ind (λ r _, 0 ≤ r)); [lia|]. intros. lia. Qed.

Definition example_os (t0 : gmap Z file) (tr : list event) (c : syscall) : answer :=
  match creates c with
  | Some _ => answers (above (table t0 tr))
  | None => answers 0
  end.

#[export] Instance example_os_fresh t0 : FreshFds (example_os t0) t0.
Proof. intros tr c f Hc _. unfold example_os. rewrite Hc. simpl. by apply above_fresh. Qed.
