(* ===== verification/Sockets.v ===== *)
(** * Sockets: [network/w_sockets.h/.cpp], and the calls [network/acceptor.cpp] makes to set up
    and give up its descriptors

    Each function is the sequence of system calls and log lines it makes. [errno] is part of
    a call's answer; [None] stands for an [errno] that other calls may have changed since. *)
From S2P Require Import Prelude InetAddress Logger Posix.

(** [<sys/socket.h>], [<fcntl.h>], [<errno.h>] on Linux. *)
Definition SOCK_STREAM : Z := 1.
Definition SOCK_NONBLOCK : Z := 2048.
Definition SOCK_CLOEXEC : Z := 524288.
Definition SOL_SOCKET : Z := 1.
Definition IPPROTO_TCP : Z := 6.
Definition SO_REUSEADDR : Z := 2.
Definition SO_ERROR : Z := 4.
Definition SO_KEEPALIVE : Z := 9.
Definition SO_REUSEPORT : Z := 15.
Definition TCP_NODELAY : Z := 1.
Definition SOMAXCONN : Z := 4096.
Definition SHUT_WR : Z := 1.
Definition F_GETFD : Z := 1.
Definition F_SETFD : Z := 2.
Definition F_GETFL : Z := 3.
Definition F_SETFL : Z := 4.
Definition O_RDONLY : Z := 0.
Definition O_RDWR : Z := 2.
Definition O_NONBLOCK : Z := 2048.
Definition O_CLOEXEC : Z := 524288.
Definition FD_CLOEXEC : Z := 1.
Definition EPERM : Z := 1.
Definition EINTR : Z := 4.
Definition EAGAIN : Z := 11.
Definition ENFILE : Z := 23.
Definition EMFILE : Z := 24.
Definition EPROTO : Z := 71.
Definition ECONNABORTED : Z := 103.
Definition EHOSTUNREACH : Z := 113.
Definition SOCKET_ERROR : Z := -1.

Definition int_of_bool (on : bool) : Z := if on then 1 else 0.

Section sockets.
Context (os : list event → syscall → answer).
#[local] Notation call := (call os).

(** ** [w_sockets] *)
Definition socks_create_or_die : io Z :=
  a ← call (Socket (Z.lor SOCK_STREAM (Z.lor SOCK_NONBLOCK SOCK_CLOEXEC)));
  _ ← (if ret a =? SOCKET_ERROR then log LOG_LEVEL_FATAL else mret ());
  mret (ret a).

Definition socks_set_noblocking_and_close_exec (sockfd : Z) : io unit :=
  flags ← call (Fcntl sockfd F_GETFL 0);
  _ ← call (Fcntl sockfd F_SETFL (Z.lor (ret flags) O_NONBLOCK));
  flags ← call (Fcntl sockfd F_GETFD 0);
  _ ← call (Fcntl sockfd F_SETFD (Z.lor (ret flags) FD_CLOEXEC));
  mret ().

Definition socks_create_noblocking_or_die : io Z :=
  sockfd ← socks_create_or_die;
  _ ← socks_set_noblocking_and_close_exec sockfd;
  mret sockfd.

Definition socks_bind_or_die (sockfd : Z) (addr : sockaddr_in) : io unit :=
  a ← call (Bind sockfd addr);
  if ret a =? SOCKET_ERROR then log LOG_LEVEL_FATAL else mret ().

Definition socks_listen_or_die (sockfd : Z) : io unit :=
  a ← call (Listen sockfd SOMAXCONN);
  if ret a =? SOCKET_ERROR then log LOG_LEVEL_FATAL else mret ().

(** The errors for which [errno] is put back. *)
Definition expected_error (e : Z) : bool :=
  (e =? EAGAIN) || (e =? ECONNABORTED) || (e =? EINTR) || (e =? EPROTO) || (e =? EPERM) || (e =? EMFILE).

Definition socks_accept (sockfd : Z) (addr : sockaddr_in) : io (Z * sockaddr_in * option Z) :=
  a ← call (Accept4 sockfd (Z.lor SOCK_NONBLOCK SOCK_CLOEXEC));
  if ret a =? SOCKET_ERROR then
    _ ← log LOG_LEVEL_SYSERROR;
    if expected_error (err a) then mret (ret a, addr, Some (err a))
    else _ ← log LOG_LEVEL_FATAL; mret (ret a, addr, None)
  else mret (ret a, addr_out a, Some (err a)).

Definition socks_set_reuse_addr (sockfd : Z) (on : bool) : io unit :=
  _ ← call (SetSockOpt sockfd SOL_SOCKET SO_REUSEADDR (int_of_bool on)); mret ().

Definition socks_set_reuse_port (sockfd : Z) (on : bool) : io unit :=
  a ← call (SetSockOpt sockfd SOL_SOCKET SO_REUSEPORT (int_of_bool on));
  if (ret a <? 0) && on then log LOG_LEVEL_SYSERROR else mret ().

Definition socks_connect (sockfd : Z) (addr : sockaddr_in) : io Z :=
  a ← call (Connect sockfd addr); mret (ret a).

(** [read] and [write] answer a [ssize_t], which is cut to 32 bits. *)
Definition socks_read (sockfd count : Z) : io (Z * bytes) :=
  a ← call (Read sockfd (u64 count)); mret (s32 (ret a), data_out a).
Definition socks_readv (sockfd : Z) (iov : list Z) : io (Z * bytes) :=
  a ← call (Readv sockfd iov); mret (ret a, data_out a).
Definition socks_write (sockfd : Z) (buf : bytes) : io Z :=
  a ← call (Write sockfd buf); mret (s32 (ret a)).

Definition socks_close (sockfd : Z) : io unit :=
  a ← call (Close sockfd); if ret a <? 0 then log LOG_LEVEL_SYSERROR else mret ().
Definition socks_shutdown_write (sockfd : Z) : io unit :=
  a ← call (Shutdown sockfd SHUT_WR); if ret a <? 0 then log LOG_LEVEL_SYSERROR else mret ().

Definition socks_get_error (sockfd : Z) : io Z :=
  a ← call (GetSockOpt sockfd SOL_SOCKET SO_ERROR);
  mret (if ret a <? 0 then err a else int_out a).

(** The answers are not looked at: an address that could not be read stays zero. *)
Definition socks_get_local_addr (sockfd : Z) : io sockaddr_in :=
  a ← call (GetSockName sockfd); mret (if ret a =? 0 then addr_out a else zero_addr).
Definition socks_get_peer_addr (sockfd : Z) : io sockaddr_in :=
  a ← call (GetPeerName sockfd); mret (if ret a =? 0 then addr_out a else zero_addr).

Definition socks_is_selfconn (sockfd : Z) : io bool :=
  localaddr ← socks_get_local_addr sockfd;
  peeraddr ← socks_get_peer_addr sockfd;
  mret ((sin_port localaddr =? sin_port peeraddr) && (s_addr localaddr =? s_addr peeraddr)).

(** ** [Socket]; the object is its descriptor *)
Definition sock_bind_address (fd : Z) (addr : sockaddr_in) : io unit := socks_bind_or_die fd addr.
Definition sock_listen (fd : Z) : io unit := socks_listen_or_die fd.
Definition sock_accept (fd : Z) (peer_addr : sockaddr_in) : io (Z * sockaddr_in * option Z) :=
  r ← socks_accept fd zero_addr;
  let '(connfd, addr, errno) := r in
  mret (connfd, if 0 <=? connfd then addr else peer_addr, errno).
Definition sock_shutdown_write (fd : Z) : io unit := socks_shutdown_write fd.
Definition sock_set_tcp_nodelay (fd : Z) (on : bool) : io unit :=
  _ ← call (SetSockOpt fd IPPROTO_TCP TCP_NODELAY (int_of_bool on)); mret ().
Definition sock_set_reuse_addr (fd : Z) (on : bool) : io unit := socks_set_reuse_addr fd on.
Definition sock_set_reuse_port (fd : Z) (on : bool) : io unit := socks_set_reuse_port fd on.
Definition sock_set_keepalive (fd : Z) (on : bool) : io unit :=
  _ ← call (SetSockOpt fd SOL_SOCKET SO_KEEPALIVE (int_of_bool on)); mret ().
Definition Socket_dtor (fd : Z) : io unit := socks_close fd.

(** ** The descriptors of an [Acceptor]: the socket and the reserve *)
Definition dev_null : bytes := lit "/dev/null".

Definition Acceptor_ctor (listenAddr : sockaddr_in) (reuseport : bool) : io (Z * Z) :=
  fd ← socks_create_noblocking_or_die;
  idle ← call (Open dev_null (Z.lor O_RDONLY O_CLOEXEC));
  _ ← sock_set_reuse_addr fd true;
  _ ← sock_set_reuse_port fd reuseport;
  _ ← sock_bind_address fd listenAddr;
  mret (fd, ret idle).

(** The destructor's body closes the reserve; then the member [accept_socket_] is destroyed.
    Taking the channel out of the poller is [remove] of file [Poller]. *)
Definition Acceptor_dtor (fds : Z * Z) : io unit :=
  _ ← call (Close fds.2); Socket_dtor fds.1.

(** ** The descriptors of an [EventLoop], and the loop its thread remembers

    [loop_in_thread] is the calling thread's; [self] the address of the object. *)
Definition EFD_FLAGS : Z := Z.lor O_NONBLOCK O_CLOEXEC.

Definition create_wakeup_fd : io (bool * Z) :=
  a ← call (Eventfd EFD_FLAGS);
  if ret a <? 0 then _ ← log LOG_LEVEL_FATAL; mret (false, ret a) else mret (true, ret a).

Definition EpollPoller_fd : io Z :=
  a ← call (EpollCreate1 O_CLOEXEC);
  _ ← (if ret a <? 0 then log LOG_LEVEL_FATAL else mret ());
  mret (ret a).
Definition EpollPoller_dtor (epollfd : Z) : io unit := _ ← call (Close epollfd); mret ().

(** The wakeup descriptor, the epoll instance and the thread's loop. *)
Definition EventLoop_setup (self : Z) (loop_in_thread : option Z) : io (Z * Z * option Z) :=
  w ← create_wakeup_fd;
  p ← EpollPoller_fd;
  match loop_in_thread with
  | Some other => _ ← log LOG_LEVEL_FATAL; mret (w.2, p, Some other)
  | None => mret (w.2, p, Some self)
  end.

(** [~Poller] is not virtual and its body is empty. *)
Definition Poller_dtor : io unit := mret ().

(** The body closes the wakeup descriptor and clears the thread's loop; then the member
    [poller_], a [unique_ptr<Poller>], is destroyed through [~Poller]: [EpollPoller_dtor] is
    not called. (The language leaves such a deletion undefined; this is what compilers make
    of it.) Taking the wakeup channel out of the poller is [remove] of file [Poller]. *)
Definition EventLoop_dtor (wakeup_fd : Z) : io (option Z) :=
  _ ← log LOG_LEVEL_DEBUG;
  _ ← socks_close wakeup_fd;
  _ ← Poller_dtor;
  mret None.

Definition get_curthread_eventloop (loop_in_thread : option Z) : option Z := loop_in_thread.

Definition Acceptor_start (listenAddr : sockaddr_in) (reuseport : bool) : io (Z * Z) :=
  fds ← Acceptor_ctor listenAddr reuseport; _ ← sock_listen fds.1; mret fds.
End sockets.

(** ** Histories *)
Definition fatal (e : event) : bool :=
  match e with ELog LOG_LEVEL_FATAL => true | _ => false end.

(** The calls whose wrapper is named [_or_die], and failed. *)
Definition or_die_failed (e : event) : bool :=
  match e with
  | ECall (Socket _) a | ECall (Bind _ _) a | ECall (Listen _ _) a => ret a =? SOCKET_ERROR
  | _ => false
  end.

(** What setting up an acceptor asks of the system, for the descriptor [fd] it was given. *)
Definition setup_calls (fd fl cl : Z) (addr : sockaddr_in) (reuseport : bool) : list syscall :=
  [Socket (Z.lor SOCK_STREAM (Z.lor SOCK_NONBLOCK SOCK_CLOEXEC));
   Fcntl fd F_GETFL 0; Fcntl fd F_SETFL (Z.lor fl O_NONBLOCK);
   Fcntl fd F_GETFD 0; Fcntl fd F_SETFD (Z.lor cl FD_CLOEXEC);
   Open dev_null (Z.lor O_RDONLY O_CLOEXEC);
   SetSockOpt fd SOL_SOCKET SO_REUSEADDR 1; SetSockOpt fd SOL_SOCKET SO_REUSEPORT (int_of_bool reuseport);
   Bind fd addr; Listen fd SOMAXCONN].

Section acceptor.
Context (os : list event → syscall → answer).

Definition socket_type : Z := Z.lor SOCK_STREAM (Z.lor SOCK_NONBLOCK SOCK_CLOEXEC).
Definition fatal_if (b : bool) : list event := if b then [ELog LOG_LEVEL_FATAL] else [].

(** The history of the constructor, from the answers of the system. *)
Definition made_socket (a1 a2 a3 a4 a5 : answer) : list event :=
  [ECall (Socket socket_type) a1] ++ fatal_if (ret a1 =? SOCKET_ERROR) ++
  [ECall (Fcntl (ret a1) F_GETFL 0) a2; ECall (Fcntl (ret a1) F_SETFL (Z.lor (ret a2) O_NONBLOCK)) a3;
   ECall (Fcntl (ret a1) F_GETFD 0) a4; ECall (Fcntl (ret a1) F_SETFD (Z.lor (ret a4) FD_CLOEXEC)) a5].

Definition made_acceptor (fd : Z) (addr : sockaddr_in) (reuseport : bool) (a6 a7 a8 a9 : answer) : list event :=
  [ECall (Open dev_null (Z.lor O_RDONLY O_CLOEXEC)) a6;
   ECall (SetSockOpt fd SOL_SOCKET SO_REUSEADDR 1) a7;
   ECall (SetSockOpt fd SOL_SOCKET SO_REUSEPORT (int_of_bool reuseport)) a8] ++
  (if (ret a8 <? 0) && reuseport then [ELog LOG_LEVEL_SYSERROR] else []) ++
  [ECall (Bind fd addr) a9] ++ fatal_if (ret a9 =? SOCKET_ERROR).

Lemma socket_does tr :
  ∃ a1 a2 a3 a4 a5, os tr (Socket socket_type) = a1 ∧
    does (socks_create_noblocking_or_die os) tr (ret a1) (made_socket a1 a2 a3 a4 a5).
Proof.
  do 5 eexists. split; [reflexivity|]. eapply does_eq.
  1: unfold socks_create_noblocking_or_die, socks_create_or_die, socks_set_noblocking_and_close_exec; run_io.
  6: rewrite <- !app_assoc; cbn [app]; rewrite ?app_nil_r; reflexivity.
  all: reflexivity.
Qed.

Lemma acceptor_ctor_does addr reuseport tr :
  ∃ a1 a2 a3 a4 a5 a6 a7 a8 a9,
  os tr (Socket socket_type) = a1 ∧
  os (tr ++ made_socket a1 a2 a3 a4 a5) (Open dev_null (Z.lor O_RDONLY O_CLOEXEC)) = a6 ∧
  does (Acceptor_ctor os addr reuseport) tr (ret a1, ret a6)
    (made_socket a1 a2 a3 a4 a5 ++ made_acceptor (ret a1) addr reuseport a6 a7 a8 a9).
Proof.
  destruct (socket_does tr) as (a1 & a2 & a3 & a4 & a5 & E1 & Hs).
  exists a1, a2, a3, a4, a5. do 4 eexists. split; [done|]. split; [reflexivity|].
  eapply does_bind; [exact Hs|]. eapply does_eq.
  1: unfold sock_set_reuse_addr, socks_set_reuse_addr, sock_set_reuse_port, socks_set_reuse_port,
      sock_bind_address, socks_bind_or_die; run_io.
  5: rewrite <- !app_assoc; cbn [app]; rewrite ?app_nil_r; reflexivity.
  all: reflexivity.
Qed.

Lemma acceptor_dtor_does fds tr :
  ∃ b1 b2, does (Acceptor_dtor os fds) tr ()
    ([ECall (Close fds.2) b1; ECall (Close fds.1) b2] ++
     (if ret b2 <? 0 then [ELog LOG_LEVEL_SYSERROR] else [])).
Proof.
  do 2 eexists. eapply does_eq.
  1: unfold Acceptor_dtor, Socket_dtor, socks_close; run_io.
  3: reflexivity.
  all: reflexivity.
Qed.

(** Closing the two descriptors of an acceptor gives back the table. *)
Lemma acceptor_closed t fd idle f b1 b2 :
  t !! fd = None → <[fd := FSocket]> t !! idle = None →
  let d := [ECall (Close idle) b1; ECall (Close fd) b2] ++ (if ret b2 <? 0 then [ELog LOG_LEVEL_SYSERROR] else []) in
  closes_wrongly (<[idle := f]> (<[fd := FSocket]> t)) d = false ∧
  table (<[idle := f]> (<[fd := FSocket]> t)) d = t.
Proof.
  intros Hfd Hidle d. assert (Hne : idle ≠ fd) by (intros ->; by rewrite lookup_insert_eq in Hidle).
  subst d. split.
  - cbn. rewrite lookup_insert_eq, delete_insert_id, lookup_insert_eq by done. by destruct (ret b2 <? 0).
  - rewrite table_app. cbn. rewrite !delete_insert_id by done. by destruct (ret b2 <? 0).
Qed.

Lemma fatal_logged b : existsb fatal (fatal_if b) = b ∧ existsb or_die_failed (fatal_if b) = false ∧
  calls_of (fatal_if b) = [].
Proof. by destruct b. Qed.

Lemma table_socket t a1 a2 a3 a4 a5 :
  table t (made_socket a1 a2 a3 a4 a5) = fd_step t (ECall (Socket socket_type) a1).
Proof. unfold made_socket. rewrite table_app. by destruct (ret a1 =? _). Qed.

Lemma table_acceptor t fd addr reuseport a6 a7 a8 a9 :
  table t (made_acceptor fd addr reuseport a6 a7 a8 a9) =
  fd_step t (ECall (Open dev_null (Z.lor O_RDONLY O_CLOEXEC)) a6).
Proof.
  unfold made_acceptor. rewrite table_app. cbn [app].
  destruct ((ret a8 <? 0) && reuseport), (ret a9 =? SOCKET_ERROR); done.
Qed.
End acceptor.

(** Setting up the acceptor: whatever the system answers, the constructor and [listen]
    make the ten calls in their order (close-on-exec and non-blocking, the address reusable
    before it is bound, bound before listening), all on the descriptor [socket] returned,
    even if that is -1: the wrappers named [_or_die] log a FATAL line exactly when their call
    failed, and go on; so after a failed [bind] the server listens on whatever port the
    kernel picks. When both descriptors were obtained, the destructor gives back exactly
    these two. *)
Theorem acceptor_setup (os : list event → syscall → answer) (t0 : gmap Z file) `{!FreshFds os t0}
    (addr : sockaddr_in) (reuseport : bool) (tr : list event) :
  ∃ fd idle fl cl d, does (Acceptor_start os addr reuseport) tr (fd, idle) d ∧
    calls_of d = setup_calls fd fl cl addr reuseport ∧
    existsb fatal d = existsb or_die_failed d ∧
    (0 ≤ fd → 0 ≤ idle →
       table t0 (tr ++ d) = <[idle := FPath dev_null]> (<[fd := FSocket]> (table t0 tr)) ∧
       ∃ d', does (Acceptor_dtor os (fd, idle)) (tr ++ d) () d' ∧
         closes_wrongly (table t0 (tr ++ d)) d' = false ∧ table t0 (tr ++ d ++ d') = table t0 tr).
Proof.
  destruct (acceptor_ctor_does os addr reuseport tr) as (a1 & a2 & a3 & a4 & a5 & a6 & a7 & a8 & a9 & E1 & E6 & Hc).
  set (d := made_socket a1 a2 a3 a4 a5 ++ made_acceptor (ret a1) addr reuseport a6 a7 a8 a9) in Hc.
  set (a := os (tr ++ d) (Listen (ret a1) SOMAXCONN)).
  set (dl := [ECall (Listen (ret a1) SOMAXCONN) a] ++ fatal_if (ret a =? SOCKET_ERROR)).
  assert (Hd : does (Acceptor_start os addr reuseport) tr (ret a1, ret a6) (d ++ dl)).
  { unfold Acceptor_start. eapply does_bind; [exact Hc|]. eapply does_eq.
    1: unfold sock_listen, socks_listen_or_die; run_io.
    2: cbn [app]; rewrite app_nil_r; reflexivity.
    all: reflexivity. }
  exists (ret a1), (ret a6), (ret a2), (ret a4), (d ++ dl). split; [exact Hd|].
  assert (Htab : table (table t0 tr) (d ++ dl) = table (table t0 tr) d).
  { rewrite table_app. subst dl. by destruct (ret a =? SOCKET_ERROR). }
  split; [|split].
  - unfold d, dl, made_socket, made_acceptor. rewrite !calls_of_app.
    destruct (ret a1 =? _), (ret a =? _), (ret a9 =? _), ((ret a8 <? 0) && reuseport); reflexivity.
  - unfold d, dl, made_socket, made_acceptor. rewrite !existsb_app.
    destruct (fatal_logged (ret a1 =? SOCKET_ERROR)) as (-> & -> & _).
    destruct (fatal_logged (ret a9 =? SOCKET_ERROR)) as (-> & -> & _).
    destruct (fatal_logged (ret a =? SOCKET_ERROR)) as (-> & -> & _).
    destruct ((ret a8 <? 0) && reuseport); cbn;
      destruct (ret a1 =? SOCKET_ERROR), (ret a9 =? SOCKET_ERROR), (ret a =? SOCKET_ERROR); reflexivity.
  - intros Hfd Hidle.
    assert (Hf1 : table t0 tr !! ret a1 = None).
    { rewrite <- E1 in *. by apply (fresh_fd tr (Socket socket_type) FSocket). }
    assert (Hs : table t0 (tr ++ made_socket a1 a2 a3 a4 a5) = <[ret a1 := FSocket]> (table t0 tr)).
    { rewrite table_app, table_socket. cbn. by destruct (Z.leb_spec 0 (ret a1)); [|lia]. }
    assert (Hf6 : (<[ret a1 := FSocket]> (table t0 tr)) !! ret a6 = None).
    { rewrite <- Hs, <- E6 in *. by apply (fresh_fd _ (Open dev_null _) (FPath dev_null)). }
    assert (Ht : table t0 (tr ++ d ++ dl) = <[ret a6 := FPath dev_null]> (<[ret a1 := FSocket]> (table t0 tr))).
    { rewrite table_app, Htab. unfold d. rewrite table_app, <- (table_app t0 tr), Hs, table_acceptor. cbn.
      by destruct (Z.leb_spec 0 (ret a6)); [|lia]. }
    split; [exact Ht|].
    destruct (acceptor_dtor_does os (ret a1, ret a6) (tr ++ d ++ dl)) as (b1 & b2 & Hb).
    eexists. split; [exact Hb|]. cbn [fst snd].
    destruct (acceptor_closed (table t0 tr) (ret a1) (ret a6) (FPath dev_null) b1 b2 Hf1 Hf6) as [Hw Hb'].
    split; [by rewrite Ht|]. by rewrite (app_assoc tr), table_app, Ht.
Qed.

(** Standard input, output and error are open at the start. *)
Definition std_table : gmap Z file := {[ 0 := FPath dev_null; 1 := FPath dev_null; 2 := FPath dev_null ]}.

Lemma acceptor_setup_witness :
  ∃ fd idle fl cl d,
    does (Acceptor_start (example_os std_table) (InetAddress_port 20000 false) true) [] (fd, idle) d ∧
    calls_of d = setup_calls fd fl cl (InetAddress_port 20000 false) true.
Proof.
  destruct (acceptor_setup (example_os std_table) std_table (InetAddress_port 20000 false) true [])
    as (fd & idle & fl & cl & d & H1 & H2 & _).
  exists fd, idle, fl, cl, d. split; [exact H1 | exact H2].
Defined.

(** ** A loop's descriptors, and its thread *)

Section loop.
Context (os : list event → syscall → answer) (t0 : gmap Z file).

(** The history of the constructor, from the answers of the system. *)
Definition made_loop (a b : answer) (l : option Z) : list event :=
  ([ECall (Eventfd EFD_FLAGS) a] ++ fatal_if (ret a <? 0)) ++
  ([ECall (EpollCreate1 O_CLOEXEC) b] ++ fatal_if (ret b <? 0)) ++ fatal_if (bool_decide (is_Some l)).

Lemma loop_setup_does self l tr :
  ∃ a b, os tr (Eventfd EFD_FLAGS) = a ∧
    os (tr ++ [ECall (Eventfd EFD_FLAGS) a] ++ fatal_if (ret a <? 0)) (EpollCreate1 O_CLOEXEC) = b ∧
    does (EventLoop_setup os self l) tr (ret a, ret b, Some (default self l)) (made_loop a b l).
Proof.
  do 2 eexists. split; [reflexivity|]. split; [reflexivity|].
  unfold EventLoop_setup. eapply does_bind.
  - unfold create_wakeup_fd. eapply does_bind; [by apply does_call|].
    instantiate (1 := (negb (ret (os tr (Eventfd EFD_FLAGS)) <? 0), _)).
    destruct (ret (os tr _) <? 0); [eapply does_eq; [run_io | done] | apply does_ret].
  - eapply does_bind.
    + unfold EpollPoller_fd. eapply does_bind; [by apply does_call|].
      eapply does_eq; [run_io|]. by rewrite app_nil_r.
    + destruct l; [eapply does_eq; [run_io | done] | apply does_ret].
Qed.

(** What the constructor leaves open when the system granted both descriptors. *)
Lemma loop_setup_table `{!FreshFds os t0} tr a b l :
  os tr (Eventfd EFD_FLAGS) = a →
  os (tr ++ [ECall (Eventfd EFD_FLAGS) a] ++ fatal_if (ret a <? 0)) (EpollCreate1 O_CLOEXEC) = b →
  0 ≤ ret a → 0 ≤ ret b →
  table t0 tr !! ret a = None ∧ table t0 tr !! ret b = None ∧ ret a ≠ ret b ∧
  table t0 (tr ++ made_loop a b l) = <[ret b := FEpoll]> (<[ret a := FEvent]> (table t0 tr)).
Proof.
  intros Ea Eb Ha Hb. unfold made_loop.
  destruct (Z.ltb_spec (ret a) 0), (Z.ltb_spec (ret b) 0); try lia.
  assert (N1 : table t0 tr !! ret a = None).
  { rewrite <- Ea in *. by apply (fresh_fd tr _ FEvent). }
  assert (Ht1 : table t0 (tr ++ [ECall (Eventfd EFD_FLAGS) a]) = <[ret a := FEvent]> (table t0 tr)).
  { rewrite table_app. cbn. by destruct (Z.leb_spec 0 (ret a)); [|lia]. }
  assert (N2 : (<[ret a := FEvent]> (table t0 tr)) !! ret b = None).
  { rewrite <- Ht1, <- Eb in *. by apply (fresh_fd _ _ FEpoll). }
  apply lookup_insert_None in N2 as [N2 Hne]. repeat split; try done.
  rewrite app_assoc. cbn [fatal_if]. rewrite app_nil_r, table_app, Ht1. cbn.
  destruct (Z.leb_spec 0 (ret b)); [|lia]. by destruct (bool_decide (is_Some l)).
Qed.

Lemma loop_dtor_does w tr :
  ∃ c, does (EventLoop_dtor os w) tr None
    ([ELog LOG_LEVEL_DEBUG; ECall (Close w) c] ++ (if ret c <? 0 then [ELog LOG_LEVEL_SYSERROR] else [])).
Proof.
  eexists. eapply does_eq.
  1: unfold EventLoop_dtor, Poller_dtor, socks_close; run_io.
  2: cbn [app]; rewrite ?app_nil_r; reflexivity.
  all: reflexivity.
Qed.
End loop.

(** A loop gives back its wakeup descriptor and not its epoll instance, which stays open until
    the process ends. And its thread forgets its loop also when the loop that is destroyed is
    not the one the thread remembers: a second loop in the thread is only reported, and its
    destructor clears the first. *)
Theorem loop_descriptors (os : list event → syscall → answer) (t0 : gmap Z file) `{!FreshFds os t0}
    (self : Z) (l : option Z) (tr : list event) :
  ∃ w p d, does (EventLoop_setup os self l) tr (w, p, Some (default self l)) d ∧
    (existsb fatal d = false → l = None) ∧
    (0 ≤ w → 0 ≤ p → ∃ d', does (EventLoop_dtor os w) (tr ++ d) None d' ∧
       closes_wrongly (table t0 (tr ++ d)) d' = false ∧
       table t0 tr !! p = None ∧ table t0 (tr ++ d ++ d') = <[p := FEpoll]> (table t0 tr)).
Proof.
  destruct (loop_setup_does os self l tr) as (a & b & Ea & Eb & Hd).
  exists (ret a), (ret b), (made_loop a b l). split; [exact Hd|]. split.
  - unfold made_loop. rewrite !existsb_app. destruct l; [|done].
    rewrite bool_decide_true by eauto. cbn. by rewrite !orb_true_r.
  - intros Hw Hp. destruct (loop_setup_table os t0 tr a b l Ea Eb Hw Hp) as (N1 & N2 & Hne & Ht).
    destruct (loop_dtor_does os (ret a) (tr ++ made_loop a b l)) as [c Hc].
    eexists. split; [exact Hc|]. split; [|split; [exact N2|]].
    + rewrite Ht. destruct (ret c <? 0); cbn; by rewrite lookup_insert_ne, lookup_insert_eq by done.
    + rewrite app_assoc, table_app, Ht.
      destruct (ret c <? 0); cbn; by rewrite delete_insert_ne, (delete_insert_id (table t0 tr)) by done.
Qed.
