(* ===== verification/NetServer.v ===== *)
(** * The epoll server: [service/net_server.h/.cpp]

    One thread waits on an epoll instance that watches the listening socket and the clients,
    accepts clients, reads from them and closes them when they are gone. *)
From S2P Require Import Prelude Endian InetAddress Logger Posix.

Definition EPOLLIN : Z := 1.
Definition SOCK_STREAM : Z := 1.
Definition max_events_ : Z := 10.

(** [worker_threads_]: which threads are joinable. *)
Record Server := mkServer {
  server_fd_ : Z; epoll_fd_ : Z; running_ : bool; worker_threads_ : list bool;
}.

Section server.
Context (os : list event → syscall → answer).
#[local] Notation call := (call os).

Definition failed (a : answer) : bool := ret a =? -1.

Definition Server_ctor (port : Z) : io Server :=
  a1 ← call (Socket SOCK_STREAM);
  let s1 := mkServer (ret a1) (-1) false [] in
  if failed a1 then _ ← log LOG_LEVEL_ERROR; mret s1 else
  a2 ← call (Bind (ret a1) (mkAddr AF_INET (host_2_network16 (uintw 16 port)) INADDR_ANY));
  if failed a2 then _ ← log LOG_LEVEL_ERROR; _ ← call (Close (ret a1)); mret s1 else
  a3 ← call (Listen (ret a1) 10);
  if failed a3 then _ ← log LOG_LEVEL_ERROR; _ ← call (Close (ret a1)); mret s1 else
  a4 ← call (EpollCreate1 0);
  let s2 := mkServer (ret a1) (ret a4) false [] in
  if failed a4 then _ ← log LOG_LEVEL_ERROR; _ ← call (Close (ret a1)); mret s2 else
  a5 ← call (EpollAdd (ret a4) (ret a1) EPOLLIN);
  if failed a5
  then _ ← log LOG_LEVEL_ERROR; _ ← call (Close (ret a1)); _ ← call (Close (ret a4)); mret s2
  else _ ← log LOG_LEVEL_INFO; mret s2.

Definition stop (s : Server) : io Server :=
  _ ← log LOG_LEVEL_INFO;
  mret (mkServer (server_fd_ s) (epoll_fd_ s) false (map (λ _, false) (worker_threads_ s))).

Definition Server_dtor (s : Server) : io unit :=
  s1 ← stop s;
  _ ← (if server_fd_ s1 =? -1 then mret () else
       _ ← call (Close (server_fd_ s1)); log LOG_LEVEL_INFO);
  if epoll_fd_ s1 =? -1 then mret () else
  _ ← call (Close (epoll_fd_ s1)); log LOG_LEVEL_INFO.

Definition process_message (client_fd : Z) : io unit :=
  a ← call (Read client_fd 1024);
  if ret a <=? 0 then _ ← log LOG_LEVEL_WARNING; _ ← call (Close client_fd); mret ()
  else log LOG_LEVEL_DEBUG.

(** The body of the loop over the events. *)
Definition handle_event (s : Server) (fd : Z) : io unit :=
  if fd =? server_fd_ s then
    c ← call (Accept (server_fd_ s));
    if failed c then log LOG_LEVEL_ERROR else
    e ← call (EpollAdd (epoll_fd_ s) (ret c) EPOLLIN);
    if failed e then _ ← log LOG_LEVEL_ERROR; _ ← call (Close (ret c)); mret ()
    else log LOG_LEVEL_INFO
  else process_message fd.

Definition handle_events (s : Server) : io unit :=
  a ← call (EpollWait (epoll_fd_ s) max_events_);
  if failed a then log LOG_LEVEL_ERROR
  else each (handle_event s) (take (Z.to_nat (ret a)) (ready a)).

(** [start]; [stopped k] is whether another thread's [stop] is seen before round [k]. [None]:
    still running after [fuel] rounds. *)
Fixpoint start_loop (fuel k : nat) (stopped : nat → bool) (s : Server) : io (option Server) :=
  if stopped k then mret (Some (mkServer (server_fd_ s) (epoll_fd_ s) false (worker_threads_ s))) else
  match fuel with
  | O => mret None
  | S fuel' => _ ← handle_events s; start_loop fuel' (S k) stopped s
  end.
Definition start (fuel : nat) (stopped : nat → bool) (s : Server) : io (option Server) :=
  _ ← log LOG_LEVEL_INFO;
  start_loop fuel 0 stopped (mkServer (server_fd_ s) (epoll_fd_ s) true (worker_threads_ s)).
End server.

(** Makes a call whose answer is known to have failed or not. *)
Ltac answered F := eapply does_bind; [by apply does_call|]; rewrite F.

(** ** What is assumed of epoll *)

(** What an epoll instance watches: a descriptor leaves it when it is closed. *)
Definition watch_step (epfd : Z) (w : gset Z) (e : event) : gset Z :=
  match e with
  | ECall (EpollAdd p fd _) a => if (p =? epfd) && (ret a =? 0) then {[fd]} ∪ w else w
  | ECall (Close fd) _ => w ∖ {[fd]}
  | _ => w
  end.
Definition watched (epfd : Z) (tr : list event) : gset Z := foldl (watch_step epfd) ∅ tr.

Class EpollSystem (os : list event → syscall → answer) := {
  posix_ret tr c : -1 ≤ ret (os tr c);
  posix_add tr p fd ev : ret (os tr (EpollAdd p fd ev)) ≤ 0;
  epoll_bad tr n : ret (os tr (EpollWait (-1) n)) = -1;
  epoll_ready tr p n : Forall (.∈ watched p tr) (ready (os tr (EpollWait p n)));
  epoll_once tr p n : NoDup (ready (os tr (EpollWait p n)));
}.

Lemma watched_app p tr1 tr2 : watched p (tr1 ++ tr2) = foldl (watch_step p) (watched p tr1) tr2.
Proof. apply foldl_app. Qed.

(** ** Serving *)
Section serving.
Context (os : list event → syscall → answer) (t0 : gmap Z file) `{!FreshFds os t0} `{!EpollSystem os}.
Implicit Types (s : Server) (tr d : list event).

(** The descriptors of a working server, beside those in [base] that were open before. *)
Record serving (base : gset Z) s tr : Prop := {
  sv_fds : dom (table t0 tr) = base ∪ {[server_fd_ s; epoll_fd_ s]} ∪ watched (epoll_fd_ s) tr;
  sv_listening : server_fd_ s ∈ watched (epoll_fd_ s) tr;
  sv_epoll : epoll_fd_ s ∉ watched (epoll_fd_ s) tr;
  sv_base : base ## {[server_fd_ s; epoll_fd_ s]} ∪ watched (epoll_fd_ s) tr;
}.

(** What one event may do: nothing is closed that is not open, and no other descriptor
    leaves the epoll instance. *)
Definition keeps (base : gset Z) s tr d (fd : Z) : Prop :=
  serving base s (tr ++ d) ∧ closes_wrongly (table t0 tr) d = false ∧
  watched (epoll_fd_ s) tr ∖ {[fd]} ⊆ watched (epoll_fd_ s) (tr ++ d).

Lemma serving_same base s tr d fd :
  serving base s tr → table (table t0 tr) d = table t0 tr →
  foldl (watch_step (epoll_fd_ s)) (watched (epoll_fd_ s) tr) d = watched (epoll_fd_ s) tr →
  closes_wrongly (table t0 tr) d = false → keeps base s tr d fd.
Proof.
  intros [H1 H2 H3 H4] Ht Hw Hc. unfold keeps. rewrite watched_app, Hw.
  split; [|split; [done | set_solver]]. split; rewrite ?watched_app, ?table_app, ?Ht, ?Hw; done.
Qed.

(** A client that is gone. *)
Lemma serving_close base s tr fd a b :
  serving base s tr → fd ∈ watched (epoll_fd_ s) tr → fd ≠ server_fd_ s →
  keeps base s tr [ECall (Read fd 1024) a; ELog LOG_LEVEL_WARNING; ECall (Close fd) b] fd.
Proof.
  intros [H1 H2 H3 H4] Hfd Hne. unfold keeps. rewrite watched_app.
  assert (Ht : table t0 (tr ++ [ECall (Read fd 1024) a; ELog LOG_LEVEL_WARNING; ECall (Close fd) b]) =
    delete fd (table t0 tr)) by by rewrite table_app.
  split; [|split; [|done]].
  - split; rewrite ?Ht, ?watched_app; simpl; rewrite ?dom_delete_L, ?H1; set_solver.
  - cbn. rewrite orb_false_r. apply bool_decide_eq_false. apply not_eq_None_Some.
    apply elem_of_dom. rewrite H1. set_solver.
Qed.

(** A client that is accepted. *)
Lemma serving_add base s tr a e :
  serving base s tr → os tr (Accept (server_fd_ s)) = a → 0 ≤ ret a → ret e = 0 →
  keeps base s tr [ECall (Accept (server_fd_ s)) a; ECall (EpollAdd (epoll_fd_ s) (ret a) EPOLLIN) e;
                   ELog LOG_LEVEL_INFO] (server_fd_ s).
Proof.
  intros [H1 H2 H3 H4] Ha Hr He.
  assert (Hf : ret a ∉ dom (table t0 tr)).
  { rewrite not_elem_of_dom, <- Ha. apply (fresh_fd tr _ FSocket); [done|]. by rewrite Ha. }
  set (d := [_; _; _]).
  assert (Ht : table t0 (tr ++ d) = <[ret a := FSocket]> (table t0 tr)).
  { rewrite table_app. cbn. by destruct (Z.leb_spec 0 (ret a)); [|lia]. }
  assert (Hw : watched (epoll_fd_ s) (tr ++ d) = {[ret a]} ∪ watched (epoll_fd_ s) tr).
  { rewrite watched_app. cbn. by rewrite Z.eqb_refl, He. }
  unfold keeps. rewrite Hw. split; [|split; [done | set_solver]].
  split; rewrite ?Ht, ?Hw, ?dom_insert_L; rewrite H1 in Hf; set_solver.
Qed.

(** A client that was accepted and could not be watched. *)
Lemma serving_refuse base s tr a e b :
  serving base s tr → os tr (Accept (server_fd_ s)) = a → 0 ≤ ret a → ret e = -1 →
  keeps base s tr [ECall (Accept (server_fd_ s)) a; ECall (EpollAdd (epoll_fd_ s) (ret a) EPOLLIN) e;
                   ELog LOG_LEVEL_ERROR; ECall (Close (ret a)) b] (server_fd_ s).
Proof.
  intros Hs Ha Hr He. pose proof Hs as [H1 H2 H3 H4].
  assert (Hf : table t0 tr !! ret a = None).
  { rewrite <- Ha. apply (fresh_fd tr _ FSocket); [done|]. by rewrite Ha. }
  assert (Hf' : ret a ∉ watched (epoll_fd_ s) tr).
  { intros Hin. apply not_elem_of_dom in Hf. rewrite H1 in Hf. set_solver. }
  apply serving_same; [done| | |]; cbn; destruct (Z.leb_spec 0 (ret a)); try lia.
  - by apply delete_insert_id.
  - rewrite He, andb_false_r. set_solver.
  - rewrite lookup_insert_eq. done.
Qed.

Lemma handle_event_keeps base s tr fd :
  serving base s tr → fd ∈ watched (epoll_fd_ s) tr →
  ∃ d, does (handle_event os s fd) tr () d ∧ keeps base s tr d fd.
Proof.
  intros Hs Hfd. unfold handle_event. destruct (Z.eqb_spec fd (server_fd_ s)) as [->|Hne].
  - remember (os tr (Accept (server_fd_ s))) as a eqn:Ea. symmetry in Ea.
    pose proof (posix_ret tr (Accept (server_fd_ s))) as Hret. rewrite Ea in Hret.
    destruct (failed a) eqn:Fa.
    + eexists. split.
      * answered Fa. apply does_log.
      * unfold failed in Fa. apply serving_same; [done| |done|done]. cbn.
        by destruct (Z.leb_spec 0 (ret a)); [lia|].
    + unfold failed in Fa.
      remember (os (tr ++ [ECall (Accept (server_fd_ s)) a]) (EpollAdd (epoll_fd_ s) (ret a) EPOLLIN)) as e eqn:Ee.
      symmetry in Ee. pose proof (posix_ret (tr ++ [ECall (Accept (server_fd_ s)) a])
        (EpollAdd (epoll_fd_ s) (ret a) EPOLLIN)) as He. rewrite Ee in He.
      pose proof (posix_add (tr ++ [ECall (Accept (server_fd_ s)) a]) (epoll_fd_ s) (ret a) EPOLLIN) as He2.
      rewrite Ee in He2.
      destruct (failed e) eqn:Fe.
      * eexists. split.
        -- answered (Fa : failed _ = false).
           answered Fe. run_io. reflexivity.
        -- cbn [app]. unfold failed in Fe. apply serving_refuse; [done | done | lia | lia].
      * eexists. split.
        -- answered (Fa : failed _ = false).
           answered Fe. apply does_log.
        -- cbn [app]. unfold failed in Fe. apply serving_add; [done | done | lia | lia].
  - unfold process_message. remember (os tr (Read fd 1024)) as a eqn:Ea. symmetry in Ea.
    destruct (ret a <=? 0) eqn:Fa.
    + eexists. split.
      * answered Fa. run_io. reflexivity.
      * cbn [app]. by apply serving_close.
    + eexists. split.
      * answered Fa. apply does_log.
      * by apply serving_same.
Qed.

(** A batch of events. *)
Lemma each_keeps base s l tr :
  serving base s tr → Forall (.∈ watched (epoll_fd_ s) tr) l → NoDup l →
  ∃ d, does (each (handle_event os s) l) tr () d ∧ serving base s (tr ++ d) ∧
    closes_wrongly (table t0 tr) d = false.
Proof.
  intros Hs Hl Hnd. revert tr Hs Hl. induction Hnd as [|fd l Hfd Hnd IH]; intros tr Hs Hl.
  - exists []. split; [apply does_ret|]. by rewrite app_nil_r.
  - apply Forall_cons in Hl as [Hin Hl].
    destruct (handle_event_keeps base s tr fd Hs Hin) as (d & Hd & Hs' & Hc & Hw).
    destruct (IH (tr ++ d) Hs') as (d' & Hd' & Hs'' & Hc').
    { rewrite Forall_forall in *. intros x Hx. apply Hw. specialize (Hl x Hx). set_solver. }
    exists (d ++ d'). split; [by eapply does_bind|]. rewrite app_assoc. split; [done|].
    rewrite closes_wrongly_app, Hc, <- table_app. done.
Qed.

Lemma handle_events_keeps base s tr :
  serving base s tr →
  ∃ d, does (handle_events os s) tr () d ∧ serving base s (tr ++ d) ∧
    closes_wrongly (table t0 tr) d = false.
Proof.
  intros Hs. unfold handle_events.
  remember (os tr (EpollWait (epoll_fd_ s) max_events_)) as a eqn:Ea.
  set (d := [ECall (EpollWait (epoll_fd_ s) max_events_) a]).
  assert (Hs1 : ∀ d2 : LOG_LEVEL, keeps base s tr (d ++ [ELog d2]) 0 ∧ keeps base s tr d 0).
  { intros d2. split; by apply serving_same. }
  destruct (failed a) eqn:Fa.
  - exists (d ++ [ELog LOG_LEVEL_ERROR]). split.
    + answered Fa. apply does_log.
    + destruct (Hs1 LOG_LEVEL_ERROR) as [(? & ? & _) _]. done.
  - destruct (Hs1 LOG_LEVEL_ERROR) as [_ (Hs2 & Hc & _)].
    pose proof (epoll_ready tr (epoll_fd_ s) max_events_) as Hr. rewrite <- Ea in Hr.
    pose proof (epoll_once tr (epoll_fd_ s) max_events_) as Hn. rewrite <- Ea in Hn.
    destruct (each_keeps base s (take (Z.to_nat (ret a)) (ready a)) (tr ++ d) Hs2) as (d' & Hd' & Hs3 & Hc3).
    { rewrite watched_app. simpl. by apply Forall_take. }
    { rewrite <- (take_drop (Z.to_nat (ret a)) (ready a)) in Hn. by apply NoDup_app in Hn as [? _]. }
    exists (d ++ d'). split; [eapply does_bind; [by apply does_call|]; by rewrite Fa|].
    rewrite app_assoc. split; [done|]. rewrite closes_wrongly_app, Hc, <- table_app. done.
Qed.

Lemma serve_keeps base s n k stopped tr :
  serving base s tr →
  ∃ r d, does (start_loop os n k stopped s) tr r d ∧ serving base s (tr ++ d) ∧
    closes_wrongly (table t0 tr) d = false.
Proof.
  revert k tr. induction n as [|n IH]; intros k tr Hs; cbn [start_loop]; destruct (stopped k).
  1-3: eexists _, []; split; [apply does_ret | by rewrite app_nil_r].
  destruct (handle_events_keeps base s tr Hs) as (d & Hd & Hs' & Hc).
  destruct (IH (S k) (tr ++ d) Hs') as (r & d' & Hd' & Hs'' & Hc').
  exists r, (d ++ d'). split; [by eapply does_bind|]. rewrite app_assoc. split; [done|].
  rewrite closes_wrongly_app, Hc, <- table_app. done.
Qed.

(** ** The constructor and the destructor *)
Definition bind_call (port fd : Z) : syscall :=
  Bind fd (mkAddr AF_INET (host_2_network16 (uintw 16 port)) INADDR_ANY).

(** How the constructor can end. *)
Inductive ctor_result (port : Z) : Server → list event → Prop :=
| ctor_no_socket a1 : failed a1 = true →
    ctor_result port (mkServer (ret a1) (-1) false []) [ECall (Socket SOCK_STREAM) a1; ELog LOG_LEVEL_ERROR]
| ctor_no_bind a1 a2 b : failed a1 = false → failed a2 = true →
    ctor_result port (mkServer (ret a1) (-1) false [])
      [ECall (Socket SOCK_STREAM) a1; ECall (bind_call port (ret a1)) a2; ELog LOG_LEVEL_ERROR;
       ECall (Close (ret a1)) b]
| ctor_no_listen a1 a2 a3 b : failed a1 = false → failed a2 = false → failed a3 = true →
    ctor_result port (mkServer (ret a1) (-1) false [])
      [ECall (Socket SOCK_STREAM) a1; ECall (bind_call port (ret a1)) a2; ECall (Listen (ret a1) 10) a3;
       ELog LOG_LEVEL_ERROR; ECall (Close (ret a1)) b]
| ctor_no_epoll a1 a2 a3 a4 b : failed a1 = false → failed a2 = false → failed a3 = false → failed a4 = true →
    ctor_result port (mkServer (ret a1) (ret a4) false [])
      [ECall (Socket SOCK_STREAM) a1; ECall (bind_call port (ret a1)) a2; ECall (Listen (ret a1) 10) a3;
       ECall (EpollCreate1 0) a4; ELog LOG_LEVEL_ERROR; ECall (Close (ret a1)) b]
| ctor_no_watch a1 a2 a3 a4 a5 b b2 :
    failed a1 = false → failed a2 = false → failed a3 = false → failed a4 = false → failed a5 = true →
    ret a1 ≠ ret a4 →
    ctor_result port (mkServer (ret a1) (ret a4) false [])
      [ECall (Socket SOCK_STREAM) a1; ECall (bind_call port (ret a1)) a2; ECall (Listen (ret a1) 10) a3;
       ECall (EpollCreate1 0) a4; ECall (EpollAdd (ret a4) (ret a1) EPOLLIN) a5; ELog LOG_LEVEL_ERROR;
       ECall (Close (ret a1)) b; ECall (Close (ret a4)) b2]
| ctor_done a1 a2 a3 a4 a5 :
    failed a1 = false → failed a2 = false → failed a3 = false → failed a4 = false → failed a5 = false →
    ret a1 ≠ ret a4 → ret a5 = 0 →
    ctor_result port (mkServer (ret a1) (ret a4) false [])
      [ECall (Socket SOCK_STREAM) a1; ECall (bind_call port (ret a1)) a2; ECall (Listen (ret a1) 10) a3;
       ECall (EpollCreate1 0) a4; ECall (EpollAdd (ret a4) (ret a1) EPOLLIN) a5; ELog LOG_LEVEL_INFO].

Lemma not_failed tr c a : os tr c = a → failed a = false → 0 ≤ ret a.
Proof. intros <- H. unfold failed in H. pose proof (posix_ret tr c). lia. Qed.

(** The descriptors it keeps are new. *)
Definition new_fds s tr : Prop :=
  (server_fd_ s ≠ -1 → 0 ≤ server_fd_ s ∧ table t0 tr !! server_fd_ s = None) ∧
  (epoll_fd_ s ≠ -1 → 0 ≤ epoll_fd_ s ∧ table t0 tr !! epoll_fd_ s = None).

Lemma epoll_fd_new port tr a1 a2 a3 :
  os tr (Socket SOCK_STREAM) = a1 → 0 ≤ ret a1 →
  let tr3 := ((tr ++ [ECall (Socket SOCK_STREAM) a1]) ++ [ECall (bind_call port (ret a1)) a2]) ++
             [ECall (Listen (ret a1) 10) a3] in
  0 ≤ ret (os tr3 (EpollCreate1 0)) →
  ret a1 ≠ ret (os tr3 (EpollCreate1 0)) ∧ table t0 tr !! ret (os tr3 (EpollCreate1 0)) = None.
Proof.
  intros E1 H1 tr3 H4. pose proof (fresh_fd tr3 (EpollCreate1 0) FEpoll eq_refl H4) as Hf.
  assert (Ht : table t0 tr3 = <[ret a1 := FSocket]> (table t0 tr)).
  { unfold tr3. rewrite !table_app. cbn. by destruct (Z.leb_spec 0 (ret a1)); [|lia]. }
  rewrite Ht in Hf. by apply lookup_insert_None in Hf as [? ?].
Qed.

Lemma ctor_does port tr :
  ∃ s d, does (Server_ctor os port) tr s d ∧ ctor_result port s d ∧ new_fds s tr.
Proof.
  unfold Server_ctor.
  remember (os tr (Socket SOCK_STREAM)) as a1 eqn:E1. symmetry in E1. destruct (failed a1) eqn:F1.
  { do 2 eexists. split; [answered F1; run_io|].
    split; [by apply ctor_no_socket|]. unfold failed in F1. split; simpl; lia. }
  pose proof (not_failed _ _ _ E1 F1) as H1.
  assert (Hn1 : table t0 tr !! ret a1 = None).
  { rewrite <- E1 in *. by apply (fresh_fd tr _ FSocket). }
  assert (Hnew : new_fds (mkServer (ret a1) (-1) false []) tr) by (by split).
  set (tr1 := tr ++ [ECall (Socket SOCK_STREAM) a1]).
  remember (os tr1 (bind_call port (ret a1))) as a2 eqn:E2. symmetry in E2.
  set (tr2 := tr1 ++ [ECall (bind_call port (ret a1)) a2]).
  destruct (failed a2) eqn:F2.
  { do 2 eexists. split.
    - answered F1. answered F2. run_io. reflexivity.
    - split; [by apply ctor_no_bind | done]. }
  remember (os tr2 (Listen (ret a1) 10)) as a3 eqn:E3. symmetry in E3.
  set (tr3 := tr2 ++ [ECall (Listen (ret a1) 10) a3]).
  destruct (failed a3) eqn:F3.
  { do 2 eexists. split.
    - answered F1. answered F2. answered F3. run_io. reflexivity.
    - split; [by apply ctor_no_listen | done]. }
  pose proof (epoll_fd_new port tr a1 a2 a3 E1 H1) as Hep. cbv zeta in Hep. fold tr1 tr2 tr3 in Hep.
  remember (os tr3 (EpollCreate1 0)) as a4 eqn:E4. symmetry in E4.
  set (tr4 := tr3 ++ [ECall (EpollCreate1 0) a4]).
  assert (Hnew2 : new_fds (mkServer (ret a1) (ret a4) false []) tr).
  { split; simpl; [done|]. intros Hne. pose proof (posix_ret tr3 (EpollCreate1 0)) as Hr. rewrite E4 in Hr.
    split; [lia|]. apply Hep. lia. }
  destruct (failed a4) eqn:F4.
  { do 2 eexists. split.
    - answered F1. answered F2. answered F3.
      answered F4. run_io. reflexivity.
    - split; [by apply ctor_no_epoll | done]. }
  destruct (Hep (not_failed _ _ _ E4 F4)) as [Hne _].
  remember (os tr4 (EpollAdd (ret a4) (ret a1) EPOLLIN)) as a5 eqn:E5. symmetry in E5.
  destruct (failed a5) eqn:F5; do 2 eexists; split.
  - answered F1. answered F2. answered F3.
    answered F4. answered F5. run_io; reflexivity.
  - split; [by apply ctor_no_watch | done].
  - answered F1. answered F2. answered F3.
    answered F4. answered F5. run_io; reflexivity.
  - split; [|done]. apply ctor_done; try done. pose proof (not_failed _ _ _ E5 F5).
    pose proof (posix_add tr4 (ret a4) (ret a1) EPOLLIN) as H5. rewrite E5 in H5. lia.
Qed.

Definition closing (fd : Z) (b : answer) : list event :=
  if fd =? -1 then [] else [ECall (Close fd) b; ELog LOG_LEVEL_INFO].

Lemma closing_does fd tr :
  ∃ b, does (if fd =? -1 then mret () else _ ← call os (Close fd); log LOG_LEVEL_INFO) tr () (closing fd b).
Proof.
  exists (os tr (Close fd)). unfold closing. destruct (fd =? -1); [apply does_ret|].
  eapply does_eq; [eapply does_bind; [by apply does_call | apply does_log] | done].
Qed.

Lemma dtor_does s tr :
  ∃ b1 b2, does (Server_dtor os s) tr ()
    ([ELog LOG_LEVEL_INFO] ++ closing (server_fd_ s) b1 ++ closing (epoll_fd_ s) b2).
Proof.
  destruct (closing_does (server_fd_ s) (tr ++ [ELog LOG_LEVEL_INFO])) as (b1 & H1).
  destruct (closing_does (epoll_fd_ s) ((tr ++ [ELog LOG_LEVEL_INFO]) ++ closing (server_fd_ s) b1)) as (b2 & H2).
  exists b1, b2. unfold Server_dtor, stop. eapply does_bind.
  - eapply does_eq; [run_io | reflexivity].
  - cbn [app]. by eapply does_bind.
Qed.

(** The constructor's last line says that it listens. *)
Definition initialized d : bool :=
  match last d with Some (ELog LOG_LEVEL_INFO) => true | _ => false end.

(** A constructor that failed behind [socket] has closed what it keeps. *)
Lemma ctor_dtor port s d tr b1 b2 :
  ctor_result port s d → new_fds s tr →
  closes_wrongly (table t0 tr) (d ++ [ELog LOG_LEVEL_INFO] ++ closing (server_fd_ s) b1 ++ closing (epoll_fd_ s) b2) =
  negb (initialized d) && negb (server_fd_ s =? -1).
Proof.
  intros Hc [Hn1 Hn2].
  assert (Hstep : ∀ a, failed a = false → (server_fd_ s = ret a → 0 ≤ ret a)).
  { intros a Fa E. unfold failed in Fa. rewrite <- E. apply Hn1. lia. }
  assert (Hstep2 : ∀ a, failed a = false → (epoll_fd_ s = ret a → 0 ≤ ret a)).
  { intros a Fa E. unfold failed in Fa. rewrite <- E. apply Hn2. lia. }
  destruct Hc as [a1 F1|a1 a2 b F1 F2|a1 a2 a3 b F1 F2 F3|a1 a2 a3 a4 b F1 F2 F3 F4
    |a1 a2 a3 a4 a5 b b' F1 F2 F3 F4 F5 Hne|a1 a2 a3 a4 a5 F1 F2 F3 F4 F5 Hne H5];
    unfold closing, initialized; cbn [server_fd_ epoll_fd_ last] in *.
  - unfold failed in F1. rewrite F1, andb_false_r. cbn. done.
  - pose proof (Hstep _ F1 eq_refl). unfold failed in F1. rewrite F1. cbn.
    destruct (Z.leb_spec 0 (ret a1)); [|lia]. by simplify_map_eq.
  - pose proof (Hstep _ F1 eq_refl). unfold failed in F1. rewrite F1. cbn.
    destruct (Z.leb_spec 0 (ret a1)); [|lia]. by simplify_map_eq.
  - pose proof (Hstep _ F1 eq_refl). unfold failed in F1, F4. rewrite F1, F4. cbn.
    destruct (Z.leb_spec 0 (ret a1)); [|lia]. destruct (Z.leb_spec 0 (ret a4)); [lia|]. by simplify_map_eq.
  - pose proof (Hstep _ F1 eq_refl). pose proof (Hstep2 _ F4 eq_refl). unfold failed in F1, F4.
    rewrite F1, F4. cbn. destruct (Z.leb_spec 0 (ret a1)); [|lia]. destruct (Z.leb_spec 0 (ret a4)); [|lia].
    by simplify_map_eq.
  - pose proof (Hstep _ F1 eq_refl). pose proof (Hstep2 _ F4 eq_refl). unfold failed in F1, F4.
    rewrite F1, F4. cbn. destruct (Z.leb_spec 0 (ret a1)); [|lia]. destruct (Z.leb_spec 0 (ret a4)); [|lia].
    by simplify_map_eq.
Qed.

(** Without an epoll instance every round fails at once. *)
Lemma spin s n k tr stopped :
  epoll_fd_ s = -1 → (∀ j, stopped j = false) →
  ∃ d, does (start_loop os n k stopped s) tr None d ∧
    calls_of d = replicate n (EpollWait (-1) max_events_).
Proof.
  intros He Hst. revert k tr. induction n as [|n IH]; intros k tr; cbn [start_loop]; rewrite Hst.
  - exists []. split; [apply does_ret | done].
  - set (a := os tr (EpollWait (-1) max_events_)).
    set (d := [ECall (EpollWait (-1) max_events_) a] ++ [ELog LOG_LEVEL_ERROR]).
    destruct (IH (S k) (tr ++ d)) as (d' & Hd' & Hc').
    exists (d ++ d'). split; [|by rewrite calls_of_app, Hc'].
    eapply does_bind; [|exact Hd']. unfold handle_events. rewrite He.
    assert (Fa : failed a = true) by (unfold failed, a; by rewrite epoll_bad). answered Fa. apply does_log.
Qed.

(** A constructor that went through leaves a working server. *)
Lemma ctor_serving port s d :
  ctor_result port s d → new_fds s [] → initialized d = true → serving (dom t0) s d.
Proof.
  intros Hc [Hn1 Hn2] Hi.
  destruct Hc as [| | | | |a1 a2 a3 a4 a5 F1 F2 F3 F4 F5 Hne H5]; try done. simpl in Hn1, Hn2.
  unfold failed in *. destruct (Hn1 ltac:(lia)) as [H1 N1]. destruct (Hn2 ltac:(lia)) as [H4 N4].
  assert (Hw : watched (ret a4) [ECall (Socket SOCK_STREAM) a1; ECall (bind_call port (ret a1)) a2;
    ECall (Listen (ret a1) 10) a3; ECall (EpollCreate1 0) a4; ECall (EpollAdd (ret a4) (ret a1) EPOLLIN) a5;
    ELog LOG_LEVEL_INFO] = {[ret a1]}).
  { cbn. rewrite Z.eqb_refl, H5. cbn. set_solver. }
  apply not_elem_of_dom in N1, N4.
  split; cbn [server_fd_ epoll_fd_]; rewrite ?Hw; [|set_solver|set_solver|set_solver].
  cbn. destruct (Z.leb_spec 0 (ret a1)); [|lia]. destruct (Z.leb_spec 0 (ret a4)); [|lia].
  rewrite !dom_insert_L. set_solver.
Qed.

(** Destroying a working server. *)
Lemma dtor_serving base s tr b1 b2 :
  serving base s tr → server_fd_ s ≠ -1 → epoll_fd_ s ≠ -1 → server_fd_ s ≠ epoll_fd_ s →
  let d := [ELog LOG_LEVEL_INFO] ++ closing (server_fd_ s) b1 ++ closing (epoll_fd_ s) b2 in
  closes_wrongly (table t0 tr) d = false ∧
  dom (table t0 (tr ++ d)) = base ∪ (watched (epoll_fd_ s) tr ∖ {[server_fd_ s]}).
Proof.
  intros [H1 H2 H3 H4] N1 N2 Hne d. subst d. unfold closing.
  destruct (Z.eqb_spec (server_fd_ s) (-1)); [done|]. destruct (Z.eqb_spec (epoll_fd_ s) (-1)); [done|].
  rewrite table_app. cbn. rewrite lookup_delete_ne, !dom_delete_L, H1 by done. split.
  - assert (∀ fd, fd ∈ dom (table t0 tr) → bool_decide (table t0 tr !! fd = None) = false) as Hin.
    { intros fd Hfd. apply bool_decide_eq_false, not_eq_None_Some. by apply elem_of_dom. }
    rewrite !Hin by (rewrite H1; set_solver). done.
  - set_solver.
Qed.
End serving.

Lemma served_fds (base w : gset Z) (fd p : Z) :
  base ∪ {[fd; p]} ∪ w = base ∪ {[fd; p]} ∪ w ∖ {[fd]}.
Proof. apply set_eq. intros x. destruct (decide (x = fd)); set_solver. Qed.

(** A constructor that went wrong: what it and the destructor do, and what [start] would. *)
Lemma failed_server (os : list event → syscall → answer) (t0 : gmap Z file)
    `{!FreshFds os t0} `{!EpollSystem os} port s d :
  ctor_result port s d → new_fds t0 s [] → initialized d = false →
  ∃ d2, does (Server_dtor os s) d () d2 ∧
    closes_wrongly t0 d = false ∧ closes_wrongly t0 (d ++ d2) = negb (server_fd_ s =? -1) ∧
    (epoll_fd_ s = -1 → ∀ n, ∃ d3, does (start os n (λ _, false) s) d None d3 ∧
       calls_of d3 = replicate n (EpollWait (-1) max_events_)).
Proof.
  intros Hc Hn Hi. destruct (dtor_does os s d) as (b1 & b2 & Hd').
  pose proof (ctor_dtor t0 port s d [] b1 b2 Hc Hn) as Hw. rewrite Hi in Hw.
  eexists _. split; [exact Hd'|]. split; [|split; [exact Hw|]].
  - destruct Hn as [Hn1 Hn2]. unfold failed in *.
    destruct Hc as [a1 F1|a1 a2 b F1 F2|a1 a2 a3 b F1 F2 F3|a1 a2 a3 a4 b F1 F2 F3 F4
      |a1 a2 a3 a4 a5 b b' F1 F2 F3 F4 F5 Hne|a1 a2 a3 a4 a5 F1 F2 F3 F4 F5 Hne H5];
      cbn [server_fd_ epoll_fd_] in *; try done; destruct (Hn1 ltac:(unfold failed in *; lia)) as [H1 _];
      try destruct (Hn2 ltac:(unfold failed in *; lia)) as [H4 _]; cbn;
      destruct (Z.leb_spec 0 (ret a1)); try lia; try destruct (Z.leb_spec 0 (ret a4)); try lia;
      unfold failed in *; try lia; by simplify_map_eq.
  - intros He n. destruct (spin os (mkServer (server_fd_ s) (epoll_fd_ s) true (worker_threads_ s)) n 0
      (d ++ [ELog LOG_LEVEL_INFO]) (λ _, false)) as (d2 & H2 & Hc2); [done | done |].
    exists ([ELog LOG_LEVEL_INFO] ++ d2). split; [|by rewrite calls_of_app].
    eapply does_bind; [apply does_log | exact H2].
Qed.

(** No call of the trace failed. *)
Definition all_well (d : list event) : bool :=
  forallb (λ e, match e with ECall _ a => negb (failed a) | _ => true end) d.

Lemma ctor_well port s d : ctor_result port s d → initialized d = all_well d.
Proof.
  intros []; unfold initialized, all_well; cbn; rewrite ?andb_true_r, ?andb_false_r;
    repeat match goal with H : failed _ = _ |- _ => rewrite H; clear H end; by rewrite ?andb_false_r.
Qed.

(** C37. The descriptors of the server. If every call of the constructor succeeds, then over
    any number of rounds, whatever is ready and whatever the system answers, no descriptor is
    closed that is not open, the open ones are the listening socket, the epoll instance and
    the clients that are being watched, and an accepted client is either watched or closed.
    The destructor closes the first two; every client that is still connected stays open.
    If a call of the constructor fails, the constructor closes what it opened but keeps the
    numbers: the destructor then closes the listening descriptor a second time, by when it
    may be another thread's file, unless it was [socket] that failed. Started all the same
    without an epoll instance, the server spins: every round is one failed [epoll_wait], and
    the loop does not end. *)
Theorem server_descriptors (os : list event → syscall → answer) (t0 : gmap Z file)
    `{!FreshFds os t0} `{!EpollSystem os} (port : Z) (n : nat) (stopped : nat → bool) :
  ∃ s d, does (Server_ctor os port) [] s d ∧
    (all_well d = true → ∃ r d1 d2, does (start os n stopped s) d r d1 ∧
       does (Server_dtor os s) (d ++ d1) () d2 ∧
       closes_wrongly t0 (d ++ d1 ++ d2) = false ∧
       let clients := watched (epoll_fd_ s) (d ++ d1) ∖ {[server_fd_ s]} in
       dom (table t0 (d ++ d1)) = dom t0 ∪ {[server_fd_ s; epoll_fd_ s]} ∪ clients ∧
       dom (table t0 (d ++ d1 ++ d2)) = dom t0 ∪ clients) ∧
    (all_well d = false → ∃ d2, does (Server_dtor os s) d () d2 ∧
       closes_wrongly t0 d = false ∧ closes_wrongly t0 (d ++ d2) = negb (server_fd_ s =? -1) ∧
       (epoll_fd_ s = -1 → ∃ d3, does (start os n (λ _, false) s) d None d3 ∧
          calls_of d3 = replicate n (EpollWait (-1) max_events_))).
Proof.
  destruct (ctor_does os t0 port []) as (s & d & Hd & Hc & Hn). exists s, d. split; [exact Hd|].
  rewrite <- (ctor_well port s d Hc). split; intros Hi.
  2: { destruct (failed_server os t0 port s d Hc Hn Hi) as (d2 & H1 & H2 & H3 & H4).
       exists d2. split; [exact H1|]. split; [exact H2|]. split; [exact H3|]. intros He. by apply H4. }
  pose proof (ctor_serving os t0 port s d Hc Hn Hi) as Hs.
  assert (Hfd : server_fd_ s ≠ -1 ∧ epoll_fd_ s ≠ -1 ∧ server_fd_ s ≠ epoll_fd_ s ∧
    closes_wrongly t0 d = false).
  { destruct Hc as [| | | | |a1 a2 a3 a4 a5 F1 F2 F3 F4]; try done. unfold failed in *. simpl. lia. }
  destruct Hfd as (N1 & N2 & Hne & Hc0).
  set (s' := mkServer (server_fd_ s) (epoll_fd_ s) true (worker_threads_ s)).
  assert (Hs1 : serving t0 (dom t0) s' (d ++ [ELog LOG_LEVEL_INFO])).
  { destruct (serving_same os t0 (dom t0) s d [ELog LOG_LEVEL_INFO] 0 Hs) as ([] & _); done. }
  destruct (serve_keeps os t0 (dom t0) s' n 0 stopped (d ++ [ELog LOG_LEVEL_INFO]) Hs1) as (r & d1 & H1 & Hs2 & Hc1).
  rewrite <- app_assoc in Hs2. set (d1' := [ELog LOG_LEVEL_INFO] ++ d1) in Hs2.
  destruct (dtor_does os s (d ++ d1')) as (b1 & b2 & H2).
  assert (Hs3 : serving t0 (dom t0) s (d ++ d1')) by (by destruct Hs2).
  pose proof (dtor_serving os t0 (dom t0) s (d ++ d1') b1 b2 Hs3 N1 N2 Hne) as [Hc2 Hdom].
  eexists r, d1', _. split; [eapply does_bind; [apply does_log | exact H1]|]. split; [exact H2|].
  split; [|split].
  - rewrite app_assoc, closes_wrongly_app, Hc2, orb_false_r.
    unfold d1'. rewrite app_assoc, closes_wrongly_app, Hc1, closes_wrongly_app, Hc0. done.
  - by rewrite (sv_fds _ _ _ _ Hs3), served_fds.
  - rewrite app_assoc. exact Hdom.
Qed.

(** ** Examples *)
Module Loopback.
Definition std_fds : gmap Z file := {[ 0 := FPath []; 1 := FPath []; 2 := FPath [] ]}.

(** Everything that is watched is ready, reading yields one byte; [bad] calls fail. *)
Definition os (bad : syscall → bool) (tr : list event) (c : syscall) : answer :=
  if bad c then answers (-1) else
  match c with
  | EpollWait p n =>
      if p =? -1 then answers (-1) else
      let r := elements (watched p tr) in mkAns (Z.of_nat (length r)) 0 zero_addr 0 [] r
  | Read _ _ => answers 1
  | _ => example_os std_fds tr c
  end.

#[export] Instance os_fresh bad : FreshFds (os bad) std_fds.
Proof.
  intros tr c f Hc. unfold os. destruct (bad c); [simpl; lia|].
  destruct c; try done; intros _; by apply (example_os_fresh std_fds tr _ f); cbn; try apply above_nonneg.
Qed.

#[export] Instance os_epoll bad : EpollSystem (os bad).
Proof.
  split.
  - intros tr c. unfold os. destruct (bad c); [simpl; lia|].
    destruct c; unfold example_os; simpl; pose proof (above_nonneg (table std_fds tr)); try lia.
    case_match; simpl; lia.
  - intros. unfold os. destruct (bad _); simpl; lia.
  - intros. unfold os. by destruct (bad _).
  - intros. unfold os. destruct (bad _); [constructor|]. case_match; [constructor|].
    apply Forall_forall. intros x. simpl. by rewrite elem_of_elements.
  - intros. unfold os. destruct (bad _); [constructor|]. case_match; [constructor|]. simpl. apply NoDup_elements.
Qed.
End Loopback.
Import Loopback.

(** A server that works, and one whose [bind] fails. *)
Lemma server_descriptors_witness :
  (∃ s d, does (Server_ctor (Loopback.os (λ _, false)) 8080) [] s d ∧ all_well d = true ∧
    ∃ r d1 d2, does (start (Loopback.os (λ _, false)) 3 (λ _, false) s) d r d1 ∧
      closes_wrongly Loopback.std_fds (d ++ d1 ++ d2) = false ∧
      dom (table Loopback.std_fds (d ++ d1 ++ d2)) =
        dom Loopback.std_fds ∪ (watched (epoll_fd_ s) (d ++ d1) ∖ {[server_fd_ s]})) ∧
  (let os := Loopback.os (λ c, match c with Bind _ _ => true | _ => false end) in
   ∃ s d d2, does (Server_ctor os 8080) [] s d ∧ does (Server_dtor os s) d () d2 ∧
     closes_wrongly Loopback.std_fds (d ++ d2) = true).
Proof.
  split.
  - destruct (server_descriptors (Loopback.os (λ _, false)) Loopback.std_fds 8080 3 (λ _, false))
      as (s & d & H1 & H & _).
    exists s, d. split; [exact H1|].
    assert (Hi : all_well d = true).
    { unfold does in H1. vm_compute in H1. injection H1 as _ <-. reflexivity. }
    split; [exact Hi|]. destruct (H Hi) as (r & d1 & d2 & H2 & _ & H3 & _ & H4).
    exists r, d1, d2. split; [exact H2|]. split; [exact H3 | exact H4].
  - intros os. destruct (server_descriptors os Loopback.std_fds 8080 3 (λ _, false)) as (s & d & H1 & _ & H).
    assert (Hd : all_well d = false ∧ server_fd_ s ≠ -1).
    { unfold does, os in H1. vm_compute in H1. injection H1 as <- <-. done. }
    destruct Hd as [Hi Hs]. destruct (H Hi) as (d2 & H2 & _ & H3 & _). exists s, d, d2.
    split; [exact H1|]. split; [exact H2|]. rewrite H3. by destruct (Z.eqb_spec (server_fd_ s) (-1)).
Defined.
