(* ===== verification/ThreadPool.v ===== *)
(** * The thread pool: [service/whisp_thread_pool.h], [service/whisp_thread_pool.cpp]

    Workers share a queue of tasks under a mutex. A worker's turn is two steps: it takes a
    task (or ends) inside the critical section, and finishes it outside; any thread, also a
    task, may submit tasks in between. Exceptions of tasks are caught by the wrapper that
    [enqueue] puts around them. *)
From S2P Require Import Prelude.

Section pool.
Context {Task : Type}.

(** A worker's thread function: at the wait, running a task, or returned. *)
Inductive worker := Waiting | Running (t : Task) | Exited.

Record WhispThreadPool := mkTP {
  workers : list (worker * bool);      (* with: the std::thread has been joined *)
  tasks : list Task;
  stop : bool;
  submitted : list Task;               (* history: every task accepted *)
  taken : list Task;                   (* history: every task taken, in order *)
  finished : list Task;
}.

Definition spawn (n : nat) : list (worker * bool) := replicate n (Waiting, false).

Definition WhispThreadPool_ctor (num_threads : nat) : WhispThreadPool :=
  mkTP (spawn num_threads) [] false [] [] [].

Definition enqueue (t : Task) (p : WhispThreadPool) : outcome WhispThreadPool :=
  if stop p then Stop RuntimeError
  else Ok (mkTP (workers p) (tasks p ++ [t]) (stop p) (submitted p ++ [t]) (taken p) (finished p)).

Definition set_worker (i : nat) (w : worker) (p : WhispThreadPool) : WhispThreadPool :=
  mkTP (alter (λ x, (w, x.2)) i (workers p)) (tasks p) (stop p) (submitted p) (taken p) (finished p).
Definition set_stop (b : bool) (p : WhispThreadPool) : WhispThreadPool :=
  mkTP (workers p) (tasks p) b (submitted p) (taken p) (finished p).
Definition state_of (i : nat) (p : WhispThreadPool) : option worker := fst <$> workers p !! i.

(** The critical section of worker [i]: [None] while it waits on the condition. *)
Definition worker_take (i : nat) (p : WhispThreadPool) : option WhispThreadPool :=
  match state_of i p, tasks p with
  | Some Waiting, [] => if stop p then Some (set_worker i Exited p) else None
  | Some Waiting, t :: ts =>
      Some (set_worker i (Running t)
              (mkTP (workers p) ts (stop p) (submitted p) (taken p ++ [t]) (finished p)))
  | _, _ => None
  end.

Definition worker_finish (i : nat) (p : WhispThreadPool) : option WhispThreadPool :=
  match state_of i p with
  | Some (Running t) =>
      Some (set_worker i Waiting
              (mkTP (workers p) (tasks p) (stop p) (submitted p) (taken p) (finished p ++ [t])))
  | _ => None
  end.

Inductive pool_step : WhispThreadPool → WhispThreadPool → Prop :=
| p_enqueue t p p' : enqueue t p = Ok p' → pool_step p p'
| p_take i p p' : worker_take i p = Some p' → pool_step p p'
| p_finish i p p' : worker_finish i p = Some p' → pool_step p p'
| p_stop p : pool_step p (set_stop true p).

(** [join] of thread [i] returns when its function has. *)
Definition joined (i : nat) (p : WhispThreadPool) : bool :=
  match workers p !! i with Some (Exited, _) => true | _ => false end.
Definition mark_joined (n : nat) (p : WhispThreadPool) : WhispThreadPool :=
  mkTP (imap (λ i w, if bool_decide (i < n)%nat then (w.1, true) else w) (workers p))
    (tasks p) (stop p) (submitted p) (taken p) (finished p).

(** The destructor behind its joins; [None] while a worker runs. *)
Definition WhispThreadPool_dtor (p : WhispThreadPool) : option WhispThreadPool :=
  let p1 := set_stop true p in
  if forallb (λ i, joined i p1) (seq 0 (length (workers p1)))
  then Some (mark_joined (length (workers p1)) p1) else None.

(** Destroying a [std::thread] that has not been joined terminates the process. *)
Definition destroy_threads (l : list (worker * bool)) : outcome unit :=
  if forallb snd l then Ok () else Stop Terminated.

(** [resize], when its joins return; [None] while it waits for one. *)
Definition resize (num_threads : nat) (p : WhispThreadPool) : option (outcome WhispThreadPool) :=
  let size := length (workers p) in
  if bool_decide (num_threads < size)%nat then
    let p1 := set_stop true p in
    let n := (size - num_threads)%nat in
    if forallb (λ i, joined i p1) (seq 0 n) then
      let p2 := mark_joined n p1 in
      Some (_ ← destroy_threads (drop num_threads (workers p2));
            Ok (mkTP (take num_threads (workers p2)) (tasks p2) false (submitted p2) (taken p2)
                  (finished p2)))
    else None
  else
    Some (Ok (mkTP (workers p ++ spawn (num_threads - size)) (tasks p) (stop p) (submitted p)
                (taken p) (finished p))).
End pool.
Arguments worker : clear implicits.
Arguments WhispThreadPool : clear implicits.

(** ** Every task runs exactly once *)
Section running.
Context {Task : Type}.
Implicit Types p : WhispThreadPool Task.

Definition task_of (w : worker Task * bool) : list Task :=
  match w.1 with Running t => [t] | _ => [] end.
Definition running p : list Task := concat (task_of <$> workers p).

Record pool_inv p : Prop := {
  pi_fifo : taken p ++ tasks p = submitted p;
  pi_running : taken p ≡ₚ finished p ++ running p;
  pi_exited : (∃ i, state_of i p = Some Exited) → tasks p = [] ∧ stop p = true;
}.

(** Changing one element of a list moves its contribution. *)
Lemma concat_alter {A B} (f : A → list B) (g : A → A) (l : list A) i x :
  l !! i = Some x → concat (f <$> alter g i l) ++ f x ≡ₚ concat (f <$> l) ++ f (g x).
Proof.
  revert i. induction l as [|y l IH]; intros [|i] Hi; cbn in *; simplify_eq.
  - rewrite (Permutation_app_comm (f (g x))), (Permutation_app_comm (f x)), <- !app_assoc.
    by rewrite (Permutation_app_comm (f (g x))).
  - rewrite <- !app_assoc. by rewrite (IH i).
Qed.

Lemma running_alter i w b w' p :
  workers p !! i = Some (w, b) →
  running (set_worker i w' p) ++ task_of (w, b) ≡ₚ running p ++ task_of (w', b).
Proof. intros Hi. exact (concat_alter task_of (λ x, (w', x.2)) (workers p) i (w, b) Hi). Qed.

Lemma state_of_worker i p w : state_of i p = Some w → ∃ b, workers p !! i = Some (w, b).
Proof. unfold state_of. intros ([w' b] & E & ->)%fmap_Some. by exists b. Qed.

Lemma state_of_set i j w p w' :
  state_of j (set_worker i w p) = Some w' → (i = j ∧ w' = w) ∨ state_of j p = Some w'.
Proof.
  unfold state_of, set_worker. cbn [workers]. destruct (decide (i = j)) as [<-|Hne].
  - rewrite list_lookup_alter_eq. destruct (workers p !! i) as [[]|]; simpl; [|by right].
    intros [= <-]. by left.
  - rewrite list_lookup_alter_ne by done. by right.
Qed.

Lemma pool_inv_ctor n : pool_inv (WhispThreadPool_ctor n).
Proof.
  split; [done | |].
  - unfold running. simpl. induction n as [|n IH]; [done | exact IH].
  - intros (i & (b & Hb)%state_of_worker). simpl in Hb. unfold spawn in Hb.
    by apply lookup_replicate in Hb as [[=] _].
Qed.

Lemma pool_inv_step p p' : pool_inv p → pool_step p p' → pool_inv p'.
Proof.
  intros [Hf Hr He]. destruct 1 as [t p p' E|i p p' E|i p p' E|p].
  - unfold enqueue in E. destruct (stop p) eqn:Hs; [done|]. injection E as <-.
    split; simpl; [by rewrite app_assoc, Hf | done |].
    intros Hex. destruct (He Hex) as [_ ?]. congruence.
  - unfold worker_take in E. destruct (state_of i p) as [[| |]|] eqn:Hi; try done.
    destruct (state_of_worker i p _ Hi) as [b Hb].
    destruct (tasks p) as [|t ts] eqn:Ht.
    + destruct (stop p) eqn:Hs; [|done]. injection E as <-.
      split; [by simpl; rewrite Ht | | by simpl; rewrite Ht].
      pose proof (running_alter i Waiting b Exited p Hb) as H. simpl in H.
      rewrite !app_nil_r in H. cbn [taken finished set_worker]. by rewrite H.
    + injection E as <-. split; simpl.
      * by rewrite <- app_assoc.
      * pose proof (running_alter i Waiting b (Running t) p Hb) as H. simpl in H.
        rewrite app_nil_r in H.
        change (running (set_worker i (Running t) (mkTP (workers p) ts (stop p) (submitted p)
          (taken p ++ [t]) (finished p)))) with (running (set_worker i (Running t) p)).
        by rewrite H, app_assoc, Hr.
      * intros (j & [[_ ?]|Hj]%state_of_set); [done|].
        destruct (He (ex_intro _ j Hj)) as [? _]. congruence.
  - unfold worker_finish in E. destruct (state_of i p) as [[|t|]|] eqn:Hi; try done.
    injection E as <-. destruct (state_of_worker i p _ Hi) as [b Hb]. split; simpl; [done | |].
    + pose proof (running_alter i (Running t) b Waiting p Hb) as H. simpl in H.
      rewrite app_nil_r in H.
      change (running (set_worker i Waiting (mkTP (workers p) (tasks p) (stop p) (submitted p)
        (taken p) (finished p ++ [t])))) with (running (set_worker i Waiting p)).
      by rewrite Hr, <- H, <- app_assoc, (Permutation_app_comm [t]).
    + intros (j & [[_ ?]|Hj]%state_of_set); [done|]. apply (He (ex_intro _ j Hj)).
  - split; [done | done |]. intros Hex. destruct (He Hex). done.
Qed.

(** The threads of a pool are never joined by a step, and their number stays. *)
Definition threads_ok (n : nat) p : Prop :=
  length (workers p) = n ∧ Forall (λ w, w.2 = false) (workers p).

Lemma threads_ok_set n i w p : threads_ok n p → threads_ok n (set_worker i w p).
Proof.
  intros [Hl Hf]. split; unfold set_worker; cbn [workers]; [by rewrite length_alter|].
  apply Forall_alter; [done | naive_solver].
Qed.

Lemma threads_ok_step n p p' : threads_ok n p → pool_step p p' → threads_ok n p'.
Proof.
  intros H. destruct 1 as [t p p' E|i p p' E|i p p' E|p]; [| | |done].
  - unfold enqueue in E. destruct (stop p); [done|]. by injection E as <-.
  - unfold worker_take in E. destruct (state_of i p) as [[| |]|]; try done.
    destruct (tasks p) as [|t ts]; [destruct (stop p); [|done]|]; injection E as <-;
      by apply threads_ok_set.
  - unfold worker_finish in E. destruct (state_of i p) as [[| |]|]; try done.
    injection E as <-. by apply threads_ok_set.
Qed.

Lemma reachable_pool n p :
  rtc pool_step (WhispThreadPool_ctor n) p → pool_inv p ∧ threads_ok n p.
Proof.
  intros H. assert (H0 : pool_inv (WhispThreadPool_ctor (Task := Task) n) ∧
                         threads_ok n (WhispThreadPool_ctor (Task := Task) n)).
  { split; [apply pool_inv_ctor|]. split; simpl; [apply length_replicate|].
    by apply Forall_replicate. }
  revert H0. induction H as [|x y z Hxy _ IH]; [done|]. intros [Hi Ht].
  apply IH. split; [by eapply pool_inv_step | by eapply threads_ok_step].
Qed.

Lemma forallb_joined n p i :
  forallb (λ i, joined i p) (seq 0 n) = true → (i < n)%nat → state_of i p = Some Exited.
Proof.
  rewrite forallb_forall. intros H Hi. specialize (H i ltac:(apply in_seq; lia)).
  unfold joined in H. unfold state_of. by destruct (workers p !! i) as [[[]]|].
Qed.

Lemma running_nil p : (∀ i, (i < length (workers p))%nat → state_of i p = Some Exited) → running p = [].
Proof.
  unfold state_of, running. generalize (workers p) as l. intros l H.
  induction l as [|x l IH]; [done|]. cbn [fmap list_fmap concat].
  specialize (H 0%nat ltac:(simpl; lia)) as H0. cbn in H0. unfold task_of at 1.
  injection H0 as ->. simpl. apply IH. intros i Hi. apply (H (S i)). simpl. lia.
Qed.

(** When the destructor gets past its joins, everything has run. *)
Lemma dtor_drained n p p' :
  (0 < n)%nat → pool_inv p → threads_ok n p → WhispThreadPool_dtor p = Some p' →
  tasks p' = [] ∧ finished p' ≡ₚ submitted p'.
Proof.
  intros Hn [Hf Hr He] [Hl _]. unfold WhispThreadPool_dtor. cbn [workers set_stop].
  destruct (forallb _ _) eqn:Hj; [|done]. intros [= <-]. cbn.
  assert (Hex : ∀ i, (i < length (workers p))%nat → state_of i p = Some Exited).
  { intros i Hi. change (state_of i (set_stop true p) = Some Exited).
    by eapply forallb_joined. }
  destruct He as [Ht _]; [exists 0%nat; apply Hex; lia|]. split; [done|].
  rewrite <- Hf, Ht, app_nil_r, Hr, running_nil by done. by rewrite app_nil_r.
Qed.

(** Shrinking leaves a thread that was not joined among those it destroys. *)
Lemma resize_terminates n k p r :
  threads_ok n p → (0 < k < n)%nat → resize k p = Some r → r = Stop Terminated.
Proof.
  intros [Hl Hj] Hk. unfold resize. rewrite Hl, bool_decide_eq_true_2 by lia.
  destruct (forallb _ _); [|done]. intros [= <-]. unfold destroy_threads.
  destruct (forallb snd _) eqn:Hall; [|done]. exfalso.
  rewrite forallb_forall in Hall. unfold mark_joined in Hall. cbn [workers set_stop] in Hall.
  assert (Hlast : is_Some (workers p !! (n - 1)%nat)) by (apply lookup_lt_is_Some; lia).
  destruct Hlast as [w Hw].
  assert (w.2 = false) by (eapply Forall_lookup_1 in Hj; eauto).
  specialize (Hall w). rewrite Hall in *; [done|].
  apply list_elem_of_In, (list_elem_of_lookup_2 _ (n - 1 - k)%nat).
  rewrite lookup_drop, list_lookup_imap. replace (k + (n - 1 - k))%nat with (n - 1)%nat by lia.
  rewrite Hw. simpl. by rewrite bool_decide_eq_false_2 by lia.
Qed.

(** C22. The pool runs every task exactly once: in every reachable state the tasks taken and
    those still queued are, in order, the ones accepted, and those taken are the ones
    finished and the ones running. A worker that waits can go on whenever there is a task or
    the pool is being stopped. When the destructor of a pool with at least one thread has
    joined its workers, no task is left and all have finished. But making a pool smaller
    (to one thread or more) can only end in [std::terminate], since the threads that are
    destroyed are not the ones that are joined. *)
Theorem thread_pool_runs_all (n : nat) p :
  rtc pool_step (WhispThreadPool_ctor n) p →
  taken p ++ tasks p = submitted p ∧ taken p ≡ₚ finished p ++ running p ∧
  (∀ i, state_of i p = Some Waiting → tasks p ≠ [] ∨ stop p = true →
     ∃ p', worker_take i p = Some p') ∧
  (∀ p', (0 < n)%nat → WhispThreadPool_dtor p = Some p' →
     tasks p' = [] ∧ finished p' ≡ₚ submitted p') ∧
  (∀ k r, (0 < k < n)%nat → resize k p = Some r → r = Stop Terminated).
Proof.
  intros H. destruct (reachable_pool n p H) as [Hinv Hth]. pose proof Hinv as [Hf Hr _].
  split; [done|]. split; [done|]. split; [|split].
  - intros i Hi Hgo. unfold worker_take. rewrite Hi.
    destruct (tasks p); [|by eexists]. destruct Hgo as [?| ->]; [done | by eexists].
  - intros p' Hn Hd. by eapply dtor_drained.
  - intros k r Hk E. by eapply resize_terminates.
Qed.
End running.

Lemma thread_pool_runs_all_witness :
  let p0 := WhispThreadPool_ctor (Task := nat) 2 in
  ∃ p1 p2 p3 p4 p5 p6, enqueue 7%nat p0 = Ok p1 ∧ worker_take 1 p1 = Some p2 ∧
    worker_finish 1 p2 = Some p3 ∧ set_stop true p3 = p4 ∧
    worker_take 0 p4 = Some p5 ∧ worker_take 1 p5 = Some p6 ∧
    (∀ p', WhispThreadPool_dtor p6 = Some p' → tasks p' = [] ∧ finished p' ≡ₚ submitted p') ∧
    (∀ k r, (0 < k < 2)%nat → resize k p6 = Some r → r = Stop Terminated) ∧
    is_Some (WhispThreadPool_dtor p6) ∧ resize 1 p6 = Some (Stop Terminated).
Proof.
  intros p0. do 6 eexists. split; [reflexivity|]. split; [reflexivity|]. split; [reflexivity|].
  split; [reflexivity|]. split; [reflexivity|]. split; [reflexivity|].
  match goal with |- context [WhispThreadPool_dtor ?x] => set (p6 := x) end.
  destruct (thread_pool_runs_all 2 p6) as (_ & _ & _ & Hd & Hr).
  - eapply rtc_l; [by apply (p_enqueue 7%nat)|]. eapply rtc_l; [by apply (p_take 1)|].
    eapply rtc_l; [by apply (p_finish 1)|]. eapply rtc_l; [by apply p_stop|].
    eapply rtc_l; [by apply (p_take 0)|]. apply rtc_once. by apply (p_take 1).
  - split; [intros p' E; apply (Hd p'); [lia | exact E]|]. split; [exact Hr|].
    split; [by eexists | reflexivity].
Defined.
