(* ===== verification/ConnPool.v ===== *)
(** * The MySQL connection pool: [database/whisp_mysqlconn_pool.h/.cpp]

    Connections are addresses; a null [shared_ptr] is [None]. [sessions] says which
    connections have an open session. The client library is a parameter: whether a session
    can be opened, and whether a statement is executed without an error. *)
From S2P Require Import Prelude.

Record TableField := mkField { field_name_ : bytes; type_ : bytes; desc_ : bytes }.
Record TableInfo := mkTable {
  table_name_ : bytes;
  field_ : list (bytes * TableField);     (* the std::map, in the order of its keys *)
  key_ : bytes;
}.

Record MysqlConnPool := mkConnPool {
  conn_queue_ : list (option Z);
  host_ : bytes;
  user_ : bytes;
  password_ : bytes;
  database_ : bytes;
  pool_size_ : nat;
  sessions : gset Z;
  statements : list (Z * bytes);          (* sent to the server, in order *)
}.

Definition set_queue (q : list (option Z)) (p : MysqlConnPool) : MysqlConnPool :=
  mkConnPool q (host_ p) (user_ p) (password_ p) (database_ p) (pool_size_ p) (sessions p)
    (statements p).
Definition set_sessions (s : gset Z) (p : MysqlConnPool) : MysqlConnPool :=
  mkConnPool (conn_queue_ p) (host_ p) (user_ p) (password_ p) (database_ p) (pool_size_ p) s
    (statements p).
Definition sent (a : Z) (sql : bytes) (p : MysqlConnPool) : MysqlConnPool :=
  mkConnPool (conn_queue_ p) (host_ p) (user_ p) (password_ p) (database_ p) (pool_size_ p)
    (sessions p) (statements p ++ [(a, sql)]).

Section client.
Context (sql_ok : Z → bytes → bool).

(** ** [MysqlConn]

    [opened] is the answer of the server. *)
Definition conn_connect (opened : bool) (a : Z) (p : MysqlConnPool) : bool * MysqlConnPool :=
  if opened then (true, set_sessions ({[ a ]} ∪ sessions p) p) else (false, p).

Definition conn_disconnect (a : Z) (p : MysqlConnPool) : MysqlConnPool :=
  set_sessions (sessions p ∖ {[ a ]}) p.

Definition conn_execute (sql : bytes) (a : Z) (p : MysqlConnPool) : bool * MysqlConnPool :=
  if bool_decide (a ∈ sessions p) then (sql_ok a sql, sent a sql p) else (false, p).

(** ** [MysqlConnPool]

    [conns] are the addresses [make_shared] returns, each with the server's answer. *)
Definition add_conn (p : MysqlConnPool) (c : Z * bool) : MysqlConnPool :=
  let '(ok, p1) := conn_connect c.2 c.1 p in
  if ok : bool then set_queue (conn_queue_ p1 ++ [Some c.1]) p1 else p1.

Definition MysqlConnPool_ctor (host user password database : bytes) (conns : list (Z * bool))
    : MysqlConnPool :=
  fold_left add_conn conns (mkConnPool [] host user password database (length conns) ∅ []).

(** [wait_for] returns false when the queue is empty at the time limit. *)
Definition get_conn (p : MysqlConnPool) : option Z * MysqlConnPool :=
  match conn_queue_ p with
  | [] => (None, p)
  | c :: q => (c, set_queue q p)
  end.

Definition release_conn (c : option Z) (p : MysqlConnPool) : MysqlConnPool :=
  set_queue (conn_queue_ p ++ [c]) p.

Fixpoint disconnect_all (q : list (option Z)) (p : MysqlConnPool) : outcome MysqlConnPool :=
  match q with
  | [] => Ok (set_queue [] p)
  | None :: _ => Stop NullDeref
  | Some a :: q' => disconnect_all q' (conn_disconnect a p)
  end.
Definition MysqlConnPool_dtor (p : MysqlConnPool) : outcome MysqlConnPool :=
  disconnect_all (conn_queue_ p) p.

(** The private helpers take a connection and do not give it back: [conn] is a
    [shared_ptr], so the connection object is destroyed, and its session closed, when the
    helper returns. *)
Definition with_conn (k : Z → MysqlConnPool → bool * MysqlConnPool) (p : MysqlConnPool)
    : outcome (bool * MysqlConnPool) :=
  let '(c, p1) := get_conn p in
  match c with
  | None => Stop NullDeref
  | Some a => let '(b, p2) := k a p1 in Ok (b, conn_disconnect a p2)
  end.

Definition check_db_sql (p : MysqlConnPool) : bytes :=
  lit "SELECT SCHEMA_NAME FROM INFORMATION_SCHEMA.SCHEMATA WHERE SCHEMA_NAME = '" ++
  database_ p ++ lit "'".
Definition _check_db_exist (p : MysqlConnPool) : outcome (bool * MysqlConnPool) :=
  with_conn (conn_execute (check_db_sql p)) p.

Definition create_db_sql (p : MysqlConnPool) : bytes := lit "CREATE DATABASE " ++ database_ p.
Definition _create_db (p : MysqlConnPool) : outcome (bool * MysqlConnPool) :=
  with_conn (λ a p1, (true, (conn_execute (create_db_sql p) a p1).2)) p.

Definition check_table_sql (table : TableInfo) (p : MysqlConnPool) : bytes :=
  lit "SELECT TABLE_NAME FROM INFORMATION_SCHEMA.TABLES WHERE TABLE_SCHEMA = '" ++
  database_ p ++ lit "' AND TABLE_NAME = '" ++ table_name_ table ++ lit "'".
Definition _check_table_exist (table : TableInfo) (p : MysqlConnPool) : outcome (bool * MysqlConnPool) :=
  with_conn (conn_execute (check_table_sql table p)) p.

Definition field_text (f : TableField) : bytes :=
  field_name_ f ++ lit " " ++ type_ f ++ lit " " ++ desc_ f.
(** The text sent by [_create_table]: the two last bytes of the list are cut off. *)
Definition create_table_sql (table : TableInfo) : bytes :=
  let query := lit "CREATE TABLE " ++ table_name_ table ++ lit " (" ++
               concat (map (λ f, field_text f.2 ++ lit ", ") (field_ table)) in
  take (length query - 2) query ++ lit ") " ++ key_ table.
Definition _create_table (table : TableInfo) (p : MysqlConnPool) : outcome (bool * MysqlConnPool) :=
  with_conn (λ a p1, (true, (conn_execute (create_table_sql table) a p1).2)) p.

Definition add_column_sql (table : TableInfo) (f : TableField) : bytes :=
  lit "ALTER TABLE " ++ table_name_ table ++ lit " ADD COLUMN " ++ field_text f.
(** The loop over the fields; the answers of the server are ignored. *)
Definition add_columns (table : TableInfo) (a : Z) (p : MysqlConnPool) : MysqlConnPool :=
  fold_left (λ p1 f, (conn_execute (add_column_sql table f.2) a p1).2) (field_ table) p.
(** A null connection is used only if there is a field. *)
Definition _update_table (table : TableInfo) (p : MysqlConnPool) : outcome (bool * MysqlConnPool) :=
  match get_conn p, field_ table with
  | (None, p1), [] => Ok (true, p1)
  | _, _ => with_conn (λ a p1, (true, add_columns table a p1)) p
  end.
End client.

(** ** Lending and returning *)
Section lending.
Implicit Types p : MysqlConnPool.

(** The pool and the connections its clients hold. *)
Inductive lend_step : MysqlConnPool * list Z → MysqlConnPool * list Z → Prop :=
| l_get a p p' held : get_conn p = (Some a, p') → lend_step (p, held) (p', a :: held)
| l_timeout p p' held : get_conn p = (None, p') → lend_step (p, held) (p', held)
| l_release a p held held' :
    held ≡ₚ a :: held' → lend_step (p, held) (release_conn (Some a) p, held').

(** The addresses of the connections that could be opened. *)
Definition opened (conns : list (Z * bool)) : list Z := (List.filter snd conns).*1.

Definition lend_inv (created : list Z) (s : MysqlConnPool * list Z) : Prop :=
  (∃ q, conn_queue_ s.1 = Some <$> q ∧ q ++ s.2 ≡ₚ created) ∧
  (∀ a, a ∈ created → a ∈ sessions s.1).

Lemma add_conns conns p :
  let r := fold_left add_conn conns p in
  conn_queue_ r = conn_queue_ p ++ (Some <$> opened conns) ∧
  (∀ a, a ∈ sessions p ∨ a ∈ opened conns → a ∈ sessions r).
Proof.
  revert p. induction conns as [|[a ok] conns IH]; intros p; cbn [fold_left].
  - unfold opened. simpl. rewrite app_nil_r. split; [done|]. set_solver.
  - destruct (IH (add_conn p (a, ok))) as [Hq Hs]. cbv zeta. rewrite Hq.
    unfold add_conn, conn_connect in *. unfold opened in *. cbn [fst snd List.filter] in *.
    destruct ok; cbn [conn_queue_ sessions set_queue fmap list_fmap fst] in *.
    + split; [by rewrite <- app_assoc|]. intros b Hb. apply Hs. set_solver.
    + done.
Qed.

(** Distinct addresses stay distinct when the refused ones are left out. *)
Lemma NoDup_opened conns : NoDup (conns.*1 : list Z) → NoDup (opened conns).
Proof.
  unfold opened. induction conns as [|[a ok] conns IH]; [done|]. intros Hnd.
  cbn [fmap list_fmap fst] in Hnd. apply NoDup_cons in Hnd as [Ha Hnd].
  cbn [List.filter snd]. destruct ok; [|by apply IH]. cbn [fmap list_fmap fst].
  apply NoDup_cons. split; [|by apply IH]. intros Hin. apply Ha.
  apply list_elem_of_fmap in Hin as (x & -> & Hx%list_elem_of_In%filter_In).
  apply list_elem_of_fmap. exists x. split; [done|]. apply list_elem_of_In, Hx.
Qed.

Lemma lend_inv_ctor host user password db conns :
  lend_inv (opened conns) (MysqlConnPool_ctor host user password db conns, []).
Proof.
  destruct (add_conns conns (mkConnPool [] host user password db (length conns) ∅ [])) as [Hq Hs]. split.
  - exists (opened conns). split; [exact Hq|]. by rewrite app_nil_r.
  - intros a Ha. apply Hs. by right.
Qed.

Lemma lend_inv_step created s s' : lend_inv created s → lend_step s s' → lend_inv created s'.
Proof.
  intros [(q & Hq & Hp) Ho]. destruct 1 as [a p p' held E|p p' held E|a p held held' E]; simpl in *.
  - unfold get_conn in E. rewrite Hq in E. destruct q as [|x q]; [done|]. simpl in E.
    injection E as -> <-. split; [|done]. exists q. split; [done|].
    simpl. rewrite <- Hp. simpl. by rewrite Permutation_middle.
  - unfold get_conn in E. rewrite Hq in E. destruct q as [|x q]; [|done]. simpl in E.
    injection E as <-. split; [|done]. by exists [].
  - split; [|done]. exists (q ++ [a]). simpl. split; [by rewrite Hq, fmap_app|].
    rewrite <- Hp, E, <- app_assoc. done.
Qed.

Lemma lend_inv_reach created s s' : lend_inv created s → rtc lend_step s s' → lend_inv created s'.
Proof. intros H Hr. induction Hr; eauto using lend_inv_step. Qed.

(** The pool's own statements, and what each is to send and to answer. *)
Inductive helper :=
| CheckDb
| CreateDb
| CheckTable (t : TableInfo)
| CreateTable (t : TableInfo)
| UpdateTable (t : TableInfo).

Definition run_helper (sql_ok : Z → bytes → bool) (h : helper) p : outcome (bool * MysqlConnPool) :=
  match h with
  | CheckDb => _check_db_exist sql_ok p
  | CreateDb => _create_db sql_ok p
  | CheckTable t => _check_table_exist sql_ok t p
  | CreateTable t => _create_table sql_ok t p
  | UpdateTable t => _update_table sql_ok t p
  end.

Fixpoint run_helpers (sql_ok : Z → bytes → bool) (hs : list helper) p
    : outcome (list bool * MysqlConnPool) :=
  match hs with
  | [] => Ok ([], p)
  | h :: hs' =>
      '(b, p1) ← run_helper sql_ok h p;
      '(bs, p2) ← run_helpers sql_ok hs' p1;
      Ok (b :: bs, p2)
  end.

Definition helper_sql p (h : helper) : list bytes :=
  match h with
  | CheckDb => [check_db_sql p]
  | CreateDb => [create_db_sql p]
  | CheckTable t => [check_table_sql t p]
  | CreateTable t => [create_table_sql t]
  | UpdateTable t => add_column_sql t <$> (field_ t).*2
  end.

Definition helper_answer (sql_ok : Z → bytes → bool) p (a : Z) (h : helper) : bool :=
  match h with
  | CheckDb => sql_ok a (check_db_sql p)
  | CheckTable t => sql_ok a (check_table_sql t p)
  | _ => true
  end.

Lemma execute_open sql_ok sql a p :
  a ∈ sessions p → conn_execute sql_ok sql a p = (sql_ok a sql, sent a sql p).
Proof. intros H. unfold conn_execute. by rewrite bool_decide_true. Qed.

Lemma add_columns_open sql_ok t a p :
  a ∈ sessions p →
  add_columns sql_ok t a p =
  mkConnPool (conn_queue_ p) (host_ p) (user_ p) (password_ p) (database_ p) (pool_size_ p)
    (sessions p) (statements p ++ (pair a <$> (add_column_sql t <$> (field_ t).*2))).
Proof.
  unfold add_columns. revert p. induction (field_ t) as [|f fs IH]; intros p Ha.
  - simpl. rewrite app_nil_r. by destruct p.
  - cbn [fold_left]. rewrite execute_open by done. cbn [snd]. rewrite IH by done.
    cbn. by rewrite <- app_assoc.
Qed.

(** One helper takes the front connection, sends its statements on it and closes it. *)
Lemma run_helper_front sql_ok h a q p :
  conn_queue_ p = Some a :: q → a ∈ sessions p →
  run_helper sql_ok h p =
  Ok (helper_answer sql_ok p a h,
      mkConnPool q (host_ p) (user_ p) (password_ p) (database_ p) (pool_size_ p)
        (sessions p ∖ {[ a ]}) (statements p ++ (pair a <$> helper_sql p h))).
Proof.
  intros Hq Ha.
  assert (Hw : ∀ k, with_conn k p =
    let '(b, p2) := k a (set_queue q p) in Ok (b, conn_disconnect a p2)).
  { intros k. unfold with_conn, get_conn. by rewrite Hq. }
  destruct h as [| | | |t]; cbn [run_helper];
    unfold _check_db_exist, _create_db, _check_table_exist, _create_table;
    try by rewrite Hw, execute_open.
  unfold _update_table. rewrite Hw, add_columns_open by done.
  unfold get_conn. by rewrite Hq.
Qed.

Lemma run_helper_empty sql_ok h p :
  conn_queue_ p = [] → helper_sql p h ≠ [] → run_helper sql_ok h p = Stop NullDeref.
Proof.
  intros Hq Hh.
  assert (Hw : ∀ k, with_conn k p = Stop NullDeref).
  { intros k. unfold with_conn, get_conn. by rewrite Hq. }
  destruct h as [| | | |t]; cbn [run_helper]; try exact (Hw _).
  unfold _update_table, get_conn. rewrite Hq, Hw. cbn [helper_sql] in Hh.
  by destruct (field_ t).
Qed.

Lemma run_helpers_drain sql_ok hs q p :
  conn_queue_ p = Some <$> q → NoDup q → (∀ a, a ∈ q → a ∈ sessions p) → length hs = length q →
  ∃ p', run_helpers sql_ok hs p = Ok (zip_with (helper_answer sql_ok p) q hs, p') ∧
    conn_queue_ p' = [] ∧ database_ p' = database_ p ∧
    statements p' = statements p ++ concat (zip_with (λ a h, pair a <$> helper_sql p h) q hs).
Proof.
  revert hs p. induction q as [|a q IH]; intros [|h hs] p Hq Hnd Ho Hl; try done.
  - exists p. cbn. rewrite app_nil_r. done.
  - apply NoDup_cons in Hnd as [Ha Hnd]. cbn [run_helpers].
    rewrite (run_helper_front sql_ok h a (Some <$> q)) by (done || (apply Ho; left)).
    destruct (IH hs (mkConnPool (Some <$> q) (host_ p) (user_ p) (password_ p) (database_ p)
        (pool_size_ p) (sessions p ∖ {[ a ]}) (statements p ++ (pair a <$> helper_sql p h))))
      as (p' & E & Hq' & Hd & Hs); [done | done | | by injection Hl |].
    { cbn [sessions]. intros b Hb. apply elem_of_difference. split; [apply Ho; by right|].
      rewrite elem_of_singleton. by intros ->. }
    exists p'. rewrite bind_Ok, E. cbn [statements database_] in *.
    split; [done|]. split; [done|]. split; [done|]. rewrite Hs. cbn [zip_with concat].
    by rewrite <- app_assoc.
Qed.

(** C23. The pool lends every connection to at most one client: whatever the clients take
    and give back, the queued and the lent connections are together exactly the ones the
    constructor could open, each once and open, and [get_conn] gives up only when all are
    lent. But the helpers that issue the pool's own statements consume the connections they
    take: as many calls as connections are queued send their statements, one connection
    each in the order of the queue, and leave the queue empty (the ones that create or
    update answer true whatever the server says); the next one that has a statement to send
    uses a null pointer. *)
Theorem pool_lends_exclusively (sql_ok : Z → bytes → bool) host user password db conns p held :
  NoDup (conns.*1 : list Z) →
  rtc lend_step (MysqlConnPool_ctor host user password db conns, []) (p, held) →
  ∃ q, conn_queue_ p = Some <$> q ∧ q ++ held ≡ₚ opened conns ∧ NoDup (q ++ held) ∧
    (∀ a, a ∈ q ++ held → a ∈ sessions p) ∧
    ((get_conn p).1 = None ↔ q = []) ∧
    ∀ hs, length hs = length q →
      ∃ p', run_helpers sql_ok hs p = Ok (zip_with (helper_answer sql_ok p) q hs, p') ∧
        conn_queue_ p' = [] ∧
        statements p' = statements p ++ concat (zip_with (λ a h, pair a <$> helper_sql p h) q hs) ∧
        ∀ h, helper_sql p' h ≠ [] → run_helper sql_ok h p' = Stop NullDeref.
Proof.
  intros Hnd Hr.
  pose proof (lend_inv_reach _ _ _ (lend_inv_ctor host user password db conns) Hr) as [(q & Hq & Hp) Ho].
  simpl in *. exists q. split; [done|]. split; [done|].
  assert (Hnd' : NoDup (q ++ held)) by (rewrite Hp; by apply NoDup_opened).
  assert (Ho' : ∀ a, a ∈ q ++ held → a ∈ sessions p) by (intros a; rewrite Hp; apply Ho).
  split; [done|]. split; [done|]. split.
  { unfold get_conn. rewrite Hq. by destruct q. }
  intros hs Hl. apply NoDup_app in Hnd' as [Hnq _].
  destruct (run_helpers_drain sql_ok hs q p) as (p' & E & Hq' & _ & Hs); try done.
  { intros a Ha. apply Ho', elem_of_app. by left. }
  exists p'. repeat split; [done..|]. intros h. by apply run_helper_empty.
Qed.
End lending.

Lemma pool_lends_exclusively_witness :
  let p0 := MysqlConnPool_ctor (lit "h") (lit "u") (lit "p") (lit "chat")
              [(100, true); (101, false); (102, true)] in
  let p := (get_conn p0).2 in
  ∃ q, conn_queue_ p = Some <$> q ∧ q ++ [100] ≡ₚ [100; 102] ∧ NoDup (q ++ [100]) ∧
    ∃ p', run_helpers (λ _ _, false) [CreateDb] p =
            Ok (zip_with (helper_answer (λ _ _, false) p) q [CreateDb], p') ∧ conn_queue_ p' = [].
Proof.
  intros p0 p.
  destruct (pool_lends_exclusively (λ _ _, false) (lit "h") (lit "u") (lit "p") (lit "chat")
              [(100, true); (101, false); (102, true)] p [100])
    as (q & H1 & H2 & H3 & _ & _ & H6).
  - apply (bool_decide_unpack _). by vm_compute.
  - apply rtc_once. apply (l_get 100 p0 p []). reflexivity.
  - exists q. split; [exact H1|]. split; [exact H2|]. split; [exact H3|].
    assert (Hl : length [CreateDb] = length q).
    { apply Permutation_length in H2. rewrite length_app in H2. simpl in *. lia. }
    destruct (H6 [CreateDb] Hl) as (p' & E & Hq & _). by exists p'.
Defined.

(** A table without fields: the cut removes the parenthesis. *)
Example create_empty_table :
  create_table_sql (mkTable (lit "t") [] (lit "KEY")) = lit "CREATE TABLE t) KEY".
Proof. by vm_compute. Qed.

(** What [_create_table] sends otherwise. *)
Lemma create_table_text name fs f key :
  create_table_sql (mkTable name (fs ++ [f]) key) =
  lit "CREATE TABLE " ++ name ++ lit " (" ++
  concat (map (λ g, field_text g.2 ++ lit ", ") fs) ++ field_text f.2 ++ lit ") " ++ key.
Proof.
  unfold create_table_sql. cbn [table_name_ field_ key_]. rewrite map_app, concat_app. cbn [map concat].
  rewrite app_nil_r, !app_assoc. rewrite length_app. change (length (lit ", ")) with 2%nat.
  rewrite Nat.add_sub, take_app_length. by rewrite <- !app_assoc.
Qed.
