(* ===== verification/SessionPool.v ===== *)
(** * The pool of X DevAPI sessions: [database/db_mysqlconn_pool.h]

    Sessions are numbers; [answers k] is what the [k]-th attempt to open one yields, [None]
    when [mysqlx::Session] throws. [closed] records the sessions that were closed. *)
From S2P Require Import Prelude.

Record MySQLConnectionPool := mkPool {
  conn_pool_ : list Z;
  host_ : bytes; user_ : bytes; passwd_ : bytes; dbname_ : bytes;
  port_ : Z;
  pool_size_ : Z;
  closed : list Z;
}.

Definition set_pool (q : list Z) (p : MySQLConnectionPool) : MySQLConnectionPool :=
  mkPool q (host_ p) (user_ p) (passwd_ p) (dbname_ p) (port_ p) (pool_size_ p) (closed p).

(** The loop of [Init]: [conn_pool_.size() < pool_size_] compares as [size_t]. [None]: the fuel
    is used up. The result: the pool and [success_count]. *)
Fixpoint init_loop (fuel k : nat) (answers : nat → option Z) (success_count : Z) (p : MySQLConnectionPool)
    : option (MySQLConnectionPool * Z) :=
  if Zlen (conn_pool_ p) <? u64 (pool_size_ p) then
    match fuel with
    | O => None
    | S fuel' =>
        match answers k with
        | Some session =>
            init_loop fuel' (S k) answers (success_count + 1) (set_pool (conn_pool_ p ++ [session]) p)
        | None => init_loop fuel' (S k) answers success_count p
        end
    end
  else Some (p, success_count).

Definition Init (fuel : nat) (answers : nat → option Z) (host user passwd dbname : bytes) (port pool_size : Z)
    (p : MySQLConnectionPool) : option (outcome MySQLConnectionPool) :=
  let p1 := mkPool (conn_pool_ p) host user passwd dbname port pool_size (closed p) in
  match init_loop fuel 0 answers 0 p1 with
  | None => None
  | Some (p2, success_count) =>
      if (success_count =? 0) && (Zlen (conn_pool_ p2) =? u64 pool_size) then Some (Ok p2)
      else if success_count =? 0 then Some (Stop RuntimeError) else Some (Ok p2)
  end.

(** [wait_for] has ended: with an empty queue at the time limit it throws. *)
Definition GetConnection (p : MySQLConnectionPool) : outcome (Z * MySQLConnectionPool) :=
  match conn_pool_ p with
  | [] => Stop RuntimeError
  | c :: q => Ok (c, set_pool q p)
  end.

(** For a null pointer a new session is opened, which may fail. *)
Definition ReleaseConnection (conn answer : option Z) (p : MySQLConnectionPool) : MySQLConnectionPool :=
  match conn with
  | Some c => set_pool (conn_pool_ p ++ [c]) p
  | None => match answer with Some c => set_pool (conn_pool_ p ++ [c]) p | None => p end
  end.

Definition GetConnectionPoolSize (p : MySQLConnectionPool) : Z := Zlen (conn_pool_ p).

Definition MySQLConnectionPool_dtor (p : MySQLConnectionPool) : MySQLConnectionPool :=
  mkPool [] (host_ p) (user_ p) (passwd_ p) (dbname_ p) (port_ p) (pool_size_ p) (closed p ++ conn_pool_ p).

(** ** The loop of [Init] *)
Section init.
Implicit Types (p : MySQLConnectionPool) (answers : nat → option Z).

(** The sessions that attempts [k], [k+1], ... [k+n-1] open. *)
Definition sessions answers (k n : nat) : list Z := omap answers (seq k n).

(** The sessions still wanted. *)
Definition wanted p : Z := Z.max 0 (u64 (pool_size_ p) - Zlen (conn_pool_ p)).

Lemma sessions_S answers k n :
  sessions answers k (S n) = match answers k with Some s => [s] | None => [] end ++ sessions answers (S k) n.
Proof. unfold sessions. cbn [seq omap list_omap]. by destruct (answers k). Qed.

Lemma set_pool_app q1 q2 p : set_pool q2 (set_pool q1 p) = set_pool q2 p.
Proof. done. Qed.

(** With enough attempts that succeed the loop ends, and takes the first of them. *)
Lemma init_loop_ends answers fuel k n p :
  wanted p ≤ Zlen (sessions answers k fuel) →
  init_loop fuel k answers n p =
    Some (set_pool (conn_pool_ p ++ take (Z.to_nat (wanted p)) (sessions answers k fuel)) p, n + wanted p).
Proof.
  revert k n p. induction fuel as [|fuel IH]; intros k n p Hw; cbn [init_loop].
  - assert (H0 : wanted p = 0) by (change (Zlen (sessions answers k 0)) with 0 in Hw; unfold wanted in *; lia).
    rewrite H0. unfold wanted in H0. destruct (Z.ltb_spec (Zlen (conn_pool_ p)) (u64 (pool_size_ p))); [lia|].
    simpl. rewrite app_nil_r, Z.add_0_r. by destruct p.
  - destruct (Z.ltb_spec (Zlen (conn_pool_ p)) (u64 (pool_size_ p))) as [Hl|Hl].
    + rewrite sessions_S in *. destruct (answers k) as [s|] eqn:Ek; cbn [app] in *.
      * assert (H1 : wanted (set_pool (conn_pool_ p ++ [s]) p) = wanted p - 1).
        { unfold wanted in *. cbn [conn_pool_ pool_size_ set_pool]. rewrite Zlen_app. change (Zlen [s]) with 1. lia. }
        rewrite IH.
        -- rewrite H1, set_pool_app. cbn [conn_pool_ set_pool]. rewrite <- app_assoc.
           replace (Z.to_nat (wanted p)) with (S (Z.to_nat (wanted p - 1))) by (unfold wanted; lia).
           cbn [take app]. f_equal. f_equal. lia.
        -- rewrite H1. unfold Zlen in *. simpl length in *. lia.
      * by rewrite IH.
    + assert (H0 : wanted p = 0) by (unfold wanted; lia). rewrite H0. simpl.
      rewrite app_nil_r, Z.add_0_r. by destruct p.
Qed.

Lemma init_loop_runs answers fuel k n p :
  Zlen (sessions answers k fuel) < wanted p → init_loop fuel k answers n p = None.
Proof.
  revert k n p. induction fuel as [|fuel IH]; intros k n p Hw; cbn [init_loop];
    (destruct (Z.ltb_spec (Zlen (conn_pool_ p)) (u64 (pool_size_ p))) as [Hl|Hl];
     [|unfold wanted, Zlen in *; lia]); [done|].
  rewrite sessions_S in Hw. destruct (answers k) as [s|]; cbn [app] in Hw; [|by apply IH].
  apply IH. unfold wanted in *. cbn [conn_pool_ pool_size_ set_pool]. rewrite Zlen_app.
  change (Zlen [s]) with 1. unfold Zlen in *. simpl length in *. lia.
Qed.
End init.

(** C24. When [Init] returns: its loop ends exactly when as many attempts to open a session
    have succeeded as the pool still lacks, so with a server that cannot be reached it never
    ends (and holds the pool's lock). It adds the first sessions that could be opened. Called
    again for a pool that already has its size it changes nothing; for a pool that has more
    than the new size it throws. A negative size is taken as 2^64 less: such a call lacks
    more sessions than any server has. *)
Theorem init_termination (answers : nat → option Z) (host user passwd dbname : bytes) (port pool_size : Z)
    (p : MySQLConnectionPool) (fuel : nat) :
  let lacks := u64 pool_size - Zlen (conn_pool_ p) in
  let opened := sessions answers 0 fuel in
  let r := Init fuel answers host user passwd dbname port pool_size p in
  (is_Some r ↔ lacks ≤ Zlen opened) ∧
  (0 ≤ lacks ≤ Zlen opened →
     r = Some (Ok (mkPool (conn_pool_ p ++ take (Z.to_nat lacks) opened) host user passwd dbname port pool_size
                     (closed p)))) ∧
  (lacks < 0 → r = Some (Stop RuntimeError)) ∧
  (-2147483648 ≤ pool_size < 0 → Zlen (conn_pool_ p) < 2 ^ 32 → 2 ^ 62 ≤ lacks).
Proof.
  intros lacks opened r. subst r. unfold Init.
  set (p1 := mkPool _ _ _ _ _ _ _ _).
  assert (Hw : wanted p1 = Z.max 0 lacks) by done.
  pose proof (Zlen_nonneg opened).
  assert (Hneg : -2147483648 ≤ pool_size < 0 → Zlen (conn_pool_ p) < 2 ^ 32 → 2 ^ 62 ≤ lacks).
  { intros Hp Hl. subst lacks. unfold u64, uintw.
    rewrite <- (Z.mod_unique pool_size (2 ^ 64) (-1) (pool_size + 2 ^ 64)) by lia. lia. }
  destruct (Z.le_gt_cases lacks (Zlen opened)) as [Hle|Hgt].
  - rewrite init_loop_ends by (fold opened; lia). fold opened. rewrite Hw. cbn [conn_pool_ set_pool p1].
    destruct (Z.le_gt_cases 0 lacks) as [H0|H0].
    + rewrite Z.max_r by done.
      assert (Hok : ∀ q : MySQLConnectionPool, (if (0 + lacks =? 0) && (Zlen (conn_pool_ p ++ take (Z.to_nat lacks) opened) =? u64 pool_size)
         then Some (Ok q) else if 0 + lacks =? 0 then Some (Stop RuntimeError) else Some (Ok q)) = Some (Ok q)).
      { intros q. destruct (Z.eqb_spec (0 + lacks) 0) as [E|E]; [|done]. cbn [andb].
        rewrite Zlen_app, Zlen_take. match goal with |- context [?x =? u64 pool_size] =>
          assert (x = u64 pool_size) as -> by (unfold lacks in *; lia) end.
        by rewrite Z.eqb_refl. }
      rewrite Hok. split; [split; [done | by eexists]|]. split; [done|]. split; [lia | done].
    + rewrite Z.max_l by lia. simpl (Z.to_nat 0). rewrite take_0, app_nil_r. cbn [andb Z.eqb Z.add].
      destruct (Z.eqb_spec (Zlen (conn_pool_ p)) (u64 pool_size)); [unfold lacks in H0; lia|].
      split; [split; [done | by eexists]|]. split; [lia|]. split; [done | done].
  - rewrite init_loop_runs by (fold opened; lia). split; [split; [by intros [? ?] | lia]|].
    split; [lia|]. split; [lia | done].
Qed.

Lemma init_termination_witness :
  let p := mkPool [] [] [] [] [] 0 0 [] in
  let answers := λ k, if (k <? 2)%nat then None else Some (Z.of_nat k) in
  is_Some (Init 6 answers [] [] [] [] 3306 4 p) ∧
  2 ^ 62 ≤ u64 (-1) - Zlen (conn_pool_ p).
Proof.
  intros p answers. split.
  - destruct (init_termination answers [] [] [] [] 3306 4 p 6) as ([_ H] & _).
    apply H. vm_compute. discriminate.
  - destruct (init_termination answers [] [] [] [] 3306 (-1) p 6) as (_ & _ & _ & H).
    apply H; [lia | vm_compute; reflexivity].
Defined.

(** ** Lending *)
Inductive lend_step : MySQLConnectionPool * list Z → MySQLConnectionPool * list Z → Prop :=
| l_get c p p' held : GetConnection p = Ok (c, p') → lend_step (p, held) (p', c :: held)
| l_put c p held held' answer :
    held ≡ₚ c :: held' → lend_step (p, held) (ReleaseConnection (Some c) answer p, held').

(** A session is in the pool or lent to one client, and none is lost, as long as clients give
    back what they were lent; the destructor closes those that were given back. *)
Theorem sessions_conserved p held p' held' :
  rtc lend_step (p, held) (p', held') →
  conn_pool_ p' ++ held' ≡ₚ conn_pool_ p ++ held ∧
  closed (MySQLConnectionPool_dtor p') = closed p' ++ conn_pool_ p'.
Proof.
  intros H. split; [|done]. remember (p, held) as s eqn:Es. remember (p', held') as s' eqn:Es'.
  revert p held p' held' Es Es'. induction H as [s|s t s' Hst _ IH]; intros p held p' held' -> Es'.
  - by injection Es' as -> ->.
  - subst s'. destruct t as [pt ht]. rewrite (IH pt ht p' held' eq_refl eq_refl).
    inversion Hst as [c ? ? ? E|c ? ? ? ? E]; subst.
    + unfold GetConnection in E. destruct (conn_pool_ p) as [|x q]; [done|]. injection E as -> <-. simpl.
      by rewrite Permutation_middle.
    + simpl. rewrite E, <- app_assoc. done.
Qed.
