(* ===== verification/TcpSession.v ===== *)
(** * Sessions: [network/tcp_session.h/.cpp], [common/zlibutil.h/.cpp], [common/msg.h]

    A message (command, sequence number, data) is written as a packet of the protocol
    stream, compressed, and sent behind a [chat_msg_header]. zlib is a parameter with the
    contract of its manual. [ulong_size] is [sizeof(uLongf)]: 8 on 64-bit Linux, 4 on
    Windows. *)
From S2P Require Import Prelude ByteBuffer ProtocolStream Poller TcpConnection.

(** ** zlib *)
Class Zlib := {
  compressBound : Z → Z;
  compress : Z → bytes → option bytes;      (* size of the destination, source *)
  uncompress : Z → bytes → option bytes;
}.

(** A destination of [compressBound] bytes is enough, and what was compressed is recovered
    by a destination of the original size. *)
Class ZlibContract `{Zlib} : Prop := {
  bound_law n : 0 ≤ n ≤ 2 ^ 30 → 0 < compressBound n ≤ 2 * n + 64;
  compress_law n src : Zlen src ≤ 2 ^ 30 → compressBound (Zlen src) ≤ n →
    ∃ z, compress n src = Some z ∧ Zlen z ≤ compressBound (Zlen src) ∧
      ∀ m, Zlen src ≤ m → uncompress m z = Some src;
}.

Definition MAX_COMPRESS_BUF_SIZE : Z := 10 * 1024 * 1024.

Section session.
Context `{Zlib} (ulong_size : Z).

(** [compressBuf(const std::string&, std::string&)]: the address of an [int] is passed as an
    [uLongf] pointer, so [compress] reads and writes past it if [uLongf] is wider. *)
Definition compressBuf (src dest : bytes) : outcome (bool * bytes) :=
  if bool_decide (src = []) then Ok (false, dest)
  else
    let nSrcLength := s32 (Zlen src) in
    if MAX_COMPRESS_BUF_SIZE <? nSrcLength then Ok (false, dest)
    else
      let nDestBufLength := s32 (compressBound (uintw (8 * ulong_size) nSrcLength)) in
      if nDestBufLength <=? 0 then Ok (false, dest)
      else if (4 <? ulong_size) || (nSrcLength <? 0) then Stop OutOfBounds
      else match compress nDestBufLength (take (Z.to_nat nSrcLength) src) with
           | None => Ok (false, dest)
           | Some z => Ok (true, dest ++ z)
           end.

(** [compressBuf(const char*, size_t, char*, size_t&)]: the size of the destination is not
    looked at; [room] is what the object behind [pDestBuf] has. *)
Definition compressBuf_raw (pSrcBuf : option bytes) (pDestBuf : option Z) : outcome (option bytes) :=
  match pSrcBuf, pDestBuf with
  | Some src, Some room =>
      if (Zlen src =? 0) || (MAX_COMPRESS_BUF_SIZE <? Zlen src) then Ok None
      else match compress (compressBound (Zlen src)) src with
           | None => Ok None
           | Some z => if room <? Zlen z then Stop OutOfBounds else Ok (Some z)
           end
  | _, _ => Ok None
  end.

(** [uncompressBuf]: here the length is a [size_t]. *)
Definition uncompressBuf (src dest : bytes) (nDestBufLength : Z) : bool * bytes :=
  match uncompress nDestBufLength src with
  | None => (false, dest)
  | Some s => (true, dest ++ s)
  end.

(** [struct chat_msg_header], packed. *)
Record chat_msg_header := mkHeader {
  compressflag : Z; originsize : Z; compresssize : Z; reserved : bytes;
}.
Definition header_bytes (h : chat_msg_header) : bytes :=
  le_bytes 1 (compressflag h) ++ le_bytes 4 (originsize h) ++ le_bytes 4 (compresssize h) ++ reserved h.

Context {P : Type} `{!ChannelOps P}.
Implicit Types c : TcpConnection P.

(** [conn] is [None] when the connection is gone. [junk] are the 16 bytes of [reserved],
    which nothing sets. [length] is an [int32_t], so a longer text is cut, or refused by the
    constructor of [srcbuf]. *)
Definition send_pkg (junk : bytes) (p : bytes) (in_loop : bool) (nw err : Z)
    (conn : option (TcpConnection P)) : outcome (option (TcpConnection P)) :=
  let length := s32 (Zlen p) in
  srcbuf ← (if length <? 0 then Stop LengthError else Ok (take (Z.to_nat length) p));
  '(ok, destbuf) ← compressBuf srcbuf [];
  if negb ok then Ok conn
  else
    let header := mkHeader 1 length (s32 (Zlen destbuf)) junk in
    let strPackageData := header_bytes header ++ destbuf in
    match conn with
    | None => Ok None
    | Some c => c' ← send in_loop strPackageData nw err c; Ok (Some c')
    end.

(** [send(cmd, seq, data, data_len)]; [wjunk] is the writer's uninitialised header. *)
Definition session_send (wjunk junk : bytes) (cmd seq : Z) (data : bytes) (in_loop : bool)
    (nw err : Z) (conn : option (TcpConnection P)) : outcome (option (TcpConnection P)) :=
  let w0 := BinaryStreamWriter_ctor wjunk in
  let w1 := WriteInt32 cmd false w0 in
  let w2 := WriteInt32 seq false w1 in
  let w3 := WriteCString data w2 in
  outbuf ← Flush w3;
  send_pkg junk outbuf in_loop nw err conn.

(** [send(const std::string&)] and [send(const char*, int32_t)]. *)
Definition session_send_buf (junk : bytes) (outbuf : bytes) (in_loop : bool) (nw err : Z)
    (conn : option (TcpConnection P)) : outcome (option (TcpConnection P)) :=
  send_pkg junk outbuf in_loop nw err conn.
End session.

(** ** What the peer gets *)
Section framing.
Context `{Z0 : Zlib} {ZC : ZlibContract} {P : Type} `{!ChannelOps P}.

(** Taking a package apart: the header's fields and the body behind it. *)
Definition parse_package (data : bytes) : chat_msg_header * bytes :=
  (mkHeader (s8 (le_Z (take 1 data))) (s32 (le_Z (take 4 (drop 1 data))))
     (s32 (le_Z (take 4 (drop 5 data)))) (take 16 (drop 9 data)), drop 25 data).

Lemma le_Z_s32 z : - 2 ^ 31 ≤ z < 2 ^ 31 → s32 (le_Z (le_bytes 4 z)) = z.
Proof.
  intros Hz. rewrite le_Z_le_bytes. change (256 ^ Z.of_nat 4) with (2 ^ 32). fold (u32 z).
  by rewrite s_u, s_small by lia.
Qed.

Lemma parse_header_bytes h body :
  length (reserved h) = 16%nat → compressflag h = 1 →
  - 2 ^ 31 ≤ originsize h < 2 ^ 31 → - 2 ^ 31 ≤ compresssize h < 2 ^ 31 →
  parse_package (header_bytes h ++ body) = (h, body).
Proof.
  destruct h as [f o z r]. unfold parse_package, header_bytes.
  cbn [compressflag originsize compresssize reserved]. intros Hr -> Ho Hz.
  change (le_bytes 1 1) with [x01]. cbn [app take drop].
  assert (Hlo : length (le_bytes 4 o) = 4%nat) by apply length_le_bytes.
  assert (Hlz : length (le_bytes 4 z) = 4%nat) by apply length_le_bytes.
  pose proof (le_Z_s32 o Ho) as Eo. pose proof (le_Z_s32 z Hz) as Ez.
  destruct (le_bytes 4 o) as [|o1 [|o2 [|o3 [|o4 [|]]]]]; try done.
  destruct (le_bytes 4 z) as [|z1 [|z2 [|z3 [|z4 [|]]]]]; try done.
  cbn [app take drop]. rewrite take_0, drop_0, Eo, Ez, <- Hr.
  by rewrite take_app_length, drop_app_length.
Qed.

Lemma take_all (l : bytes) : take (Z.to_nat (Zlen l)) l = l.
Proof. unfold Zlen. by rewrite Nat2Z.id, firstn_all. Qed.

Lemma compressBuf_sizes src :
  src ≠ [] → Zlen src ≤ MAX_COMPRESS_BUF_SIZE → ∀ u, u = 4 ∨ u = 8 →
  compressBuf u src [] =
    if 4 <? u then Stop OutOfBounds
    else match compress (compressBound (Zlen src)) src with
         | None => Ok (false, []) | Some z => Ok (true, z) end.
Proof.
  intros Hne Hmax u Hu. unfold compressBuf, MAX_COMPRESS_BUF_SIZE in *. pose proof (Zlen_nonneg src).
  pose proof (bound_law (Zlen src) ltac:(lia)) as Hb.
  assert (Hw : uintw (8 * u) (Zlen src) = Zlen src).
  { unfold uintw. apply Z.mod_small. destruct Hu as [-> | ->]; lia. }
  rewrite bool_decide_eq_false_2, (s32_small (Zlen src)), Hw, s32_small by (done || lia).
  destruct (Z.ltb_spec (10 * 1024 * 1024) (Zlen src)); [lia|].
  destruct (Z.leb_spec (compressBound (Zlen src)) 0); [lia|].
  destruct (Z.ltb_spec (Zlen src) 0); [lia|]. rewrite orb_false_r.
  by rewrite take_all.
Qed.

Lemma compressBuf_ok src :
  src ≠ [] → Zlen src ≤ MAX_COMPRESS_BUF_SIZE →
  ∃ z, compressBuf 4 src [] = Ok (true, z) ∧ 0 ≤ Zlen z < 2 ^ 31 ∧
    uncompressBuf z [] (Zlen src) = (true, src).
Proof.
  intros Hne Hmax. rewrite compressBuf_sizes by auto. unfold MAX_COMPRESS_BUF_SIZE in *.
  pose proof (Zlen_nonneg src). pose proof (bound_law (Zlen src) ltac:(lia)) as Hb.
  destruct (compress_law (compressBound (Zlen src)) src ltac:(lia) (Z.le_refl _)) as (z & -> & Hz & Hu).
  exists z. split; [done|]. pose proof (Zlen_nonneg z). split; [lia|].
  unfold uncompressBuf. by rewrite Hu by lia.
Qed.

(** [send_pkg] of a text of less than 2^31 bytes compresses all of it. *)
Lemma send_pkg_small u junk p nw err (c : TcpConnection P) :
  Zlen p < 2 ^ 31 →
  send_pkg u junk p true nw err (Some c) =
  ('(ok, z) ← compressBuf u p [];
   if negb ok then Ok (Some c)
   else c' ← send true (header_bytes (mkHeader 1 (Zlen p) (s32 (Zlen z)) junk) ++ z) nw err c;
        Ok (Some c')).
Proof.
  intros Hp. unfold send_pkg. pose proof (Zlen_nonneg p). rewrite (s32_small (Zlen p)) by lia.
  cbv zeta. destruct (Z.ltb_spec (Zlen p) 0); [lia|]. rewrite bind_Ok.
  by rewrite take_all.
Qed.

(** The fields of a message. *)
Definition message (cmd seq : Z) (data : bytes) : list Packet.field :=
  [Packet.FInt32 cmd; Packet.FInt32 seq; Packet.FString data].

Lemma message_length cmd seq data :
  0 ≤ Zlen data < 10485700 → 8 ≤ Zlen (message cmd seq data ≫= Packet.field_bytes) ≤ 18 + Zlen data.
Proof.
  intros Hd. unfold message. cbn [mbind list_bind]. rewrite app_nil_r, !Zlen_app.
  change (Zlen (Packet.field_bytes (Packet.FInt32 cmd))) with 4.
  change (Zlen (Packet.field_bytes (Packet.FInt32 seq))) with 4.
  unfold Packet.field_bytes. cbn [Packet.write]. unfold WriteString, WriteCString, write7BitEncoded_u64.
  cbn [app]. rewrite Zlen_app.
  assert (Hw : (1 ≤ length (write7_loop 10 (Zlen data)) ≤ 10)%nat).
  { apply write7_loop_length; [|lia]. change (128 ^ Z.of_nat 10) with 1180591620717411303424. lia. }
  unfold Zlen in *. lia.
Qed.

(** One message, packed by the sender and unpacked by the peer. *)
Lemma session_unpacked (wjunk junk : bytes) (cmd seq : Z) (data : bytes) (nw err : Z)
    (c : TcpConnection P) :
  length wjunk = 6%nat → length junk = 16%nat →
  - 2 ^ 31 ≤ cmd < 2 ^ 31 → - 2 ^ 31 ≤ seq < 2 ^ 31 → Zlen data < 10485700 →
  (∃ package h body outbuf r,
     session_send 4 wjunk junk cmd seq data true nw err (Some c) =
       (c' ← send true package nw err c; Ok (Some c')) ∧
     parse_package package = (h, body) ∧ compressflag h = 1 ∧ compresssize h = Zlen body ∧
     uncompressBuf body [] (originsize h) = (true, outbuf) ∧
     Packet.read_all [Packet.KInt32; Packet.KInt32; Packet.KString]
       (BinaryStreamReader_ctor outbuf (Zlen outbuf)) = Ok (Some (message cmd seq data), r) ∧
     IsEnd r = Ok true) ∧
  session_send 8 wjunk junk cmd seq data true nw err (Some c) = Stop OutOfBounds.
Proof.
  intros Hwj Hj Hcmd Hseq Hdata. pose proof (Zlen_nonneg data).
  pose proof (message_length cmd seq data ltac:(lia)) as Hm.
  destruct (Packet.packet_reads wjunk (message cmd seq data) Hwj) as (p & r & Eb & Ep & Er & Ee).
  { cbn [message forallb Packet.field_ok]. rewrite !andb_true_iff. lia. }
  { lia. }
  assert (Hp : Zlen p = 6 + Zlen (message cmd seq data ≫= Packet.field_bytes)).
  { rewrite Ep, !Zlen_app, Zlen_drop. unfold Zlen. rewrite length_be_bytes. lia. }
  assert (Hne : p ≠ []) by (intros ->; change (Zlen (@nil byte)) with 0 in Hp; lia).
  assert (Hmax : Zlen p ≤ MAX_COMPRESS_BUF_SIZE) by (unfold MAX_COMPRESS_BUF_SIZE; lia).
  assert (Hs : ∀ u, session_send u wjunk junk cmd seq data true nw err (Some c) =
                    send_pkg u junk p true nw err (Some c)).
  { intros u. unfold session_send. change (Flush _) with (Packet.build wjunk (message cmd seq data)).
    by rewrite Eb. }
  split.
  - destruct (compressBuf_ok p Hne Hmax) as (z & Ez & Hz & Hu).
    set (h := mkHeader 1 (Zlen p) (Zlen z) junk).
    exists (header_bytes h ++ z), h, z, p, r. split; [|split; [|done]].
    + unfold MAX_COMPRESS_BUF_SIZE in *. rewrite Hs, send_pkg_small, Ez by lia.
      cbn [mbind outcome_bind negb]. by rewrite !s32_small by lia.
    + unfold MAX_COMPRESS_BUF_SIZE in *. apply parse_header_bytes; subst h; simpl; lia.
  - unfold MAX_COMPRESS_BUF_SIZE in *. by rewrite Hs, send_pkg_small, compressBuf_sizes by (auto; lia).
Qed.
(** C35. A message that is sent reaches the peer's decoder as it was: where [uLongf] has four
    bytes, [send] of command, sequence number and data (whose packet is at most 10 MB) hands
    one package to the connection, whose 25-byte header gives the sizes before and behind
    compression and whose body, uncompressed to the size in the header, is a packet from
    which the reader gets command, sequence number and data. On 64-bit Linux, where [uLongf]
    has eight bytes, every such call runs past the variable that holds the length. *)
Theorem session_package (wjunk junk : bytes) (cmd seq : Z) (data : bytes) (nw err : Z)
    (c : TcpConnection P) :
  length wjunk = 6%nat → length junk = 16%nat →
  - 2 ^ 31 ≤ cmd < 2 ^ 31 → - 2 ^ 31 ≤ seq < 2 ^ 31 → Zlen data < 10485700 →
  (∃ package h body outbuf r,
     session_send 4 wjunk junk cmd seq data true nw err (Some c) =
       (c' ← send true package nw err c; Ok (Some c')) ∧
     parse_package package = (h, body) ∧ compressflag h = 1 ∧ compresssize h = Zlen body ∧
     uncompressBuf body [] (originsize h) = (true, outbuf) ∧
     Packet.read_all [Packet.KInt32; Packet.KInt32; Packet.KString]
       (BinaryStreamReader_ctor outbuf (Zlen outbuf)) = Ok (Some (message cmd seq data), r) ∧
     IsEnd r = Ok true) ∧
  session_send 8 wjunk junk cmd seq data true nw err (Some c) = Stop OutOfBounds.
Proof. apply session_unpacked. Qed.
End framing.

(** ** An example: a zlib that stores *)
Module Stored.
#[export] Instance zlib : Zlib := {
  compressBound n := n + 13;
  compress n s := if Zlen s <=? n then Some s else None;
  uncompress n z := if Zlen z <=? n then Some z else None;
}.
#[export] Instance contract : ZlibContract.
Proof.
  split.
  - intros n Hn. simpl. lia.
  - intros n s _ Hn. simpl in *. exists s. destruct (Z.leb_spec (Zlen s) n); [|lia].
    split; [done|]. split; [lia|]. intros m Hm. by destruct (Z.leb_spec (Zlen s) m); [|lia].
Qed.
End Stored.

Lemma session_package_witness :
  let c := _set_state kConnected (TcpConnection_ctor (P := Z) 3) in
  ∃ package, session_send (H := Stored.zlib) 4 (replicate 6 xaa) (replicate 16 xbb) 1001 7 (lit "{}")
               true 57 0 (Some c) = (c' ← send true package 57 0 c; Ok (Some c')) ∧
             session_send (H := Stored.zlib) 8 (replicate 6 xaa) (replicate 16 xbb) 1001 7 (lit "{}")
               true 57 0 (Some c) = Stop OutOfBounds.
Proof.
  intros c.
  destruct (session_package (Z0 := Stored.zlib) (ZC := Stored.contract) (replicate 6 xaa)
              (replicate 16 xbb) 1001 7 (lit "{}") 57 0 c) as [(package & _ & _ & _ & _ & H & _) H8];
    [reflexivity | reflexivity | lia | lia | vm_compute; reflexivity |].
  exists package. split; [exact H | exact H8].
Defined.
