(* ===== verification/Messages.v ===== *)
(** * The protocol's numbers: [common/msg.h]

    The enumerations of the chat protocol. An enumeration is declared as in the source, a
    list of enumerators of which some have a value; the others get the value of their
    predecessor plus one, the first gets 0. *)
From S2P Require Import Prelude ProtocolStream TcpConnection TcpSession.

(** ** Enumerations of C++ *)
Fixpoint assign {A} (next : Z) (l : list (A * option Z)) : list (A * Z) :=
  match l with
  | [] => []
  | (a, v) :: l' => let z := default next v in (a, z) :: assign (z + 1) l'
  end.

(** Every enumerator is declared, and no two have the same value. *)
Class CEnum (A : Type) `{!EqDecision A} := {
  declared : list (A * option Z);
  declared_all : ∀ a, a ∈ (assign 0 declared).*1;
  declared_values : NoDup (assign 0 declared).*2;
}.

Definition value `{CEnum A} (a : A) : Z :=
  default 0 (snd <$> (snd <$> list_find (λ x, x.1 = a) (assign 0 declared))).
(** The conversion back, for values of the enumeration. *)
Definition of_value `{CEnum A} (z : Z) : option A :=
  fst <$> (snd <$> list_find (λ x, x.2 = z) (assign 0 declared)).

Section enum.
Context `{CEnum A}.

Lemma value_elem a : (a, value a) ∈ assign 0 declared.
Proof.
  unfold value. pose proof (declared_all a) as ([a' z] & E & Hin)%list_elem_of_fmap. simpl in E. subst a'.
  destruct (list_find_elem_of (λ x : A * Z, x.1 = a) _ _ Hin) as [[i [b v]] Hf]; [done|]. rewrite Hf. simpl.
  apply list_find_Some in Hf as (Hi & Hb & _). simpl in Hb. subst b. by eapply list_elem_of_lookup_2.
Qed.

Lemma of_value_value a : of_value (value a) = Some a.
Proof.
  unfold of_value. pose proof (value_elem a) as Hin.
  destruct (list_find_elem_of (λ x : A * Z, x.2 = value a) _ _ Hin) as [[i [b v]] Hf]; [done|]. rewrite Hf.
  apply list_find_Some in Hf as (Hi & Hv & _). apply list_elem_of_lookup in Hin as [j Hj]. simpl in *.
  assert (i = j) as ->; [|congruence].
  apply (NoDup_lookup _ i j v declared_values); rewrite list_lookup_fmap; [by rewrite Hi | by rewrite Hj, Hv].
Qed.

#[export] Instance value_inj : Inj (=) (=) (value (A := A)).
Proof. intros a b E. apply (inj Some). by rewrite <- (of_value_value a), E, of_value_value. Qed.
End enum.

(** Decides the two laws for a list of enumerators. *)
Ltac solve_enum l :=
  refine {| declared := l |};
  [intros []; apply (bool_decide_unpack _); vm_compute; reflexivity
  | apply (bool_decide_unpack _); vm_compute; reflexivity].

(** ** The enumerations of the protocol *)
Inductive package_type := PACKAGE_UNCOMPRESSED | PACKAGE_COMPRESSED.
#[export] Instance package_type_eq_dec : EqDecision package_type.
Proof. solve_decision. Defined.
#[export] Instance package_type_enum : CEnum package_type.
Proof. solve_enum [(PACKAGE_UNCOMPRESSED, @None Z); (PACKAGE_COMPRESSED, None)]. Defined.

Inductive msg_type :=
| msg_type_unknown
| msg_type_heartbeat
| msg_type_register
| msg_type_login
| msg_type_getofriendlist
| msg_type_finduser
| msg_type_operatefriend
| msg_type_userstatuschange
| msg_type_updateuserinfo
| msg_type_modifypassword
| msg_type_creategroup
| msg_type_getgroupmembers
| msg_type_chat
| msg_type_multichat
| msg_type_kickuser
| msg_type_remotedesktop
| msg_type_updateteaminfo
| msg_type_modifyfriendmarkname
| msg_type_movefriendtootherteam.
#[export] Instance msg_type_eq_dec : EqDecision msg_type.
Proof. solve_decision. Defined.
#[export] Instance msg_type_enum : CEnum msg_type.
Proof.
  solve_enum
    [(msg_type_unknown, None); (msg_type_heartbeat, Some 1000); (msg_type_register, None);
     (msg_type_login, None); (msg_type_getofriendlist, None); (msg_type_finduser, None);
     (msg_type_operatefriend, None); (msg_type_userstatuschange, None); (msg_type_updateuserinfo, None);
     (msg_type_modifypassword, None); (msg_type_creategroup, None); (msg_type_getgroupmembers, None);
     (msg_type_chat, Some 1100); (msg_type_multichat, None); (msg_type_kickuser, None);
     (msg_type_remotedesktop, None); (msg_type_updateteaminfo, None);
     (msg_type_modifyfriendmarkname, None); (msg_type_movefriendtootherteam, None)].
Defined.

Inductive online_type :=
| online_type_offline | online_type_pc_online | online_type_pc_invisible | online_type_android_cellular
| online_type_android_wifi | online_type_ios | online_type_mac.
#[export] Instance online_type_eq_dec : EqDecision online_type.
Proof. solve_decision. Defined.
#[export] Instance online_type_enum : CEnum online_type.
Proof.
  solve_enum
    [(online_type_offline, Some 0); (online_type_pc_online, Some 1); (online_type_pc_invisible, Some 2);
     (online_type_android_cellular, Some 3); (online_type_android_wifi, Some 4); (online_type_ios, Some 5);
     (online_type_mac, Some 6)].
Defined.

Inductive friend_operation_type :=
| friend_operation_send_add_apply | friend_operation_recv_add_apply | friend_operation_reply_add_apply
| friend_operation_send_delete_apply | friend_operation_recv_delete_apply.
#[export] Instance friend_operation_type_eq_dec : EqDecision friend_operation_type.
Proof. solve_decision. Defined.
#[export] Instance friend_operation_type_enum : CEnum friend_operation_type.
Proof.
  solve_enum
    [(friend_operation_send_add_apply, Some 1); (friend_operation_recv_add_apply, None);
     (friend_operation_reply_add_apply, None); (friend_operation_send_delete_apply, None);
     (friend_operation_recv_delete_apply, None)].
Defined.

Inductive friend_operation_apply_type := friend_operation_apply_refuse | friend_operation_apply_accept.
#[export] Instance friend_operation_apply_type_eq_dec : EqDecision friend_operation_apply_type.
Proof. solve_decision. Defined.
#[export] Instance friend_operation_apply_type_enum : CEnum friend_operation_apply_type.
Proof. solve_enum [(friend_operation_apply_refuse, @None Z); (friend_operation_apply_accept, None)]. Defined.

Inductive updateteaminfo_operation_type :=
| updateteaminfo_operation_add | updateteaminfo_operation_delete | updateteaminfo_operation_modify.
#[export] Instance updateteaminfo_operation_type_eq_dec : EqDecision updateteaminfo_operation_type.
Proof. solve_decision. Defined.
#[export] Instance updateteaminfo_operation_type_enum : CEnum updateteaminfo_operation_type.
Proof.
  solve_enum
    [(updateteaminfo_operation_add, @None Z); (updateteaminfo_operation_delete, None);
     (updateteaminfo_operation_modify, None)].
Defined.

Inductive error_code :=
| error_code_ok | error_code_unknown | error_code_notlogin | error_code_registerfail
| error_code_registeralready | error_code_notregister | error_code_invalidpassword
| error_code_updateuserinfofail | error_code_modifypasswordfail | error_code_creategroupfail
| error_code_toooldversion | error_code_modifymarknamefail | error_code_teamname_exist.
#[export] Instance error_code_eq_dec : EqDecision error_code.
Proof. solve_decision. Defined.
#[export] Instance error_code_enum : CEnum error_code.
Proof.
  solve_enum
    [(error_code_ok, Some 0); (error_code_unknown, Some 1); (error_code_notlogin, Some 2);
     (error_code_registerfail, Some 100); (error_code_registeralready, Some 101);
     (error_code_notregister, Some 102); (error_code_invalidpassword, Some 103);
     (error_code_updateuserinfofail, Some 104); (error_code_modifypasswordfail, Some 105);
     (error_code_creategroupfail, Some 106); (error_code_toooldversion, Some 107);
     (error_code_modifymarknamefail, Some 108); (error_code_teamname_exist, Some 109)].
Defined.

(** The commands of the requests as the comments of the file document them. *)
Definition documented_cmd (m : msg_type) : option Z :=
  match m with
  | msg_type_unknown => None
  | msg_type_heartbeat => Some 1000 | msg_type_register => Some 1001 | msg_type_login => Some 1002
  | msg_type_getofriendlist => Some 1003 | msg_type_finduser => Some 1004
  | msg_type_operatefriend => Some 1005 | msg_type_userstatuschange => Some 1006
  | msg_type_updateuserinfo => Some 1007 | msg_type_modifypassword => Some 1008
  | msg_type_creategroup => Some 1009 | msg_type_getgroupmembers => Some 1010
  | msg_type_chat => Some 1100 | msg_type_multichat => Some 1101 | msg_type_kickuser => Some 1102
  | msg_type_remotedesktop => Some 1103 | msg_type_updateteaminfo => Some 1104
  | msg_type_modifyfriendmarkname => Some 1105 | msg_type_movefriendtootherteam => Some 1105
  end.

(** The documentation gives the command of every message but the last, which it gives the
    command of the one before. *)
Lemma documented_commands m z :
  documented_cmd m = Some z →
  (m ≠ msg_type_movefriendtootherteam → value m = z) ∧
  (m = msg_type_movefriendtootherteam → value m = 1106 ∧ of_value z = Some msg_type_modifyfriendmarkname).
Proof. destruct m; intros [= <-]; split; try done; intros _; vm_compute; auto. Qed.

Lemma msg_type_int32 (m : msg_type) : - 2 ^ 31 ≤ value m < 2 ^ 31.
Proof.
  assert (0 ≤ value m ≤ 1106) by (destruct m; vm_compute; split; congruence). lia.
Qed.

(** ** Commands on the wire

    A message of a type of the protocol that [TcpSession::send] takes (with a four-byte
    [uLongf]) is read by the peer as a message of this type, in a package that is marked as
    compressed. *)
Lemma command_roundtrip `{Z0 : Zlib} {ZC : ZlibContract} {P : Type} `{!ChannelOps P}
    (wjunk junk : bytes) (m : msg_type) (seq : Z) (data : bytes) (nw err : Z) (c : TcpConnection P) :
  length wjunk = 6%nat → length junk = 16%nat → - 2 ^ 31 ≤ seq < 2 ^ 31 → Zlen data < 10485700 →
  ∃ package h body outbuf r cmd,
    session_send 4 wjunk junk (value m) seq data true nw err (Some c) =
      (c' ← send true package nw err c; Ok (Some c')) ∧
    parse_package package = (h, body) ∧ of_value (compressflag h) = Some PACKAGE_COMPRESSED ∧
    uncompressBuf body [] (originsize h) = (true, outbuf) ∧
    Packet.read_all [Packet.KInt32; Packet.KInt32; Packet.KString]
      (BinaryStreamReader_ctor outbuf (Zlen outbuf)) =
      Ok (Some [Packet.FInt32 cmd; Packet.FInt32 seq; Packet.FString data], r) ∧
    of_value cmd = Some m.
Proof.
  intros Hw Hj Hs Hd.
  destruct (session_unpacked wjunk junk (value m) seq data nw err c Hw Hj (msg_type_int32 m) Hs Hd)
    as [(package & h & body & outbuf & r & H1 & H2 & H3 & _ & H4 & H5 & _) _].
  exists package, h, body, outbuf, r, (value m). rewrite of_value_value, H3. done.
Qed.
