(* ===== verification/Regex.v ===== *)
(** * Regular expressions: the part of [std::regex] the sources use

    [std::regex_match] asks whether a whole text belongs to the language of an expression.
    The patterns of [service/register/login_register_server.cpp] are built from classes of
    characters, concatenation and counted or unbounded repetition. [matches] is the
    language, [regex_match] decides it with derivatives. *)
From S2P Require Import Prelude.

Inductive regex :=
| Never
| Empty
| Class (p : byte → bool)
| Cat (r s : regex)
| Alt (r s : regex)
| Star (r : regex).

(** [r{n}], [r{n,m}] with [k = m - n], [r{n,}] and [r+]. *)
Fixpoint times (n : nat) (r : regex) : regex :=
  match n with O => Empty | S n' => Cat r (times n' r) end.
Fixpoint at_most (k : nat) (r : regex) : regex :=
  match k with O => Empty | S k' => Alt Empty (Cat r (at_most k' r)) end.
Definition between (n k : nat) (r : regex) : regex := Cat (times n r) (at_most k r).
Definition at_least (n : nat) (r : regex) : regex := Cat (times n r) (Star r).
Definition char_is (c : byte) : regex := Class (λ x, bool_decide (x = c)).

(** ** The language of an expression *)
Inductive matches : regex → bytes → Prop :=
| m_empty : matches Empty []
| m_class p c : p c = true → matches (Class p) [c]
| m_cat r s u v : matches r u → matches s v → matches (Cat r s) (u ++ v)
| m_alt_l r s u : matches r u → matches (Alt r s) u
| m_alt_r r s u : matches s u → matches (Alt r s) u
| m_star_nil r : matches (Star r) []
| m_star_app r u v : matches r u → matches (Star r) v → matches (Star r) (u ++ v).

(** ** Derivatives *)
Fixpoint has_empty (r : regex) : bool :=
  match r with
  | Never | Class _ => false
  | Empty | Star _ => true
  | Cat r s => has_empty r && has_empty s
  | Alt r s => has_empty r || has_empty s
  end.

Fixpoint deriv (c : byte) (r : regex) : regex :=
  match r with
  | Never | Empty => Never
  | Class p => if p c then Empty else Never
  | Cat r s => if has_empty r then Alt (Cat (deriv c r) s) (deriv c s) else Cat (deriv c r) s
  | Alt r s => Alt (deriv c r) (deriv c s)
  | Star r => Cat (deriv c r) (Star r)
  end.

Fixpoint regex_match (r : regex) (s : bytes) : bool :=
  match s with [] => has_empty r | c :: s' => regex_match (deriv c r) s' end.

(** ** Inversion of the language *)
Lemma matches_cat r s w : matches (Cat r s) w ↔ ∃ u v, w = u ++ v ∧ matches r u ∧ matches s v.
Proof.
  split; [inversion 1; eauto 6|]. intros (u & v & -> & Hu & Hv). by constructor.
Qed.

Lemma matches_alt r s w : matches (Alt r s) w ↔ matches r w ∨ matches s w.
Proof. split; [inversion 1; auto|]. intros [H|H]; by constructor. Qed.

Lemma matches_class p w : matches (Class p) w ↔ ∃ c, w = [c] ∧ p c = true.
Proof. split; [inversion 1; eauto|]. intros (c & -> & H). by constructor. Qed.

Lemma matches_empty w : matches Empty w ↔ w = [].
Proof. split; [by inversion 1|]. intros ->. constructor. Qed.

(** A word of a starred language that is not empty starts with a factor that is not. *)
Lemma matches_star_cons r c w :
  matches (Star r) (c :: w) ↔ ∃ u v, w = u ++ v ∧ matches r (c :: u) ∧ matches (Star r) v.
Proof.
  split.
  - remember (Star r) as e eqn:He. remember (c :: w) as t eqn:Ht. intros H. revert c w Ht.
    induction H as [| | | | |r0|r0 u v Hu _ Hv IH]; try done. injection He as ->.
    intros c w Ht. destruct u as [|x u]; [by apply IH|]. injection Ht as -> <-. eauto.
  - intros (u & v & -> & Hu & Hv). by apply (m_star_app r (c :: u) v).
Qed.

#[export] Hint Rewrite matches_cat matches_alt matches_class matches_empty : matches.

Lemma has_empty_spec r : has_empty r = true ↔ matches r [].
Proof.
  induction r as [| |p|r IHr s IHs|r IHr s IHs|r IHr]; cbn [has_empty].
  - split; [done | inversion 1].
  - split; [constructor | done].
  - rewrite matches_class. naive_solver.
  - rewrite andb_true_iff, IHr, IHs, matches_cat. split.
    + intros [Hr Hs]. by exists [], [].
    + intros (u & v & E & Hu & Hv). symmetry in E. by apply app_nil in E as [-> ->].
  - by rewrite orb_true_iff, IHr, IHs, matches_alt.
  - split; [constructor | done].
Qed.

Lemma deriv_spec c r w : matches (deriv c r) w ↔ matches r (c :: w).
Proof.
  revert w. induction r as [| |p|r IHr s IHs|r IHr s IHs|r IHr]; intros w; cbn [deriv].
  - split; inversion 1.
  - rewrite matches_empty. split; [inversion 1 | done].
  - rewrite matches_class. destruct (p c) eqn:E.
    + rewrite matches_empty. naive_solver.
    + split; [inversion 1|]. intros (x & [= <- _] & Hx). congruence.
  - assert (Hcat : matches (Cat r s) (c :: w) ↔
              matches (Cat (deriv c r) s) w ∨ (has_empty r = true ∧ matches (deriv c s) w)).
    { rewrite !matches_cat, has_empty_spec, IHs. split.
      - intros ([|x u] & v & E & Hu & Hv); simplify_eq/=.
        + by right.
        + left. exists u, v. by rewrite IHr.
      - intros [(u & v & -> & Hu & Hv) | [Hr Hs]].
        + exists (c :: u), v. by rewrite <- IHr.
        + by exists [], (c :: w). }
    rewrite Hcat. destruct (has_empty r); rewrite ?matches_alt; naive_solver.
  - by rewrite !matches_alt, IHr, IHs.
  - rewrite matches_cat, matches_star_cons. by setoid_rewrite IHr.
Qed.

Lemma regex_match_spec r s : regex_match r s = true ↔ matches r s.
Proof.
  revert r. induction s as [|c s IH]; intros r; cbn [regex_match].
  - apply has_empty_spec.
  - by rewrite IH, deriv_spec.
Qed.

#[export] Instance matches_dec r s : Decision (matches r s).
Proof.
  refine (cast_if (decide (regex_match r s = true))); by rewrite <- regex_match_spec.
Defined.

(** ** Repetitions of a class *)
Lemma times_class n p w :
  matches (times n (Class p)) w ↔ length w = n ∧ forallb p w = true.
Proof.
  revert w. induction n as [|n IH]; intros w; cbn [times].
  - rewrite matches_empty. destruct w; naive_solver.
  - rewrite matches_cat. setoid_rewrite matches_class. setoid_rewrite IH. split.
    + intros (u & v & -> & (c & -> & Hc) & Hl & Hv). simpl. by rewrite Hc, Hl.
    + destruct w as [|c w]; [naive_solver|]. simpl. rewrite andb_true_iff.
      intros ([=Hl] & Hc & Hw). exists [c], w. naive_solver.
Qed.

Lemma at_most_class k p w :
  matches (at_most k (Class p)) w ↔ (length w ≤ k)%nat ∧ forallb p w = true.
Proof.
  revert w. induction k as [|k IH]; intros w; cbn [at_most].
  - rewrite matches_empty. destruct w; simpl; [naive_solver|]. split; [done | intros [? _]; lia].
  - rewrite matches_alt, matches_empty, matches_cat. setoid_rewrite matches_class.
    setoid_rewrite IH. split.
    + intros [-> | (u & v & -> & (c & -> & Hc) & Hl & Hv)]; simpl; [split; [lia | done]|].
      rewrite Hc. split; [lia | done].
    + destruct w as [|c w]; [by left|]. simpl. rewrite andb_true_iff.
      intros (Hl & Hc & Hw). right. exists [c], w. split; [done|]. split; [eauto|]. split; [lia | done].
Qed.

Lemma star_class p w : matches (Star (Class p)) w ↔ forallb p w = true.
Proof.
  induction w as [|c w IH]; [split; [done | constructor]|].
  rewrite matches_star_cons. setoid_rewrite matches_class. simpl.
  rewrite andb_true_iff, <- IH. split.
  - intros (u & v & -> & (x & [= -> ->] & Hx) & Hv). done.
  - intros [Hc Hw]. exists [], w. naive_solver.
Qed.

(** A word split in two parts of given lengths. *)
Lemma split_lengths {A} (w : list A) n :
  (n ≤ length w)%nat → w = take n w ++ drop n w ∧ length (take n w) = n.
Proof. intros. split; [symmetry; apply take_drop|]. rewrite length_take. lia. Qed.

Lemma between_class n k p w :
  matches (between n k (Class p)) w ↔ (n ≤ length w ≤ n + k)%nat ∧ forallb p w = true.
Proof.
  unfold between. rewrite matches_cat. setoid_rewrite times_class. setoid_rewrite at_most_class.
  split.
  - intros (u & v & -> & [Hu Pu] & [Hv Pv]). rewrite length_app, forallb_app, Pu, Pv.
    split; [lia | done].
  - intros [Hl Hw]. destruct (split_lengths w n) as [E Et]; [lia|].
    exists (take n w), (drop n w). split; [done|].
    rewrite E, forallb_app, andb_true_iff in Hw. rewrite length_drop.
    split; [tauto|]. split; [lia | tauto].
Qed.

Lemma at_least_class n p w :
  matches (at_least n (Class p)) w ↔ (n ≤ length w)%nat ∧ forallb p w = true.
Proof.
  unfold at_least. rewrite matches_cat. setoid_rewrite times_class. setoid_rewrite star_class.
  split.
  - intros (u & v & -> & [Hu Pu] & Pv). rewrite length_app, forallb_app, Pu, Pv.
    split; [lia | done].
  - intros [Hl Hw]. destruct (split_lengths w n Hl) as [E Et].
    exists (take n w), (drop n w). split; [done|].
    rewrite E, forallb_app, andb_true_iff in Hw. tauto.
Qed.

Lemma char_is_spec c w : matches (char_is c) w ↔ w = [c].
Proof.
  unfold char_is. rewrite matches_class. setoid_rewrite bool_decide_eq_true. naive_solver.
Qed.
