(* ===== verification/UserDao.v ===== *)
(** * Access to the user table: [database/db_user_info.h], [database/db_user_info.cpp]

    [WhispUserDAO] builds statements with the X DevAPI of MySQL Connector/C++, which is not
    part of the sources: one chain of calls ([insert().values().execute()] and so on) is one
    operation of the class [XDevApi], [None] being a [mysqlx::Error]. [TableContract] states
    what the statements do to the rows of the table. Sessions are addresses, [nullptr] is
    [None], and the current time is an argument. *)
From S2P Require Import Prelude.

Record UserInfo := mkInfo {
  id : Z;
  username : bytes;
  password_hash : bytes;
  nickname : bytes;
  avatar_url : bytes;
  gender : bytes;
  birthday : bytes;
  phone_number : bytes;
  email : bytes;
  region : bytes;
  status : bytes;
  last_login_time : bytes;
  create_time : bytes;
  update_time : bytes;
}.

(** A value of a result row; temporal columns arrive as raw bytes. *)
Inductive value := VNull | VInt (z : Z) | VString (s : bytes) | VRaw (s : bytes).

(** A table is named by its session, schema and name. *)
Definition table_ref : Type := Z * bytes * bytes.

Class XDevApi (DB : Type) := {
  insert_row : table_ref → list (bytes * bytes) → DB → option DB;
  select_by_id : table_ref → Z → DB → option (option (list value));
  update_by_id : table_ref → Z → list (bytes * bytes) → DB → option DB;
  remove_by_id : table_ref → Z → DB → option DB;
}.

(** ** [WhispUserDAO] *)
Record WhispUserDAO := mkDAO {
  default_conn_ : option Z;
  default_schema_ : bytes;
  default_table_ : bytes;
}.

Section dao.
Context {DB : Type} `{!XDevApi DB}.
Implicit Types (dao : WhispUserDAO) (db : DB).

Definition ResolveParams dao (conn_override : option Z) (schema_override table_override : bytes)
    : option Z * bytes * bytes :=
  (match conn_override with Some c => Some c | None => default_conn_ dao end,
   if bool_decide (schema_override = []) then default_schema_ dao else schema_override,
   if bool_decide (table_override = []) then default_table_ dao else table_override).

(** The guard of every operation. *)
Definition table_of (conn : option Z) (schema table : bytes) : option table_ref :=
  match conn with
  | Some c => if bool_decide (schema = []) || bool_decide (table = []) then None
              else Some (c, schema, table)
  | None => None
  end.

Definition insert_values (now : bytes) (user : UserInfo) : list (bytes * bytes) :=
  [(lit "username", username user); (lit "password_hash", password_hash user);
   (lit "nickname", nickname user); (lit "avatar_url", avatar_url user);
   (lit "gender", gender user); (lit "birthday", birthday user);
   (lit "phone_number", phone_number user); (lit "email", email user);
   (lit "region", region user); (lit "status", status user); (lit "last_login_time", now)].

Definition InsertUser (now : bytes) (user : UserInfo) (conn_override : option Z)
    (schema_override table_override : bytes) dao db : bool * DB :=
  let '(conn, schema, table) := ResolveParams dao conn_override schema_override table_override in
  match table_of conn schema table with
  | None => (false, db)
  | Some t => match insert_row t (insert_values now user) db with
              | Some db' => (true, db') | None => (false, db) end
  end.

(** [row[i]] throws [std::out_of_range] behind the last column; [get<std::string>] of any
    other value than a string is a [mysqlx::Error], here [None]. *)
Definition get_string (row : list value) (i : nat) : outcome (option bytes) :=
  match row !! i with
  | None => Stop OutOfRange
  | Some (VString s) => Ok (Some s)
  | Some _ => Ok None
  end.
Definition get_int (row : list value) (i : nat) : outcome (option Z) :=
  match row !! i with
  | None => Stop OutOfRange
  | Some (VInt z) => Ok (Some (s32 z))
  | Some _ => Ok None
  end.

(** The columns [1..n] in order; the first that fails ends the reading. *)
Fixpoint get_strings (row : list value) (i n : nat) : outcome (option (list bytes)) :=
  match n with
  | O => Ok (Some [])
  | S n' =>
      s ← get_string row i;
      match s with
      | None => Ok None
      | Some s => ss ← get_strings row (S i) n'; Ok (option_map (cons s) ss)
      end
  end.

Definition ParseUser (row : list value) : outcome (option UserInfo) :=
  uid ← get_int row 0;
  match uid with
  | None => Ok None
  | Some uid =>
      ss ← get_strings row 1 13;
      Ok (match ss with
          | Some [name; hash; nick; avatar; gen; birth; phone; mail; reg; st; login; created; updated] =>
              Some (mkInfo uid name hash nick avatar gen birth phone mail reg st login created updated)
          | _ => None
          end)
  end.

Definition GetUserById (user_id : Z) (conn_override : option Z)
    (schema_override table_override : bytes) dao db : outcome (option UserInfo) :=
  let '(conn, schema, table) := ResolveParams dao conn_override schema_override table_override in
  match table_of conn schema table with
  | None => Ok None
  | Some t =>
      match select_by_id t user_id db with
      | Some (Some row) => ParseUser row
      | _ => Ok None
      end
  end.

Definition update_values (user : UserInfo) : list (bytes * bytes) :=
  [(lit "nickname", nickname user); (lit "avatar_url", avatar_url user);
   (lit "phone_number", phone_number user); (lit "email", email user);
   (lit "region", region user); (lit "status", status user); (lit "last_login_time", [])].

(** [UpdateUser] and [DeleteUser] do not look at the defaults. *)
Definition UpdateUser (user : UserInfo) (session : option Z) (DBschema DBtable : bytes) db
    : bool * DB :=
  match table_of session DBschema DBtable with
  | None => (false, db)
  | Some t => match update_by_id t (id user) (update_values user) db with
              | Some db' => (true, db') | None => (false, db) end
  end.

Definition DeleteUser (user_id : Z) (session : option Z) (DBschema DBtable : bytes) db
    : bool * DB :=
  match table_of session DBschema DBtable with
  | None => (false, db)
  | Some t => match remove_by_id t user_id db with
              | Some db' => (true, db') | None => (false, db) end
  end.
End dao.

(** ** What the statements do

    [columns] is the order of the columns in the table (of [scripts/table_init.sql]), [rows]
    the table's rows by their primary key, and [store] what a text given for a column comes
    back as: VARCHAR columns keep it, the server converts it for ENUM, DATE and DATETIME
    columns, and the client may deliver the latter as raw bytes. Columns an insertion does not
    name get values of the server's own ([create_time] and [update_time] the current time), and
    so may [update_time] in an update (ON UPDATE CURRENT_TIMESTAMP). *)
Definition columns : list bytes :=
  map lit ["username"; "password_hash"; "nickname"; "avatar_url"; "gender"; "birthday";
           "phone_number"; "email"; "region"; "status"; "last_login_time"; "create_time";
           "update_time"]%string.

Definition row_of : Type := bytes → value.
Definition set_columns (store : bytes → bytes → value) (vs : list (bytes * bytes)) (r : row_of) : row_of :=
  fold_left (λ r kv c, if bool_decide (c = kv.1) then store kv.1 kv.2 else r c) vs r.

Class TableContract (DB : Type) `{!XDevApi DB} := {
  rows : table_ref → DB → gmap Z row_of;
  store : bytes → bytes → value;
  insert_law t vs db db' : insert_row t vs db = Some db' →
    ∃ i defaults, rows t db !! i = None ∧ 0 < i < 2 ^ 31 ∧
         rows t db' = <[i := set_columns store vs defaults]> (rows t db);
  select_law t i db o : select_by_id t i db = Some o →
    o = (λ r, VInt i :: (r <$> columns)) <$> rows t db !! i;
  update_law t i vs db db' : update_by_id t i vs db = Some db' →
    ∃ touch : row_of → row_of, (∀ r c, c ≠ lit "update_time" → touch r c = r c) ∧
      rows t db' = alter (set_columns store vs ∘ touch) i (rows t db);
  remove_law t i db db' : remove_by_id t i db = Some db' → rows t db' = delete i (rows t db);
}.

Section contract.
Context {DB : Type} `{!XDevApi DB} `{!TableContract DB}.
Implicit Types (dao : WhispUserDAO) (db : DB).

(** The user that thirteen texts stand for: every one must be readable as a string. *)
Definition text (v : value) : option bytes := match v with VString s => Some s | _ => None end.
Definition as_user (i : Z) (l : list (option bytes)) : option UserInfo :=
  ss ← mapM (λ o, o) l;
  match ss with
  | [name; hash; nick; avatar; gen; birth; phone; mail; reg; st; login; created; updated] =>
      Some (mkInfo i name hash nick avatar gen birth phone mail reg st login created updated)
  | _ => None
  end.
Definition user_of_row (i : Z) (r : row_of) : option UserInfo := as_user i ((text ∘ r) <$> columns).

(** What a reader gets for a text written to a column. *)
Definition shown (c : string) (v : bytes) : option bytes := text (store (lit c) v).

Lemma get_strings_text pre vs n :
  length vs = n →
  get_strings (pre ++ vs) (length pre) n = Ok (mapM text vs).
Proof.
  revert pre n. induction vs as [|v vs IH]; intros pre n Hn; subst n; [done|].
  cbn [length get_strings]. unfold get_string.
  rewrite (lookup_app_r pre) by lia. rewrite Nat.sub_diag. cbn [lookup list_lookup].
  destruct v as [|z|s|s]; try done.
  rewrite bind_Ok. pose proof (IH (pre ++ [VString s]) (length vs) eq_refl) as E.
  rewrite <- app_assoc, length_app, Nat.add_comm in E. cbn [app length Nat.add] in E.
  rewrite E. simpl. by destruct (mapM text vs).
Qed.

Lemma ParseUser_row i r :
  0 < i < 2 ^ 31 → ParseUser (VInt i :: (r <$> columns)) = Ok (user_of_row i r).
Proof.
  intros Hi. unfold ParseUser, get_int. cbn [lookup list_lookup]. rewrite bind_Ok, s32_small by lia.
  pose proof (get_strings_text [VInt i] (r <$> columns) 13 eq_refl) as E.
  change ([VInt i] ++ (r <$> columns)) with (VInt i :: (r <$> columns)) in E.
  change (length [VInt i]) with 1%nat in E. rewrite E, bind_Ok. unfold user_of_row, as_user.
  assert (Hm : mapM text (r <$> columns) = mapM (λ o, o) ((text ∘ r) <$> columns)).
  { generalize columns as l. induction l as [|c l IH]; [done|].
    rewrite !fmap_cons. cbn [mapM]. by rewrite IH. }
  rewrite Hm. by destruct (mapM _ _).
Qed.

(** What is read under an id, when the statement succeeds. *)
Lemma GetUserById_row i c s tb dao db :
  s ≠ [] → tb ≠ [] → is_Some (select_by_id (c, s, tb) i db) → 0 < i < 2 ^ 31 →
  GetUserById i (Some c) s tb dao db = Ok (r ← rows (c, s, tb) db !! i; user_of_row i r).
Proof.
  intros Hs Ht [o Ho] Hi. unfold GetUserById, ResolveParams, table_of.
  rewrite !(bool_decide_eq_false_2 _ Hs), !(bool_decide_eq_false_2 _ Ht). cbn [orb]. rewrite Ho.
  apply select_law in Ho as ->. destruct (rows (c, s, tb) db !! i) as [r|]; [|done].
  by apply ParseUser_row.
Qed.

(** The text a list of assignments gives to a column. *)
Definition assigned (c : bytes) (vs : list (bytes * bytes)) : option bytes :=
  fold_left (λ o kv, if bool_decide (c = kv.1) then Some kv.2 else o) vs None.

Lemma set_columns_assigned (st : bytes → bytes → value) vs (r : row_of) c :
  set_columns st vs r c = from_option (st c) (r c) (assigned c vs).
Proof.
  unfold set_columns, assigned.
  assert (Hsome : ∀ vs v, is_Some (fold_left (λ o kv, if bool_decide (c = kv.1) then Some kv.2 else o)
                                     vs (Some v : option bytes))).
  { clear. induction vs as [|kv vs IH]; intros v; [eauto|]. cbn [fold_left]. by case_match. }
  assert (H : ∀ r o, r c = from_option (st c) (r c) o →
    fold_left (λ (r : row_of) kv x, if bool_decide (x = kv.1) then st kv.1 kv.2 else r x) vs r c =
    from_option (st c) (r c)
      (fold_left (λ o kv, if bool_decide (c = kv.1) then Some kv.2 else o) vs o)).
  { induction vs as [|[k v] vs IH]; intros r0 o Ho; cbn [fold_left fst snd]; [exact Ho|].
    rewrite (IH _ (if bool_decide (c = k) then Some v else o)).
    - destruct (bool_decide_reflect (c = k)) as [<-|]; [|done].
      cbn beta. destruct (Hsome vs v) as [v' ->]. done.
    - destruct (bool_decide_reflect (c = k)) as [<-|]; [done | exact Ho]. }
  by apply H.
Qed.

Lemma user_after_insert i now u r0 :
  user_of_row i (set_columns store (insert_values now u) r0) =
  as_user i [shown "username" (username u); shown "password_hash" (password_hash u); shown "nickname" (nickname u);
             shown "avatar_url" (avatar_url u); shown "gender" (gender u); shown "birthday" (birthday u);
             shown "phone_number" (phone_number u); shown "email" (email u); shown "region" (region u);
             shown "status" (status u); shown "last_login_time" now;
             text (r0 (lit "create_time")); text (r0 (lit "update_time"))].
Proof.
  unfold user_of_row. f_equal.
Qed.

(** The fields a user that can be read has in its row. *)
Lemma user_of_row_fields i r old :
  user_of_row i r = Some old →
  (text ∘ r) <$> columns =
    Some <$> [username old; password_hash old; nickname old; avatar_url old; gender old; birthday old; phone_number old;
              email old; region old; status old; last_login_time old; create_time old; update_time old].
Proof.
  unfold user_of_row, as_user. destruct (mapM _ _) as [ss|] eqn:E; [|done]. cbn [mbind option_bind].
  assert (Hl : (text ∘ r) <$> columns = Some <$> ss).
  { apply mapM_Some in E. remember ((text ∘ r) <$> columns) as l eqn:El. clear El.
    induction E as [|x y l k Hx _ IH]; [done|]. by rewrite fmap_cons, <- IH, <- Hx. }
  rewrite Hl. do 13 (destruct ss as [|? ss]; [done|]). destruct ss; [by intros [= <-] | done].
Qed.

Lemma user_after_update i u r old touch :
  (∀ r c, c ≠ lit "update_time" → touch r c = r c) → user_of_row i r = Some old →
  user_of_row i ((set_columns store (update_values u) ∘ touch) r) =
  as_user i [Some (username old); Some (password_hash old); shown "nickname" (nickname u);
             shown "avatar_url" (avatar_url u); Some (gender old); Some (birthday old);
             shown "phone_number" (phone_number u); shown "email" (email u); shown "region" (region u);
             shown "status" (status u); shown "last_login_time" []; Some (create_time old);
             text (touch r (lit "update_time"))].
Proof.
  intros Ht Ho%user_of_row_fields. unfold user_of_row. f_equal. unfold columns in *.
  cbn [map fmap list_fmap] in *.
  assert (E : ∀ c x, c ≠ lit "update_time" → (text ∘ r) c = x → text (touch r c) = x)
    by (intros c x Hc <-; simpl; by rewrite Ht).
  injection Ho as H1 H2 _ _ H5 H6 _ _ _ _ _ H12 _.
  apply E in H1, H2, H5, H6, H12; [|done..].
  rewrite <- H1, <- H2, <- H5, <- H6, <- H12. reflexivity.
Qed.

(** C30. The user table through [WhispUserDAO], for any conversion the columns make and any
    values the server sets itself, over a server that answers queries. A user who is inserted
    gets an id that was unknown, and what [GetUserById] reads under it are the texts that were
    written, column by column as the server shows them, with the current time as the last
    login and the server's creation and update times; the user is not delivered if one of
    these cannot be read as a text. [UpdateUser] replaces nickname, avatar, phone number,
    mail, region and status, writes an empty last login time and keeps the others but the
    update time; [DeleteUser] makes the id unknown. All three leave every other id as it was.
    Without arguments for connection, schema and table [InsertUser] works on the defaults,
    while [UpdateUser] and [DeleteUser] refuse. *)
Theorem dao_crud now u i c s t dao db db' :
  s ≠ [] → t ≠ [] → (∀ t i db, is_Some (select_by_id t i db)) → 0 < i < 2 ^ 31 →
  let get j := GetUserById j (Some c) s t dao in
  (InsertUser now u (Some c) s t dao db = (true, db') →
     ∃ n created updated, 0 < n < 2 ^ 31 ∧ get n db = Ok None ∧
       get n db' = Ok (as_user n
         [shown "username" (username u); shown "password_hash" (password_hash u); shown "nickname" (nickname u);
          shown "avatar_url" (avatar_url u); shown "gender" (gender u); shown "birthday" (birthday u);
          shown "phone_number" (phone_number u); shown "email" (email u); shown "region" (region u);
          shown "status" (status u); shown "last_login_time" now; created; updated]) ∧
       (i ≠ n → get i db' = get i db)) ∧
  (UpdateUser u (Some c) s t db = (true, db') → 0 < id u < 2 ^ 31 →
     (∀ old, get (id u) db = Ok (Some old) → ∃ updated, get (id u) db' = Ok (as_user (id u)
         [Some (username old); Some (password_hash old); shown "nickname" (nickname u);
          shown "avatar_url" (avatar_url u); Some (gender old); Some (birthday old);
          shown "phone_number" (phone_number u); shown "email" (email u); shown "region" (region u);
          shown "status" (status u); shown "last_login_time" []; Some (create_time old); updated])) ∧
     (i ≠ id u → get i db' = get i db)) ∧
  (∀ k, DeleteUser k (Some c) s t db = (true, db') → 0 < k < 2 ^ 31 →
     get k db' = Ok None ∧ (i ≠ k → get i db' = get i db)) ∧
  (InsertUser now u None [] [] (mkDAO (Some c) s t) db = InsertUser now u (Some c) s t dao db ∧
   (∀ sch tab, UpdateUser u None sch tab db = (false, db) ∧ DeleteUser i None sch tab db = (false, db))).
Proof.
  intros Hs Ht Hsel Hi get.
  assert (Hget : ∀ j d, 0 < j < 2 ^ 31 → get j d = Ok (r ← rows (c, s, t) d !! j; user_of_row j r)).
  { intros j d Hj. by apply GetUserById_row. }
  assert (Htab : table_of (Some c) s t = Some (c, s, t)).
  { unfold table_of. by rewrite !bool_decide_eq_false_2. }
  split_and!.
  - unfold InsertUser, ResolveParams. rewrite !bool_decide_eq_false_2, Htab by done.
    destruct (insert_row _ _ db) as [d|] eqn:E; [|done]. intros [= ->].
    apply insert_law in E as (n & r0 & Hn & Hr & E).
    exists n, (text (r0 (lit "create_time"))), (text (r0 (lit "update_time"))). split; [done|].
    rewrite !Hget, E by done. split; [by rewrite Hn|]. split.
    + rewrite lookup_insert_eq. cbn [mbind option_bind]. by rewrite user_after_insert.
    + intros Hne. by rewrite lookup_insert_ne.
  - unfold UpdateUser. rewrite Htab. destruct (update_by_id _ _ _ db) as [d|] eqn:E; [|done].
    intros [= ->] Hid. apply update_law in E as (touch & Htouch & E). split.
    + intros old. rewrite !Hget, E, lookup_alter_eq by done.
      destruct (rows (c, s, t) db !! id u) as [r|]; [|done].
      cbn [fmap option_fmap option_map mbind option_bind]. intros [= Ho].
      eexists. by rewrite (user_after_update _ u r old touch).
    + intros Hne. by rewrite !Hget, E, lookup_alter_ne by done.
  - intros k. unfold DeleteUser. rewrite Htab. destruct (remove_by_id _ _ db) as [d|] eqn:E; [|done].
    intros [= ->] Hk. apply remove_law in E. rewrite !Hget, E by done. split.
    + by rewrite lookup_delete_eq.
    + intros Hne. by rewrite lookup_delete_ne.
  - unfold InsertUser, ResolveParams. cbn [default_conn_ default_schema_ default_table_].
    by rewrite !(bool_decide_eq_true_2 _ eq_refl), !bool_decide_eq_false_2 by done.
  - intros sch tab. done.
Qed.
End contract.

(** ** An example: one table in memory, with the column types of [scripts/table_init.sql] and a
    client that delivers dates and times as texts *)
Module OneTable.
Definition last_id (db : gmap Z row_of) : Z := map_fold (λ i _ m, Z.max i m) 0 db.
Definition enum (alts : list string) (v : bytes) : bytes := if bool_decide (v ∈ map lit alts) then v else [].
Definition keep (c v : bytes) : value :=
  VString (if bool_decide (c = lit "gender") then enum ["male"; "female"; "other"]%string v
           else if bool_decide (c = lit "status") then enum ["active"; "inactive"; "banned"]%string v
           else if bool_decide (c = lit "birthday") then take 10 (v ++ lit "0000-00-00")
           else if bool_decide (c = lit "last_login_time") then take 19 (v ++ lit " 00:00:00")
           else v).
Definition created : row_of := λ _, VString (lit "2025-01-01 08:00:00").
Definition stamped (r : row_of) : row_of :=
  λ c, if bool_decide (c = lit "update_time") then VString (lit "2025-01-02 09:00:00") else r c.

#[export] Instance api : XDevApi (gmap Z row_of) := {
  insert_row t vs db :=
    if last_id db <? 2 ^ 31 - 1 then Some (<[1 + last_id db := set_columns keep vs created]> db) else None;
  select_by_id t i db := Some ((λ r, VInt i :: (r <$> columns)) <$> db !! i);
  update_by_id t i vs db := Some (alter (set_columns keep vs ∘ stamped) i db);
  remove_by_id t i db := Some (delete i db);
}.

Lemma last_id_max db i r : db !! i = Some r → i ≤ last_id db.
Proof.
  unfold last_id. revert i r.
  apply (map_fold_weak_ind (λ m db, ∀ i r, db !! i = Some r → i ≤ m)); [done|].
  intros k x d m Hk IH i r. destruct (decide (i = k)) as [->|Hne].
  - lia.
  - rewrite lookup_insert_ne by done. intros Hi. pose proof (IH i r Hi). lia.
Qed.

Lemma last_id_nonneg db : 0 ≤ last_id db.
Proof.
  unfold last_id. apply (map_fold_weak_ind (λ m _, 0 ≤ m)); intros; lia.
Qed.

#[export] Instance contract : TableContract (gmap Z row_of).
Proof.
  refine {| rows t db := db; store := keep |}.
  - intros t vs db db'. cbn [insert_row api]. destruct (Z.ltb_spec (last_id db) (2 ^ 31 - 1)); [|done].
    intros [= <-]. pose proof (last_id_nonneg db). exists (1 + last_id db), created.
    split; [|split; [lia | done]]. apply eq_None_not_Some. intros [r Hr%last_id_max]. lia.
  - intros t i db o. cbn. by intros [= <-].
  - intros t i vs db db'. cbn. intros [= <-]. exists stamped. split; [|done].
    intros r c Hc. unfold stamped. by rewrite bool_decide_eq_false_2.
  - intros t i db db'. cbn. by intros [= <-].
Defined.
End OneTable.
Import OneTable.

Lemma dao_crud_witness :
  let u := mkInfo 0 (lit "ann") (lit "h") (lit "Ann") [] (lit "female") (lit "1990-01-01") [] [] []
             (lit "active") [] [] [] in
  let dao := mkDAO None [] [] in
  let db' := (InsertUser (lit "2025-03-04") u (Some 7) (lit "talko") (lit "user_info") dao
               (∅ : gmap Z row_of)).2 in
  ∃ n created updated, GetUserById n (Some 7) (lit "talko") (lit "user_info") dao db' =
    Ok (as_user n [Some (lit "ann"); Some (lit "h"); Some (lit "Ann"); Some []; Some (lit "female"); Some (lit "1990-01-01");
                   Some []; Some []; Some []; Some (lit "active"); Some (lit "2025-03-04 00:00:00"); created; updated]).
Proof.
  intros u dao db'.
  destruct (dao_crud (lit "2025-03-04") u 1 7 (lit "talko") (lit "user_info") dao (∅ : gmap Z row_of) db')
    as (H & _); [done | done | intros; eexists; reflexivity | lia |].
  destruct (H eq_refl) as (n & ct & ut & _ & _ & Hg & _). exists n, ct, ut. exact Hg.
Defined.
