(* ===== verification/UserService.v ===== *)
(** * The registration service: [service/register/login_register_server.h/.cpp]

    [UserService::handleRegistration] takes a JSON text and answers with one. jsoncpp and the
    [DatabaseManager] are not part of the sources. A parsed document is a [jvalue], with the
    documented behaviour of the accessors the code calls; parsing, the writer and the
    database are parameters. The time, as [put_time] prints it, is an argument. *)
From S2P Require Import Prelude Regex UserDao.

(** ** Documents *)
Inductive jvalue :=
| JNull
| JBool (b : bool)
| JNumber (text : bytes)
| JString (s : bytes)
| JArray
| JObject (member : bytes → option jvalue).

(** [operator[]] of a constant value: a member that is missing is null, and indexing
    anything but null and objects throws [Json::LogicError]. *)
Definition index (v : jvalue) (key : bytes) : outcome jvalue :=
  match v with
  | JNull => Ok JNull
  | JObject member => Ok (default JNull (member key))
  | _ => Stop RuntimeError
  end.
Definition isMember (v : jvalue) (key : bytes) : outcome bool :=
  match v with
  | JNull => Ok false
  | JObject member => Ok (bool_decide (is_Some (member key)))
  | _ => Stop RuntimeError
  end.
Definition asString (v : jvalue) : outcome bytes :=
  match v with
  | JNull => Ok []
  | JBool b => Ok (if b then lit "true" else lit "false")
  | JNumber text => Ok text
  | JString s => Ok s
  | JArray | JObject _ => Stop RuntimeError
  end.
(** [get(key, defaultValue)] *)
Definition get (v : jvalue) (key : bytes) (d : jvalue) : outcome jvalue :=
  match v with
  | JNull => Ok d
  | JObject member => Ok (default d (member key))
  | _ => Stop RuntimeError
  end.

Class JsonLib := {
  parseFromStream : bytes → jvalue + bytes;         (* the document, or the errors *)
  writeString : list (bytes * jvalue) → bytes;      (* the members that were set *)
}.

(** [DatabaseManager]: [insertUser] may fill in the user it is given. *)
Class DatabaseManager (DB : Type) := {
  userExists : bytes → DB → bool;
  insertUser : UserInfo → DB → bool * UserInfo * DB;
}.

(** ** Validation *)
Definition in_range (a b c : byte) : bool := (Z_of_byte a <=? Z_of_byte c) && (Z_of_byte c <=? Z_of_byte b).
Definition letter (c : byte) : bool := in_range x61 x7a c || in_range x41 x5a c.
Definition alnum (c : byte) : bool := letter c || in_range x30 x39 c.
Definition one_of (s : string) (c : byte) : bool := bool_decide (c ∈ lit s).

(** [a-zA-Z0-9_], [a-fA-F0-9], [a-zA-Z0-9._%+-], [a-zA-Z0-9.-] and [a-zA-Z]. *)
Definition word_char (c : byte) : bool := alnum c || one_of "_" c.
Definition hex_char (c : byte) : bool := in_range x61 x66 c || in_range x41 x46 c || in_range x30 x39 c.
Definition local_char (c : byte) : bool := alnum c || one_of "._%+-" c.
Definition domain_char (c : byte) : bool := alnum c || one_of ".-" c.

Definition usernameRegex : regex := between 4 16 (Class word_char).
Definition hashRegex : regex := times 64 (Class hex_char).
Definition emailRegex : regex :=
  Cat (at_least 1 (Class local_char))
    (Cat (char_is x40) (Cat (at_least 1 (Class domain_char))
      (Cat (char_is x2e) (at_least 2 (Class letter))))).

Definition validateUserInfo (userData : jvalue) : outcome bool :=
  name ← index userData (lit "username") ≫= asString;
  if negb (regex_match usernameRegex name) then Ok false
  else
    hash ← index userData (lit "password_hash") ≫= asString;
    if negb (regex_match hashRegex hash) then Ok false
    else
      has_email ← isMember userData (lit "email");
      if negb has_email then Ok true
      else
        mail ← index userData (lit "email") ≫= asString;
        if bool_decide (mail = []) then Ok true else Ok (regex_match emailRegex mail).

(** ** [handleRegistration] *)
Section service.
Context `{J : JsonLib} {DB : Type} `{!DatabaseManager DB}.

Definition success : bytes := lit "success".
Definition error : bytes := lit "error".
Definition refusal (why : bytes) : list (bytes * jvalue) :=
  [(success, JBool false); (error, JString why)].

(** [junk] is the uninitialised [id] of the new user. *)
Definition new_user (junk : Z) (now name hash nick gen : bytes) : UserInfo :=
  mkInfo junk name hash nick [] gen [] [] [] [] (lit "active") [] now now.

Definition handleRegistration (junk : Z) (now jsonRequest : bytes) (db : DB) : outcome (bytes * DB) :=
  match parseFromStream jsonRequest with
  | inr errors => Ok (writeString (refusal (lit "Invalid JSON: " ++ errors)), db)
  | inl request =>
      valid ← validateUserInfo request;
      if negb valid then Ok (writeString (refusal (lit "Validation failed")), db)
      else
        name ← index request (lit "username") ≫= asString;
        if userExists name db then Ok (writeString (refusal (lit "Username already exists")), db)
        else
          hash ← index request (lit "password_hash") ≫= asString;
          nick ← get request (lit "nickname") (JString []) ≫= asString;
          gen ← get request (lit "gender") (JString (lit "other")) ≫= asString;
          let '(ok, user, db') := insertUser (new_user junk now name hash nick gen) db in
          Ok (writeString
                (if negb ok then refusal (lit "Database insertion failed")
                 else [(success, JBool true); (lit "user_id", JNumber (dec (id user)));
                       (lit "message", JString (lit "Registration successful"))]), db')
  end.
End service.

(** ** The accepted texts, without regular expressions *)
Definition username_ok (s : bytes) : Prop := (4 ≤ length s ≤ 20)%nat ∧ forallb word_char s = true.
Definition hash_ok (s : bytes) : Prop := length s = 64%nat ∧ forallb hex_char s = true.
Definition email_ok (s : bytes) : Prop :=
  ∃ local domain tld, s = local ++ [x40] ++ domain ++ [x2e] ++ tld ∧
    local ≠ [] ∧ forallb local_char local = true ∧
    domain ≠ [] ∧ forallb domain_char domain = true ∧
    (2 ≤ length tld)%nat ∧ forallb letter tld = true.

Lemma username_match s : regex_match usernameRegex s = true ↔ username_ok s.
Proof. rewrite regex_match_spec. apply between_class. Qed.

Lemma hash_match s : regex_match hashRegex s = true ↔ hash_ok s.
Proof. rewrite regex_match_spec. apply times_class. Qed.

Lemma nonempty_length {A} (l : list A) : (1 ≤ length l)%nat ↔ l ≠ [].
Proof. destruct l; simpl; split; [lia | done | done | lia]. Qed.

Lemma email_match s : regex_match emailRegex s = true ↔ email_ok s.
Proof.
  rewrite regex_match_spec. unfold emailRegex, email_ok. rewrite matches_cat.
  setoid_rewrite at_least_class. setoid_rewrite nonempty_length. split.
  - intros (local & rest & -> & [Hl Pl] & H). rewrite matches_cat in H.
    destruct H as (at_ & rest1 & -> & ->%char_is_spec & H). rewrite matches_cat in H.
    destruct H as (domain & rest2 & -> & [Hd%nonempty_length Pd]%at_least_class & H).
    rewrite matches_cat in H.
    destruct H as (dot & tld & -> & ->%char_is_spec & [Ht Pt]%at_least_class).
    exists local, domain, tld. split_and!; done.
  - intros (local & domain & tld & -> & Hl & Pl & Hd & Pd & Ht & Pt).
    exists local, ([x40] ++ domain ++ [x2e] ++ tld). split; [done|]. split; [done|].
    constructor; [by apply char_is_spec|]. constructor; [by apply at_least_class, conj; [apply nonempty_length|]|].
    constructor; [by apply char_is_spec | by apply at_least_class].
Qed.

(** ** Registration *)
Section registration.
Context `{J : JsonLib} {DB : Type} `{!DatabaseManager DB}.

(** The text of a member, [d] if it is missing; arrays and objects have none. *)
Definition shown (f : bytes → option jvalue) (k : string) (d : bytes) : option bytes :=
  match f (lit k) with
  | None => Some d
  | Some JNull => Some []
  | Some (JBool b) => Some (if b then lit "true" else lit "false")
  | Some (JNumber s) | Some (JString s) => Some s
  | Some JArray | Some (JObject _) => None
  end.

(** Members are read and tested in the order name, hash, mail address. *)
Definition name_ok f (name : bytes) : Prop := shown f "username" [] = Some name ∧ username_ok name.
Definition login_ok f (name hash : bytes) : Prop :=
  name_ok f name ∧ shown f "password_hash" [] = Some hash ∧ hash_ok hash.
Definition request_ok f (name hash : bytes) : Prop :=
  login_ok f name hash ∧ ∃ mail, shown f "email" [] = Some mail ∧ (mail = [] ∨ email_ok mail).

Definition request_bad (f : bytes → option jvalue) : Prop :=
  (∃ name, shown f "username" [] = Some name ∧ ¬ username_ok name) ∨
  (∃ name hash, name_ok f name ∧ shown f "password_hash" [] = Some hash ∧ ¬ hash_ok hash) ∨
  (∃ name hash mail, login_ok f name hash ∧ shown f "email" [] = Some mail ∧ mail ≠ [] ∧ ¬ email_ok mail).
Definition request_throws (f : bytes → option jvalue) : Prop :=
  shown f "username" [] = None ∨
  (∃ name, name_ok f name ∧ shown f "password_hash" [] = None) ∨
  (∃ name hash, login_ok f name hash ∧ shown f "email" [] = None).

Definition told (o : option bytes) : outcome bytes := match o with Some s => Ok s | None => Stop RuntimeError end.

Lemma index_shown f k : (index (JObject f) (lit k) ≫= asString) = told (shown f k []).
Proof. unfold index, shown. rewrite bind_Ok. by destruct (f (lit k)) as [[| | | | |]|]. Qed.

Lemma get_shown f k d : (get (JObject f) (lit k) (JString d) ≫= asString) = told (shown f k d).
Proof. unfold get, shown. rewrite bind_Ok. by destruct (f (lit k)) as [[| | | | |]|]. Qed.

(** Every request is of one kind, and its validation tells which. *)
Lemma validate_spec f :
  (∃ name hash, request_ok f name hash) ∧ validateUserInfo (JObject f) = Ok true ∨
  request_bad f ∧ validateUserInfo (JObject f) = Ok false ∨
  request_throws f ∧ validateUserInfo (JObject f) = Stop RuntimeError.
Proof.
  unfold validateUserInfo, request_ok, request_bad, request_throws, login_ok, name_ok.
  rewrite (index_shown f "username"). destruct (shown f "username" []) as [name|]; [|naive_solver]. cbn [told]. rewrite bind_Ok.
  pose proof (username_match name) as Hu. destruct (regex_match usernameRegex name); cbn [negb]; [|naive_solver].
  rewrite (index_shown f "password_hash"). destruct (shown f "password_hash" []) as [hash|]; [|naive_solver]. cbn [told]. rewrite bind_Ok.
  pose proof (hash_match hash) as Hh. destruct (regex_match hashRegex hash); cbn [negb]; [|naive_solver].
  unfold isMember. rewrite bind_Ok. destruct (bool_decide_reflect (is_Some (f (lit "email")))) as [_|Hn]; cbn [negb].
  - rewrite (index_shown f "email"). destruct (shown f "email" []) as [mail|]; [|naive_solver]. cbn [told]. rewrite bind_Ok.
    destruct (bool_decide_reflect (mail = [])) as [->|Hm]; [naive_solver|].
    pose proof (email_match mail) as He. destruct (regex_match emailRegex mail); naive_solver.
  - apply eq_None_not_Some in Hn. assert (shown f "email" [] = Some []) by (unfold shown; by rewrite Hn). naive_solver.
Qed.

(** The three kinds exclude each other. *)
Lemma request_kinds f name hash :
  request_ok f name hash → ¬ request_bad f ∧ ¬ request_throws f.
Proof. unfold request_ok, request_bad, request_throws, login_ok, name_ok. naive_solver. Qed.

Lemma request_kinds' f : request_bad f → ¬ request_throws f.
Proof. unfold request_bad, request_throws, login_ok, name_ok. naive_solver. Qed.

(** C29. Registration by JSON, for every text, every document and every database. A text that is
    not JSON is refused with the errors. For an object the members are read in the order user
    name, password hash, mail address: the first one that is an array or an object throws
    ([Json::LogicError], which nothing catches), and the first one that is read and is not 4
    to 20 letters, digits or underscores, not 64 hexadecimal digits, or neither empty nor of
    the form local@domain.tld, has the request refused; every object is valid, refused or
    throws. A valid name that exists is refused. Otherwise a nickname or gender that is an
    array or an object throws, and any other request is handed to the database exactly once,
    as an active user with its name and hash, the nickname and gender of the request or their
    defaults, and the current time as creation and update time; the answer says what the
    database said. Nothing else changes the database. Null is refused, and any other document
    throws. *)
Theorem registration_validated junk now data db :
  match parseFromStream data with
  | inr errors =>
      handleRegistration junk now data db =
        Ok (writeString (refusal (lit "Invalid JSON: " ++ errors)), db)
  | inl (JObject f) =>
      ((∃ name hash, request_ok f name hash) ∨ request_bad f ∨ request_throws f) ∧
      (request_throws f → handleRegistration junk now data db = Stop RuntimeError) ∧
      (request_bad f → handleRegistration junk now data db =
         Ok (writeString (refusal (lit "Validation failed")), db)) ∧
      ∀ name hash, request_ok f name hash →
        (userExists name db = true → handleRegistration junk now data db =
           Ok (writeString (refusal (lit "Username already exists")), db)) ∧
        (userExists name db = false →
           match shown f "nickname" [], shown f "gender" (lit "other") with
           | Some nick, Some gen =>
               let '(ok, user', db') := insertUser (new_user junk now name hash nick gen) db in
               handleRegistration junk now data db =
                 Ok (writeString (if ok : bool then [(success, JBool true); (lit "user_id", JNumber (dec (id user')));
                                                     (lit "message", JString (lit "Registration successful"))]
                                  else refusal (lit "Database insertion failed")), db')
           | _, _ => handleRegistration junk now data db = Stop RuntimeError
           end)
  | inl JNull => handleRegistration junk now data db =
                   Ok (writeString (refusal (lit "Validation failed")), db)
  | inl _ => handleRegistration junk now data db = Stop RuntimeError
  end.
Proof.
  unfold handleRegistration.
  destruct (parseFromStream data) as [[| | | | |f]|errors]; try reflexivity.
  destruct (validate_spec f) as [[(nm & hs & Hok) ->]|[[Hb ->]|[Ht ->]]]; cbn [negb].
  - destruct (request_kinds f nm hs Hok) as [Hnb Hnt]. split; [eauto|]. split; [done|]. split; [done|].
    intros name hash [[[Hn _] [Hh _]] _]. rewrite bind_Ok, (index_shown f "username"), Hn. cbn [negb told]. rewrite bind_Ok.
    split; intros Hex; rewrite Hex; [done|].
    rewrite (index_shown f "password_hash"), Hh. cbn [told]. rewrite bind_Ok.
    rewrite (get_shown f "nickname"). destruct (shown f "nickname" []) as [nick|]; [|done]. cbn [told]. rewrite bind_Ok.
    rewrite (get_shown f "gender"). destruct (shown f "gender" (lit "other")) as [gen|]; [|done]. cbn [told]. rewrite bind_Ok.
    by destruct (insertUser _ db) as [[[] u] d].
  - split; [auto|]. split; [by intros ?%request_kinds'|]. split; [done|].
    intros name hash Hok. by destruct (request_kinds f name hash Hok).
  - split; [auto|]. split; [done|]. split; [by intros ?%request_kinds'|].
    intros name hash Hok. by destruct (request_kinds f name hash Hok).
Qed.
End registration.

(** ** An example: a set of names, and a codec for one request *)
Module NameSet.
Definition hash : bytes := replicate 64 x61.
Definition body (k : bytes) : option jvalue :=
  if bool_decide (k = lit "username") then Some (JString (lit "ann_01"))
  else if bool_decide (k = lit "password_hash") then Some (JString hash)
  else if bool_decide (k = lit "email") then Some (JString (lit "ann@chat.example.org"))
  else None.
#[export] Instance json : JsonLib := {
  parseFromStream s := if bool_decide (s = lit "request") then inl (JObject body) else inr (lit "?");
  writeString ms := concat (map fst ms);
}.
#[export] Instance manager : DatabaseManager (list bytes) := {
  userExists n db := bool_decide (n ∈ db);
  insertUser u db := (true, u, username u :: db);
}.
End NameSet.
Import NameSet.

Lemma registration_validated_witness :
  (∃ ret, handleRegistration 0 (lit "now") (lit "request") [] =
            Ok (writeString ret, [lit "ann_01"])) ∧
  handleRegistration 0 (lit "now") (lit "request") [lit "ann_01"] =
    Ok (writeString (refusal (lit "Username already exists")), [lit "ann_01"]).
Proof.
  assert (Hv : request_ok body (lit "ann_01") hash).
  { split; [split; [split; [reflexivity | apply username_match; by vm_compute] | split; [reflexivity | apply hash_match; by vm_compute]]|].
    exists (lit "ann@chat.example.org"). split; [reflexivity | right; apply email_match; by vm_compute]. }
  split.
  - pose proof (registration_validated (J := json) 0 (lit "now") (lit "request") []) as H.
    destruct H as (_ & _ & _ & H). destruct (H _ _ Hv) as [_ H2]. eexists. exact (H2 eq_refl).
  - pose proof (registration_validated (J := json) 0 (lit "now") (lit "request") [lit "ann_01"]) as H.
    destruct H as (_ & _ & _ & H). destruct (H _ _ Hv) as [H1 _]. exact (H1 eq_refl).
Defined.
