(* ===== verification/ZlibStream.v ===== *)
(** * Raw deflate streams: [ZlibUtil::deflate] and [ZlibUtil::inflate] of [common/zlibutil.cpp]

    Both functions drive a [z_stream] of zlib through an output array of 8192 bytes. zlib is a
    parameter: [z_init] is [deflateInit2]/[inflateInit2], and [z_call] one call of
    [::deflate]/[::inflate] with [Z_SYNC_FLUSH], of which [ZStreamContract] states what the
    manual says. The loop runs on fuel; [None] is a loop that has not ended yet. *)
From S2P Require Import Prelude.

Inductive z_error := Z_OK | Z_STREAM_END | Z_FAILED.

(** One call: the code, what was written to the output array, and the input left. *)
Record z_result (St : Type) := mkResult { z_err : z_error; z_out : bytes; z_rest : bytes; z_next : St }.
Arguments mkResult {St}.
Arguments z_err {St}.
Arguments z_out {St}.
Arguments z_rest {St}.
Arguments z_next {St}.

Class ZStream (St : Type) := {
  z_init : option St;
  z_call : St → bytes → Z → z_result St;
}.

Definition OUTPUT_BUF_SIZE : Z := 8192.

Section streams.
Context {St : Type} `{!ZStream St}.

(** How the loop ends: [Z_STREAM_END], all input consumed, or an error, with which the
    function returns without ending the stream. *)
Inductive pumped := Finished | Drained | Failed.

Fixpoint pump (fuel : nat) (zS : St) (in_ strDest : bytes) : option (pumped * bytes) :=
  match fuel with
  | O => None
  | S f =>
      let r := z_call zS in_ OUTPUT_BUF_SIZE in
      let avail_out := OUTPUT_BUF_SIZE - Zlen (z_out r) in
      match z_err r with
      | Z_STREAM_END => Some (Finished, strDest ++ z_out r)
      | Z_OK =>
          if (avail_out =? 0) && negb (bool_decide (z_rest r = []))
          then pump f (z_next r) (z_rest r) (strDest ++ z_out r)
          else if bool_decide (z_rest r = []) then Some (Drained, strDest ++ z_out r)
          else Some (Failed, strDest)
      | Z_FAILED => Some (Failed, strDest)
      end
  end.

(** [avail_in] has 32 bits. *)
Definition avail_in (strSrc : bytes) : bytes := take (Z.to_nat (u32 (Zlen strSrc))) strSrc.

(** [substr(0, length() - 4)]: a length below four wraps, and the text stays. *)
Definition cut_tail (s : bytes) : bytes :=
  if Zlen s <? 4 then s else take (length s - 4) s.

Definition deflate (fuel : nat) (strSrc strDest : bytes) : option (bool * bytes) :=
  match z_init with
  | None => Some (false, strDest)
  | Some zS =>
      '(res, dest) ← pump fuel zS (avail_in strSrc) strDest;
      Some (match res with
            | Finished => (true, dest)
            | Drained => (true, cut_tail dest)
            | Failed => (false, dest)
            end)
  end.

Definition inflate (fuel : nat) (strSrc strDest : bytes) : option (bool * bytes) :=
  match z_init with
  | None => Some (false, strDest)
  | Some zS =>
      '(res, dest) ← pump fuel zS (avail_in strSrc) strDest;
      Some (match res with Failed => (false, dest) | _ => (true, dest) end)
  end.
End streams.

(** ** What zlib promises

    [output zS in_] is everything the stream still produces for the input [in_] and a flush, and
    [accepts zS in_] that [in_] is a beginning of well-formed input for the stream. A call
    writes the next part of the output; it leaves room in the array only when nothing is left
    to read or to write. It fails on malformed input, or when no progress is possible
    ([Z_BUF_ERROR]): nothing to read and nothing to write. *)
Class ZStreamContract (St : Type) `{!ZStream St} := {
  output : St → bytes → bytes;
  accepts : St → bytes → Prop;
  room_law zS in_ n : 0 < n → Zlen (z_out (z_call zS in_ n)) ≤ n;
  ok_law zS in_ n : 0 < n → let r := z_call zS in_ n in z_err r = Z_OK →
    output zS in_ = z_out r ++ output (z_next r) (z_rest r) ∧
    (Zlen (z_out r) < n → z_rest r = [] ∧ output (z_next r) (z_rest r) = []);
  end_law zS in_ n : 0 < n → let r := z_call zS in_ n in z_err r = Z_STREAM_END →
    output zS in_ = z_out r;
  progress_law zS in_ n : 0 < n → accepts zS in_ → in_ ≠ [] ∨ output zS in_ ≠ [] →
    let r := z_call zS in_ n in
    z_err r ≠ Z_FAILED ∧ (z_err r = Z_OK → accepts (z_next r) (z_rest r));
}.

Section contract.
Context {St : Type} `{!ZStream St} `{!ZStreamContract St}.

(** What the loop can have got out of the stream. *)
Definition delivered (res : pumped) (all got : bytes) : Prop :=
  match res with
  | Finished => got = all
  | Drained => got `prefix_of` all ∧
               (got = all ∨ (got ≠ [] ∧ Zlen got mod OUTPUT_BUF_SIZE = 0))
  | Failed => True
  end.

Lemma delivered_more res all got part :
  Zlen part = OUTPUT_BUF_SIZE → delivered res all got → delivered res (part ++ all) (part ++ got).
Proof.
  intros Hp. destruct res; cbn [delivered]; [by intros -> | | done].
  intros [Hpre Hd]. split; [by apply prefix_app|].
  destruct Hd as [-> | [Hne Hm]]; [by left|]. right.
  assert (part ≠ []) by (intros ->; done). split; [by destruct part|].
  rewrite Zlen_app, Hp. unfold OUTPUT_BUF_SIZE in *. rewrite Z.add_mod, Hm by lia. done.
Qed.

(** The loop ends: every further round has written 8192 bytes of a finite output. *)
Lemma pump_ends fuel zS in_ dest :
  Zlen (output zS in_) < OUTPUT_BUF_SIZE * Z.of_nat fuel →
  ∃ res got, pump fuel zS in_ dest = Some (res, dest ++ got) ∧
    delivered res (output zS in_) got.
Proof.
  unfold OUTPUT_BUF_SIZE. revert zS in_ dest.
  induction fuel as [|f IH]; intros zS in_ dest Hf; [pose proof (Zlen_nonneg (output zS in_)); lia|].
  cbn [pump]. set (r := z_call zS in_ OUTPUT_BUF_SIZE).
  pose proof (room_law zS in_ OUTPUT_BUF_SIZE ltac:(done)) as Hroom.
  pose proof (ok_law zS in_ OUTPUT_BUF_SIZE ltac:(done)) as Hok.
  pose proof (end_law zS in_ OUTPUT_BUF_SIZE ltac:(done)) as Hend.
  fold r in Hroom, Hok, Hend. cbv zeta in Hok, Hend. destruct (z_err r) eqn:Er.
  - destruct (Hok eq_refl) as [Hout Hmore]. clear Hok Hend.
    destruct (Z.eqb_spec (OUTPUT_BUF_SIZE - Zlen (z_out r)) 0) as [Hfull|Hroomy]; cbn [andb].
    + destruct (bool_decide_reflect (z_rest r = [])) as [Hr|Hr]; cbn [negb].
      * exists Drained, (z_out r). split; [done|]. cbn [delivered]. rewrite Hout.
        split; [by apply prefix_app_r|]. right.
        assert (Zlen (z_out r) = OUTPUT_BUF_SIZE) as E by lia. rewrite E. split; [|done].
        intros E0. rewrite E0 in E. done.
      * destruct (IH (z_next r) (z_rest r) (dest ++ z_out r)) as (res & got & E & Hd).
        { rewrite Hout, Zlen_app in Hf. unfold OUTPUT_BUF_SIZE in *. lia. }
        exists res, (z_out r ++ got). rewrite E, <- app_assoc. split; [done|].
        rewrite Hout. apply delivered_more; [lia | done].
    + destruct (Hmore ltac:(lia)) as [Hr Hn]. rewrite bool_decide_eq_true_2 by done.
      exists Drained, (z_out r). split; [done|]. cbn [delivered]. rewrite Hout, Hn, app_nil_r.
      split; [done | by left].
  - exists Finished, (z_out r). split; [done|]. cbn [delivered]. by rewrite Hend.
  - exists Failed, []. by rewrite app_nil_r.
Qed.

(** On well-formed input the loop does not fail. *)
Lemma pump_accepted fuel zS in_ dest res d :
  accepts zS in_ → in_ ≠ [] ∨ output zS in_ ≠ [] →
  pump fuel zS in_ dest = Some (res, d) → res ≠ Failed.
Proof.
  revert zS in_ dest. induction fuel as [|f IH]; intros zS in_ dest Ha Hp; [done|].
  cbn [pump]. set (r := z_call zS in_ OUTPUT_BUF_SIZE).
  pose proof (room_law zS in_ OUTPUT_BUF_SIZE ltac:(done)) as Hroom.
  pose proof (ok_law zS in_ OUTPUT_BUF_SIZE ltac:(done)) as Hok.
  destruct (progress_law zS in_ OUTPUT_BUF_SIZE ltac:(done) Ha Hp) as [Hnf Hnext].
  fold r in Hroom, Hok, Hnf, Hnext. cbv zeta in Hok. destruct (z_err r) eqn:Er; [|by intros [= <- _]|done].
  destruct (Hok eq_refl) as [_ Hmore].
  destruct (bool_decide_reflect (z_rest r = [])) as [Hr|Hr]; cbn [negb].
  - rewrite andb_false_r. by intros [= <- _].
  - rewrite andb_true_r. destruct (Z.eqb_spec (OUTPUT_BUF_SIZE - Zlen (z_out r)) 0) as [Hfull|Hroomy].
    + apply IH; [by apply Hnext | by left].
    + exfalso. apply Hr, Hmore. lia.
Qed.
End contract.

(** ** Compressing and uncompressing *)
Section roundtrip.
Context {SD : Type} `{DS : !ZStream SD} `{DC : !ZStreamContract SD}.
Context {SI : Type} `{IS : !ZStream SI} `{IC : !ZStreamContract SI}.

Lemma avail_in_all s : Zlen s < 2 ^ 32 → avail_in s = s.
Proof.
  intros Hs. unfold avail_in. pose proof (Zlen_nonneg s). rewrite u32_small by lia.
  unfold Zlen. by rewrite Nat2Z.id, firstn_all.
Qed.

(** The length of a text is not a positive multiple of the size of the output array. *)
Definition partial_block (s : bytes) : Prop := s = [] ∨ Zlen s mod OUTPUT_BUF_SIZE ≠ 0.

Lemma delivered_all all got :
  delivered Drained all got → partial_block got → got = all.
Proof. intros [_ [->|[Hne Hm]]] [->|Hp]; done. Qed.

(** What the manual says of a text and its raw stream: the compressing stream takes any
    input, ends only on [Z_FINISH], which is not used here, and its flush ends in the four
    bytes [00 00 ff ff], before which there is at least the header of the empty block; the
    expanding stream takes what comes before them for the text. *)
Definition flush_marker : bytes := [x00; x00; xff; xff].
Record zlib_for (d0 : SD) (i0 : SI) (src : bytes) : Prop := {
  zf_deflate_init : z_init (St := SD) = Some d0;
  zf_inflate_init : z_init (St := SI) = Some i0;
  zf_deflate_accepts : accepts d0 src;
  zf_not_ended (zS : SD) (in_ : bytes) : z_err (z_call zS in_ OUTPUT_BUF_SIZE) ≠ Z_STREAM_END;
  zf_flush : ∃ z, z ≠ [] ∧ output d0 src = z ++ flush_marker ∧ accepts i0 z ∧ output i0 z = src;
}.

Lemma pump_not_finished n (zS : SD) in_ dest res d :
  (∀ (zS : SD) in_, z_err (z_call zS in_ OUTPUT_BUF_SIZE) ≠ Z_STREAM_END) →
  pump n zS in_ dest = Some (res, d) → res ≠ Finished.
Proof.
  intros Hne. revert zS in_ dest. induction n as [|n IH]; intros zS in_ dest; [done|].
  cbn [pump]. specialize (Hne zS in_). destruct (z_err _); [|done|by intros [= <- _]].
  case_match; [apply IH | case_match; by intros [= <- _]].
Qed.

Lemma cut_marker z : cut_tail (z ++ flush_marker) = z.
Proof.
  unfold cut_tail. rewrite Zlen_app. change (Zlen flush_marker) with 4. pose proof (Zlen_nonneg z).
  destruct (Z.ltb_spec (Zlen z + 4) 4); [lia|]. rewrite length_app. change (length flush_marker) with 4%nat.
  by rewrite Nat.add_sub, take_app_length.
Qed.

(** Less than a block has no full block. *)
Lemma small_partial (got all : bytes) :
  got `prefix_of` all → Zlen all < OUTPUT_BUF_SIZE → partial_block got.
Proof.
  intros [k ->]. rewrite Zlen_app. pose proof (Zlen_nonneg k). intros Hl. destruct got as [|b got]; [by left|].
  right. assert (0 < Zlen (b :: got)) by (unfold Zlen; simpl; lia). rewrite Z.mod_small; lia.
Qed.

Lemma cut_tail_length got all :
  delivered Drained all got → (Zlen (cut_tail got) + 4) mod OUTPUT_BUF_SIZE ≠ 0 → got = all.
Proof.
  intros Hd Hm. apply delivered_all; [done|]. unfold cut_tail in Hm.
  destruct (Z.ltb_spec (Zlen got) 4) as [Hl|Hl].
  - destruct got as [|b got]; [by left|]. right.
    assert (0 < Zlen (b :: got)) by (unfold Zlen; simpl; lia).
    unfold OUTPUT_BUF_SIZE. rewrite Z.mod_small by lia. lia.
  - right. rewrite Zlen_take in Hm. unfold Zlen in *.
    replace (Z.min _ _ + 4) with (Z.of_nat (length got)) in Hm by lia. done.
Qed.

(** What [deflate] gives for a text. *)
Lemma deflate_text d0 i0 src n :
  zlib_for d0 i0 src → Zlen src < 2 ^ 32 → Zlen (output d0 src) < OUTPUT_BUF_SIZE * Z.of_nat n →
  ∃ got, deflate (St := SD) n src [] = Some (true, cut_tail got) ∧
    delivered Drained (output d0 src) got.
Proof.
  intros [Hd _ Ha Hne (z & Hz & Hf & _)] Hs Hn.
  destruct (pump_ends n d0 src [] Hn) as (res & got & Ed & Hgot).
  pose proof (pump_not_finished _ _ _ _ _ _ Hne Ed) as Hnf.
  assert (Hnx : res ≠ Failed).
  { eapply (pump_accepted (St := SD)); [exact Ha | right; rewrite Hf; by destruct z | exact Ed]. }
  destruct res; [done| |done]. exists got. split; [|done].
  unfold deflate. by rewrite Hd, avail_in_all, Ed.
Qed.

(** What [inflate] gives for the flushed stream without its marker. *)
Lemma inflate_text i0 src z k :
  z_init (St := SI) = Some i0 → z ≠ [] → accepts i0 z → output i0 z = src → Zlen z < 2 ^ 32 →
  Zlen src < OUTPUT_BUF_SIZE * Z.of_nat k →
  ∃ t, inflate (St := SI) k z [] = Some (true, t) ∧ t `prefix_of` src ∧ (partial_block t → t = src).
Proof.
  intros Hi Hz Ha Hrec Hl Hk. destruct (pump_ends k i0 z []) as (res & t & Ei & Ht); [by rewrite Hrec|].
  rewrite Hrec in Ht. pose proof (pump_accepted _ _ _ _ _ _ Ha (or_introl Hz) Ei) as Hnx.
  unfold inflate. rewrite Hi, avail_in_all, Ei by done. exists t. destruct res; [| |done].
  - split; [done|]. cbn [delivered] in Ht. by rewrite Ht.
  - split; [done|]. split; [apply Ht | by apply delivered_all].
Qed.

(** C36. The stream functions end with true, and what was compressed is recovered. With as
    many rounds as there are blocks of 8192 bytes in what the stream has to say, [deflate]
    answers true; what it produces is a beginning of the flushed stream less four bytes, and
    all of it unless that beginning is a whole number of blocks. Unless it is, [inflate] of
    the result answers true and gives a beginning of the text that was compressed, all of
    it unless that is a whole number of blocks. So a text below a block, with a stream below
    a block, comes back: [deflate] gives the stream without its end marker and [inflate]
    the text. The exception is real: when the call that reads the last input byte also fills
    the array, the loop stops, and what zlib still holds is lost although the answer is
    true. That zlib itself recovers the text from the stream is a hypothesis, [zlib_for]. *)
Theorem stream_roundtrip d0 i0 src n k :
  zlib_for d0 i0 src → Zlen src < 2 ^ 32 → Zlen (output d0 src) < 2 ^ 32 →
  Zlen (output d0 src) < OUTPUT_BUF_SIZE * Z.of_nat n → Zlen src < OUTPUT_BUF_SIZE * Z.of_nat k →
  (∃ got, deflate (St := SD) n src [] = Some (true, cut_tail got) ∧
     got `prefix_of` output d0 src ∧ (partial_block got → got = output d0 src)) ∧
  (∀ z, deflate (St := SD) n src [] = Some (true, z) → (Zlen z + 4) mod OUTPUT_BUF_SIZE ≠ 0 →
     ∃ t, inflate (St := SI) k z [] = Some (true, t) ∧
       t `prefix_of` src ∧ (partial_block t → t = src)) ∧
  (Zlen src < OUTPUT_BUF_SIZE → Zlen (output d0 src) < OUTPUT_BUF_SIZE →
     ∃ z, output d0 src = z ++ [x00; x00; xff; xff] ∧ deflate (St := SD) n src [] = Some (true, z) ∧
       inflate (St := SI) k z [] = Some (true, src)) ∧
  (∀ z, Zlen z < 2 ^ 32 → let r := z_call (St := SI) i0 z OUTPUT_BUF_SIZE in
     z_err r = Z_OK → z_rest r = [] → Zlen (z_out r) = OUTPUT_BUF_SIZE → (0 < k)%nat →
     inflate (St := SI) k z [] = Some (true, z_out r) ∧
     output i0 z = z_out r ++ output (z_next r) []).
Proof.
  intros Hz Hs Ho Hn Hk. destruct (deflate_text d0 i0 src n Hz Hs Hn) as (got & Edef & Hgot).
  destruct Hz as [_ Hi _ _ (z & Hne & Hf & Ha & Hrec)].
  assert (Hzl : Zlen z < 2 ^ 32) by (rewrite Hf, Zlen_app in Ho; pose proof (Zlen_nonneg flush_marker); lia).
  destruct (inflate_text i0 src z k Hi Hne Ha Hrec Hzl Hk) as (t & Einf & Hpre & Hall).
  split_and!.
  - exists got. split; [done|]. split; [apply Hgot|]. by apply delivered_all.
  - rewrite Edef. intros z' [= <-] Hm. rewrite (cut_tail_length got _ Hgot Hm), Hf, cut_marker. by exists t.
  - intros Hs1 Ho1. exists z. split; [done|].
    rewrite Edef, (delivered_all _ _ Hgot (small_partial _ _ (proj1 Hgot) Ho1)), Hf, cut_marker, Einf.
    by rewrite (Hall (small_partial _ _ Hpre Hs1)).
  - clear z Hne Hf Ha Hrec Hzl t Einf Hpre Hall.
    intros z Hzl r Er Hr Hfull Hk0. destruct k as [|k]; [lia|]. split.
    + unfold inflate. rewrite Hi, avail_in_all by done. cbn [pump]. fold r.
      rewrite Er, Hfull, Z.sub_diag, Hr. done.
    + pose proof (ok_law i0 z OUTPUT_BUF_SIZE ltac:(done)) as H. cbv zeta in H. fold r in H.
      rewrite Hr in H. by apply H.
Qed.
End roundtrip.

(** ** An example: streams that copy their input

    The state is what is still to be written; the compressed form has four more bytes. *)
Module Copying.
Inductive packer := Packer (pending : bytes) (flushed : bool).
Inductive unpacker := Unpacker (pending : bytes).

(** Everything is taken in at once, and handed out as there is room. *)
Definition hand_out {St} (mk : bytes → St) (all : bytes) (n : Z) : z_result St :=
  mkResult Z_OK (take (Z.to_nat n) all) [] (mk (drop (Z.to_nat n) all)).
Definition pending_of (zS : packer) (in_ : bytes) : bytes :=
  match zS with Packer p fl => p ++ in_ ++ (if fl : bool then [] else flush_marker) end.

#[export] Instance packing : ZStream packer := {
  z_init := Some (Packer [] false);
  z_call zS in_ n := hand_out (λ p, Packer p true) (pending_of zS in_) n;
}.
#[export] Instance unpacking : ZStream unpacker := {
  z_init := Some (Unpacker []);
  z_call zS in_ n := match zS with Unpacker p => hand_out Unpacker (p ++ in_) n end;
}.

Lemma hand_out_laws {St} (mk : bytes → St) all n :
  0 < n → Zlen (z_out (hand_out mk all n)) ≤ n ∧
  (Zlen (z_out (hand_out mk all n)) < n → drop (Z.to_nat n) all = []).
Proof.
  intros Hn. cbn [hand_out z_out]. rewrite Zlen_take. split; [lia|].
  intros H. apply drop_ge. unfold Zlen in H. lia.
Qed.

#[export] Instance packing_contract : ZStreamContract packer.
Proof.
  refine {| output := pending_of; accepts _ _ := True |}.
  - intros zS in_ n Hn. by apply hand_out_laws.
  - intros zS in_ n Hn r _. subst r. cbn [z_call packing].
    destruct (hand_out_laws (λ p, Packer p true) (pending_of zS in_) n Hn) as [_ H].
    cbn [hand_out z_out z_next z_rest pending_of app]. rewrite app_nil_r, take_drop.
    split; [done|]. intros Hl. split; [done | by apply H].
  - intros zS in_ n Hn r Hr. done.
  - by intros zS in_ n Hn _ _.
Defined.

#[export] Instance unpacking_contract : ZStreamContract unpacker.
Proof.
  refine {| output zS in_ := match zS with Unpacker p => p ++ in_ end; accepts _ _ := True |}.
  - intros [p] in_ n Hn. by apply hand_out_laws.
  - intros [p] in_ n Hn r _. subst r. cbn [z_call unpacking].
    destruct (hand_out_laws Unpacker (p ++ in_) n Hn) as [_ H].
    cbn [hand_out z_out z_next z_rest]. rewrite app_nil_r, take_drop.
    split; [done|]. intros Hl. split; [done | by apply H].
  - intros [p] in_ n Hn r Hr. done.
  - by intros [p] in_ n Hn _ _.
Defined.
End Copying.
Import Copying.

Lemma stream_roundtrip_witness :
  (∃ z, deflate (St := packer) 1 (lit "hello") [] = Some (true, z) ∧
        inflate (St := unpacker) 1 z [] = Some (true, lit "hello")) ∧
  (let z := replicate 10000 x2a in
   inflate (St := unpacker) 1 z [] = Some (true, z_out (z_call (Unpacker []) z OUTPUT_BUF_SIZE))).
Proof.
  destruct (stream_roundtrip (SD := packer) (SI := unpacker) (Packer [] false) (Unpacker []) (lit "hello")
              1 1) as (_ & _ & H2 & H3); [| vm_compute; reflexivity.. |].
  { split; [done | done | done | by intros [] ? | exists (lit "hello"); by vm_compute]. }
  split.
  - destruct H2 as (z & _ & H); [by vm_compute | by vm_compute | by exists z].
  - destruct (H3 (replicate 10000 x2a)) as [H _]; [by vm_compute | done | done | by vm_compute | lia|].
    exact H.
Defined.
