(* ===== verification/Config.v ===== *)
(** * The configuration file: [config/parse_config.h/.cpp]

    The YAML library is a parameter: a loaded document is a node, and nodes can be indexed by
    a key, asked whether they are defined and converted; each of these can throw a
    [YAML::Exception]. The loader writes into the caller's structure as it goes, so an
    exception leaves what was written before it. *)
From S2P Require Import Prelude.

Record ClientConfig := mkClient { client_listen_ip : bytes; client_listen_port : Z }.
Record MonitorConfig := mkMonitor {
  monitor_listen_ip : bytes; monitor_listen_port : Z; monitor_token : bytes;
}.
Record HttpConfig := mkHttp { http_listen_ip : bytes; http_listen_port : Z }.
Record LogConfig := mkLogConfig { log_file_dir : bytes; log_file_name : bytes; log_binary_package : bool }.
Record MysqlConfig := mkMysql {
  mysql_server_addr : bytes; mysql_server_port : Z; user : bytes; password : bytes; database : bytes;
}.
Record WhispConfig := mkConfig {
  client_config : ClientConfig;
  monitor_config : MonitorConfig;
  http_config : HttpConfig;
  log_config : LogConfig;
  mysql_config : MysqlConfig;
}.

(** The members, for writing one of them. *)
Definition set_client (g : ClientConfig → ClientConfig) (c : WhispConfig) : WhispConfig :=
  mkConfig (g (client_config c)) (monitor_config c) (http_config c) (log_config c) (mysql_config c).
Definition set_monitor (g : MonitorConfig → MonitorConfig) (c : WhispConfig) : WhispConfig :=
  mkConfig (client_config c) (g (monitor_config c)) (http_config c) (log_config c) (mysql_config c).
Definition set_http (g : HttpConfig → HttpConfig) (c : WhispConfig) : WhispConfig :=
  mkConfig (client_config c) (monitor_config c) (g (http_config c)) (log_config c) (mysql_config c).
Definition set_log (g : LogConfig → LogConfig) (c : WhispConfig) : WhispConfig :=
  mkConfig (client_config c) (monitor_config c) (http_config c) (g (log_config c)) (mysql_config c).
Definition set_mysql (g : MysqlConfig → MysqlConfig) (c : WhispConfig) : WhispConfig :=
  mkConfig (client_config c) (monitor_config c) (http_config c) (log_config c) (g (mysql_config c)).

(** What can be thrown. *)
Inductive exn := YamlException | InvalidArgument | StdOutOfRange.

#[export] Instance exn_eq_dec : EqDecision exn.
Proof. solve_decision. Defined.

Class YamlLib := {
  Node : Type;
  LoadFile : bytes → option Node;          (* [None]: throws *)
  subscript : Node → bytes → option Node;  (* [operator[]] *)
  IsDefined : Node → bool;
  as_string : Node → option bytes;
  as_int : Node → option Z;
  as_bool : Node → option bool;
}.

(** [std::stoi]: white space, a sign, digits; whatever follows is ignored. *)
Definition is_space (c : byte) : bool :=
  (Z_of_byte c =? 32) || ((9 <=? Z_of_byte c) && (Z_of_byte c <=? 13)).
Fixpoint skip_space (s : bytes) : bytes :=
  match s with c :: s' => if is_space c then skip_space s' else s | [] => [] end.
Fixpoint digits (s : bytes) : bytes :=
  match s with c :: s' => if is_digit c then c :: digits s' else [] | [] => [] end.
Definition stoi (s : bytes) : Z + exn :=
  let s1 := skip_space s in
  let '(neg, s2) :=
    match s1 with
    | c :: s' => if bool_decide (c = "-"%byte) then (true, s')
                 else if bool_decide (c = "+"%byte) then (false, s') else (false, s1)
    | [] => (false, s1)
    end in
  match digits s2 with
  | [] => inr InvalidArgument
  | ds =>
      let v := if neg then - dec_value 0 ds else dec_value 0 ds in
      if (-2147483648 <=? v) && (v <=? 2147483647) then inl v else inr StdOutOfRange
  end.

Section load.
Context `{Y : YamlLib}.

(** State and exceptions. *)
Definition M (A : Type) : Type := WhispConfig → (A + exn) * WhispConfig.
#[local] Instance M_ret : MRet M := λ A a c, (inl a, c).
#[local] Instance M_bind : MBind M := λ A B k m c,
  match m c with (inl a, c1) => k a c1 | (inr e, c1) => (inr e, c1) end.

Definition yaml {A} (o : option A) : M A :=
  λ c, (match o with Some a => inl a | None => inr YamlException end, c).
Definition throws {A} (r : A + exn) : M A := λ c, (r, c).
Definition modify (g : WhispConfig → WhispConfig) : M unit := λ c, (inl (), g c).

(** [if (config[section][key].IsDefined()) whisp_config.member = convert(config[section][key]);] *)
Definition setting {V} (n : Node) (key : bytes) (convert : Node → M V)
    (set : V → WhispConfig → WhispConfig) : M unit :=
  v ← yaml (subscript n key);
  if IsDefined v then x ← convert v; modify (set x) else mret ().

Definition section (config : Node) (name : bytes) (body : Node → M unit) : M unit :=
  n ← yaml (subscript config name);
  if IsDefined n then body n else mret ().

Definition to_string (n : Node) : M bytes := yaml (as_string n).
Definition to_int (n : Node) : M Z := yaml (as_int n).
Definition to_bool (n : Node) : M bool := yaml (as_bool n).
Definition to_port (n : Node) : M Z := s ← yaml (as_string n); throws (stoi s).

(** The body of the [try] block. *)
Definition load_client (n : Node) : M unit :=
  _ ← setting n (lit "listen_ip") to_string (λ v, set_client (λ k, mkClient v (client_listen_port k)));
  setting n (lit "listen_port") to_int (λ v, set_client (λ k, mkClient (client_listen_ip k) v)).

Definition load_monitor (n : Node) : M unit :=
  _ ← setting n (lit "listen_ip") to_string
        (λ v, set_monitor (λ k, mkMonitor v (monitor_listen_port k) (monitor_token k)));
  _ ← setting n (lit "listen_port") to_int
        (λ v, set_monitor (λ k, mkMonitor (monitor_listen_ip k) v (monitor_token k)));
  setting n (lit "token") to_string
    (λ v, set_monitor (λ k, mkMonitor (monitor_listen_ip k) (monitor_listen_port k) v)).

Definition load_http (n : Node) : M unit :=
  _ ← setting n (lit "listen_ip") to_string (λ v, set_http (λ k, mkHttp v (http_listen_port k)));
  setting n (lit "listen_port") to_int (λ v, set_http (λ k, mkHttp (http_listen_ip k) v)).

Definition load_log (n : Node) : M unit :=
  _ ← setting n (lit "file_dir") to_string
        (λ v, set_log (λ k, mkLogConfig v (log_file_name k) (log_binary_package k)));
  _ ← setting n (lit "file_name") to_string
        (λ v, set_log (λ k, mkLogConfig (log_file_dir k) v (log_binary_package k)));
  setting n (lit "binary_package") to_bool
    (λ v, set_log (λ k, mkLogConfig (log_file_dir k) (log_file_name k) v)).

Definition load_mysql (n : Node) : M unit :=
  _ ← setting n (lit "server_ip") to_string
        (λ v, set_mysql (λ k, mkMysql v (mysql_server_port k) (user k) (password k) (database k)));
  _ ← setting n (lit "server_port") to_port
        (λ v, set_mysql (λ k, mkMysql (mysql_server_addr k) v (user k) (password k) (database k)));
  _ ← setting n (lit "user") to_string
        (λ v, set_mysql (λ k, mkMysql (mysql_server_addr k) (mysql_server_port k) v (password k) (database k)));
  _ ← setting n (lit "password") to_string
        (λ v, set_mysql (λ k, mkMysql (mysql_server_addr k) (mysql_server_port k) (user k) v (database k)));
  setting n (lit "database") to_string
    (λ v, set_mysql (λ k, mkMysql (mysql_server_addr k) (mysql_server_port k) (user k) (password k) v)).

Definition load_body (file_name : bytes) : M unit :=
  config ← yaml (LoadFile file_name);
  _ ← section config (lit "client") load_client;
  _ ← section config (lit "monitor") load_monitor;
  _ ← section config (lit "http") load_http;
  _ ← section config (lit "log") load_log;
  section config (lit "mysql") load_mysql.

(** A [YAML::Exception] is caught; others leave the function. *)
Definition whisp_load_config (file_name : bytes) (c : WhispConfig) : (bool + exn) * WhispConfig :=
  match load_body file_name c with
  | (inl _, c1) => (inl true, c1)
  | (inr YamlException, c1) => (inl false, c1)
  | (inr e, c1) => (inr e, c1)
  end.
End load.

(** ** Printing *)

(** The lines [whisp_print_config] writes to [std::cout]. *)
Definition print_lines (c : WhispConfig) : list bytes :=
  [lit "Client Config:";
   lit "  Listen IP: " ++ client_listen_ip (client_config c);
   lit "  Listen Port: " ++ dec (client_listen_port (client_config c));
   lit "Monitor Config:";
   lit "  Listen IP: " ++ monitor_listen_ip (monitor_config c);
   lit "  Listen Port: " ++ dec (monitor_listen_port (monitor_config c));
   lit "  Token: " ++ monitor_token (monitor_config c);
   lit "HTTP Config:";
   lit "  Listen IP: " ++ http_listen_ip (http_config c);
   lit "  Listen Port: " ++ dec (http_listen_port (http_config c));
   lit "Log Config:";
   lit "  File Directory: " ++ log_file_dir (log_config c);
   lit "  File Name: " ++ log_file_name (log_config c);
   lit "  Binary Package: " ++ (if log_binary_package (log_config c) then lit "true" else lit "false");
   lit "MySQL Config:";
   lit "  Server IP: " ++ mysql_server_addr (mysql_config c);
   lit "  Server Port: " ++ dec (mysql_server_port (mysql_config c));
   lit "  User: " ++ user (mysql_config c);
   lit "  Password: " ++ password (mysql_config c);
   lit "  Database: " ++ database (mysql_config c)].
Definition whisp_print_config (c : WhispConfig) : bytes := lines_text (print_lines c).

(** No text of the configuration holds a newline. *)
Definition one_line (c : WhispConfig) : Prop :=
  Forall (λ t, x0a ∉ t)
    [client_listen_ip (client_config c); monitor_listen_ip (monitor_config c); monitor_token (monitor_config c);
     http_listen_ip (http_config c); log_file_dir (log_config c); log_file_name (log_config c);
     mysql_server_addr (mysql_config c); user (mysql_config c); password (mysql_config c);
     database (mysql_config c)].

Lemma dec_one_line z : x0a ∉ dec z.
Proof. by intros [|]%dec_bytes. Qed.

Lemma print_one_line c : one_line c → Forall (λ l, x0a ∉ l) (print_lines c).
Proof.
  unfold one_line. rewrite !Forall_cons. intros Hc. destruct_and?.
  assert (Hlit : ∀ s, forallb (λ b, negb (bool_decide (b = x0a))) (lit s) = true → ∀ t, x0a ∉ t → x0a ∉ lit s ++ t).
  { intros s Hs t Ht [Hin|Hin]%elem_of_app; [|done]. rewrite forallb_forall in Hs.
    apply list_elem_of_In, Hs in Hin. by rewrite bool_decide_eq_true_2 in Hin. }
  unfold print_lines. repeat (apply Forall_cons; split);
    try (apply Hlit; [reflexivity | by auto using dec_one_line]);
    try (destruct (log_binary_package _)); try (apply (bool_decide_unpack _); reflexivity); constructor.
Qed.

(** What is printed determines the whole configuration. *)
Lemma print_config_determines c c' :
  one_line c → one_line c' → whisp_print_config c = whisp_print_config c' → c = c'.
Proof.
  intros H1%print_one_line H2%print_one_line E. apply (lines_text_inj _ _ H1 H2) in E. clear H1 H2.
  destruct c as [[] [] [] [] []], c' as [[] [] [] [] []].
  repeat match goal with b : bool |- _ => destruct b end; try discriminate E;
    injection E; intros; f_equal; f_equal; auto using dec_inj.
Qed.

(** ** The loader as a table

    The members in the order they are read, where each comes from and how it is converted. *)
Inductive field :=
| FClientIp | FClientPort | FMonitorIp | FMonitorPort | FMonitorToken | FHttpIp | FHttpPort
| FLogDir | FLogName | FLogBinary | FMysqlAddr | FMysqlPort | FMysqlUser | FMysqlPassword | FMysqlDatabase.

#[export] Instance field_eq_dec : EqDecision field.
Proof. solve_decision. Defined.

Definition fields : list field :=
  [FClientIp; FClientPort; FMonitorIp; FMonitorPort; FMonitorToken; FHttpIp; FHttpPort;
   FLogDir; FLogName; FLogBinary; FMysqlAddr; FMysqlPort; FMysqlUser; FMysqlPassword; FMysqlDatabase].

Inductive value := VText (s : bytes) | VInt (z : Z) | VBool (b : bool).

Definition path (f : field) : bytes * bytes :=
  match f with
  | FClientIp => (lit "client", lit "listen_ip") | FClientPort => (lit "client", lit "listen_port")
  | FMonitorIp => (lit "monitor", lit "listen_ip") | FMonitorPort => (lit "monitor", lit "listen_port")
  | FMonitorToken => (lit "monitor", lit "token")
  | FHttpIp => (lit "http", lit "listen_ip") | FHttpPort => (lit "http", lit "listen_port")
  | FLogDir => (lit "log", lit "file_dir") | FLogName => (lit "log", lit "file_name")
  | FLogBinary => (lit "log", lit "binary_package")
  | FMysqlAddr => (lit "mysql", lit "server_ip") | FMysqlPort => (lit "mysql", lit "server_port")
  | FMysqlUser => (lit "mysql", lit "user") | FMysqlPassword => (lit "mysql", lit "password")
  | FMysqlDatabase => (lit "mysql", lit "database")
  end.

Definition get (f : field) (c : WhispConfig) : value :=
  match f with
  | FClientIp => VText (client_listen_ip (client_config c))
  | FClientPort => VInt (client_listen_port (client_config c))
  | FMonitorIp => VText (monitor_listen_ip (monitor_config c))
  | FMonitorPort => VInt (monitor_listen_port (monitor_config c))
  | FMonitorToken => VText (monitor_token (monitor_config c))
  | FHttpIp => VText (http_listen_ip (http_config c))
  | FHttpPort => VInt (http_listen_port (http_config c))
  | FLogDir => VText (log_file_dir (log_config c))
  | FLogName => VText (log_file_name (log_config c))
  | FLogBinary => VBool (log_binary_package (log_config c))
  | FMysqlAddr => VText (mysql_server_addr (mysql_config c))
  | FMysqlPort => VInt (mysql_server_port (mysql_config c))
  | FMysqlUser => VText (user (mysql_config c))
  | FMysqlPassword => VText (password (mysql_config c))
  | FMysqlDatabase => VText (database (mysql_config c))
  end.

(** Writing a member; a value of another type is not written. *)
Definition put (f : field) (v : value) : WhispConfig → WhispConfig :=
  match f, v with
  | FClientIp, VText t => set_client (λ k, mkClient t (client_listen_port k))
  | FClientPort, VInt z => set_client (λ k, mkClient (client_listen_ip k) z)
  | FMonitorIp, VText t => set_monitor (λ k, mkMonitor t (monitor_listen_port k) (monitor_token k))
  | FMonitorPort, VInt z => set_monitor (λ k, mkMonitor (monitor_listen_ip k) z (monitor_token k))
  | FMonitorToken, VText t => set_monitor (λ k, mkMonitor (monitor_listen_ip k) (monitor_listen_port k) t)
  | FHttpIp, VText t => set_http (λ k, mkHttp t (http_listen_port k))
  | FHttpPort, VInt z => set_http (λ k, mkHttp (http_listen_ip k) z)
  | FLogDir, VText t => set_log (λ k, mkLogConfig t (log_file_name k) (log_binary_package k))
  | FLogName, VText t => set_log (λ k, mkLogConfig (log_file_dir k) t (log_binary_package k))
  | FLogBinary, VBool b => set_log (λ k, mkLogConfig (log_file_dir k) (log_file_name k) b)
  | FMysqlAddr, VText t => set_mysql (λ k, mkMysql t (mysql_server_port k) (user k) (password k) (database k))
  | FMysqlPort, VInt z => set_mysql (λ k, mkMysql (mysql_server_addr k) z (user k) (password k) (database k))
  | FMysqlUser, VText t =>
      set_mysql (λ k, mkMysql (mysql_server_addr k) (mysql_server_port k) t (password k) (database k))
  | FMysqlPassword, VText t =>
      set_mysql (λ k, mkMysql (mysql_server_addr k) (mysql_server_port k) (user k) t (database k))
  | FMysqlDatabase, VText t =>
      set_mysql (λ k, mkMysql (mysql_server_addr k) (mysql_server_port k) (user k) (password k) t)
  | _, _ => id
  end.

Lemma get_put_ne f g v c : g ≠ f → get g (put f v c) = get g c.
Proof. destruct c, f, v; try done; destruct g; done. Qed.

Section table.
Context `{Y : YamlLib}.

Definition value_of {A} (k : A → value) (o : option A) : value + exn :=
  match o with Some a => inl (k a) | None => inr YamlException end.

Definition converted (f : field) (n : Node) : value + exn :=
  match f with
  | FClientPort | FMonitorPort | FHttpPort => value_of VInt (as_int n)
  | FLogBinary => value_of VBool (as_bool n)
  | FMysqlPort =>
      match as_string n with
      | Some s => match stoi s with inl z => inl (VInt z) | inr e => inr e end
      | None => inr YamlException
      end
  | _ => value_of VText (as_string n)
  end.

(** What the document says of a member: nothing, a value, or an exception on the way. *)
Definition says (config : Node) (f : field) : option value + exn :=
  match subscript config (path f).1 with
  | None => inr YamlException
  | Some n =>
      if IsDefined n then
        match subscript n (path f).2 with
        | None => inr YamlException
        | Some v =>
            if IsDefined v
            then match converted f v with inl x => inl (Some x) | inr e => inr e end
            else inl None
        end
      else inl None
  end.

(** The reference: row by row, up to the first exception. *)
Fixpoint read_fields (config : Node) (fs : list field) (c : WhispConfig) : option exn * WhispConfig :=
  match fs with
  | [] => (None, c)
  | f :: fs' =>
      match says config f with
      | inr e => (Some e, c)
      | inl None => read_fields config fs' c
      | inl (Some v) => read_fields config fs' (put f v c)
      end
  end.

Lemma get_put config f v c : says config f = inl (Some v) → get f (put f v c) = v.
Proof.
  unfold says, converted, value_of. intros H. repeat case_match; simplify_eq; destruct c; done.
Qed.

(** The result of a part of the loader as that of the table. *)
Definition agrees (r : (unit + exn) * WhispConfig) (t : option exn * WhispConfig) : Prop :=
  r.1 = match t.1 with None => inl () | Some e => inr e end ∧ r.2 = t.2.

Lemma read_fields_app config fs1 fs2 c :
  read_fields config (fs1 ++ fs2) c =
  match read_fields config fs1 c with (None, c1) => read_fields config fs2 c1 | r => r end.
Proof.
  revert c. induction fs1 as [|f fs1 IH]; intros c; [done|]. cbn [app read_fields].
  by destruct (says config f) as [[v|]|e].
Qed.

Lemma agrees_bind (m1 m2 : M unit) config fs1 fs2 c :
  agrees (m1 c) (read_fields config fs1 c) →
  (∀ c1, agrees (m2 c1) (read_fields config fs2 c1)) →
  agrees (M_bind _ _ (λ _, m2) m1 c) (read_fields config (fs1 ++ fs2) c).
Proof.
  intros [H1 H2] H. rewrite read_fields_app. unfold M_bind.
  destruct (m1 c) as [r1 c1], (read_fields config fs1 c) as [[e|] c2]; simpl in *; subst; [done|]. apply H.
Qed.

(** A line of the loader is a row of the table. *)
Ltac row :=
  intros ?; cbn [read_fields];
  unfold setting, agrees, says, converted, value_of, to_string, to_int, to_bool, to_port, yaml, throws,
    modify, mbind, M_bind, mret, M_ret; cbn [path fst snd];
  match goal with H : subscript _ _ = Some _, D : IsDefined _ = true |- _ => rewrite H, D end;
  match goal with
  | |- context [subscript ?n ?k] =>
      let v := fresh "v" in destruct (subscript n k) as [v|]; [|done]; destruct (IsDefined v); [|done]
  end;
  match goal with
  | |- context [as_string ?n] =>
      let t := fresh "t" in destruct (as_string n) as [t|]; [|done]; try (destruct (stoi t)); done
  | |- context [as_int ?n] => destruct (as_int n); done
  | |- context [as_bool ?n] => destruct (as_bool n); done
  end.

Lemma load_client_row config n : subscript config (lit "client") = Some n → IsDefined n = true →
  ∀ c, agrees (load_client n c) (read_fields config [FClientIp; FClientPort] c).
Proof.
  intros H D c. apply (agrees_bind _ _ config [FClientIp]); [revert c; row | row].
Qed.

Lemma load_monitor_row config n : subscript config (lit "monitor") = Some n → IsDefined n = true →
  ∀ c, agrees (load_monitor n c) (read_fields config [FMonitorIp; FMonitorPort; FMonitorToken] c).
Proof.
  intros H D c. apply (agrees_bind _ _ config [FMonitorIp]); [revert c; row|]. clear c. intros c.
  apply (agrees_bind _ _ config [FMonitorPort]); [revert c; row | row].
Qed.

Lemma load_http_row config n : subscript config (lit "http") = Some n → IsDefined n = true →
  ∀ c, agrees (load_http n c) (read_fields config [FHttpIp; FHttpPort] c).
Proof. intros H D c. apply (agrees_bind _ _ config [FHttpIp]); [revert c; row | row]. Qed.

Lemma load_log_row config n : subscript config (lit "log") = Some n → IsDefined n = true →
  ∀ c, agrees (load_log n c) (read_fields config [FLogDir; FLogName; FLogBinary] c).
Proof.
  intros H D c. apply (agrees_bind _ _ config [FLogDir]); [revert c; row|]. clear c. intros c.
  apply (agrees_bind _ _ config [FLogName]); [revert c; row | row].
Qed.

Lemma load_mysql_row config n : subscript config (lit "mysql") = Some n → IsDefined n = true →
  ∀ c, agrees (load_mysql n c)
    (read_fields config [FMysqlAddr; FMysqlPort; FMysqlUser; FMysqlPassword; FMysqlDatabase] c).
Proof.
  intros H D c. apply (agrees_bind _ _ config [FMysqlAddr]); [revert c; row|]. clear c. intros c.
  apply (agrees_bind _ _ config [FMysqlPort]); [revert c; row|]. clear c. intros c.
  apply (agrees_bind _ _ config [FMysqlUser]); [revert c; row|]. clear c. intros c.
  apply (agrees_bind _ _ config [FMysqlPassword]); [revert c; row | row].
Qed.

(** A section that is not there defines none of its members. *)
Lemma section_rows config name body fs :
  fs ≠ [] → Forall (λ f, (path f).1 = name) fs →
  (∀ n, subscript config name = Some n → IsDefined n = true → ∀ c, agrees (body n c) (read_fields config fs c)) →
  ∀ c, agrees (section config name body c) (read_fields config fs c).
Proof.
  intros Hne Hfs Hbody c. unfold section, yaml, mbind, M_bind.
  destruct (subscript config name) as [n|] eqn:E.
  - destruct (IsDefined n) eqn:D; [by apply Hbody|]. clear Hne.
    assert (H : read_fields config fs c = (None, c)); [|by rewrite H].
    induction Hfs as [|f fs Hf Hfs IH]; [done|]. cbn [read_fields]. unfold says. rewrite Hf, E, D.
    apply IH. intros n' E' D'. congruence.
  - destruct Hfs as [|f fs Hf Hfs]; [done|]. cbn [read_fields]. unfold says. by rewrite Hf, E.
Qed.

Lemma load_body_rows file_name config c :
  LoadFile file_name = Some config → agrees (load_body file_name c) (read_fields config fields c).
Proof.
  intros E. unfold load_body, yaml, mbind at 1, M_bind at 1. rewrite E.
  apply (agrees_bind _ _ config [FClientIp; FClientPort]).
  { apply section_rows; [done | by repeat constructor | apply load_client_row]. }
  intros c1. apply (agrees_bind _ _ config [FMonitorIp; FMonitorPort; FMonitorToken]).
  { apply section_rows; [done | by repeat constructor | apply load_monitor_row]. }
  intros c2. apply (agrees_bind _ _ config [FHttpIp; FHttpPort]).
  { apply section_rows; [done | by repeat constructor | apply load_http_row]. }
  intros c3. apply (agrees_bind _ _ config [FLogDir; FLogName; FLogBinary]).
  { apply section_rows; [done | by repeat constructor | apply load_log_row]. }
  apply section_rows; [done | by repeat constructor | apply load_mysql_row].
Qed.

(** What the rows leave in the members. *)
Lemma read_fields_spec config fs c r c' :
  NoDup fs → read_fields config fs c = (r, c') →
  ∃ done rest, fs = done ++ rest ∧
    (∀ f, f ∈ done → ∃ o, says config f = inl o ∧ get f c' = default (get f c) o) ∧
    (∀ f, f ∉ done → get f c' = get f c) ∧
    match r with
    | None => rest = []
    | Some e => ∃ f rest', rest = f :: rest' ∧ says config f = inr e
    end.
Proof.
  intros Hnd. revert c. induction Hnd as [|f fs Hf Hnd IH]; intros c E; cbn [read_fields] in E.
  - injection E as <- <-. exists [], []. split; [done|]. split; [set_solver|]. done.
  - destruct (says config f) as [o|e] eqn:Es.
    + set (c1 := match o with Some v => put f v c | None => c end).
      assert (E1 : read_fields config fs c1 = (r, c')) by (by destruct o).
      destruct (IH c1 E1) as (done & rest & -> & Hd & Ho & Hr).
      assert (Hne : ∀ g, g ≠ f → get g c1 = get g c).
      { intros g Hg. unfold c1. destruct o; [by apply get_put_ne | done]. }
      exists (f :: done), rest. split; [done|]. split; [|split; [|done]].
      * intros g [->|Hg]%elem_of_cons.
        -- exists o. split; [done|]. rewrite Ho by set_solver. unfold c1. destruct o; [|done].
           by eapply get_put.
        -- destruct (Hd g Hg) as (o' & Hs & ->). exists o'. split; [done|]. rewrite Hne; [done|]. set_solver.
      * intros g [Hgf Hg]%not_elem_of_cons. by rewrite Ho, Hne.
    + injection E as <- <-. exists [], (f :: fs). split; [done|]. split; [set_solver|].
      split; [done|]. by exists f, fs.
Qed.
End table.

Lemma fields_NoDup : NoDup fields.
Proof. apply (bool_decide_unpack _). by vm_compute. Qed.

Lemma load_result `{Y : YamlLib} file_name config c :
  LoadFile file_name = Some config →
  whisp_load_config file_name c =
  (match (read_fields config fields c).1 with
   | None => inl true
   | Some YamlException => inl false
   | Some e => inr e
   end, (read_fields config fields c).2).
Proof.
  intros E. destruct (load_body_rows file_name config c E) as [H1 H2]. unfold whisp_load_config.
  destruct (load_body file_name c) as [r1 c1]. cbn [fst snd] in H1, H2. rewrite H1, H2.
  by destruct ((read_fields config fields c).1) as [[]|].
Qed.

Lemma says_other `{Y : YamlLib} config f e :
  says config f = inr e → e ≠ YamlException → f = FMysqlPort.
Proof. unfold says, converted, value_of. intros Hs He. repeat case_match; congruence. Qed.

(** Loading the configuration: the fifteen members are read in their order; each that was
    reached holds what the file says, or what it held before when the file does not define
    it, and the others are untouched. The function returns true exactly when all were
    reached; at the first exception of the YAML library it returns false, leaving the
    members before it changed. The one conversion by [std::stoi], of the database port, can
    throw past the handler: nothing else can. *)
Theorem load_config_spec `{Y : YamlLib} (file_name : bytes) (c c' : WhispConfig) (r : bool + exn) :
  whisp_load_config file_name c = (r, c') →
  match LoadFile file_name with
  | None => r = inl false ∧ c' = c
  | Some config =>
      ∃ reached rest, fields = reached ++ rest ∧
        (∀ f, f ∈ reached → ∃ o, says config f = inl o ∧ get f c' = default (get f c) o) ∧
        (∀ f, f ∉ reached → get f c' = get f c) ∧
        (r = inl true ↔ rest = []) ∧
        (r = inl false ↔ ∃ f, head rest = Some f ∧ says config f = inr YamlException) ∧
        (∀ e, r = inr e → head rest = Some FMysqlPort ∧ says config FMysqlPort = inr e)
  end.
Proof.
  intros Hr. destruct (LoadFile file_name) as [config|] eqn:E.
  - rewrite (load_result file_name config c E) in Hr.
    destruct (read_fields config fields c) as [t c2] eqn:Et. cbn [fst snd] in Hr.
    destruct (read_fields_spec config fields c t c2 fields_NoDup Et) as (reached & rest & Hf & Hd & Ho & Ht).
    injection Hr as Hr <-. exists reached, rest. split; [exact Hf|]. split; [exact Hd|]. split; [exact Ho|].
    destruct t as [e|].
    + destruct Ht as (f & rest' & -> & Hs). cbn [head].
      destruct (decide (e = YamlException)) as [->|He].
      * subst r. split; [done|]. split; [|done]. split; [|done]. intros _. by exists f.
      * assert (f = FMysqlPort) as -> by by eapply says_other.
        assert (r = inr e) as -> by (clear - Hr He; by destruct e).
        split; [done|]. split; [|intros e' [= <-]; split; [reflexivity | exact Hs]]. split; [done|].
        intros (f' & [= <-] & H'). congruence.
    + subst r rest. split; [done|]. split; [|done]. split; [done|]. by intros (? & ? & _).
  - revert Hr. unfold whisp_load_config, load_body, yaml, mbind, M_bind. rewrite E. by intros [= <- <-].
Qed.

(** ** An example: documents with two levels of keys *)
Module TwoLevels.
Definition doc : Type := list (bytes * list (bytes * bytes)).
Inductive node := NDoc (d : doc) | NSection (s : option (list (bytes * bytes))) | NScalar (t : option bytes).

Fixpoint assoc {A} (k : bytes) (l : list (bytes * A)) : option A :=
  match l with [] => None | (k', a) :: l' => if bool_decide (k = k') then Some a else assoc k l' end.

Definition yaml_lib (file : doc) : YamlLib := {|
  Node := node;
  LoadFile _ := Some (NDoc file);
  subscript n k :=
    match n with
    | NDoc d => Some (NSection (assoc k d))
    | NSection (Some s) => Some (NScalar (assoc k s))
    | _ => None
    end;
  IsDefined n := match n with NDoc _ => true | NSection o => bool_decide (is_Some o) | NScalar o => bool_decide (is_Some o) end;
  as_string n := match n with NScalar o => o | _ => None end;
  as_int n := match n with NScalar (Some t) => match stoi t with inl z => Some z | inr _ => None end | _ => None end;
  as_bool n :=
    match n with
    | NScalar (Some t) =>
        if bool_decide (t = lit "true") then Some true else if bool_decide (t = lit "false") then Some false else None
    | _ => None
    end;
|}.

Definition empty : WhispConfig :=
  mkConfig (mkClient [] 0) (mkMonitor [] 0 []) (mkHttp [] 0) (mkLogConfig [] [] false) (mkMysql [] 0 [] [] []).

(** A port that is not a number. *)
Definition bad_port : doc :=
  [(lit "http", [(lit "listen_port", lit "12345")]);
   (lit "mysql", [(lit "server_ip", lit "127.0.0.1"); (lit "server_port", lit "none"); (lit "user", lit "root")])].
End TwoLevels.

Lemma load_config_spec_witness :
  let Y := TwoLevels.yaml_lib TwoLevels.bad_port in
  ∃ c', @whisp_load_config Y (lit "server_config.yml") TwoLevels.empty = (inr InvalidArgument, c') ∧
    get FHttpPort c' = VInt 12345 ∧ get FMysqlUser c' = VText [].
Proof.
  intros Y. exists (@whisp_load_config Y (lit "server_config.yml") TwoLevels.empty).2.
  assert (E : @whisp_load_config Y (lit "server_config.yml") TwoLevels.empty =
    (inr InvalidArgument, (@whisp_load_config Y (lit "server_config.yml") TwoLevels.empty).2))
    by (vm_compute; reflexivity).
  split; [exact E|].
  destruct (load_config_spec _ _ _ _ E) as (reached & rest & _ & _ & _ & _ & _ & H).
  destruct (H InvalidArgument eq_refl) as [_ _]. split; vm_compute; reflexivity.
Defined.
