(* ===== verification/Startup.v ===== *)
(** * Start-up: [main.cpp], [util/daemon_run.cpp], [database/whisp_sqlconn_factory.h]

    [main] is followed from the installation of the signal handlers to its return, over the
    system calls, the loaded configuration, the logger's thread and the connection pool. What
    it prints on the console is left out. A process that ends while the logger's [std::thread]
    is joinable ends in [std::terminate], because the logger is a static object. *)
From S2P Require Import Prelude InetAddress Logger Posix Sockets ConnPool Config.

(** ** [WhispConcreteDbConnFactory]; [connect] has an empty body *)
Record Factory := mkFactory {
  f_host : bytes; f_port : Z; f_user : bytes; f_password : bytes; f_database : bytes; f_pool_size : nat;
}.

(** [conns]: the addresses of the new connections and whether each can be opened. *)
Definition create_mysqlconn_pool (conns : list (Z * bool)) (f : Factory) : MysqlConnPool :=
  MysqlConnPool_ctor (f_host f) (f_user f) (f_password f) (f_database f) (take (f_pool_size f) conns).
Definition connect (f : Factory) : Factory := f.

(** ** [parse_arguments]: [getopt(argc, argv, "d")] up to an argument "--" *)
Fixpoint daemon_flag (args : list bytes) : bool :=
  match args with
  | [] => false
  | a :: args' =>
      if bool_decide (a = lit "--") then false else
      match a with
      | "-"%byte :: opts => bool_decide ("d"%byte ∈ opts) || daemon_flag args'
      | _ => daemon_flag args'
      end
  end.

Definition SIGINT : Z := 2.
Definition SIGPIPE : Z := 13.
Definition SIGTERM : Z := 15.
Definition SIGCHLD : Z := 17.

(** How a process ends: [exit] destroys the static logger. [logging]: its thread was started
    and not joined. *)
Definition exit_process (logging : bool) (code : Z) : outcome Z :=
  if logging then Stop Terminated else Ok code.

Section startup.
Context (os : list event → syscall → answer).
#[local] Notation call := (call os).

(** [Some code]: the process calls [exit(code)]. *)
Definition daemon_run : io (option Z) :=
  _ ← call (Signal SIGCHLD (lit "SIG_IGN"));
  pid ← call Fork;
  if ret pid <? 0 then mret (Some (-1)) else
  if 0 <? ret pid then mret (Some 0) else
  _ ← call Setsid;
  fd ← call (Open dev_null O_RDWR);
  _ ← (if ret fd =? -1 then mret () else
       _ ← call (Dup2 (ret fd) 0); _ ← call (Dup2 (ret fd) 1); _ ← call (Dup2 (ret fd) 2); mret ());
  _ ← (if 2 <? ret fd then _ ← call (Close (ret fd)); mret () else mret ());
  mret None.

Definition parse_arguments (args : list bytes) : io (option Z) :=
  if daemon_flag args then daemon_run else mret None.

(** The handler of SIGINT and SIGTERM. *)
Definition prog_exit (logging : bool) : outcome Z := exit_process logging 0.

Definition default_dir : bytes := lit "/var/log/whisplog".
Definition default_name : bytes := lit "default_log".
Definition log_dir (c : WhispConfig) : bytes :=
  if (Zlen (log_file_dir (log_config c)) =? 0) then default_dir else log_file_dir (log_config c).
Definition log_path (c : WhispConfig) : bytes :=
  log_dir c ++ (if (Zlen (log_file_name (log_config c)) =? 0) then default_name else log_file_name (log_config c)).

(** [LOAD_CONFIG_VALUE], for the four texts in their order: the first empty one ends [main]. *)
Fixpoint load_config_values (vs : list bytes) : io bool :=
  match vs with
  | [] => mret true
  | v :: vs' => if bool_decide (v = []) then _ ← log LOG_LEVEL_ERROR; mret false else load_config_values vs'
  end.

Definition mysql_values (c : WhispConfig) : list bytes :=
  let m := mysql_config c in [mysql_server_addr m; user m; password m; database m].

Definition dir_mode : Z := 509.

(** From the configuration on. *)
Definition main_configured (c : WhispConfig) (conns : list (Z * bool)) : io (outcome Z) :=
  dp ← call (Opendir (log_dir c));
  mk ← (if ret dp =? 0 then a ← call (Mkdir (log_dir c) dir_mode); mret (ret a) else mret 0);
  if negb (mk =? 0) then mret (exit_process false 1) else
  _ ← call (Closedir (ret dp));
  (* log_init starts the thread *)
  _ ← log LOG_LEVEL_INFO;
  ok ← load_config_values (mysql_values c);
  if negb ok then mret (exit_process true 1) else
  _ ← log LOG_LEVEL_INFO;
  let m := mysql_config c in
  let factory := mkFactory (mysql_server_addr m) (mysql_server_port m) (user m) (password m) (database m) 5 in
  let pool := create_mysqlconn_pool conns factory in
  let factory := connect factory in
  (* log_uninit joins the thread; then the locals of main are destroyed *)
  mret (_ ← MysqlConnPool_dtor pool; exit_process false 0).

Definition main (args : list bytes) (load : WhispConfig → (bool + exn) * WhispConfig) (c0 : WhispConfig)
    (conns : list (Z * bool)) : io (outcome Z) :=
  _ ← call (Signal SIGCHLD (lit "SIG_DFL"));
  _ ← call (Signal SIGPIPE (lit "SIG_IGN"));
  _ ← call (Signal SIGINT (lit "prog_exit"));
  _ ← call (Signal SIGTERM (lit "prog_exit"));
  e ← parse_arguments args;
  match e with
  | Some code => mret (exit_process false code)
  | None =>
      match load c0 with
      | (inr _, _) => mret (Stop Terminated)
      | (inl _, c) => main_configured c conns
      end
  end.
End startup.

(** ** What start-up comes to *)
Definition signal_calls : list syscall :=
  [Signal SIGCHLD (lit "SIG_DFL"); Signal SIGPIPE (lit "SIG_IGN"); Signal SIGINT (lit "prog_exit");
   Signal SIGTERM (lit "prog_exit")].

(** What a history asked the system, with the answers, and that they are the system's. *)
Definition exchanges (d : list event) : list (syscall * answer) :=
  omap (λ e, match e with ECall c a => Some (c, a) | ELog _ => None end) d.
Fixpoint answered_by (os : list event → syscall → answer) (tr d : list event) : Prop :=
  match d with
  | [] => True
  | e :: d' => match e with ECall c a => a = os tr c | ELog _ => True end ∧ answered_by os (tr ++ [e]) d'
  end.

(** The end of a process that has a log directory. *)
Definition finished (c : WhispConfig) : outcome Z :=
  if existsb (λ v, bool_decide (v = [])) (mysql_values c) then Stop Terminated else Ok 0.

(** The log directory: it can be opened, or it can be created, or neither. *)
Inductive setup_outcome (c : WhispConfig) : list (syscall * answer) → outcome Z → Prop :=
| dir_there dp x : ret dp ≠ 0 →
    setup_outcome c [(Opendir (log_dir c), dp); (Closedir (ret dp), x)] (finished c)
| dir_created dp mk x : ret dp = 0 → ret mk = 0 →
    setup_outcome c [(Opendir (log_dir c), dp); (Mkdir (log_dir c) dir_mode, mk); (Closedir 0, x)] (finished c)
| dir_refused dp mk : ret dp = 0 → ret mk ≠ 0 →
    setup_outcome c [(Opendir (log_dir c), dp); (Mkdir (log_dir c) dir_mode, mk)] (Ok 1).

(** The option to run as a daemon; [Some code]: this process exits here. *)
Inductive daemon_outcome : bool → list (syscall * answer) → option Z → Prop :=
| no_daemon : daemon_outcome false [] None
| not_forked s f : ret f < 0 →
    daemon_outcome true [(Signal SIGCHLD (lit "SIG_IGN"), s); (Fork, f)] (Some (-1))
| forked_parent s f : 0 < ret f →
    daemon_outcome true [(Signal SIGCHLD (lit "SIG_IGN"), s); (Fork, f)] (Some 0)
| forked_child s f g o ds cl : ret f = 0 →
    ds.*1 = (if ret o =? -1 then [] else [Dup2 (ret o) 0; Dup2 (ret o) 1; Dup2 (ret o) 2]) →
    cl.*1 = (if 2 <? ret o then [Close (ret o)] else []) →
    daemon_outcome true
      ([(Signal SIGCHLD (lit "SIG_IGN"), s); (Fork, f); (Setsid, g); (Open dev_null O_RDWR, o)] ++ ds ++ cl) None.

Section outcomes.
Context (os : list event → syscall → answer).

(** The pool of a process that ends: every session it could open is closed. *)
Lemma sessions_ctor conns p :
  sessions (fold_left add_conn conns p) = sessions p ∪ list_to_set (opened conns).
Proof.
  revert p. induction conns as [|[a ok] conns IH]; intros p; cbn [fold_left].
  - unfold opened. simpl. set_solver.
  - rewrite IH. unfold add_conn, conn_connect, opened. cbn [fst snd List.filter].
    destruct ok; cbn [sessions set_queue set_sessions fmap list_fmap fst list_to_set]; set_solver.
Qed.

Lemma disconnect_all_some q p :
  ∃ p', disconnect_all (Some <$> q) p = Ok p' ∧ sessions p' = sessions p ∖ list_to_set q.
Proof.
  revert p. induction q as [|a q IH]; intros p; cbn.
  - eexists. split; [done|]. simpl. set_solver.
  - destruct (IH (conn_disconnect a p)) as (p' & E & H). exists p'. split; [done|]. rewrite H. simpl. set_solver.
Qed.

Lemma pool_destroyed conns f :
  ∃ p', MysqlConnPool_dtor (create_mysqlconn_pool conns f) = Ok p' ∧ sessions p' = ∅.
Proof.
  unfold MysqlConnPool_dtor, create_mysqlconn_pool, MysqlConnPool_ctor.
  set (cs := take (f_pool_size f) conns). set (p0 := mkConnPool [] _ _ _ _ _ _ _).
  destruct (add_conns cs p0) as [-> _]. cbn [conn_queue_ p0 app].
  destruct (disconnect_all_some (opened cs) (fold_left add_conn cs p0)) as (p' & E & H).
  exists p'. split; [exact E|]. rewrite H, sessions_ctor. cbn [sessions p0]. set_solver.
Qed.

(** [m] does [d], with the system's answers. *)
Definition runs {A} (m : io A) (tr : list event) (x : A) (d : list event) : Prop :=
  does m tr x d ∧ answered_by os tr d.

Lemma answered_app tr d1 d2 :
  answered_by os tr d1 → answered_by os (tr ++ d1) d2 → answered_by os tr (d1 ++ d2).
Proof.
  revert tr. induction d1 as [|e d1 IH]; intros tr; cbn [answered_by app]; [by rewrite app_nil_r|].
  intros [He H1] H2. split; [done|]. apply IH; [done|]. by rewrite <- app_assoc.
Qed.

Lemma exchanges_app d1 d2 : exchanges (d1 ++ d2) = exchanges d1 ++ exchanges d2.
Proof. apply omap_app. Qed.

Lemma runs_ret {A} (x : A) tr : runs (mret x) tr x [].
Proof. split; [apply does_ret | done]. Qed.
Lemma runs_log l tr : runs (log l) tr () [ELog l].
Proof. done. Qed.
Lemma runs_call c tr : runs (call os c) tr (os tr c) [ECall c (os tr c)].
Proof. split; [by apply does_call | done]. Qed.
Lemma runs_bind {A B} (m : io A) (k : A → io B) tr x y d1 d2 :
  runs m tr x d1 → runs (k x) (tr ++ d1) y d2 → runs (m ≫= k) tr y (d1 ++ d2).
Proof. intros [H1 A1] [H2 A2]. split; [by eapply does_bind | by apply answered_app]. Qed.

(** A call, and what comes behind it. *)
Lemma runs_step {A} c (k : answer → io A) tr y d :
  runs (k (os tr c)) (tr ++ [ECall c (os tr c)]) y d →
  runs (call os c ≫= k) tr y (ECall c (os tr c) :: d).
Proof. intros H. exact (runs_bind _ _ _ _ _ [_] _ (runs_call c tr) H). Qed.

(** [m], started after any history, answers [r] and does something with exchanges [Q]. *)
Definition spec {A} (m : io A) (Q : list (syscall * answer) → A → Prop) : Prop :=
  ∀ tr, ∃ r d, runs m tr r d ∧ Q (exchanges d) r.

Lemma spec_ret {A} (x : A) (Q : list (syscall * answer) → A → Prop) : Q [] x → spec (mret x) Q.
Proof. intros HQ tr. exists x, []. split; [apply runs_ret | done]. Qed.

Lemma spec_call {A} c (k : answer → io A) (Q : list (syscall * answer) → A → Prop) :
  (∀ a, spec (k a) (λ x, Q ((c, a) :: x))) → spec (call os c ≫= k) Q.
Proof.
  intros H tr. destruct (H (os tr c) (tr ++ [ECall c (os tr c)])) as (r & d & Hr & HQ).
  exists r, (ECall c (os tr c) :: d). split; [by apply runs_step | exact HQ].
Qed.

Lemma spec_log {A} l (k : () → io A) Q : spec (k ()) Q → spec (log l ≫= k) Q.
Proof.
  intros H tr. destruct (H (tr ++ [ELog l])) as (r & d & Hr & HQ).
  exists r, (ELog l :: d). split; [exact (runs_bind _ _ _ _ _ [_] _ (runs_log l tr) Hr) | exact HQ].
Qed.

Lemma spec_bind {A B} (m : io A) (k : A → io B) (P : list (syscall * answer) → A → Prop) Q :
  spec m P → (∀ x a, P x a → spec (k a) (λ y, Q (x ++ y))) → spec (m ≫= k) Q.
Proof.
  intros Hm Hk tr. destruct (Hm tr) as (a & d1 & H1 & HP).
  destruct (Hk _ _ HP (tr ++ d1)) as (r & d2 & H2 & HQ).
  exists r, (d1 ++ d2). split; [by eapply runs_bind | by rewrite exchanges_app].
Qed.

Lemma load_values_spec vs :
  spec (load_config_values vs) (λ x b, x = [] ∧ b = negb (existsb (λ v, bool_decide (v = [])) vs)).
Proof.
  induction vs as [|v vs IH]; cbn [load_config_values existsb]; [by apply spec_ret|].
  case_bool_decide; cbn [orb negb]; [|apply IH]. by apply spec_log, spec_ret.
Qed.

(** Behind the log directory. *)
Lemma configured_spec c conns dp (Q : list (syscall * answer) → outcome Z → Prop) :
  (∀ x, Q [(Closedir dp, x)] (finished c)) →
  spec (_ ← call os (Closedir dp); _ ← log LOG_LEVEL_INFO; ok ← load_config_values (mysql_values c);
        if negb ok then mret (exit_process true 1) else
        _ ← log LOG_LEVEL_INFO;
        let m := mysql_config c in
        let factory := mkFactory (mysql_server_addr m) (mysql_server_port m) (user m) (password m) (database m) 5 in
        let pool := create_mysqlconn_pool conns factory in
        let factory := connect factory in
        mret (_ ← MysqlConnPool_dtor pool; exit_process false 0)) Q.
Proof.
  intros HQ. apply spec_call. intros a. apply spec_log. eapply spec_bind; [apply load_values_spec|].
  intros x b [-> ->]. cbn [app]. specialize (HQ a). unfold finished in HQ.
  destruct (existsb _ (mysql_values c)); cbn [negb]; [by apply spec_ret|]. apply spec_log. cbv zeta.
  match goal with |- context [create_mysqlconn_pool conns ?f] =>
    destruct (pool_destroyed conns f) as (p' & -> & _) end.
  by apply spec_ret.
Qed.

Lemma main_configured_spec c conns : spec (main_configured os c conns) (setup_outcome c).
Proof.
  unfold main_configured. apply spec_call. intros dp. destruct (Z.eqb_spec (ret dp) 0) as [Hdp|Hdp].
  - eapply (spec_bind _ _ (λ x b, ∃ a, x = [(Mkdir (log_dir c) dir_mode, a)] ∧ b = ret a)).
    + apply spec_call. intros a. apply spec_ret. by exists a.
    + intros x b (mk & -> & ->). destruct (Z.eqb_spec (ret mk) 0) as [Hmk|Hmk]; cbn [negb].
      * apply configured_spec. intros x. rewrite Hdp. by apply dir_created.
      * apply spec_ret. by apply dir_refused.
  - eapply (spec_bind _ _ (λ x b, x = [] ∧ b = 0)); [by apply spec_ret|].
    intros x b [-> ->]. cbn [Z.eqb negb app]. apply configured_spec. intros x. by apply dir_there.
Qed.

Lemma parse_arguments_spec args :
  spec (parse_arguments os args) (λ x e, daemon_outcome (daemon_flag args) x e).
Proof.
  unfold parse_arguments. destruct (daemon_flag args); [|apply spec_ret; constructor].
  unfold daemon_run. apply spec_call. intros s. apply spec_call. intros f.
  destruct (Z.ltb_spec (ret f) 0) as [H1|H1]; [by apply spec_ret, not_forked|].
  destruct (Z.ltb_spec 0 (ret f)) as [H2|H2]; [by apply spec_ret, forked_parent|].
  apply spec_call. intros g. apply spec_call. intros o.
  eapply (spec_bind _ _ (λ ds _, ds.*1 = if ret o =? -1 then []
                                         else [Dup2 (ret o) 0; Dup2 (ret o) 1; Dup2 (ret o) 2])).
  { destruct (ret o =? -1); [by apply spec_ret|]. do 3 (apply spec_call; intros ?). by apply spec_ret. }
  intros ds _ Hds. eapply (spec_bind _ _ (λ cl _, cl.*1 = if 2 <? ret o then [Close (ret o)] else [])).
  { destruct (2 <? ret o); [|by apply spec_ret]. apply spec_call. intros a. by apply spec_ret. }
  intros cl _ Hcl. apply spec_ret. rewrite app_nil_r. apply forked_child; [lia | done | done].
Qed.
End outcomes.

(** C38. What starting the server comes to, for every system, command line, configuration
    and database, in terms of the system's answers. [main] installs its signal handlers. With
    the option to run as a daemon it forks: the parent exits with 0, or with -1 if it could
    not fork, and the child redirects its standard streams and goes on. An exception that
    leaves the loading of the configuration ends the process in [std::terminate]. When the
    log directory can be neither opened nor created [main] returns 1. When one of the four
    database texts is empty, as it is when there is no configuration file, [main] returns 1
    while the logger's thread is running, and the destruction of the static logger ends in
    [std::terminate] instead of an exit code; otherwise the thread is joined and the exit
    code is 0. When the directory had to be created, [closedir] gets a null pointer. *)
Theorem startup_outcomes (os : list event → syscall → answer) (args : list bytes)
    (load : WhispConfig → (bool + exn) * WhispConfig) (c0 : WhispConfig) (conns : list (Z * bool))
    (tr : list event) :
  ∃ r d, does (main os args load c0 conns) tr r d ∧ answered_by os tr d ∧
    ∃ sg dm st e, exchanges d = sg ++ dm ++ st ∧ sg.*1 = signal_calls ∧
      daemon_outcome (daemon_flag args) dm e ∧
      match e, load c0 with
      | Some code, _ => st = [] ∧ r = Ok code
      | None, (inr _, _) => st = [] ∧ r = Stop Terminated
      | None, (inl _, c) => setup_outcome c st r
      end.
Proof.
  cut (spec os (main os args load c0 conns) (λ x r,
    ∃ sg dm st e, x = sg ++ dm ++ st ∧ sg.*1 = signal_calls ∧ daemon_outcome (daemon_flag args) dm e ∧
      match e, load c0 with
      | Some code, _ => st = [] ∧ r = Ok code
      | None, (inr _, _) => st = [] ∧ r = Stop Terminated
      | None, (inl _, c) => setup_outcome c st r
      end)).
  { intros H. destruct (H tr) as (r & d & [H1 H2] & HQ). by exists r, d. }
  unfold main. apply spec_call. intros s1. apply spec_call. intros s2. apply spec_call. intros s3.
  apply spec_call. intros s4. set (sg := zip signal_calls [s1; s2; s3; s4]).
  eapply spec_bind; [apply parse_arguments_spec|]. intros dm e Hdm.
  destruct e as [code|].
  { apply spec_ret. exists sg, dm, [], (Some code). by rewrite !app_nil_r. }
  destruct (load c0) as [[b|ex] c].
  - intros tr'. destruct (main_configured_spec os c conns tr') as (r & d & H & Hs). exists r, d. split; [done|].
    by exists sg, dm, (exchanges d), None.
  - apply spec_ret. exists sg, dm, [], None. by rewrite !app_nil_r.
Qed.

(** The directory cannot be opened and cannot be created; and a configuration that is empty. *)
Example startup_no_dir :
  let os := λ (_ : list event) c, match c with Mkdir _ _ => answers (-1) | _ => answers 0 end in
  (main os [lit "server"] (λ c, (inl false, c)) TwoLevels.empty [] []).1 = Ok 1.
Proof. reflexivity. Qed.
Example startup_empty_config :
  let os := λ (_ : list event) c, match c with Opendir _ => answers 7 | _ => answers 0 end in
  (main os [lit "server"; lit "-d"] (λ c, (inl false, c)) TwoLevels.empty [] []).1 = Stop Terminated.
Proof. reflexivity. Qed.

(** Without a separator between the directory and the name, the default file is not in the
    default directory. *)
Example default_log_path : log_path TwoLevels.empty = lit "/var/log/whisplogdefault_log".
Proof. reflexivity. Qed.

(** ** The daemon *)
Section redirect.
Context (os : list event → syscall → answer).

Lemma close_if_does (b : bool) fd tr :
  does (if b then _ ← call os (Close fd); mret () else mret ()) tr ()
    (if b then [ECall (Close fd) (os tr (Close fd))] else []).
Proof.
  destruct b; [|apply does_ret].
  eapply does_eq; [eapply does_bind; [by apply does_call | apply does_ret] | done].
Qed.

(** The redirections, from the table with the new descriptor. *)
Definition redirected (fd : Z) (b1 b2 b3 : answer) : list event :=
  [ECall (Dup2 fd 0) b1; ECall (Dup2 fd 1) b2; ECall (Dup2 fd 2) b3].

Lemma redirected_table t fd f b1 b2 b3 :
  t !! fd = Some f → 0 ≤ ret b1 → 0 ≤ ret b2 → 0 ≤ ret b3 →
  table t (redirected fd b1 b2 b3) = <[2 := f]> (<[1 := f]> (<[0 := f]> t)).
Proof.
  intros Hf H1 H2 H3. unfold redirected, table. cbn [foldl fd_step].
  destruct (Z.leb_spec 0 (ret b1)); [|lia]. destruct (Z.leb_spec 0 (ret b2)); [|lia].
  destruct (Z.leb_spec 0 (ret b3)); [|lia]. rewrite Hf.
  assert (Hk : ∀ k (m : gmap Z file), m !! fd = Some f → (<[k := f]> m) !! fd = Some f).
  { intros k m Hm. destruct (decide (k = fd)) as [->|]; [by rewrite lookup_insert_eq | by rewrite lookup_insert_ne]. }
  rewrite (Hk 0 t Hf). by rewrite (Hk 1 _ (Hk 0 t Hf)).
Qed.

(** Closing the extra descriptor leaves the three and the rest. *)
Lemma redirected_close (t : gmap Z file) fd (f : file) :
  t !! fd = None → 0 ≤ fd →
  let t' := <[2 := f]> (<[1 := f]> (<[0 := f]> (<[fd := f]> t))) in
  (if 2 <? fd then delete fd t' else t') = <[0 := f]> (<[1 := f]> (<[2 := f]> t)).
Proof.
  intros Hf H0 t'. subst t'. apply map_eq. intros i. destruct (Z.ltb_spec 2 fd).
  - destruct (decide (i = fd)) as [->|Hi].
    + rewrite lookup_delete_eq, !lookup_insert_ne by lia. done.
    + rewrite lookup_delete_ne by done. destruct (decide (i = 0)) as [->|]; [by simplify_map_eq|].
      destruct (decide (i = 1)) as [->|]; [by simplify_map_eq|].
      destruct (decide (i = 2)) as [->|]; [by simplify_map_eq|]. by rewrite !lookup_insert_ne by lia.
  - destruct (decide (i = 0)) as [->|]; [by simplify_map_eq|].
    destruct (decide (i = 1)) as [->|]; [by simplify_map_eq|].
    destruct (decide (i = 2)) as [->|]; [by simplify_map_eq|]. by rewrite !lookup_insert_ne by lia.
Qed.
End redirect.

(** In the child [daemon_run] ends with standard input, output and error on /dev/null and
    every other descriptor as it was, also when the process was started with some of the
    three closed, so that [open] returns one of them: the extra descriptor is closed exactly
    when it is not one of the three. The parent ends with exit code 0, and with -1 when it
    could not fork. *)
Theorem daemon_stdio (os : list event → syscall → answer) (t0 : gmap Z file) `{!FreshFds os t0}
    (tr : list event) :
  (∀ tr p f, 0 ≤ ret (os tr (Open p f))) → (∀ tr o n, 0 ≤ ret (os tr (Dup2 o n))) →
  let null := FPath dev_null in
  ∃ e d, does (daemon_run os) tr e d ∧
    match e with
    | None => table t0 (tr ++ d) = <[0 := null]> (<[1 := null]> (<[2 := null]> (table t0 tr))) ∧
              closes_wrongly (table t0 tr) d = false
    | Some code => calls_of d = [Signal SIGCHLD (lit "SIG_IGN"); Fork] ∧ (code = 0 ∨ code = -1) ∧
                   table t0 (tr ++ d) = table t0 tr
    end.
Proof.
  intros Hopen Hdup null. unfold daemon_run.
  set (e1 := ECall (Signal SIGCHLD (lit "SIG_IGN")) (os tr (Signal SIGCHLD (lit "SIG_IGN")))).
  remember (os (tr ++ [e1]) Fork) as a eqn:Ea. symmetry in Ea.
  destruct (ret a <? 0) eqn:F1; [|destruct (0 <? ret a) eqn:F2].
  - eexists _, _. split.
    + eapply does_bind; [by apply does_call|]. eapply does_bind; [apply does_call, Ea|]. rewrite F1. apply does_ret.
    + cbn. rewrite table_app. auto.
  - eexists _, _. split.
    + eapply does_bind; [by apply does_call|]. eapply does_bind; [apply does_call, Ea|]. rewrite F1, F2. apply does_ret.
    + cbn. rewrite table_app. auto.
  - set (e2 := ECall Fork a). set (tr2 := (tr ++ [e1]) ++ [e2]).
    set (e3 := ECall Setsid (os tr2 Setsid)). set (tr3 := tr2 ++ [e3]).
    remember (os tr3 (Open dev_null O_RDWR)) as b eqn:Eb. symmetry in Eb.
    set (e4 := ECall (Open dev_null O_RDWR) b). set (tr4 := tr3 ++ [e4]). set (fd := ret b).
    assert (Hfd : 0 ≤ fd) by (unfold fd; rewrite <- Eb; apply Hopen).
    assert (Hnew : table t0 tr !! fd = None).
    { assert (Ht : table t0 tr3 = table t0 tr).
      { unfold tr3, tr2. by rewrite !table_app. }
      rewrite <- Ht. unfold fd. rewrite <- Eb. apply (fresh_fd tr3 _ (FPath dev_null)); [done | apply Hopen]. }
    set (f0 := ECall (Dup2 fd 0) (os tr4 (Dup2 fd 0))). set (tr5 := tr4 ++ [f0]).
    set (f1 := ECall (Dup2 fd 1) (os tr5 (Dup2 fd 1))). set (tr6 := tr5 ++ [f1]).
    set (f2 := ECall (Dup2 fd 2) (os tr6 (Dup2 fd 2))). set (tr7 := tr4 ++ [f0; f1; f2]).
    set (f3 := ECall (Close fd) (os tr7 (Close fd))).
    set (d := [e1; e2; e3; e4] ++ [f0; f1; f2] ++ (if 2 <? fd then [f3] else [])).
    assert (Ht4 : table (table t0 tr) [e1; e2; e3; e4] = <[fd := null]> (table t0 tr)).
    { cbn. fold fd. by destruct (Z.leb_spec 0 fd); [|lia]. }
    assert (Hred : table (<[fd := null]> (table t0 tr)) [f0; f1; f2] =
      <[2 := null]> (<[1 := null]> (<[0 := null]> (<[fd := null]> (table t0 tr))))).
    { apply redirected_table; [by rewrite lookup_insert_eq | apply Hdup..]. }
    exists None, d. split; [|split].
    + unfold d. eapply does_eq.
      * eapply does_bind; [by apply does_call|]. eapply does_bind; [apply does_call, Ea|]. rewrite F1, F2.
        eapply does_bind; [by apply does_call|]. eapply does_bind; [apply does_call, Eb|].
        fold fd. destruct (Z.eqb_spec fd (-1)); [lia|].
        eapply does_bind; [do 3 (eapply does_bind; [by apply does_call|]); apply does_ret|].
        eapply does_bind; [apply (close_if_does os (2 <? fd) fd)|]. apply does_ret.
      * cbn [app]. by destruct (2 <? fd).
    + rewrite table_app. unfold d. rewrite !table_app, Ht4, Hred.
      rewrite <- (redirected_close (table t0 tr) fd null Hnew Hfd). by destruct (2 <? fd).
    + unfold d. rewrite !closes_wrongly_app, Ht4, Hred. cbn [closes_wrongly wrong_close e1 e2 e3 e4 f0 f1 f2 orb].
      destruct (Z.ltb_spec 2 fd); [|done]. cbn [closes_wrongly wrong_close f3]. rewrite orb_false_r.
      apply bool_decide_eq_false. rewrite !lookup_insert_ne, lookup_insert_eq by lia. done.
Qed.

Lemma daemon_stdio_witness :
  ∃ e d, does (daemon_run (example_os std_table)) [] e d.
Proof.
  destruct (daemon_stdio (example_os std_table) std_table []) as (e & d & H & _).
  - intros. apply above_nonneg.
  - intros. vm_compute. discriminate.
  - exists e, d. exact H.
Defined.
