(* ===== verification/Singleton.v ===== *)
(** * Lazily created objects: [common/singleton.h] and [WhispDB::get_instance] of
    [database/whisp_db.h]

    Any number of threads call the function; a step is one read or write of the static
    pointer or of the mutex. Reads and writes are taken to be sequentially consistent.
    Objects are numbered in the order they are created. *)
From S2P Require Import Prelude.

(** Where a call is: before the first test, before the lock, before the second test, before
    the creation, before the unlock, before the final read; [Done v]: it returned object [v]. *)
Inductive pc := Start | Locking | Retest | Creating | Unlocking | Returning | Done (v : nat).

Record state := mkState {
  value_ : option nat;
  made : nat;                       (* objects created *)
  mutex_ : option nat;              (* the thread that holds it *)
  pcs : gmap nat pc;
}.

Definition at_pc (t : nat) (p : pc) (s : state) : state :=
  mkState (value_ s) (made s) (mutex_ s) (<[t := p]> (pcs s)).
Definition create (t : nat) (p : pc) (s : state) : state :=
  mkState (Some (made s)) (S (made s)) (mutex_ s) (<[t := p]> (pcs s)).
Definition set_mutex (m : option nat) (t : nat) (p : pc) (s : state) : state :=
  mkState (value_ s) (made s) m (<[t := p]> (pcs s)).

(** [Singleton<T>::Instance]: no lock. *)
Inductive instance_step : state → state → Prop :=
| i_null t s : pcs s !! t = Some Start → value_ s = None → instance_step s (at_pc t Creating s)
| i_set t s : pcs s !! t = Some Start → value_ s ≠ None → instance_step s (at_pc t Returning s)
| i_create t s : pcs s !! t = Some Creating → instance_step s (create t Returning s)
| i_return t v s : pcs s !! t = Some Returning → value_ s = Some v → instance_step s (at_pc t (Done v) s).

(** [WhispDB::get_instance]: tested again under the lock. *)
Inductive get_instance_step : state → state → Prop :=
| g_null t s : pcs s !! t = Some Start → value_ s = None → get_instance_step s (at_pc t Locking s)
| g_set t s : pcs s !! t = Some Start → value_ s ≠ None → get_instance_step s (at_pc t Returning s)
| g_lock t s : pcs s !! t = Some Locking → mutex_ s = None → get_instance_step s (set_mutex (Some t) t Retest s)
| g_again_null t s : pcs s !! t = Some Retest → value_ s = None → get_instance_step s (at_pc t Creating s)
| g_again_set t s : pcs s !! t = Some Retest → value_ s ≠ None → get_instance_step s (at_pc t Unlocking s)
| g_create t s : pcs s !! t = Some Creating → get_instance_step s (create t Unlocking s)
| g_unlock t s : pcs s !! t = Some Unlocking → get_instance_step s (set_mutex None t Returning s)
| g_return t v s : pcs s !! t = Some Returning → value_ s = Some v → get_instance_step s (at_pc t (Done v) s).

(** [n] threads that have not begun. *)
Definition initial (n : nat) : state :=
  mkState None 0 None (list_to_map (map (λ t, (t, Start)) (seq 0 n))).

(** ** The version with the lock *)
Definition in_section (p : pc) : Prop := p = Retest ∨ p = Creating ∨ p = Unlocking.

Record once (s : state) : Prop := {
  o_made : made s = match value_ s with None => 0%nat | Some _ => 1%nat end;
  o_value : ∀ v, value_ s = Some v → v = 0%nat;
  o_mutex : ∀ t p, pcs s !! t = Some p → in_section p → mutex_ s = Some t;
  o_creating : ∀ t, pcs s !! t = Some Creating → value_ s = None;
  o_behind : ∀ t p, pcs s !! t = Some p → p = Unlocking ∨ p = Returning ∨ (∃ v, p = Done v) → value_ s ≠ None;
  o_done : ∀ t v, pcs s !! t = Some (Done v) → value_ s = Some v;
}.

Lemma initial_pc n t p : pcs (initial n) !! t = Some p → p = Start.
Proof.
  cbn. intros H%elem_of_list_to_map_2. apply list_elem_of_In, in_map_iff in H as (x & E & _). congruence.
Qed.

Lemma once_initial n : once (initial n).
Proof.
  split.
  - done.
  - by intros v.
  - intros t p ->%initial_pc. by intros [|[|]].
  - intros t H%initial_pc. done.
  - intros t p ->%initial_pc. intros [?|[?|[? ?]]]; done.
  - intros t v H%initial_pc. done.
Qed.

(** A thread that only moves. *)
Lemma once_move t q p s :
  once s → pcs s !! t = Some q → (in_section p → in_section q) →
  (p = Creating → value_ s = None) →
  (p = Unlocking ∨ p = Returning ∨ (∃ v, p = Done v) → value_ s ≠ None) →
  (∀ v, p = Done v → value_ s = Some v) → once (at_pc t p s).
Proof.
  intros [H1 H2 H3 H4 H5 H6] Hq Hsec Hcr Hbeh Hd.
  split; simpl; try done; intros t'.
  - intros p' [[<- <-]|[Hne Hp]]%lookup_insert_Some Hin; eauto.
  - intros [[<- ->]|[Hne Hp]]%lookup_insert_Some; eauto.
  - intros p' [[<- <-]|[Hne Hp]]%lookup_insert_Some Hin; eauto.
  - intros v [[<- ->]|[Hne Hp]]%lookup_insert_Some; eauto.
Qed.

Lemma once_lock t s :
  once s → pcs s !! t = Some Locking → mutex_ s = None → once (set_mutex (Some t) t Retest s).
Proof.
  intros [H1 H2 H3 H4 H5 H6] Hq Hm. split; simpl; try done; intros t'.
  - intros p' [[<- <-]|[Hne Hp]]%lookup_insert_Some Hin; [done|]. specialize (H3 t' p' Hp Hin). congruence.
  - intros [[<- ?]|[Hne Hp]]%lookup_insert_Some; [done | eauto].
  - intros p' [[<- <-]|[Hne Hp]]%lookup_insert_Some Hin; [|eauto]. by destruct Hin as [?|[?|[? ?]]].
  - intros v [[<- ?]|[Hne Hp]]%lookup_insert_Some; [done | eauto].
Qed.

Lemma once_unlock t s : once s → pcs s !! t = Some Unlocking → once (set_mutex None t Returning s).
Proof.
  intros [H1 H2 H3 H4 H5 H6] Hq. assert (Ht : mutex_ s = Some t) by (eapply H3; [done | by right; right]).
  split; simpl; try done; intros t'.
  - intros p' [[<- <-]|[Hne Hp]]%lookup_insert_Some Hin; [by destruct Hin as [|[|]]|].
    specialize (H3 t' p' Hp Hin). congruence.
  - intros [[<- ?]|[Hne Hp]]%lookup_insert_Some; [done | eauto].
  - intros p' [[<- <-]|[Hne Hp]]%lookup_insert_Some Hin; [|eauto]. eapply (H5 t); [done | by left].
  - intros v [[<- ?]|[Hne Hp]]%lookup_insert_Some; [done | eauto].
Qed.

Lemma once_create t s : once s → pcs s !! t = Some Creating → once (create t Unlocking s).
Proof.
  intros [H1 H2 H3 H4 H5 H6] Hq. assert (Ht : mutex_ s = Some t) by (eapply H3; [done | by right; left]).
  pose proof (H4 t Hq) as Hv. rewrite Hv in H1.
  assert (Hno : ∀ t' v, pcs s !! t' ≠ Some (Done v)).
  { intros t' v E. specialize (H6 t' v E). congruence. }
  split; simpl; try done.
  - by rewrite H1.
  - rewrite H1. by intros v [= <-].
  - intros t' p' [[<- <-]|[Hne Hp]]%lookup_insert_Some Hin; [done | eauto].
  - intros t' [[<- ?]|[Hne Hp]]%lookup_insert_Some; [done|].
    pose proof (H3 t' Creating Hp ltac:(by right; left)). congruence.
  - intros t' v [[<- ?]|[Hne Hp]]%lookup_insert_Some; [done|]. by apply Hno in Hp.
Qed.

Lemma once_step s s' : once s → get_instance_step s s' → once s'.
Proof.
  intros H. destruct 1 as [t s Hp Hv|t s Hp Hv|t s Hp Hm|t s Hp Hv|t s Hp Hv|t s Hp|t s Hp|t v s Hp Hv].
  - eapply once_move; try done; [by intros [|[|]] | by intros [?|[?|[? ?]]]].
  - eapply once_move; try done. by intros [|[|]].
  - by apply once_lock.
  - eapply once_move; try done; [intros _; by left | by intros [?|[?|[? ?]]]].
  - eapply once_move; try done. intros _. by left.
  - by apply once_create.
  - by apply once_unlock.
  - eapply once_move; try done.
    + by intros [|[|]].
    + intros _. congruence.
    + by intros v' [= <-].
Qed.

(** One database object: with any number of threads calling [WhispDB::get_instance] in any
    interleaving, at most one object is ever created and every call returns it.
    [Singleton::Instance], which has no lock, does not have this property: two threads can
    both find the pointer null, and each is handed an object of its own. *)
Theorem one_instance (n : nat) (s : state) :
  (rtc get_instance_step (initial n) s →
     (made s ≤ 1)%nat ∧ ∀ t v, pcs s !! t = Some (Done v) → v = 0%nat ∧ value_ s = Some 0%nat) ∧
  ∃ s2, rtc instance_step (initial 2) s2 ∧ made s2 = 2%nat ∧
    pcs s2 !! 0%nat = Some (Done 0) ∧ pcs s2 !! 1%nat = Some (Done 1).
Proof.
  split.
  - intros Hr. assert (H : once s).
    { revert Hr. apply rtc_ind_r; [apply once_initial|]. intros x y _ Hxy Hx. by eapply once_step. }
    destruct H as [H1 H2 _ _ _ H6]. split.
    + rewrite H1. destruct (value_ s); lia.
    + intros t v Hv. specialize (H6 t v Hv). rewrite H6. by rewrite (H2 v H6).
  - eexists. split; [|split; [|split]].
    + eapply rtc_l; [by apply (i_null 0)|]. eapply rtc_l; [by apply (i_null 1)|].
      eapply rtc_l; [by apply (i_create 0)|]. eapply rtc_l; [by eapply (i_return 0)|].
      eapply rtc_l; [by apply (i_create 1)|]. eapply rtc_l; [by eapply (i_return 1)|]. apply rtc_refl.
    + done.
    + done.
    + done.
Qed.
