(* ===== verification/HttpServer.v ===== *)
(** * The HTTP listener: [service/chat/http_server.h/.cpp]

    It owns a [TcpServer] and a list of sessions. The server's connection callback, set or
    still the default, decides what happens to a new connection; the default callbacks are in
    [DefaultCallbacks]. *)
From S2P Require Import Prelude InetAddress ByteBuffer Poller TcpConnection Lifetime Reactor DefaultCallbacks.
From S2P Require Import TcpServer.

Record HttpServer := mkHttpServer {
  server_ : option TcpServer;
  has_conn_callback : bool;                 (* [on_connected] was registered with the server *)
  sessions_ : list (Z * Z);                 (* session objects, each with its connection *)
}.
Definition HttpServer_ctor : HttpServer := mkHttpServer None false [].

(** [buf]: what the array of [inet_2_ipport] held; [new_loop]: the loops of the pool's
    threads, four by default. *)
Definition init (buf ip : bytes) (port loop : Z) (new_loop : nat → Z) (h : HttpServer)
    : outcome (bool * HttpServer) :=
  let addr := InetAddress_ip ip (uintw 16 port) in
  host_port ← inet_2_ipport buf addr;
  let s := TcpServer_ctor loop host_port (lit "WHISP_HTTP_SERVER") in
  Ok (true, mkHttpServer (Some (start new_loop 4 s)) false (sessions_ h)).

Definition uninit (h : HttpServer) : outcome HttpServer :=
  match server_ h with
  | None => Ok h
  | Some s => s' ← stop s; Ok (mkHttpServer (Some s') (has_conn_callback h) (sessions_ h))
  end.

(** [session] is the address of the new session object; the message callback of the
    connection is bound to it. For a connection that is down, [on_disconnected] is called,
    which the sources declare and do not define: [None]. *)
Definition on_connected (connected : bool) (session conn : Z) (h : HttpServer) : option HttpServer :=
  if connected then Some (mkHttpServer (server_ h) (has_conn_callback h) (sessions_ h ++ [(session, conn)]))
  else None.

(** What arrives on a connection of a server without [on_connected]. *)
Definition received (h : HttpServer) (handle buffer : ByteBuffer) : ByteBuffer :=
  if has_conn_callback h then handle else default_msg_callback buffer.

(** [init] starts a server for every text and port, on the address the text denotes, or on
    all addresses when it denotes none. Its listening address always fits the names of
    connections, so, whatever happens to the server later, as long as it has made fewer than
    10^8 connections the next one gets a name that is not in use. [init] does not register
    [on_connected]: no session is ever made, and what clients send is dropped. *)
Theorem http_server_names (buf ip : bytes) (port loop : Z) (new_loop : nat → Z) (h : HttpServer) :
  length buf = 32%nat → (∀ i, new_loop i ≠ loop) →
  ∃ h' s hp, init buf ip port loop new_loop h = Ok (true, h') ∧ server_ h' = Some s ∧ started_ s = 1 ∧
    hp = ipport_of (InetAddress_ip ip (uintw 16 port)) ∧ inet_2_port (InetAddress_ip ip (uintw 16 port)) = uintw 16 port ∧
    reachable hp (lit "WHISP_HTTP_SERVER") s ∧
    (∀ s', reachable hp (lit "WHISP_HTTP_SERVER") s' → next_conn_id_ s' < 10 ^ 8 →
       conn_map_ s' !! conn_name s' (next_conn_id_ s') = None) ∧
    sessions_ h' = sessions_ h ∧
    ∀ handle buffer, received h' handle buffer = bb_retrieve_all buffer.
Proof.
  intros Hb Hl. unfold init. rewrite inet_2_ipport_text by done. rewrite bind_Ok.
  do 3 eexists. split; [done|]. split; [done|]. split; [done|]. split; [done|].
  assert (Hp : 0 ≤ uintw 16 port < 65536) by (apply (u_range 16); lia).
  split; [by apply (inet_2_port_ip ip)|].
  split; [apply reach_begin; [apply reach_ctor | exact Hl]|]. split; [|done].
  intros s' Hr Hid. eapply conn_name_fresh; [apply ipport_of_length | exact Hr | exact Hid].
Qed.

Lemma http_server_names_witness :
  let buf := replicate 32 "x"%byte in
  ∃ h', init buf (lit "0.0.0.0") 12345 7 (λ i, 50 + Z.of_nat i) HttpServer_ctor = Ok (true, h') ∧ sessions_ h' = [].
Proof.
  intros buf.
  destruct (http_server_names buf (lit "0.0.0.0") 12345 7 (λ i, 50 + Z.of_nat i) HttpServer_ctor)
    as (h' & s & hp & E & _ & _ & _ & _ & _ & _ & Hs & _); [reflexivity | lia |].
  exists h'. split; [exact E | exact Hs].
Defined.

(** What the callbacks of the server's connections call: [sessions] is what the sessions do
    that [on_connected] makes. *)
Definition reactions (h : HttpServer) (sessions : Z → user_call → reactor → list (Z * user_op))
    : Z → user_call → reactor → list (Z * user_op) :=
  if has_conn_callback h then sessions else default_react.

(** C33. The HTTP listener answers nobody. After [init], whatever its sessions would do, in every
    state that its loops reach with any clients, any kernel that keeps the contract of
    [epoll_ctl] and any answers of [read] and [write], each of its connections has sent and
    buffered no byte and was not shut down, no functor that would send waits in the loop, and
    every byte that was received has been dropped. *)
Theorem http_server_silent (ctl : epoll_op → Z → Z * Z → interest → option interest) `{!EpollCtl ctl}
    (this : Z) (same_loop : bool) (buf ip : bytes) (port loop : Z) (new_loop : nat → Z) (h h' : HttpServer)
    sessions (s : reactor) (a : Z) (n : node) :
  init buf ip port loop new_loop h = Ok (true, h') →
  rreach_by ctl this same_loop (λ e, react e = reactions h' sessions) consumes s → nodes s !! a = Some n →
  wire (conn n) = [] ∧ content (output_buffer_ (conn n)) = [] ∧ wr_shut (conn n) = false ∧
  state_ (conn n) ≠ kDisconnecting ∧ (∀ t, (a, WTask t) ∉ pending s) ∧
  content (input_buffer_ (conn n)) = [].
Proof.
  intros Hinit Hr Hn. unfold init in Hinit. apply bind_Ok_inv in Hinit as (hp & _ & [= <-]).
  destruct (reach_silent ctl this same_loop s a n Hr Hn) as ((Hw & Ho & Hs & Hsh) & Hin & Ht). done.
Qed.

(** A client that sent a request to the listener. *)
Module Visit.
Definition buf : bytes := replicate 32 "x"%byte.
Definition listener : HttpServer :=
  match init buf (lit "0.0.0.0") 12345 7 (λ i, 50 + Z.of_nat i) HttpServer_ctor with
  | Ok (_, h) => h
  | Stop _ => HttpServer_ctor
  end.
Definition sessions (a : Z) (k : user_call) (s : reactor) : list (Z * user_op) := [(a, USend (lit "200"))].
Definition client : env := mkEnv (reactions listener sessions) (λ _ _, (3, 0, zeros)) (λ _ _ m, (Zlen m, 0)).

Definition run (m : outcome reactor) : reactor :=
  match m with Ok s => s | Stop _ => mkReactor EpollPoller_ctor ∅ [] [] end.
Definition s0 : reactor := run (reactor_ctor epoll_ideal 1 50 4).
Definition s1 : reactor := run (accept_conn epoll_ideal 1 false client 100 7 s0).
Definition s2 : reactor := run (turn epoll_ideal false client [(POLLIN, 50)] s1).
Definition s3 : reactor := run (turn epoll_ideal false client [(POLLIN, 100)] s2).

Lemma sane_client : sane client.
Proof.
  assert (E : has_conn_callback listener = false) by (vm_compute; reflexivity).
  unfold client, reactions. rewrite E. apply default_sane.
  - intros a c. cbn [fst snd]. split; [unfold zeros; rewrite Zlen_replicate|]; lia.
  - intros a c m. cbn [fst]. lia.
Qed.

Lemma polled a fd ev evs p : kernel p !! fd = Some (evs, a) → from_kernel (p : EpollPoller cb) [(ev, a)].
Proof.
  intros H. split; [apply NoDup_singleton|]. intros ev' b [= -> ->]%list_elem_of_singleton. eauto.
Qed.

Lemma reached : rreach_by epoll_ideal 1 false (λ e, react e = reactions listener sessions) consumes s3.
Proof.
  assert (H0 : rreach_by epoll_ideal 1 false (λ e, react e = reactions listener sessions) consumes s0)
    by (apply (rreach_start _ _ _ _ _ 50 4); vm_compute; reflexivity).
  assert (H1 : rreach_by epoll_ideal 1 false (λ e, react e = reactions listener sessions) consumes s1).
  { apply (rreach_step _ _ _ _ _ s0); [exact H0|].
    apply (step_accept _ _ _ _ _ client 100 7); [exact sane_client | reflexivity | reflexivity | reflexivity | |].
    - intros b c Hb. vm_compute in Hb. destruct b as [|b|b]; try discriminate.
      repeat (destruct b as [b|b|]; try discriminate). injection Hb as <-. discriminate.
    - vm_compute. reflexivity. }
  assert (H2 : rreach_by epoll_ideal 1 false (λ e, react e = reactions listener sessions) consumes s2).
  { apply (rreach_step _ _ _ _ _ s1); [exact H1|].
    apply (step_turn _ _ _ _ _ client [(POLLIN, 50)]); [exact sane_client | reflexivity | |].
    - apply (polled 50 4 POLLIN 3). vm_compute. reflexivity.
    - vm_compute. reflexivity. }
  apply (rreach_step _ _ _ _ _ s2); [exact H2|].
  apply (step_turn _ _ _ _ _ client [(POLLIN, 100)]); [exact sane_client | reflexivity | |].
  - apply (polled 100 7 POLLIN 3). vm_compute. reflexivity.
  - vm_compute. reflexivity.
Qed.
End Visit.

Lemma http_server_silent_witness :
  ∃ n, nodes Visit.s3 !! 100 = Some n ∧ calls (conn n) = [CallConn true; CallMessage] ∧ wire (conn n) = [].
Proof.
  destruct (nodes Visit.s3 !! 100) as [n|] eqn:En; [|vm_compute in En; congruence].
  exists n. split; [reflexivity|]. split.
  - vm_compute in En. injection En as <-. reflexivity.
  - apply (http_server_silent epoll_ideal 1 false Visit.buf (lit "0.0.0.0") 12345 7 (λ i, 50 + Z.of_nat i)
             HttpServer_ctor Visit.listener Visit.sessions Visit.s3 100 n).
    + vm_compute. reflexivity.
    + exact Visit.reached.
    + exact En.
Defined.
